(* ===== verification/_CoqProject ===== *)
-Q . S2P
Prelude.v
GoStrings.v
Sha256.v
GoTime.v
Rail.v
Events.v
Fraud.v
Dict.v
Spi.v
RateLimit.v
StoreSpec.v
MemStore.v
MemStoreProps.v
OutboxProps.v
MemStoreLaws.v
Effects.v
Switcher.v
SwitcherProps.v
Evidence.v
Relay.v
RelayProps.v
RelayProgress.v
Delivery.v
Wire.v
PaymentEvent.v
MsgPack.v
ProtoWire.v
Cbor.v
ProfileCache.v
GoStrconv.v
JsonDecode.v
Config.v
Metrics.v
JsonText.v
JsonFuel.v
JsonCodec.v
Codecs.v
Postgres.v
PostgresProps.v
PostgresLaws.v
EvidenceStores.v
PostgresCommits.v
PostgresOutbox.v
DeliveryStores.v
Migrations.v
Api.v
ApiProps.v
App.v
Progress.v
Payment.v
System.v
Process.v
ProcessProps.v
Witness.v
SampleWitness.v
ApiWitness.v
PostgresWitness.v
ProgressWitness.v
ProcessWitness.v
