(* ===== verification/Prelude.v ===== *)
(** * PixRail payment switch: a verification development

    PixRail ([src/]) is a Go switch for Pix transfers. An HTTP API hands requests
    to the switch, which validates them, resolves the receiver, scores the fraud
    risk and stores the transfer with its events and audit records in one
    transaction; a worker submits accepted transfers to SPI under a lease; the
    settlement callback ends a transfer; a relay publishes the outbox.

    ** Files

    - [Prelude]: Go integers at their width, bytes, error values with their
      sentinel, [result], times and durations in nanoseconds, record update, the
      shared tactics and the hint database [pix].
    - [GoStrings], [GoStrconv], [GoTime], [Sha256]: what the source uses of
      [strings], [strconv], [time], [encoding/hex], [crypto/sha256] and
      [crypto/hmac], executable.
    - [Rail] ([internal/rail/model.go]): the transfer aggregate. [status_step] is
      the documented state machine, [transfer_step] a successful operation.
    - [Events] ([internal/events]), [Dict] ([internal/dict]), [Fraud]
      ([internal/fraud]), [Spi] ([internal/spi]), [RateLimit]
      ([internal/ratelimit]): the components the switch calls.
    - [StoreSpec]: the interface [switcher.Store] as a class, the view of a store
      and the contract every implementation owes the switch ([StoreLaws]). A store
      may keep less than it is given: [st_read] is how a transfer reads back. Keys are
      per tenant where no stored tenant has a colon in its name ([st_plain]), which the
      API ensures for configured keys.
    - [MemStore] ([internal/store/memory.go]): the in-memory store. A method is one
      atomic step, as it runs under the store's mutex. [MemStoreProps]: its
      invariant, its evolution, tenants, idempotency keys, settlement.
      [OutboxProps]: claims and marks of outbox records, the SPI work queue.
      [MemStoreLaws]: it meets the contract.
    - [Postgres] ([internal/postgres/store.go], the schema in [db/migrations]): the
      tables with their checks and unique indexes, each statement as a function of
      them, each method as its statements in its transaction. [PostgresProps]: the
      invariant of the tables and their evolution. [PostgresLaws]: it meets the
      contract. [PostgresCommits]: when a transaction must commit. [PostgresOutbox]:
      claims and marks for the relay. [Migrations]
      ([internal/postgres/migrations.go]): loading and applying migrations.
    - [Effects]: calls as functions of a world (store, rest, observation counter)
      and weakest preconditions for them. [env_others] is what concurrent calls
      did between two store accesses.
    - [Switcher] ([internal/switcher/service.go]): the service over the store
      interface; [SwitcherProps]: its correctness from the contract alone; [Evidence]:
      the event and audit logs as the history of each transfer. [EvidenceStores]: the
      logs of the two stores, with relays running.
    - [Relay] ([internal/messaging]): the outbox relay; [RelayProps]: a drain of the
      in-memory outbox; [RelayProgress]: drains that empty it; [Delivery]: what a drain
      guarantees over any outbox, [DeliveryStores] over the two stores.
    - [Wire], [PaymentEvent], [MsgPack], [ProtoWire], [Cbor], [ProfileCache],
      [JsonCodec] ([internal/codec]): readers that may panic, the event of the codecs
      and the codecs; [Codecs]: all of them side by side. [JsonDecode], [JsonText],
      [JsonFuel]: [encoding/json], its grammar, its round trip and its termination.
    - [Config] ([internal/config]), [Metrics] ([internal/observability]), [Api]
      ([internal/api/server.go]); [ApiProps]: what a request does, who can change the
      store, what a tenant is shown.
    - [App] ([internal/app], [cmd/pixrail-worker]), [System] ([cmd/pixrail-api],
      [cmd/pixrail-migrate]): the store and service a configuration gives, the worker,
      the API process, the migration run, and the safety of production.
    - [Process] ([cmd/pixrail-api], [cmd/pixrail-worker], [internal/app/pprof.go],
      [internal/observability/tracing.go]): both processes as step relations, from the
      configuration to the exit, over the calls they make of the libraries;
      [ProcessProps]: their invariants, their order of closing, the end of the API
      process.
    - [Progress], [Payment]: the switch undisturbed over the in-memory store: the worker
      that empties the queue, a payment from its request to its settlement.
    - [Witness], [SampleWitness], [ApiWitness], [PostgresWitness], [ProgressWitness],
      [ProcessWitness]:
      concrete runs, and the theorems applied to them.

    ** How the state corresponds to the code

    Go structs are records with the same fields (prefixed), Go maps are [gmap]s
    with the code's string keys, slices are lists. A pointer to a time that may be
    nil is an option. An [error] is the sentinel it wraps and its text. Clock
    readings, [ctx.Err()], random bytes and map iteration orders are arguments or
    observations ([Env]), so the theorems hold for all of them. A method that
    changes a store returns the result and the new store. A table is the map or list
    of its rows; the empty string stands for NULL in the two nullable text columns.

    ** What the theorems show

    - The aggregate follows the state machine and keeps its invariant; a lease
      excludes other workers and is fenced after it expires; terminal transfers are
      final; validation is exact, and fingerprints are up to a SHA-256 collision where
      the parts hold no NUL byte.
    - Every in-memory store reached by any calls has its indexes right and only
      evolves; reached by the calls of the service it satisfies its whole invariant;
      tenants are isolated; idempotency keys and callbacks are exactly-once; outbox
      records are claimed exclusively until the expiry, whatever other workers do,
      marked by the holder only, and never published again.
    - Both stores refine the contract, the PostgreSQL one whatever the server
      refuses; over any store that does, with any interleaving of calls that keep
      it, the switch creates a transfer once per key, submits it once, settles it
      once, writes the transfer and its evidence together or not at all, and its own
      calls keep the contract. The outbox and the audit log of a transfer are the history
      of its status, and its events alone tell it.
    - Every HTTP request is answered as its route, its key and the contract of one
      switch call say; only authorised requests change the store; a tenant sees its
      own records; in production this holds of the whole API process over
      PostgreSQL, with the keys and the secret of the environment only.
    - A process uses its store only between its opening and its closing, whatever the
      interleaving of its goroutines with the signal; the API's store is what the handler
      made of the answered requests, the worker is its loop; status 0 comes after
      everything was closed in order, status 1 after a report; once signalled the API
      process ends.
    - The calls do return: a PostgreSQL transaction commits with its specified outcome
      when the server answers and no constraint refuses what it writes; undisturbed over
      the in-memory store, an accepted payment is created, submitted and settled, the
      worker empties its queue and drains empty the outbox.
    - Over both stores a record is marked published only after the publisher accepted
      its event; a drain publishes or reschedules each record it claims; the worker runs on
      whatever a batch meets; a migration is applied once with its record; the
      limiters grant at most their budget, the token bucket in any window of its use; the
      backoff is capped exponential.
    - The codecs give events back, up to what each is shown to lose; decoding of the
      binary ones ends without a panic, but for the one in [Cbor], and JSON is decoded as
      a field-by-field reading of its text.

    ** Bounds

    Loops are structural recursions on the list or the text they range over,
    [backoff_loop] on the number of rounds left, which the code's counter gives; a
    varint takes nine further rounds, its longest encoding, and a message loop as
    many as its input has bytes. A signalled API process has a weight ([api_weight]) that
    every step lowers. The JSON parser has a bound of two calls per byte
    and one more, which [JsonFuel] proves to be enough on every input. Counters are
    [int64] with wrap-around; the theorems that count assume fewer than 2^63 records
    ([small_outbox]). A column of type [integer] refuses what does not fit: a
    transfer claimed 2^31 - 1 times is claimed no more ([st_exhausted]).

    ** Parameters

    The PostgreSQL server ([Database]: what it refuses, its clock, sequence, locks and
    row order, how its columns keep times and documents), the Unicode tables behind
    [strings.ToLower] and [strconv.Quote], the texts of [encoding/json]'s errors, the
    file system of the migrations and the effect of their SQL, the outcome of a
    publisher, of the exporter of traces and of the opening of a pool.

    ** Not modelled

    What the libraries do with spans, log records and profiles: the processes make the
    calls, a log record is its message, and the span of a request is left out. The parsing
    and routing of [net/http] beyond what the handlers read; of its server, when
    [ListenAndServe] and [Shutdown] return ([Process]). A signal before [main] watches
    for it ends a process at once. A commit that
    fails is taken to have changed nothing: that the connection breaks after the server
    committed is not modelled. Allocation failures, and panics of [make] for absurd
    capacities outside the codecs, are not modelled; nor is the memory model of Go below
    the stores' mutexes, nor an isolation of PostgreSQL's transactions weaker than the
    row lock each update holds. *)

From Stdlib Require Export ZArith Lia.
From Stdlib Require Export Strings.Byte Strings.Ascii Strings.String.
From stdpp Require Export base tactics list gmap strings pretty sorting.

(** ** Go integers *)

Declare Scope go_scope.
Delimit Scope go_scope with go.
Open Scope string_scope.
Open Scope list_scope.
Open Scope Z_scope.

(** The value of a Go [int64] (and of [int], 64 bits wide on the supported
    platforms) after two's-complement wrap-around. *)
Definition int64 (z : Z) : Z := (z + 2^63) mod 2^64 - 2^63.

(** The value of a Go [uint64] after wrap-around. *)
Definition uint64 (z : Z) : Z := z mod 2^64.

Definition min_int64 : Z := - 2^63.
Definition max_int64 : Z := 2^63 - 1.

Definition in_int64 (z : Z) : Prop := min_int64 <= z <= max_int64.
Definition in_uint64 (z : Z) : Prop := 0 <= z < 2^64.

#[export] Instance in_int64_dec z : Decision (in_int64 z).
Proof. unfold in_int64; apply _. Defined.
#[export] Instance in_uint64_dec z : Decision (in_uint64 z).
Proof. unfold in_uint64; apply _. Defined.

Ltac int_unfold :=
  unfold in_int64, in_uint64, min_int64, max_int64, int64, uint64 in *.

(** [lia] after unfolding the integer vocabulary and its powers of two. *)
Ltac int_lia :=
  int_unfold;
  change (2^63) with 9223372036854775808 in *;
  change (2^64) with 18446744073709551616 in *; lia.

Lemma int64_id z : in_int64 z -> int64 z = z.
Proof. intros H. unfold int64. rewrite Z.mod_small; int_lia. Qed.

Lemma int64_range z : in_int64 (int64 z).
Proof.
  unfold int64. pose proof (Z.mod_pos_bound (z + 2^63) (2^64) eq_refl). int_lia.
Qed.

Lemma uint64_id z : in_uint64 z -> uint64 z = z.
Proof. intros H. unfold uint64. rewrite Z.mod_small; int_lia. Qed.

Lemma uint64_range z : in_uint64 (uint64 z).
Proof. apply (Z.mod_pos_bound z (2^64)); reflexivity. Qed.

(** Converting an [int64] to [uint64] and back is the identity: the codecs'
    [uint64(x)] / [int64(x)] pairs. *)
Lemma int64_uint64 z : in_int64 z -> int64 (uint64 z) = z.
Proof.
  intros H. unfold int64, uint64. rewrite Zplus_mod_idemp_l.
  fold (int64 z). by apply int64_id.
Qed.

(** Successive additions wrap once. *)
Lemma int64_add_l a b : int64 (int64 a + b) = int64 (a + b).
Proof.
  unfold int64. f_equal.
  replace ((a + 2^63) mod 2^64 - 2^63 + b + 2^63) with ((a + 2^63) mod 2^64 + b) by ring.
  rewrite Zplus_mod_idemp_l. f_equal. ring.
Qed.

(** ** Bytes *)

(** A Go [byte] is a [Byte.byte]; [b2z] and [z2b] are the conversions
    [int(b)] and [byte(z)] (which truncates to the low eight bits). *)
Definition b2z (b : byte) : Z := Z.of_N (Byte.to_N b).

Definition z2b (z : Z) : byte :=
  match Byte.of_N (Z.to_N (z mod 256)) with
  | Some b => b
  | None => x00
  end.

Lemma b2z_range b : 0 <= b2z b < 256.
Proof. unfold b2z. pose proof (Byte.to_N_bounded b). lia. Qed.

Lemma b2z_z2b z : b2z (z2b z) = z mod 256.
Proof.
  unfold b2z, z2b.
  pose proof (Z.mod_pos_bound z 256 eq_refl) as Hz.
  destruct (Byte.of_N (Z.to_N (z mod 256))) as [b|] eqn:E.
  - apply Byte.to_of_N in E. rewrite E. lia.
  - apply Byte.of_N_None_iff in E. lia.
Qed.

Lemma z2b_b2z b : z2b (b2z b) = b.
Proof.
  unfold z2b. rewrite Z.mod_small by apply b2z_range.
  unfold b2z. rewrite N2Z.id, Byte.of_to_N. done.
Qed.

#[export] Instance b2z_inj : Inj (=) (=) b2z.
Proof. intros a b H. by rewrite <- (z2b_b2z a), H, z2b_b2z. Qed.

#[export] Instance byte_eq_dec : EqDecision byte := Byte.byte_eq_dec.

(** The bytes of a Go string, [[]byte(s)], and back, [string(b)]. *)
Definition bytes_of_string (s : string) : list byte := list_byte_of_string s.
Definition string_of_bytes (b : list byte) : string := string_of_list_byte b.

(** [len(s)] of a Go string: its number of bytes. *)
Definition str_len (s : string) : Z := Z.of_nat (String.length s).

Lemma string_of_bytes_of_string s : string_of_bytes (bytes_of_string s) = s.
Proof. apply string_of_list_byte_of_string. Qed.

Lemma length_bytes_of_string s : Datatypes.length (bytes_of_string s) = String.length s.
Proof.
  unfold bytes_of_string, list_byte_of_string. rewrite List.length_map.
  induction s as [|c s IH]; simpl; [done|]. by rewrite IH.
Qed.

(** ** Errors *)

(** The sentinel errors of [internal/rail], of package [context] and of the
    profile cache codecs ([internal/codec]). *)
Inductive Sentinel : Set :=
  | ErrValidation | ErrUnauthorized | ErrNotFound | ErrConflict
  | ErrRateLimited | ErrDependencyFailed | DeadlineExceeded | Canceled
  | ErrInvalidParticipantProfileCache.

#[export] Instance Sentinel_eq_dec : EqDecision Sentinel.
Proof. solve_decision. Defined.

Definition Sentinel_Error (k : Sentinel) : string :=
  match k with
  | ErrValidation => "validation failed"
  | ErrUnauthorized => "unauthorized"
  | ErrNotFound => "not found"
  | ErrConflict => "conflict"
  | ErrRateLimited => "rate limited"
  | ErrDependencyFailed => "dependency failed"
  | DeadlineExceeded => "context deadline exceeded"
  | Canceled => "context canceled"
  | ErrInvalidParticipantProfileCache => "invalid participant profile cache"
  end.

(** A Go error value: the sentinel it wraps, if any, and its [Error()] text. *)
Record error := mkError { err_is : option Sentinel; Error : string }.

(** A bare sentinel, [rail.ErrNotFound]. *)
Definition sentinel (k : Sentinel) : error := mkError (Some k) (Sentinel_Error k).

(** [fmt.Errorf("%w: msg", k)]. *)
Definition Errorf (k : Sentinel) (msg : string) : error :=
  mkError (Some k) (Sentinel_Error k +:+ ": " +:+ msg).

(** [errors.Is(err, k)]. *)
Definition errors_Is (e : error) (k : Sentinel) : bool :=
  bool_decide (err_is e = Some k).

(** Equality of Go strings. *)
Infix "==s" := String.eqb (at level 70, no associativity) : go_scope.

(** The result of a Go function that returns [(T, error)]. *)
Inductive result (A : Type) : Type :=
  | Ok (a : A)
  | Err (e : error).
Arguments Ok {_} _.
Arguments Err {_} _.

Definition is_Ok {A} (r : result A) : bool :=
  match r with Ok _ => true | Err _ => false end.

Definition err_of {A} (r : result A) : option error :=
  match r with Ok _ => None | Err e => Some e end.

Notation "x <-? c ; k" :=
  (match c with Ok x => k | Err e => Err e end)
  (at level 20, c at level 100, k at level 200, right associativity,
   only parsing) : go_scope.
Open Scope go_scope.

(** ** Time *)

(** A [time.Time] is the instant it denotes, in nanoseconds after Go's zero
    time (January 1, year 1, 00:00 UTC); a [time.Duration] is in nanoseconds. *)
Abbreviation Time := Z (only parsing).
Abbreviation Duration := Z (only parsing).

Definition time_IsZero (t : Time) : bool := t =? 0.
Definition time_UTC (t : Time) : Time := t.
Definition time_After (t u : Time) : bool := u <? t.
Definition time_Before (t u : Time) : bool := t <? u.
Definition time_Add (t : Time) (d : Duration) : Time := t + d.

(** [t.Sub(u)] saturates at the limits of [time.Duration]. *)
Definition time_Sub (t u : Time) : Duration :=
  Z.max min_int64 (Z.min max_int64 (t - u)).

Definition Nanosecond : Duration := 1.
Definition Microsecond : Duration := 1000.
Definition Millisecond : Duration := 1000000.
Definition Second : Duration := 1000000000.
Definition Minute : Duration := 60 * Second.

(** Nanoseconds from Go's zero time to the Unix epoch. *)
Definition unix_epoch : Time := 62135596800 * Second.
Definition time_UnixNano (t : Time) : Z := int64 (t - unix_epoch).

(** What a call observes of its surroundings: [ctx.Err()] and [time.Now()]. *)
Record Obs := mkObs { obs_ctx : option error; obs_now : Time }.

(** ** Record update *)

(** [t <| f := v |>] is the record [t] with field [f] set, Go's [t.f = v] on a
    struct value. A record type gives its expansion by an [Eta] instance. *)
Class Eta (R : Type) := eta_record : R -> R.
Class Setter {R T : Type} (f : R -> T) := upd_field : (T -> T) -> R -> R.
Arguments upd_field {R T} f {_} _ _ /.

Ltac derive_setter :=
  match goal with
  | |- @Setter ?R ?T ?f =>
      let i := constr:(@eta_record R _) in
      let i' := eval hnf in i in
      exact (fun (u : T -> T) (r : R) =>
        ltac:(let b := eval cbv beta in (i' r) in
              match b with
              | context C [f r] => let b' := context C [u (f r)] in exact b'
              end))
  end.

#[export] Hint Extern 0 (Setter _) => derive_setter : typeclass_instances.

Notation "t <| f := v |>" := (upd_field f (fun _ => v) t)
  (at level 1, left associativity, v at level 200,
   format "t  <| f  :=  v |>") : go_scope.

(** ** Lists *)

Lemma sublist_map {A B} (f : A -> B) l1 l2 : l1 `sublist_of` l2 -> map f l1 `sublist_of` map f l2.
Proof. induction 1; cbn; by constructor. Qed.

Lemma sublist_filter {A} (p : A -> bool) l : List.filter p l `sublist_of` l.
Proof. induction l as [|x l IH]; cbn; [constructor|]. destruct (p x); by constructor. Qed.

(** ** Automation *)

Create HintDb pix discriminated.
Create Rewrite HintDb pix.
#[export] Hint Resolve int64_range uint64_range b2z_range : pix.
#[export] Hint Rewrite string_of_bytes_of_string z2b_b2z b2z_z2b : pix.

(** Case analysis on every [match]/[if] of the goal or of a named hypothesis,
    keeping equations. *)
Ltac cases_goal :=
  repeat match goal with
  | |- context [match ?x with _ => _ end] =>
      lazymatch x with
      | context [match _ with _ => _ end] => fail
      | _ => destruct x eqn:?
      end
  end.

Ltac cases_in H :=
  repeat match type of H with
  | context [match ?x with _ => _ end] =>
      lazymatch x with
      | context [match _ with _ => _ end] => fail
      | _ => destruct x eqn:?
      end
  end.

(** Boolean tests to propositions. *)
Ltac b2p :=
  repeat match goal with
  | H : (_ && _)%bool = true |- _ => apply andb_prop in H; destruct H
  | H : (_ || _)%bool = false |- _ => apply orb_false_elim in H; destruct H
  | H : negb _ = true |- _ => apply negb_true_iff in H
  | H : negb _ = false |- _ => apply negb_false_iff in H
  | H : (_ =? _) = true |- _ => apply Z.eqb_eq in H
  | H : (_ =? _) = false |- _ => apply Z.eqb_neq in H
  | H : (_ <? _) = true |- _ => apply Z.ltb_lt in H
  | H : (_ <? _) = false |- _ => apply Z.ltb_ge in H
  | H : (_ <=? _) = true |- _ => apply Z.leb_le in H
  | H : (_ <=? _) = false |- _ => apply Z.leb_gt in H
  | H : (_ =? _)%string = true |- _ => apply String.eqb_eq in H
  | H : (_ =? _)%string = false |- _ => apply String.eqb_neq in H
  | H : bool_decide _ = true |- _ => apply bool_decide_eq_true in H
  | H : bool_decide _ = false |- _ => apply bool_decide_eq_false in H
  end.
