(* ===== verification/GoStrings.v ===== *)
(** * Package [strings], [encoding/hex] and [fmt] as the switch uses them

    The Go standard-library functions on strings that the sources call, over
    [String.string] read as a sequence of bytes: [strings.TrimSpace] with the
    UTF-8 encodings of every Unicode space, [strings.ToLower] on its ASCII
    path, [strings.Contains], [strings.Join], [hex.EncodeToString] and the
    [%d] and [%08d] verbs. The theorems are the facts the components rely on:
    [TrimSpace] is idempotent, [Join] with a separator that no part contains is
    injective, and a key built by concatenation with a separator determines the
    parts when the first one is free of it. *)

From S2P Require Import Prelude.

(** ** Definitions *)

Definition code (c : ascii) : Z := Z.of_N (N_of_ascii c).

(** The ASCII white space of [unicode.IsSpace]. *)
Definition space1 (a : ascii) : bool :=
  ((9 <=? code a) && (code a <=? 13)) || (code a =? 32).

(** U+0085 and U+00A0, in UTF-8. *)
Definition space2 (a b : ascii) : bool :=
  (code a =? 0xC2) && ((code b =? 0x85) || (code b =? 0xA0)).

(** U+1680, U+2000-U+200A, U+2028, U+2029, U+202F, U+205F, U+3000, in UTF-8. *)
Definition space3 (a b c : ascii) : bool :=
  ((code a =? 0xE1) && (code b =? 0x9A) && (code c =? 0x80)) ||
  ((code a =? 0xE2) && (code b =? 0x80) &&
     (((0x80 <=? code c) && (code c <=? 0x8A)) || (code c =? 0xA8) ||
      (code c =? 0xA9) || (code c =? 0xAF))) ||
  ((code a =? 0xE2) && (code b =? 0x81) && (code c =? 0x9F)) ||
  ((code a =? 0xE3) && (code b =? 0x80) && (code c =? 0x80)).

(** Drops leading spaces; the tests [s1], [s2], [s3] recognise a space of one,
    two or three bytes, so that the same loop trims a reversed string. *)
Fixpoint trim_with (s1 : ascii -> bool) (s2 : ascii -> ascii -> bool)
    (s3 : ascii -> ascii -> ascii -> bool) (l : list ascii) : list ascii :=
  match l with
  | [] => []
  | a :: r =>
      if s1 a then trim_with s1 s2 s3 r
      else match r with
      | [] => l
      | b :: r2 =>
          if s2 a b then trim_with s1 s2 s3 r2
          else match r2 with
          | [] => l
          | c :: r3 => if s3 a b c then trim_with s1 s2 s3 r3 else l
          end
      end
  end.

Definition trim_left : list ascii -> list ascii := trim_with space1 space2 space3.
Definition trim_right_rev : list ascii -> list ascii :=
  trim_with space1 (fun b a => space2 a b) (fun c b a => space3 a b c).

(** [strings.TrimSpace]. *)
Definition TrimSpace (s : string) : string :=
  string_of_list_ascii
    (rev (trim_right_rev (rev (trim_left (list_ascii_of_string s))))).

Definition ascii_lower (c : ascii) : ascii :=
  if (65 <=? code c) && (code c <=? 90)
  then ascii_of_N (N_of_ascii c + 32) else c.

Definition is_ascii (s : string) : bool :=
  forallb (fun c => code c <? 128) (list_ascii_of_string s).

Fixpoint lower_ascii (s : string) : string :=
  match s with
  | EmptyString => EmptyString
  | String c r => String (ascii_lower c) (lower_ascii r)
  end.

(** [strings.ToLower]: the ASCII path, and for a string with a non-ASCII byte
    the Unicode case mapping [unicode_lower], a table of package [unicode]. *)
Definition ToLower (unicode_lower : string -> string) (s : string) : string :=
  if is_ascii s then lower_ascii s else unicode_lower s.

(** [strings.Contains(s, sub)]. *)
Fixpoint Contains (s sub : string) : bool :=
  String.prefix sub s ||
  match s with
  | EmptyString => false
  | String _ r => Contains r sub
  end.

(** [strings.Join(parts, sep)]. *)
Fixpoint Join (sep : string) (parts : list string) : string :=
  match parts with
  | [] => ""
  | [p] => p
  | p :: ps => p +:+ sep +:+ Join sep ps
  end.

(** [hex.EncodeToString]. *)
Definition hex_digit (z : Z) : ascii :=
  ascii_of_N (Z.to_N (if z <? 10 then 48 + z else 87 + z)).

Fixpoint hex_EncodeToString (b : list byte) : string :=
  match b with
  | [] => ""
  | x :: r =>
      String (hex_digit (b2z x / 16)) (String (hex_digit (b2z x mod 16))
        (hex_EncodeToString r))
  end.

(** [fmt.Sprintf("%d", z)]. *)
Definition Itoa (z : Z) : string := pretty z.

Fixpoint zeros (n : nat) : string :=
  match n with O => "" | S m => String "0" (zeros m) end.

(** [fmt.Sprintf("%0wd", z)] for a non-negative [z]. *)
Definition pad0 (w : nat) (z : Z) : string :=
  zeros (w - String.length (Itoa z)) +:+ Itoa z.

(** Whether a byte occurs in a string. *)
Definition has_char (c : ascii) (s : string) : bool :=
  existsb (Ascii.eqb c) (list_ascii_of_string s).

Arguments TrimSpace _ : simpl never.
Arguments hex_EncodeToString _ : simpl never.
Arguments Itoa _ : simpl never.
Arguments ToLower _ _ : simpl never.
Arguments Contains _ _ : simpl never.

(** ** [TrimSpace] *)

Section Trim.
Context (s1 : ascii -> bool) (s2 : ascii -> ascii -> bool)
  (s3 : ascii -> ascii -> ascii -> bool).
Abbreviation trim := (trim_with s1 s2 s3).

(** The loop removes a prefix of its argument. *)
Lemma trim_suffix l : exists p, l = p ++ trim l.
Proof.
  remember (length l) as n eqn:Hn. revert l Hn.
  induction n as [n IH] using lt_wf_ind; intros l ->.
  destruct l as [|a r]; [by exists []|]. cbn.
  destruct (s1 a).
  { destruct (IH (length r)) with (l := r) as [p Hp]; [cbn; lia|done|].
    exists (a :: p). cbn. congruence. }
  destruct r as [|b r2]; [by exists []|].
  destruct (s2 a b).
  { destruct (IH (length r2)) with (l := r2) as [p Hp]; [cbn; lia|done|].
    exists (a :: b :: p). cbn. congruence. }
  destruct r2 as [|c r3]; [by exists []|].
  destruct (s3 a b c); [|by exists []].
  destruct (IH (length r3)) with (l := r3) as [p Hp]; [cbn; lia|done|].
  exists (a :: b :: c :: p). cbn. congruence.
Qed.

Lemma trim_length l : (length (trim l) <= length l)%nat.
Proof.
  destruct (trim_suffix l) as [p Hp]. rewrite Hp at 2. rewrite length_app. lia.
Qed.

(** Trimming a trimmed list changes nothing. *)
Lemma trim_idem l : trim (trim l) = trim l.
Proof.
  remember (length l) as n eqn:Hn. revert l Hn.
  induction n as [n IH] using lt_wf_ind; intros l ->.
  destruct l as [|a r]; [done|]. cbn.
  destruct (s1 a) eqn:H1; [apply (IH (length r)); cbn; lia|].
  destruct r as [|b r2]; [by cbn; rewrite H1|].
  destruct (s2 a b) eqn:H2; [apply (IH (length r2)); cbn; lia|].
  destruct r2 as [|c r3]; [by cbn; rewrite H1, H2|].
  destruct (s3 a b c) eqn:H3; [apply (IH (length r3)); cbn; lia|].
  cbn. by rewrite H1, H2, H3.
Qed.

(** A prefix of a list that needs no trimming needs none. *)
Lemma trim_prefix p q : trim (p ++ q) = p ++ q -> trim p = p.
Proof.
  intros H.
  assert (Hlen : forall x, trim x = p ++ q -> (length p <= length x)%nat).
  { intros x Hx. pose proof (trim_length x) as L. rewrite Hx, length_app in L. lia. }
  destruct p as [|a r]; [done|]. cbn in *.
  destruct (s1 a).
  { exfalso. pose proof (trim_length (r ++ q)) as L. rewrite H in L.
    cbn in L. lia. }
  destruct r as [|b r2]; [done|]. cbn in *.
  destruct (s2 a b).
  { exfalso. pose proof (trim_length (r2 ++ q)) as L. rewrite H in L.
    cbn in L. lia. }
  destruct r2 as [|c r3]; [done|]. cbn in *.
  destruct (s3 a b c); [|done].
  exfalso. pose proof (trim_length (r3 ++ q)) as L. rewrite H in L. cbn in L. lia.
Qed.

(** A last element that ends no space survives the trimming. *)
Lemma trim_last l c :
  s1 c = false -> (forall a, s2 a c = false) -> (forall a b, s3 a b c = false) ->
  trim (l ++ [c]) <> [].
Proof.
  intros H1 H2 H3. remember (length l) as n eqn:Hn. revert l Hn.
  induction n as [n IH] using lt_wf_ind; intros l ->.
  destruct l as [|x l]; cbn; [by rewrite H1|].
  destruct (s1 x); [apply (IH (length l)); cbn; lia|].
  destruct l as [|y l]; cbn; [by rewrite H2|].
  destruct (s2 x y); [apply (IH (length l)); cbn; lia|].
  destruct l as [|z l]; cbn; [by rewrite H3|].
  destruct (s3 x y z); [apply (IH (length l)); cbn; lia|done].
Qed.
End Trim.

Lemma TrimSpace_idem s : TrimSpace (TrimSpace s) = TrimSpace s.
Proof.
  unfold TrimSpace. rewrite list_ascii_of_string_of_list_ascii.
  set (u := trim_left (list_ascii_of_string s)).
  set (v := rev (trim_right_rev (rev u))).
  assert (Hv : trim_left v = v).
  { destruct (trim_suffix space1 (fun b a => space2 a b)
      (fun c b a => space3 a b c) (rev u)) as [p Hp].
    fold trim_right_rev in Hp.
    apply (trim_prefix space1 space2 space3 v (rev p)).
    unfold v. rewrite <- rev_app_distr. rewrite <- Hp, rev_involutive.
    apply trim_idem. }
  rewrite Hv. unfold v at 1. rewrite rev_involutive.
  unfold trim_right_rev at 1. rewrite trim_idem. done.
Qed.
#[export] Hint Rewrite TrimSpace_idem : pix.

(** A string that starts with a visible ASCII byte is not blank. *)
Lemma TrimSpace_visible c s : 32 < code c < 128 -> TrimSpace (String c s) <> "".
Proof.
  intros Hc.
  assert (N : forall z, 0xC2 <= z -> (code c =? z) = false)
    by (intros z Hz; apply Z.eqb_neq; lia).
  assert (S1 : space1 c = false).
  { unfold space1. rewrite (proj2 (Z.leb_gt (code c) 13)) by lia.
    rewrite andb_false_r. apply Z.eqb_neq. lia. }
  assert (S2 : forall a, space2 c a = false) by (intros; unfold space2; by rewrite N).
  assert (S3 : forall a b, space3 c a b = false)
    by (intros; unfold space3; by rewrite !N).
  unfold TrimSpace. cbn [list_ascii_of_string].
  assert (L : trim_left (c :: list_ascii_of_string s) = c :: list_ascii_of_string s).
  { unfold trim_left. cbn. rewrite S1.
    destruct (list_ascii_of_string s) as [|a [|b l]]; rewrite ?S2, ?S3; done. }
  rewrite L. cbn [rev]. intros E. apply (f_equal list_ascii_of_string) in E.
  rewrite list_ascii_of_string_of_list_ascii in E. cbn in E.
  apply (f_equal (@rev _)) in E. rewrite rev_involutive in E. revert E.
  apply trim_last; auto.
Qed.

(** ** Separators *)

Lemma has_char_cons c d s :
  has_char c (String d s) = Ascii.eqb c d || has_char c s.
Proof. done. Qed.

(** A part free of the separator is determined by the concatenation. *)
Lemma sep_concat_inj c a a' b b' :
  has_char c a = false -> has_char c a' = false ->
  a +:+ String c b = a' +:+ String c b' -> a = a' /\ b = b'.
Proof.
  revert a'. induction a as [|x a IH]; intros [|y a'] Ha Ha' E; cbn in E.
  - by simplify_eq.
  - simplify_eq. rewrite has_char_cons, Ascii.eqb_refl in Ha'. done.
  - simplify_eq. rewrite has_char_cons, Ascii.eqb_refl in Ha. done.
  - rewrite has_char_cons in Ha, Ha'. b2p. simplify_eq.
    destruct (IH a') as [-> ->]; eauto.
Qed.

(** The key ["t:k"] under which the memory store files a tenant's entries. *)
Lemma colon_key_inj t t' k k' :
  has_char ":" t = false -> has_char ":" t' = false ->
  t +:+ ":" +:+ k = t' +:+ ":" +:+ k' -> t = t' /\ k = k'.
Proof. apply sep_concat_inj. Qed.

(** Joining parts free of the separator loses nothing. *)
Lemma Join_inj c ps ps' :
  length ps = length ps' ->
  Forall (fun p => has_char c p = false) ps ->
  Forall (fun p => has_char c p = false) ps' ->
  Join (String c "") ps = Join (String c "") ps' -> ps = ps'.
Proof.
  revert ps'. induction ps as [|p ps IH]; intros [|p' ps'] Hl H H' E;
    cbn in Hl; simplify_eq; [done|].
  inversion_clear H as [|? ? Hp Hps]. inversion_clear H' as [|? ? Hp' Hps'].
  destruct ps as [|q qs], ps' as [|q' qs']; cbn in Hl; simplify_eq.
  - cbn in E. by subst.
  - cbn [Join] in E. change (String c "" +:+ ?x) with (String c x) in E.
    apply sep_concat_inj in E as [-> E]; [|done..].
    f_equal. apply IH; cbn [length]; auto.
Qed.

(** The last part may hold the separator. *)
Lemma Join_last_inj c ps ps' d d' :
  length ps = length ps' ->
  Forall (fun p => has_char c p = false) ps ->
  Forall (fun p => has_char c p = false) ps' ->
  Join (String c "") (ps ++ [d]) = Join (String c "") (ps' ++ [d']) ->
  ps ++ [d] = ps' ++ [d'].
Proof.
  revert ps'. induction ps as [|p ps IH]; intros [|p' ps'] Hl H H' E;
    cbn in Hl; simplify_eq; [cbn in E; by subst|].
  inversion_clear H as [|? ? Hp Hps]. inversion_clear H' as [|? ? Hp' Hps'].
  assert (J : forall q qs e, Join (String c "") ((q :: qs) ++ [e]) =
    q +:+ String c (Join (String c "") (qs ++ [e]))) by (intros q [|? ?] ?; done).
  rewrite !J in E. apply sep_concat_inj in E as [-> E]; [|done..].
  cbn. f_equal. by apply IH.
Qed.

(** ** Hexadecimal and decimal *)

(** A decimal numeral holds no NUL byte. *)
Lemma Itoa_no_nul z : has_char Ascii.zero (Itoa z) = false.
Proof.
  assert (G : forall n s, has_char Ascii.zero (pretty_N_go n s) = has_char Ascii.zero s).
  { intros n. induction n as [n IH] using (well_founded_ind N.lt_wf_0). intros s.
    destruct (decide (n = 0)%N) as [->|Hn]; [by rewrite pretty_N_go_0|].
    rewrite pretty_N_go_step by lia. rewrite IH by (apply N.div_lt; lia).
    rewrite has_char_cons. unfold pretty_N_char. by repeat case_match. }
  destruct z as [|z|z]; [done|apply (G (Npos z) "")|].
  change (has_char Ascii.zero (String "-" (pretty_N_go (Npos z) "")) = false).
  by rewrite has_char_cons, G.
Qed.

Lemma hex_digit_inj x y :
  0 <= x < 16 -> 0 <= y < 16 -> hex_digit x = hex_digit y -> x = y.
Proof.
  assert (Hc : forall z, 0 <= z < 16 ->
    N_of_ascii (hex_digit z) = Z.to_N (if z <? 10 then 48 + z else 87 + z)).
  { intros z Hz. apply N_ascii_embedding. destruct (z <? 10); lia. }
  intros Hx Hy E. apply (f_equal N_of_ascii) in E. rewrite !Hc in E by done.
  destruct (x <? 10) eqn:?, (y <? 10) eqn:?; b2p; lia.
Qed.

#[export] Instance hex_inj : Inj (=) (=) hex_EncodeToString.
Proof.
  intros l. induction l as [|a l IH]; intros [|b l'] E;
    cbn [hex_EncodeToString] in E; try done.
  injection E as E1 E2 E3.
  pose proof (b2z_range a). pose proof (b2z_range b).
  apply hex_digit_inj in E1; [|split; [apply Z.div_pos|apply Z.div_lt_upper_bound]; lia..].
  apply hex_digit_inj in E2; [|apply Z.mod_pos_bound; lia..].
  assert (a = b) as ->.
  { apply (inj b2z). rewrite (Z.div_mod (b2z a) 16), (Z.div_mod (b2z b) 16) by lia.
    congruence. }
  f_equal. by apply IH.
Qed.

#[export] Instance bytes_of_string_inj : Inj (=) (=) bytes_of_string.
Proof.
  intros s s' E. by rewrite <- (string_of_bytes_of_string s), E,
    string_of_bytes_of_string.
Qed.

Lemma TrimSpace_nonempty s : TrimSpace s <> "" -> s <> "".
Proof. by intros H ->. Qed.
