(* ===== verification/Sha256.v ===== *)
(** * SHA-256 ([crypto/sha256])

    The hash behind the request fingerprint, the callback fingerprint, the DICT
    simulation, the SPI message identifiers and the migration checksums, as the
    executable function of FIPS 180-4, so that a concrete run of the switch
    evaluates to the same identifiers as the program. *)

From S2P Require Import Prelude.

Definition w32 (z : Z) : Z := z mod 2^32.
Definition rotr (n x : Z) : Z :=
  Z.lor (Z.shiftr x n) (w32 (Z.shiftl x (32 - n))).

Definition big_sigma0 x := Z.lxor (rotr 2 x) (Z.lxor (rotr 13 x) (rotr 22 x)).
Definition big_sigma1 x := Z.lxor (rotr 6 x) (Z.lxor (rotr 11 x) (rotr 25 x)).
Definition small_sigma0 x := Z.lxor (rotr 7 x) (Z.lxor (rotr 18 x) (Z.shiftr x 3)).
Definition small_sigma1 x := Z.lxor (rotr 17 x) (Z.lxor (rotr 19 x) (Z.shiftr x 10)).
Definition sha_ch x y z := Z.lxor (Z.land x y) (Z.land (Z.lxor x (2^32 - 1)) z).
Definition sha_maj x y z := Z.lxor (Z.land x y) (Z.lxor (Z.land x z) (Z.land y z)).

(** The constants of the standard: the first 32 bits of the fractional parts of the
    cube roots (round constants) and square roots (initial state) of the first
    primes. [iroot e bits x 0] is the integer [e]-th root of [x], bit by bit. *)
Fixpoint iroot (e : Z) (bits : nat) (x acc : Z) : Z :=
  match bits with
  | O => acc
  | S b =>
      let next := acc + 2 ^ Z.of_nat b in
      iroot e b x (if next ^ e <=? x then next else acc)
  end.

Definition frac_root (e p : Z) : Z := w32 (iroot e 36 (p * 2 ^ (32 * e)) 0).

Definition is_prime (n : Z) : bool :=
  (2 <=? n) && forallb (fun d => negb (n mod d =? 0)) (seqZ 2 (n - 2)).

Definition primes_below (n : Z) : list Z := List.filter is_prime (seqZ 0 n).

Definition sha_k : list Z := Eval vm_compute in map (frac_root 3) (primes_below 312).
Definition sha_init : list Z := Eval vm_compute in map (frac_root 2) (primes_below 20).

(** The message schedule, most recent word first. *)
Fixpoint sha_extend (n : nat) (ws : list Z) : list Z :=
  match n with
  | O => ws
  | S m =>
      let w := w32 (small_sigma1 (nth 1 ws 0) + nth 6 ws 0
                    + small_sigma0 (nth 14 ws 0) + nth 15 ws 0) in
      sha_extend m (w :: ws)
  end.

Definition sha_round (st : list Z) (kw : Z * Z) : list Z :=
  match st with
  | [a; b; c; d; e; f; g; h] =>
      let t1 := h + big_sigma1 e + sha_ch e f g + fst kw + snd kw in
      let t2 := big_sigma0 a + sha_maj a b c in
      [w32 (t1 + t2); a; b; c; w32 (d + t1); e; f; g]
  | _ => st
  end.

(** One 64-byte block, given as sixteen words. *)
Definition sha_block (st ws : list Z) : list Z :=
  let sched := rev (sha_extend 48 (rev ws)) in
  zip_with (fun x y => w32 (x + y)) st
    (fold_left sha_round (zip sha_k sched) st).

(** Big-endian words of a byte sequence whose length is a multiple of four. *)
Fixpoint sha_words (l : list byte) : list Z :=
  match l with
  | a :: b :: c :: d :: r =>
      (b2z a * 2^24 + b2z b * 2^16 + b2z c * 2^8 + b2z d) :: sha_words r
  | _ => []
  end.

Fixpoint sha_blocks (n : nat) (st ws : list Z) : list Z :=
  match n with
  | O => st
  | S m => sha_blocks m (sha_block st (take 16 ws)) (drop 16 ws)
  end.

(** The [k] low bytes of [z], most significant first. *)
Fixpoint be_digits (k : nat) (z : Z) : list byte :=
  match k with
  | O => []
  | S m => be_digits m (z / 256) ++ [z2b z]
  end.

Definition sha_pad (m : list byte) : list byte :=
  let n := length m in
  m ++ x80 :: replicate ((119 - n mod 64) mod 64) x00 ++ be_digits 8 (Z.of_nat n * 8).

(** [sha256.Sum256]. *)
Definition sha256_Sum256 (m : list byte) : list byte :=
  let p := sha_pad m in
  mjoin (be_digits 4 <$> sha_blocks (length p / 64) sha_init (sha_words p)).

Arguments sha256_Sum256 _ : simpl never.

Lemma length_be_digits k z : length (be_digits k z) = k.
Proof.
  revert z. induction k as [|k IH]; intros z; [done|].
  cbn. rewrite length_app, IH. cbn. lia.
Qed.

Lemma length_sha_round st kw : length (sha_round st kw) = length st.
Proof. by do 9 (destruct st as [|? st]; [done|]). Qed.

Lemma length_sha_rounds kws st :
  length (fold_left sha_round kws st) = length st.
Proof.
  revert st. induction kws as [|kw kws IH]; intros st; cbn; [done|].
  by rewrite IH, length_sha_round.
Qed.

Lemma length_sha_blocks n st ws : length (sha_blocks n st ws) = length st.
Proof.
  revert st ws. induction n as [|n IH]; intros st ws; cbn [sha_blocks]; [done|].
  rewrite IH. unfold sha_block. rewrite length_zip_with, length_sha_rounds. lia.
Qed.

(** A digest is thirty-two bytes, so the slices [hash[:6]], [hash[:12]],
    [sum[:8]] and the indices [hash[0]], [hash[1]], [hash[2]] are in range. *)
Lemma length_sha256 m : length (sha256_Sum256 m) = 32%nat.
Proof.
  unfold sha256_Sum256.
  set (l := sha_blocks _ _ _).
  assert (Hl : length l = 8%nat) by apply length_sha_blocks.
  clearbody l. do 8 (destruct l as [|? l]; [done|]).
  destruct l; [|done]. cbn [fmap list_fmap mjoin list_join].
  rewrite !length_app, !length_be_digits. done.
Qed.

(** The digests of the empty message and of "abc" ([FIPS 180-4], examples). *)
Example sha256_vectors :
  map (fun m => fold_left (fun z b => z * 256 + b2z b) (sha256_Sum256 m) 0)
    [[]; bytes_of_string "abc"] =
  [0xe3b0c44298fc1c149afbf4c8996fb92427ae41e4649b934ca495991b7852b855;
   0xba7816bf8f01cfea414140de5dae2223b00361a396177a9cb410ff61f20015ad].
Proof. vm_compute. reflexivity. Qed.

(** ** HMAC ([crypto/hmac] over SHA-256) *)

(** The key brought to the block size of 64 bytes. *)
Definition hmac_key (key : list byte) : list byte :=
  let key := if (64 <? length key)%nat then sha256_Sum256 key else key in
  key ++ replicate (64 - length key) (z2b 0).

Definition xor_pad (pad : Z) (key : list byte) : list byte :=
  map (fun b => z2b (Z.lxor (b2z b) pad)) key.

(** [hmac.New(sha256.New, key)], then [Write(msg)] and [Sum(nil)]. *)
Definition hmac_sha256 (key msg : list byte) : list byte :=
  let k := hmac_key key in
  sha256_Sum256 (xor_pad 0x5c k ++ sha256_Sum256 (xor_pad 0x36 k ++ msg)).

Arguments hmac_sha256 _ _ : simpl never.

(** RFC 4231, test case 2. *)
Example hmac_vector :
  fold_left (fun z b => z * 256 + b2z b)
    (hmac_sha256 (bytes_of_string "Jefe") (bytes_of_string "what do ya want for nothing?")) 0 =
  0x5bdcc146bf60754e6a042426089575c75a003f089d2739839dec58b964ec3843.
Proof. vm_compute. reflexivity. Qed.
