(* ===== verification/GoTime.v ===== *)
(** * Package [time], formatting

    The civil calendar and the two layouts the program writes times in: the compact
    one of the identifiers and RFC 3339 with nanoseconds, in which [encoding/json]
    writes a [time.Time]. *)

From S2P Require Import Prelude GoStrings.

(** ** Calendar time *)

(** Year, month and day of the day [d] days after January 1, year 1, in the
    proleptic Gregorian calendar. *)
Definition civil (d : Z) : Z * Z * Z :=
  let z := d + 306 in
  let era := z / 146097 in
  let doe := z mod 146097 in
  let yoe := (doe - doe / 1460 + doe / 36524 - doe / 146096) / 365 in
  let doy := doe - (365 * yoe + yoe / 4 - yoe / 100) in
  let mp := (5 * doy + 2) / 153 in
  let day := doy - (153 * mp + 2) / 5 + 1 in
  let month := if mp <? 10 then mp + 3 else mp - 9 in
  let year := yoe + era * 400 + (if month <=? 2 then 1 else 0) in
  (year, month, day).

Definition format_year (y : Z) : string :=
  if y <? 0 then "-" +:+ pad0 4 (- y) else pad0 4 y.

(** [t.Format("20060102150405")] of a UTC time. *)
Definition format_compact (t : Time) : string :=
  let secs := t / Second in
  let '(year, month, day) := civil (secs / 86400) in
  let s := secs mod 86400 in
  format_year year +:+ pad0 2 month +:+ pad0 2 day +:+
  pad0 2 (s / 3600) +:+ pad0 2 (s / 60 mod 60) +:+ pad0 2 (s mod 60).

(** The nanoseconds as a fraction without trailing zeros, empty for a whole second. *)
Fixpoint trim_zeros (n : nat) (digits : Z) : string :=
  match n with
  | O => ""
  | S m => if digits mod 10 =? 0 then trim_zeros m (digits / 10) else "." +:+ pad0 n digits
  end.

(** The layout [time.RFC3339Nano] of a UTC time, in quotes: what [MarshalJSON] writes
    for the years 0 to 9999. *)
Definition format_rfc3339nano (t : Time) : string :=
  let secs := t / Second in
  let '(year, month, day) := civil (secs / 86400) in
  let s := secs mod 86400 in
  format_year year +:+ "-" +:+ pad0 2 month +:+ "-" +:+ pad0 2 day +:+ "T" +:+
  pad0 2 (s / 3600) +:+ ":" +:+ pad0 2 (s / 60 mod 60) +:+ ":" +:+ pad0 2 (s mod 60) +:+
  trim_zeros 9 (t mod Second) +:+ "Z".

Arguments format_compact _ : simpl never.
Arguments format_rfc3339nano _ : simpl never.

Example format_times :
  let t := unix_epoch + 1780228800 * Second + 1500 * Microsecond in
  format_compact t = "20260531120000" /\
  format_rfc3339nano t = "2026-05-31T12:00:00.0015Z" /\
  format_rfc3339nano (unix_epoch + 5 * Second) = "1970-01-01T00:00:05Z".
Proof. vm_compute. auto. Qed.
