(* ===== verification/Rail.v ===== *)
(** * The transfer aggregate ([internal/rail/model.go])

    The data of a Pix transfer and the aggregate's own operations: request
    validation and fingerprints, the SPI claim, submission and release, the
    manual review decision and the settlement callback. A status is a Go string
    ([type TransferStatus string]), so the code's default branches stay
    reachable. [status_step] is the documented state machine, [transfer_ok] the
    aggregate's invariant; the theorems show that every operation follows the
    one and keeps the other, and describe each operation on every branch. *)

From S2P Require Import Prelude GoStrings Sha256.

(** ** Data *)

Abbreviation TransferStatus := string (only parsing).
Definition StatusAccepted : TransferStatus := "accepted".
Definition StatusApproved : TransferStatus := "approved".
Definition StatusBlocked : TransferStatus := "blocked".
Definition StatusReview : TransferStatus := "review".
Definition StatusSettled : TransferStatus := "settled".
Definition StatusRejected : TransferStatus := "rejected".

Abbreviation DictKeyType := string (only parsing).
Definition KeyCPF : DictKeyType := "CPF".
Definition KeyCNPJ : DictKeyType := "CNPJ".
Definition KeyEmail : DictKeyType := "EMAIL".
Definition KeyPhone : DictKeyType := "PHONE".
Definition KeyEVP : DictKeyType := "EVP".

Record CreateTransferRequest := mkCreateTransferRequest {
  cr_TenantID : string;
  cr_AccountID : string;
  cr_IdempotencyKey : string;
  cr_CorrelationID : string;
  cr_AmountCents : Z;
  cr_Currency : string;
  cr_ReceiverKey : string;
  cr_ReceiverKeyType : DictKeyType;
  cr_Description : string;
  cr_RequestedAt : Time
}.

#[export] Instance eta_CreateTransferRequest : Eta CreateTransferRequest := fun r =>
  mkCreateTransferRequest (cr_TenantID r) (cr_AccountID r) (cr_IdempotencyKey r)
    (cr_CorrelationID r) (cr_AmountCents r) (cr_Currency r) (cr_ReceiverKey r)
    (cr_ReceiverKeyType r) (cr_Description r) (cr_RequestedAt r).

Record Transfer := mkTransfer {
  t_ID : string;
  t_TenantID : string;
  t_AccountID : string;
  t_IdempotencyKey : string;
  t_RequestHash : string;
  t_CorrelationID : string;
  t_EndToEndID : string;
  t_AmountCents : Z;
  t_Currency : string;
  t_ReceiverKey : string;
  t_ReceiverKeyType : DictKeyType;
  t_ReceiverName : string;
  t_ReceiverBank : string;
  t_ReceiverRisk : Z;
  t_FraudScore : Z;
  t_FraudRules : list string;
  t_Status : TransferStatus;
  t_DecisionReason : string;
  t_SPIMessageID : string;
  t_SPIClaimToken : string;
  t_SPIClaimedUntil : option Time;
  t_SPISubmissionAttempts : Z;
  t_SPILastError : string;
  t_SettlementCode : string;
  t_CreatedAt : Time;
  t_UpdatedAt : Time
}.

#[export] Instance eta_Transfer : Eta Transfer := fun t =>
  mkTransfer (t_ID t) (t_TenantID t) (t_AccountID t) (t_IdempotencyKey t)
    (t_RequestHash t) (t_CorrelationID t) (t_EndToEndID t) (t_AmountCents t)
    (t_Currency t) (t_ReceiverKey t) (t_ReceiverKeyType t) (t_ReceiverName t)
    (t_ReceiverBank t) (t_ReceiverRisk t) (t_FraudScore t) (t_FraudRules t)
    (t_Status t) (t_DecisionReason t) (t_SPIMessageID t) (t_SPIClaimToken t)
    (t_SPIClaimedUntil t) (t_SPISubmissionAttempts t) (t_SPILastError t)
    (t_SettlementCode t) (t_CreatedAt t) (t_UpdatedAt t).

Record AuditRecord := mkAuditRecord {
  a_TenantID : string;
  a_AccountID : string;
  a_TransferID : string;
  a_Action : string;
  a_CorrelationID : string;
  a_Metadata : gmap string string;
  a_CreatedAt : Time
}.

Record DictEntry := mkDictEntry {
  d_Key : string;
  d_KeyType : DictKeyType;
  d_ReceiverID : string;
  d_Name : string;
  d_BankISPB : string;
  d_AccountHash : string;
  d_RiskSignal : Z;
  d_ResolvedAt : Time
}.

Record FraudDecision := mkFraudDecision {
  f_Score : Z;
  f_Status : TransferStatus;
  f_Rules : list string;
  f_Reason : string
}.

Record SPIMessage := mkSPIMessage {
  m_MessageID : string;
  m_EndToEndID : string;
  m_TransferID : string;
  m_SubmittedAt : Time
}.

Abbreviation SettlementStatus := string (only parsing).
Definition SettlementAccepted : SettlementStatus := "accepted".
Definition SettlementRejected : SettlementStatus := "rejected".

Record SettlementCallback := mkSettlementCallback {
  cb_TenantID : string;
  cb_TransferID : string;
  cb_SPIMessageID : string;
  cb_Status : SettlementStatus;
  cb_Code : string;
  cb_CallbackHash : string;
  cb_CorrelationID : string;
  cb_ReceivedAt : Time
}.

#[export] Instance eta_SettlementCallback : Eta SettlementCallback := fun c =>
  mkSettlementCallback (cb_TenantID c) (cb_TransferID c) (cb_SPIMessageID c)
    (cb_Status c) (cb_Code c) (cb_CallbackHash c) (cb_CorrelationID c)
    (cb_ReceivedAt c).

Abbreviation ReviewDecision := string (only parsing).
Definition ReviewApprove : ReviewDecision := "approve".
Definition ReviewBlock : ReviewDecision := "block".

Record ReviewDecisionRequest := mkReviewDecisionRequest {
  rv_TenantID : string;
  rv_TransferID : string;
  rv_Decision : ReviewDecision;
  rv_Reason : string;
  rv_CorrelationID : string;
  rv_ReviewedAt : Time
}.

#[export] Instance eta_ReviewDecisionRequest : Eta ReviewDecisionRequest := fun r =>
  mkReviewDecisionRequest (rv_TenantID r) (rv_TransferID r) (rv_Decision r)
    (rv_Reason r) (rv_CorrelationID r) (rv_ReviewedAt r).

(** ** Operations *)

Definition valid_key_type (k : DictKeyType) : bool :=
  (k ==s KeyCPF) || (k ==s KeyCNPJ) || (k ==s KeyEmail) || (k ==s KeyPhone) ||
  (k ==s KeyEVP).

(** One [if] of [Validate]: the problem it appends, if any. *)
Definition problem_if (b : bool) (msg : string) : list string :=
  if b then [msg] else [].

(** The [problems] slice that [Validate] builds; [Validate] has a value
    receiver, so the defaulted currency is local to it. *)
Definition validation_problems (r : CreateTransferRequest) : list string :=
  problem_if (TrimSpace (cr_TenantID r) ==s "") "tenant_id is required" ++
  problem_if (TrimSpace (cr_AccountID r) ==s "") "account_id is required" ++
  problem_if (TrimSpace (cr_IdempotencyKey r) ==s "") "idempotency key is required" ++
  problem_if (cr_AmountCents r <=? 0) "amount_cents must be greater than zero" ++
  problem_if (2000000 <? cr_AmountCents r) "amount_cents exceeds per-transfer limit" ++
  (let currency := if cr_Currency r ==s "" then "BRL" else cr_Currency r in
   problem_if (negb (currency ==s "BRL")) "currency must be BRL") ++
  problem_if (TrimSpace (cr_ReceiverKey r) ==s "") "receiver_key is required" ++
  problem_if (negb (valid_key_type (cr_ReceiverKeyType r)))
    "receiver_key_type is invalid".

Definition CreateTransferRequest_Validate (r : CreateTransferRequest) : option error :=
  match validation_problems r with
  | [] => None
  | problems => Some (Errorf ErrValidation (Join "; " problems))
  end.

(** The separator ["\x00"]. *)
Definition nul : string := String Ascii.zero "".

Definition hashParts (parts : list string) : string :=
  hex_EncodeToString (sha256_Sum256 (bytes_of_string (Join nul parts))).

(** The parts of [CreateTransferRequest.Fingerprint]. *)
Definition request_parts (r : CreateTransferRequest) : list string :=
  let currency := TrimSpace (cr_Currency r) in
  let currency := if currency ==s "" then "BRL" else currency in
  [TrimSpace (cr_TenantID r); TrimSpace (cr_AccountID r);
   Itoa (cr_AmountCents r); currency; TrimSpace (cr_ReceiverKey r);
   cr_ReceiverKeyType r; TrimSpace (cr_Description r)].

Definition CreateTransferRequest_Fingerprint (r : CreateTransferRequest) : string :=
  hashParts (request_parts r).

(** The trimmed parts of a request that [hashParts] does not escape and
    [Validate] does not check, the description apart. *)
Definition no_nul (r : CreateTransferRequest) : Prop :=
  Forall (fun p => has_char Ascii.zero p = false)
    [TrimSpace (cr_TenantID r); TrimSpace (cr_AccountID r); TrimSpace (cr_ReceiverKey r)].

(** What two requests under one idempotency key must agree in. *)
Definition request_content (r : CreateTransferRequest) :=
  (TrimSpace (cr_TenantID r), TrimSpace (cr_AccountID r), cr_AmountCents r,
   TrimSpace (cr_ReceiverKey r), cr_ReceiverKeyType r, TrimSpace (cr_Description r)).

Definition hash_collision (m m' : list byte) : Prop :=
  m <> m' /\ sha256_Sum256 m = sha256_Sum256 m'.

(** Two requests for different receivers that [hashParts] does not tell apart. *)
Definition ambiguous (receiver description : string) : CreateTransferRequest :=
  mkCreateTransferRequest "tenant" "account" "key" "" 100 "BRL" receiver KeyEmail description 0.

Definition ambiguous_description : CreateTransferRequest :=
  ambiguous "x" (KeyEmail +:+ nul +:+ "y").
Definition ambiguous_receiver : CreateTransferRequest :=
  ambiguous ("x" +:+ nul +:+ KeyEmail) "y".

Definition SettlementCallback_Fingerprint (c : SettlementCallback) : string :=
  hashParts [TrimSpace (cb_TenantID c); TrimSpace (cb_TransferID c);
             TrimSpace (cb_SPIMessageID c); cb_Status c; TrimSpace (cb_Code c)].

Definition TransferStatus_Terminal (s : TransferStatus) : bool :=
  (s ==s StatusBlocked) || (s ==s StatusSettled) || (s ==s StatusRejected).

(** [p != nil && p.After(now)] on a [*time.Time]. *)
Definition ptr_After (p : option Time) (now : Time) : bool :=
  match p with Some u => time_After u now | None => false end.

Definition Transfer_ClaimSPISubmission (t : Transfer) (claimToken : string)
    (claimUntil now : Time) : result Transfer :=
  if (TrimSpace claimToken ==s "") || negb (time_After claimUntil (time_UTC now)) then
    Err (Errorf ErrValidation "valid spi claim token and expiry are required")
  else if negb (t_Status t ==s StatusAccepted) then
    Err (Errorf ErrConflict "transfer is not pending SPI submission")
  else if ptr_After (t_SPIClaimedUntil t) (time_UTC now) then
    Err (Errorf ErrConflict "transfer already claimed for SPI submission")
  else
    let expiresAt := time_UTC claimUntil in
    let t := t <| t_SPIClaimToken := claimToken |> in
    let t := t <| t_SPIClaimedUntil := Some expiresAt |> in
    let t := t <| t_SPISubmissionAttempts := int64 (t_SPISubmissionAttempts t + 1) |> in
    let t := t <| t_SPILastError := "" |> in
    Ok (t <| t_UpdatedAt := time_UTC now |>).

Definition Transfer_RecordSPISubmission (t : Transfer) (claimToken : string)
    (message : SPIMessage) : result Transfer :=
  if negb (t_Status t ==s StatusAccepted) then
    Err (Errorf ErrConflict "transfer is not pending SPI submission")
  else if (t_SPIClaimToken t ==s "") || negb (t_SPIClaimToken t ==s claimToken) then
    Err (Errorf ErrConflict "transfer is not claimed by this SPI worker")
  else if (TrimSpace (m_MessageID message) ==s "") ||
          (TrimSpace (m_EndToEndID message) ==s "") then
    Err (Errorf ErrValidation "spi identifiers are required")
  else
    let t := t <| t_Status := StatusApproved |> in
    let t := t <| t_SPIMessageID := m_MessageID message |> in
    let t := t <| t_EndToEndID := m_EndToEndID message |> in
    let t := t <| t_SPIClaimToken := "" |> in
    let t := t <| t_SPIClaimedUntil := None |> in
    let t := t <| t_SPILastError := "" |> in
    Ok (t <| t_UpdatedAt := time_UTC (m_SubmittedAt message) |>).

Definition Transfer_ReleaseSPISubmission (t : Transfer) (claimToken lastError : string)
    (retryAt now : Time) : result Transfer :=
  if (t_Status t ==s StatusApproved) && negb (t_SPIMessageID t ==s "") then
    Ok t
  else if (t_SPIClaimToken t ==s "") || negb (t_SPIClaimToken t ==s claimToken) then
    Err (Errorf ErrConflict "transfer is not claimed by this SPI worker")
  else
    let availableAt := time_UTC retryAt in
    let t := t <| t_SPIClaimToken := "" |> in
    let t := t <| t_SPIClaimedUntil := Some availableAt |> in
    let t := t <| t_SPILastError := lastError |> in
    Ok (t <| t_UpdatedAt := time_UTC now |>).

Definition Transfer_RecordReviewDecision (t : Transfer) (status : TransferStatus)
    (reason : string) (reviewedAt : Time) : result Transfer :=
  if negb (t_Status t ==s StatusReview) then
    Err (Errorf ErrConflict "transfer is not waiting for review")
  else if negb ((status ==s StatusAccepted) || (status ==s StatusBlocked)) then
    Err (Errorf ErrValidation "review can only accept or block")
  else
    let t := t <| t_Status := status |> in
    let t := if negb (reason ==s "") then t <| t_DecisionReason := reason |> else t in
    Ok (t <| t_UpdatedAt := time_UTC reviewedAt |>).

Definition Transfer_RecordSettlement (t : Transfer) (callback : SettlementCallback)
    : result Transfer :=
  if (t_SPIMessageID t ==s "") || negb (t_SPIMessageID t ==s cb_SPIMessageID callback) then
    Err (Errorf ErrConflict "spi_message_id mismatch")
  else if TransferStatus_Terminal (t_Status t) then
    Err (Errorf ErrConflict "terminal transfer has no matching callback hash")
  else if negb (t_Status t ==s StatusApproved) then
    Err (Errorf ErrConflict "transfer is not approved for settlement callback")
  else
    let finish st :=
      let t := t <| t_Status := st |> in
      let t := t <| t_SettlementCode := cb_Code callback |> in
      Ok (t <| t_UpdatedAt := time_UTC (cb_ReceivedAt callback) |>) in
    if cb_Status callback ==s SettlementAccepted then finish StatusSettled
    else if cb_Status callback ==s SettlementRejected then finish StatusRejected
    else Err (Errorf ErrValidation "unsupported settlement status").

(** ** The documented state machine *)

(** [docs/domain/state-machines.md]. *)
Inductive status_step : TransferStatus -> TransferStatus -> Prop :=
  | step_review_approved : status_step StatusReview StatusAccepted
  | step_review_blocked : status_step StatusReview StatusBlocked
  | step_spi_recorded : status_step StatusAccepted StatusApproved
  | step_settled : status_step StatusApproved StatusSettled
  | step_rejected : status_step StatusApproved StatusRejected.

(** The statuses before and after the transfer has been handed to SPI. *)
Definition pre_spi (s : TransferStatus) : Prop :=
  s = StatusAccepted \/ s = StatusReview \/ s = StatusBlocked.
Definition post_spi (s : TransferStatus) : Prop :=
  s = StatusApproved \/ s = StatusSettled \/ s = StatusRejected.

(** The invariant of the aggregate ([docs/domain/invariants.md], 4 to 6, and the
    worker lease). *)
Record transfer_ok (t : Transfer) : Prop := mkTransferOk {
  ok_status : pre_spi (t_Status t) \/ post_spi (t_Status t);
  ok_pre : pre_spi (t_Status t) -> t_SPIMessageID t = "" /\ t_EndToEndID t = "";
  ok_post : post_spi (t_Status t) -> t_SPIMessageID t <> "" /\ t_EndToEndID t <> "";
  ok_claim : t_SPIClaimToken t <> "" ->
    t_Status t = StatusAccepted /\ is_Some (t_SPIClaimedUntil t)
}.

(** What no operation of the aggregate changes. *)
Definition transfer_identity (t : Transfer) :=
  (t_ID t, t_TenantID t, t_AccountID t, t_IdempotencyKey t, t_RequestHash t,
   t_CorrelationID t, t_AmountCents t, t_Currency t,
   (t_ReceiverKey t, t_ReceiverKeyType t, t_ReceiverName t, t_ReceiverBank t,
    t_ReceiverRisk t, t_FraudScore t, t_FraudRules t, t_CreatedAt t)).

(** One successful operation of the aggregate. *)
Inductive transfer_step (t : Transfer) : Transfer -> Prop :=
  | ts_claim tok until now t' :
      Transfer_ClaimSPISubmission t tok until now = Ok t' -> transfer_step t t'
  | ts_record tok msg t' :
      Transfer_RecordSPISubmission t tok msg = Ok t' -> transfer_step t t'
  | ts_release tok err retry now t' :
      Transfer_ReleaseSPISubmission t tok err retry now = Ok t' -> transfer_step t t'
  | ts_review st reason at_ t' :
      Transfer_RecordReviewDecision t st reason at_ = Ok t' -> transfer_step t t'
  | ts_settle cb t' :
      Transfer_RecordSettlement t cb = Ok t' -> transfer_step t t'.

(** ** Inversion of the operations *)

Ltac unfold_status :=
  unfold pre_spi, post_spi, TransferStatus_Terminal, StatusAccepted, StatusApproved,
    StatusBlocked, StatusReview, StatusSettled, StatusRejected in *.

Ltac status_solve := unfold_status; intuition congruence.

Lemma claim_inv t tok until now t' :
  Transfer_ClaimSPISubmission t tok until now = Ok t' ->
  TrimSpace tok <> "" /\ now < until /\ t_Status t = StatusAccepted /\
  ptr_After (t_SPIClaimedUntil t) now = false /\
  t' = t <| t_SPIClaimToken := tok |> <| t_SPIClaimedUntil := Some until |>
         <| t_SPISubmissionAttempts := int64 (t_SPISubmissionAttempts t + 1) |>
         <| t_SPILastError := "" |> <| t_UpdatedAt := now |>.
Proof.
  unfold Transfer_ClaimSPISubmission, time_After, time_UTC. intros H.
  cases_in H; simplify_eq. b2p. done.
Qed.

Lemma record_inv t tok msg t' :
  Transfer_RecordSPISubmission t tok msg = Ok t' ->
  t_Status t = StatusAccepted /\ t_SPIClaimToken t = tok /\ tok <> "" /\
  TrimSpace (m_MessageID msg) <> "" /\ TrimSpace (m_EndToEndID msg) <> "" /\
  t' = t <| t_Status := StatusApproved |> <| t_SPIMessageID := m_MessageID msg |>
         <| t_EndToEndID := m_EndToEndID msg |> <| t_SPIClaimToken := "" |>
         <| t_SPIClaimedUntil := None |> <| t_SPILastError := "" |>
         <| t_UpdatedAt := m_SubmittedAt msg |>.
Proof.
  unfold Transfer_RecordSPISubmission, time_UTC. intros H.
  cases_in H; simplify_eq. b2p. subst. done.
Qed.

Lemma release_inv t tok err retry now t' :
  Transfer_ReleaseSPISubmission t tok err retry now = Ok t' ->
  t' = t \/
  (t_SPIClaimToken t = tok /\ tok <> "" /\
   t' = t <| t_SPIClaimToken := "" |> <| t_SPIClaimedUntil := Some retry |>
          <| t_SPILastError := err |> <| t_UpdatedAt := now |>).
Proof.
  unfold Transfer_ReleaseSPISubmission, time_UTC. intros H.
  destruct (_ && _) in H; [simplify_eq; by left|right].
  cases_in H; simplify_eq. b2p. subst. done.
Qed.

Lemma review_inv t st reason at_ t' :
  Transfer_RecordReviewDecision t st reason at_ = Ok t' ->
  t_Status t = StatusReview /\ (st = StatusAccepted \/ st = StatusBlocked) /\
  t' = t <| t_Status := st |>
         <| t_DecisionReason := if reason ==s "" then t_DecisionReason t else reason |>
         <| t_UpdatedAt := at_ |>.
Proof.
  unfold Transfer_RecordReviewDecision, time_UTC. intros H.
  destruct (negb (t_Status t ==s _)) eqn:E1; [done|].
  destruct (negb (_ || _)) eqn:E2; [done|]. b2p.
  apply orb_true_elim in E2.
  destruct (reason ==s ""); cbn in H; simplify_eq;
    destruct E2; b2p; subst; auto.
Qed.

Lemma settle_inv t cb t' :
  Transfer_RecordSettlement t cb = Ok t' ->
  t_SPIMessageID t = cb_SPIMessageID cb /\ t_SPIMessageID t <> "" /\
  t_Status t = StatusApproved /\
  exists st, (st = StatusSettled /\ cb_Status cb = SettlementAccepted \/
              st = StatusRejected /\ cb_Status cb = SettlementRejected) /\
    t' = t <| t_Status := st |> <| t_SettlementCode := cb_Code cb |>
           <| t_UpdatedAt := cb_ReceivedAt cb |>.
Proof.
  unfold Transfer_RecordSettlement, time_UTC. intros H.
  cases_in H; simplify_eq; b2p; subst; eauto 10.
Qed.

(** ** Validation *)

Lemma problem_if_nil b msg : problem_if b msg = [] <-> b = false.
Proof. by destruct b. Qed.

Lemma valid_key_type_spec k :
  valid_key_type k = true <-> k ∈ [KeyCPF; KeyCNPJ; KeyEmail; KeyPhone; KeyEVP].
Proof.
  unfold valid_key_type. rewrite !orb_true_iff, !String.eqb_eq.
  rewrite !elem_of_cons, elem_of_nil. tauto.
Qed.

Lemma Validate_None r :
  CreateTransferRequest_Validate r = None <-> validation_problems r = [].
Proof. unfold CreateTransferRequest_Validate. by destruct (validation_problems r). Qed.

(** [Validate] accepts exactly the requests with a tenant, an
    account, an idempotency key and a receiver key that are not blank, an amount
    between one cent and the two-million-cent limit, the currency BRL (or none)
    and one of the five key types; every rejection wraps [ErrValidation]. *)
Theorem Validate_spec r :
  (CreateTransferRequest_Validate r = None <->
     TrimSpace (cr_TenantID r) <> "" /\ TrimSpace (cr_AccountID r) <> "" /\
     TrimSpace (cr_IdempotencyKey r) <> "" /\ TrimSpace (cr_ReceiverKey r) <> "" /\
     0 < cr_AmountCents r <= 2000000 /\
     (cr_Currency r = "" \/ cr_Currency r = "BRL") /\
     cr_ReceiverKeyType r ∈ [KeyCPF; KeyCNPJ; KeyEmail; KeyPhone; KeyEVP]) /\
  (forall e, CreateTransferRequest_Validate r = Some e -> errors_Is e ErrValidation = true).
Proof.
  split.
  - rewrite Validate_None. unfold validation_problems. rewrite !app_nil, !problem_if_nil.
    rewrite !negb_false_iff, !String.eqb_neq, Z.leb_gt, Z.ltb_ge, valid_key_type_spec.
    destruct (cr_Currency r ==s "") eqn:E; b2p; rewrite ?String.eqb_eq;
      intuition (try done; try lia; auto).
  - unfold CreateTransferRequest_Validate. intros e H.
    destruct (validation_problems r); by simplify_eq.
Qed.

(** ** Fingerprints *)

Lemma hashParts_inv ps ps' :
  hashParts ps = hashParts ps' ->
  Join nul ps = Join nul ps' \/
  hash_collision (bytes_of_string (Join nul ps)) (bytes_of_string (Join nul ps')).
Proof.
  intros E. apply (inj hex_EncodeToString) in E.
  destruct (decide (Join nul ps = Join nul ps')) as [Ej|Nj]; [by left|].
  right. split; [|done]. intros Eb. by apply (inj bytes_of_string) in Eb.
Qed.

(** Of a request that [Validate] accepts, all parts but the last are free of the
    separator once the free texts among them are. *)
Lemma request_parts_no_nul r :
  CreateTransferRequest_Validate r = None -> no_nul r ->
  exists ps, request_parts r = ps ++ [TrimSpace (cr_Description r)] /\
    length ps = 6%nat /\ Forall (fun p => has_char Ascii.zero p = false) ps.
Proof.
  intros V N. apply Validate_spec in V as (_ & _ & _ & _ & _ & Hc & Hk).
  unfold no_nul in N. rewrite !Forall_cons in N. destruct N as (N1 & N2 & N3 & _).
  eexists [_; _; _; _; _; _]. split; [reflexivity|]. split; [done|].
  rewrite !Forall_cons. split_and!; try done.
  - apply Itoa_no_nul.
  - by destruct Hc as [-> | ->].
  - rewrite !elem_of_cons, elem_of_nil in Hk. by destruct_or!; rewrite ?Hk.
Qed.

(** The currency of a valid request is BRL, so the parts are its content. *)
Lemma request_parts_content r r' :
  CreateTransferRequest_Validate r = None -> CreateTransferRequest_Validate r' = None ->
  request_parts r = request_parts r' <-> request_content r = request_content r'.
Proof.
  intros V V'. apply Validate_spec in V as (_ & _ & _ & _ & _ & Hc & _).
  apply Validate_spec in V' as (_ & _ & _ & _ & _ & Hc' & _).
  assert (E : forall c, c = "" \/ c = "BRL" ->
    (if TrimSpace c ==s "" then "BRL" else TrimSpace c) = "BRL") by (by intros c [-> | ->]).
  unfold request_parts, request_content. rewrite !E by done. split.
  - intros [= -> -> H -> -> ->]. apply (inj pretty) in H. by rewrite H.
  - by intros [= -> -> -> -> -> ->].
Qed.

(** C32: for two requests that [Validate] accepts and whose tenant, account and
    receiver key hold no NUL byte (the description may), equal fingerprints mean the
    same tenant, account, amount, receiver key, key type and description after
    trimming, unless the two hashed texts are themselves a SHA-256 collision; and
    valid requests that agree in these always have the same fingerprint. The condition
    on NUL bytes cannot be dropped: [hashParts] does not escape its separator, and two
    valid requests for different receivers hash the same text. *)
Theorem Fingerprint_sound r r' :
  CreateTransferRequest_Validate r = None -> CreateTransferRequest_Validate r' = None ->
  (no_nul r -> no_nul r' ->
     CreateTransferRequest_Fingerprint r = CreateTransferRequest_Fingerprint r' ->
     request_content r = request_content r' \/
     hash_collision (bytes_of_string (Join nul (request_parts r)))
       (bytes_of_string (Join nul (request_parts r')))) /\
  (request_content r = request_content r' ->
     CreateTransferRequest_Fingerprint r = CreateTransferRequest_Fingerprint r') /\
  exists q q', CreateTransferRequest_Validate q = None /\
    CreateTransferRequest_Validate q' = None /\
    TrimSpace (cr_ReceiverKey q) <> TrimSpace (cr_ReceiverKey q') /\
    Join nul (request_parts q) = Join nul (request_parts q') /\
    CreateTransferRequest_Fingerprint q = CreateTransferRequest_Fingerprint q'.
Proof.
  intros V V'. rewrite <- (request_parts_content r r' V V'). split_and!.
  - intros N N' E. apply hashParts_inv in E as [E|E]; [left|by right].
    destruct (request_parts_no_nul _ V N) as (ps & Ep & L & F),
      (request_parts_no_nul _ V' N') as (ps' & Ep' & L' & F').
    rewrite Ep, Ep' in E |- *.
    apply (Join_last_inj Ascii.zero) in E; [done|congruence|done..].
  - unfold CreateTransferRequest_Fingerprint. by intros ->.
  - exists ambiguous_description, ambiguous_receiver. split_and!; by vm_compute.
Qed.

(** ** The state machine *)

Ltac step_cases H :=
  inversion H as [? ? ? ? E|? ? ? E|? ? ? ? ? E|? ? ? ? E|? ? E]; subst;
  [ apply claim_inv in E; destruct E as (?&?&?&?&->)
  | apply record_inv in E; destruct E as (?&?&?&?&?&->)
  | apply release_inv in E; destruct E as [->|(?&?&->)]
  | apply review_inv in E; destruct E as (?&?&->)
  | apply settle_inv in E; destruct E as (?&?&?&?&?&->) ].

Lemma step_identity t t' :
  transfer_step t t' -> transfer_identity t' = transfer_identity t.
Proof. intros H. step_cases H; done. Qed.

Lemma step_status t t' :
  transfer_step t t' ->
  t_Status t' = t_Status t \/ status_step (t_Status t) (t_Status t').
Proof.
  intros H. step_cases H; cbn; auto; right.
  - match goal with E : t_Status t = _ |- _ => rewrite E end. constructor.
  - match goal with E : t_Status t = _ |- _ => rewrite E end.
    destruct_or!; subst; constructor.
  - match goal with E : t_Status t = _ |- _ => rewrite E end.
    destruct_or!; destruct_and!; subst; constructor.
Qed.

Lemma step_ok t t' : transfer_ok t -> transfer_step t t' -> transfer_ok t'.
Proof.
  intros [Hst Hpre Hpost Hcl] H. step_cases H.
  - split; cbn; eauto.
  - split; cbn; try status_solve.
    intros _. split; by apply TrimSpace_nonempty.
  - done.
  - split; cbn; auto. done.
  - split; cbn.
    + status_solve.
    + intros _. apply Hpre. status_solve.
    + destruct_or!; subst; status_solve.
    + intros Ht. destruct (Hcl Ht) as [Ha _]. exfalso. status_solve.
  - split; cbn.
    + status_solve.
    + destruct_or!; destruct_and!; subst; status_solve.
    + intros _. apply Hpost. status_solve.
    + intros Ht. destruct (Hcl Ht) as [Ha _]. exfalso. status_solve.
Qed.

Lemma rtc_step_ok t t' :
  transfer_ok t -> rtc transfer_step t t' ->
  transfer_ok t' /\ transfer_identity t' = transfer_identity t /\
  rtc status_step (t_Status t) (t_Status t').
Proof.
  intros Hok Hs. induction Hs as [t|t u t' Htu _ IH]; [done|].
  destruct (IH (step_ok _ _ Hok Htu)) as (? & Hid & Hst).
  split_and!; [done| |].
  - by rewrite Hid, (step_identity _ _ Htu).
  - destruct (step_status _ _ Htu) as [<-|Hstep]; [done|].
    eapply rtc_l; eauto.
Qed.

(** C14: along any sequence of successful aggregate operations from a
    well-formed transfer, the transfer stays well-formed, its identity (ids,
    tenant, amount, receiver, fraud evidence) never changes, and its status
    follows the documented state machine. *)
Theorem transfer_lifecycle t t' :
  transfer_ok t -> rtc transfer_step t t' ->
  transfer_ok t' /\ transfer_identity t' = transfer_identity t /\
  rtc status_step (t_Status t) (t_Status t').
Proof. apply rtc_step_ok. Qed.

Lemma terminal_cases s :
  TransferStatus_Terminal s = true <->
  s = StatusBlocked \/ s = StatusSettled \/ s = StatusRejected.
Proof. unfold TransferStatus_Terminal. rewrite !orb_true_iff, !String.eqb_eq. tauto. Qed.

Lemma terminal_no_step t t' :
  transfer_ok t -> TransferStatus_Terminal (t_Status t) = true ->
  ~ transfer_step t t'.
Proof.
  intros [_ _ _ Hcl] Ht H. apply terminal_cases in Ht.
  assert (Htok : t_SPIClaimToken t = "").
  { destruct (decide (t_SPIClaimToken t = "")) as [|N]; [done|].
    destruct (Hcl N) as [Ha _]. exfalso. status_solve. }
  assert (Hna : t_Status t <> StatusApproved)
    by status_solve.
  inversion H as [? ? ? ? E|? ? ? E|? ? ? ? ? E|? ? ? ? E|? ? E]; subst.
  - apply claim_inv in E as (_&_&E&_). status_solve.
  - apply record_inv in E as (E&_). status_solve.
  - unfold Transfer_ReleaseSPISubmission in E. rewrite Htok in E.
    apply String.eqb_neq in Hna. by rewrite Hna in E.
  - apply review_inv in E as (E&_). status_solve.
  - apply settle_inv in E as (_&_&E&_). done.
Qed.

(** Only a settlement callback settles or rejects a transfer. *)
Definition settled (t : Transfer) : Prop :=
  t_Status t = StatusSettled \/ t_Status t = StatusRejected.

Lemma settled_no_step t t' : transfer_ok t -> settled t -> ~ transfer_step t t'.
Proof. intros Hok Hs. apply terminal_no_step; [done|]. apply terminal_cases. by right. Qed.

Lemma settled_fixed t t' : transfer_ok t -> settled t -> rtc transfer_step t t' -> t' = t.
Proof.
  intros Hok Hs H. destruct H as [|t u t' Htu _]; [done|].
  by destruct (settled_no_step t u Hok Hs).
Qed.

Lemma claim_unsettled t tok until now t' :
  Transfer_ClaimSPISubmission t tok until now = Ok t' -> ~ settled t'.
Proof. intros (_&_&E&_&->)%claim_inv. unfold settled. cbn. status_solve. Qed.

Lemma record_unsettled t tok msg t' :
  Transfer_RecordSPISubmission t tok msg = Ok t' -> ~ settled t'.
Proof. intros (_&_&_&_&_&->)%record_inv. unfold settled. cbn. status_solve. Qed.

Lemma release_unsettled t tok err retry now t' :
  transfer_ok t -> Transfer_ReleaseSPISubmission t tok err retry now = Ok t' -> ~ settled t'.
Proof.
  intros Hok E Hs. apply (settled_no_step t t' Hok); [|by eapply ts_release].
  apply release_inv in E as [->|(_&_&->)]; done.
Qed.

Lemma review_unsettled t st reason at_ t' :
  Transfer_RecordReviewDecision t st reason at_ = Ok t' -> ~ settled t'.
Proof. intros (_&E&->)%review_inv. unfold settled. cbn. status_solve. Qed.

(** Once handed to SPI, a transfer keeps its SPI identifiers. *)
Lemma post_spi_step t t' :
  transfer_ok t -> transfer_step t t' -> post_spi (t_Status t) ->
  post_spi (t_Status t') /\ t_SPIMessageID t' = t_SPIMessageID t /\
  t_EndToEndID t' = t_EndToEndID t.
Proof.
  intros Hok H Hp. step_cases H; cbn; try done; status_solve.
Qed.

Lemma post_spi_stable t t' :
  transfer_ok t -> rtc transfer_step t t' -> post_spi (t_Status t) ->
  post_spi (t_Status t') /\ t_SPIMessageID t' = t_SPIMessageID t /\
  t_EndToEndID t' = t_EndToEndID t.
Proof.
  intros Hok Hs. induction Hs as [t|t u t' Htu _ IH]; [done|]. intros Hp.
  destruct (post_spi_step _ _ Hok Htu Hp) as (Hp' & Em & Ee).
  destruct (IH (step_ok _ _ Hok Htu) Hp') as (? & -> & ->). done.
Qed.

#[export] Hint Resolve claim_unsettled record_unsettled release_unsettled review_unsettled : pix.
#[export] Hint Resolve ts_claim ts_record ts_release ts_review ts_settle : pix.

(** A blocked, settled or rejected transfer is final: no operation
    of the aggregate succeeds on it. *)
Theorem terminal_is_final t t' :
  transfer_ok t -> TransferStatus_Terminal (t_Status t) = true ->
  ~ transfer_step t t'.
Proof. apply terminal_no_step. Qed.

(** ** The SPI lease *)

(** After a worker has claimed a transfer until [until], every other
    claim before [until] and every submission or release under another token
    fails with a conflict and the holder's submission of a well-formed SPI
    message succeeds. *)
Theorem claim_excludes t tok until now t1 :
  Transfer_ClaimSPISubmission t tok until now = Ok t1 ->
  (forall tok2 until2 now2, TrimSpace tok2 <> "" -> now2 < until2 -> now2 < until ->
     exists e, Transfer_ClaimSPISubmission t1 tok2 until2 now2 = Err e /\
       errors_Is e ErrConflict = true) /\
  (forall tok2 msg, tok2 <> tok ->
     exists e, Transfer_RecordSPISubmission t1 tok2 msg = Err e /\
       errors_Is e ErrConflict = true) /\
  (forall tok2 err retry now2, tok2 <> tok ->
     exists e, Transfer_ReleaseSPISubmission t1 tok2 err retry now2 = Err e /\
       errors_Is e ErrConflict = true) /\
  (forall msg, TrimSpace (m_MessageID msg) <> "" -> TrimSpace (m_EndToEndID msg) <> "" ->
     exists t2, Transfer_RecordSPISubmission t1 tok msg = Ok t2 /\
       t_Status t2 = StatusApproved /\ t_SPIMessageID t2 = m_MessageID msg).
Proof.
  intros H. apply claim_inv in H as (Htok&Hnow&Hst&_&->).
  pose proof (TrimSpace_nonempty _ Htok) as Hne.
  apply String.eqb_neq in Hne as Hneb. split_and!.
  - intros tok2 until2 now2 Ht2 Hu2 Hn2. eexists.
    unfold Transfer_ClaimSPISubmission, time_After, time_UTC. cbn.
    rewrite (proj2 (String.eqb_neq _ _) Ht2), (proj2 (Z.ltb_lt _ _) Hu2), Hst. cbn.
    unfold ptr_After, time_After. rewrite (proj2 (Z.ltb_lt _ _) Hn2). done.
  - intros tok2 msg Hd. eexists. unfold Transfer_RecordSPISubmission. cbn.
    rewrite Hst, Hneb. cbn.
    rewrite (proj2 (String.eqb_neq tok tok2)) by congruence. done.
  - intros tok2 err retry now2 Hd. eexists. unfold Transfer_ReleaseSPISubmission. cbn.
    rewrite Hst, Hneb. cbn.
    rewrite (proj2 (String.eqb_neq tok tok2)) by congruence. done.
  - intros msg Hm He. eexists. unfold Transfer_RecordSPISubmission. cbn.
    rewrite Hst, Hneb, (String.eqb_refl tok). cbn.
    apply String.eqb_neq in Hm, He. rewrite Hm, He. split_and!; reflexivity.
Qed.

(** Once a lease has run out another worker can claim the transfer, and
    from then on the first worker's submission is refused. *)
Theorem expired_claim_is_fenced t tok until now t1 tok2 until2 now2 :
  Transfer_ClaimSPISubmission t tok until now = Ok t1 ->
  TrimSpace tok2 <> "" -> tok2 <> tok -> until <= now2 < until2 ->
  exists t2, Transfer_ClaimSPISubmission t1 tok2 until2 now2 = Ok t2 /\
    forall msg, exists e, Transfer_RecordSPISubmission t2 tok msg = Err e /\
      errors_Is e ErrConflict = true.
Proof.
  intros H Ht2 Hd Hn. apply claim_inv in H as (Htok&Hnow&Hst&_&->).
  eexists. split.
  - unfold Transfer_ClaimSPISubmission, time_After, time_UTC. cbn.
    apply String.eqb_neq in Ht2. rewrite Ht2, Hst. cbn.
    rewrite (proj2 (Z.ltb_lt now2 until2)) by lia. cbn.
    unfold ptr_After, time_After. by rewrite (proj2 (Z.ltb_ge now2 until)) by lia.
  - intros msg. eexists. unfold Transfer_RecordSPISubmission. cbn.
    rewrite ?Hst. cbn. apply TrimSpace_nonempty, String.eqb_neq in Ht2. rewrite Ht2. cbn.
    apply String.eqb_neq in Hd. rewrite Hd. done.
Qed.
