(* ===== verification/Events.v ===== *)
(** * Event envelopes and the outbox record ([internal/events/events.go])

    The envelope of a payment-rail event, its constructor [New], and the outbox
    record. The payload is the text [encoding/json] produces for the maps the
    switch passes: an object whose keys are sorted, whose values are strings,
    integers or string arrays, with Go's HTML-safe string escaping. *)

From S2P Require Import Prelude GoStrings GoTime.

(** ** JSON text *)

(** The values the program passes to [json.Marshal]: [JObject] is a map, whose keys are
    sorted, [JStruct] a struct, written in field order, [JRaw] a [json.RawMessage]. *)
Inductive json : Type :=
  | JString (s : string)
  | JInt (z : Z)
  | JBool (b : bool)
  | JNull
  | JTime (t : Time)
  | JRaw (text : string)
  | JStrings (l : list string)
  | JArray (l : list json)
  | JObject (kvs : list (string * json))
  | JStruct (kvs : list (string * json)).

(** A UTF-8 continuation byte, and one within a narrower range. *)
Definition cont (c : ascii) : bool := (0x80 <=? code c) && (code c <=? 0xBF).
Definition between (lo hi : Z) (c : ascii) : bool := (lo <=? code c) && (code c <=? hi).

(** The number of bytes of the well-formed UTF-8 sequence a string of non-ASCII
    first byte starts with, 0 when it starts with none ([utf8.DecodeRune]). *)
Definition rune_size (s : string) : nat :=
  match s with
  | EmptyString => O
  | String a r =>
      match r with
      | EmptyString => O
      | String b r2 =>
          if between 0xC2 0xDF a && cont b then 2%nat
          else match r2 with
          | EmptyString => O
          | String c r3 =>
              if (((code a =? 0xE0) && between 0xA0 0xBF b) ||
                  (between 0xE1 0xEC a && cont b) ||
                  ((code a =? 0xED) && between 0x80 0x9F b) ||
                  (between 0xEE 0xEF a && cont b)) && cont c then 3%nat
              else match r3 with
              | EmptyString => O
              | String d _ =>
                  if (((code a =? 0xF0) && between 0x90 0xBF b) ||
                      (between 0xF1 0xF3 a && cont b) ||
                      ((code a =? 0xF4) && between 0x80 0x8F b)) && cont c && cont d
                  then 4%nat else O
              end
          end
      end
  end.

Definition quote : string := String (ascii_of_nat 34) "".
Definition backslash : string := String (ascii_of_nat 92) "".

(** The escape of one ASCII byte inside a JSON string (HTML-safe set). *)
Definition escape_ascii (c : ascii) : string :=
  let z := code c in
  if (z =? 34) || (z =? 92) then backslash +:+ String c ""
  else if z =? 8 then backslash +:+ "b"
  else if z =? 12 then backslash +:+ "f"
  else if z =? 10 then backslash +:+ "n"
  else if z =? 13 then backslash +:+ "r"
  else if z =? 9 then backslash +:+ "t"
  else if (z <? 32) || (z =? 60) || (z =? 62) || (z =? 38) then
    backslash +:+ "u00" +:+ hex_EncodeToString [z2b z]
  else String c "".

(** Whether a string starts with U+2028 or U+2029, and which. *)
Definition line_separator (s : string) : option string :=
  match s with
  | String a (String b (String c _)) =>
      if (code a =? 0xE2) && (code b =? 0x80) then
        if code c =? 0xA8 then Some "8" else if code c =? 0xA9 then Some "9" else None
      else None
  | _ => None
  end.

(** The body of a JSON string; [skip] counts the bytes of the current multi-byte
    rune that were already emitted or escaped. *)
Fixpoint escape_from (skip : nat) (s : string) : string :=
  match s with
  | EmptyString => ""
  | String c r =>
      match skip with
      | S k => escape_from k r
      | O =>
          if code c <? 128 then escape_ascii c +:+ escape_from 0 r
          else match rune_size s with
          | O => backslash +:+ "ufffd" +:+ escape_from 0 r
          | n =>
              match line_separator s with
              | Some d => backslash +:+ "u202" +:+ d +:+ escape_from (n - 1) r
              | None => String.substring 0 n s +:+ escape_from (n - 1) r
              end
          end
      end
  end.

Definition json_string (s : string) : string := quote +:+ escape_from 0 s +:+ quote.

(** The keys of a map are sorted by their bytes. *)
Definition key_le (a b : string) : Prop := String.leb a b = true.
#[export] Instance key_le_dec a b : Decision (key_le a b).
Proof. unfold key_le; apply _. Defined.

Definition member_le (a b : string * string) : Prop := key_le (fst a) (fst b).
#[export] Instance member_le_dec a b : Decision (member_le a b).
Proof. unfold member_le; apply _. Defined.

Definition json_member (m : string * string) : string :=
  json_string (fst m) +:+ ":" +:+ snd m.

(** The text [json.Marshal] returns. *)
Fixpoint json_text (j : json) : string :=
  match j with
  | JString s => json_string s
  | JInt z => Itoa z
  | JBool b => if b then "true" else "false"
  | JNull => "null"
  | JTime t => quote +:+ format_rfc3339nano t +:+ quote
  | JRaw text => text
  | JArray l => "[" +:+ Join "," (map json_text l) +:+ "]"
  | JStrings l => "[" +:+ Join "," (json_string <$> l) +:+ "]"
  | JObject kvs =>
      let members := map (fun kv => (fst kv, json_text (snd kv))) kvs in
      "{" +:+ Join "," (map json_member (merge_sort member_le members)) +:+ "}"
  | JStruct kvs =>
      let members := map (fun kv => (fst kv, json_text (snd kv))) kvs in
      "{" +:+ Join "," (map json_member members) +:+ "}"
  end.

(** [json.Marshal] on these values never fails. *)
Definition json_Marshal (j : json) : result string := Ok (json_text j).

(** ** The envelope *)

Record Event := mkEvent {
  e_EventID : string;
  e_EventType : string;
  e_SchemaVersion : string;
  e_OccurredAt : Time;
  e_Producer : string;
  e_TenantID : string;
  e_AccountID : string;
  e_TransferID : string;
  e_CorrelationID : string;
  e_Payload : string
}.

Definition Producer : string := "pixrail.payment-switch".

Definition events_New (eventID eventType tenantID accountID transferID correlationID : string)
    (occurredAt : Time) (payload : json) : result Event :=
  match json_Marshal payload with
  | Err err => Err (mkError (err_is err) ("marshal event payload: " +:+ Error err))
  | Ok raw =>
      Ok {| e_EventID := eventID; e_EventType := eventType; e_SchemaVersion := "1";
            e_OccurredAt := time_UTC occurredAt; e_Producer := Producer;
            e_TenantID := tenantID; e_AccountID := accountID;
            e_TransferID := transferID; e_CorrelationID := correlationID;
            e_Payload := raw |}
  end.

Record OutboxRecord := mkOutboxRecord {
  o_Sequence : Z;
  o_Event : Event;
  o_Published : bool;
  o_Attempts : Z;
  o_LastError : string;
  o_AvailableAt : Time;
  o_ClaimToken : string;
  o_ClaimedUntil : option Time;
  o_DispatchedAt : option Time
}.

#[export] Instance eta_OutboxRecord : Eta OutboxRecord := fun r =>
  mkOutboxRecord (o_Sequence r) (o_Event r) (o_Published r) (o_Attempts r)
    (o_LastError r) (o_AvailableAt r) (o_ClaimToken r) (o_ClaimedUntil r)
    (o_DispatchedAt r).
