(* ===== verification/Fraud.v ===== *)
(** * The rules-based fraud engine ([internal/fraud/engine.go]) *)

From S2P Require Import Prelude Rail.

(** The rules [Score] triggers, with the points each one adds. *)
Definition fraud_rule (b : bool) (points : Z) (rule : string)
    (acc : Z * list string) : Z * list string :=
  if b then (int64 (fst acc + points), snd acc ++ [rule]) else acc.

Definition RulesEngine_Score (transfer : CreateTransferRequest) (dict : DictEntry)
    : result FraudDecision :=
  let acc := (d_RiskSignal dict, []) in
  let acc := fraud_rule (1000000 <=? cr_AmountCents transfer) 40 "amount_high" acc in
  let acc := fraud_rule (500000 <=? cr_AmountCents transfer) 15 "amount_review" acc in
  let acc := fraud_rule (80 <=? d_RiskSignal dict) 35 "dict_high_risk" acc in
  let acc := fraud_rule (cr_AccountID transfer ==s d_AccountHash dict) 25
               "self_transfer_hash_match" acc in
  let '(score, rules) := acc in
  Ok (if 90 <=? score then
        mkFraudDecision score StatusBlocked rules "blocked by fraud policy"
      else if 65 <=? score then
        mkFraudDecision score StatusReview rules "manual review required"
      else
        mkFraudDecision score StatusAccepted rules "risk within payment-rail policy").

(** The points of the rules a decision names. *)
Definition rule_points (rule : string) : Z :=
  if rule ==s "amount_high" then 40
  else if rule ==s "amount_review" then 15
  else if rule ==s "dict_high_risk" then 35
  else if rule ==s "self_transfer_hash_match" then 25
  else 0.

Definition sum_Z (l : list Z) : Z := fold_right Z.add 0 l.

(** The decision [Score] takes for a score. *)
Definition score_status (score : Z) : TransferStatus :=
  if 90 <=? score then StatusBlocked
  else if 65 <=? score then StatusReview else StatusAccepted.

(** Receiver risk signals as the DICT reports them: small integers. *)
Definition risk_in_range (d : DictEntry) : Prop := -1000000 <= d_RiskSignal d <= 1000000.

Lemma fraud_rule_small b p r s l :
  -2000000 <= s <= 2000000 -> 0 <= p <= 100 ->
  fraud_rule b p r (s, l) =
    (s + (if b then p else 0), l ++ (if b then [r] else [])).
Proof.
  intros Hs Hp. unfold fraud_rule. destruct b; cbn.
  - by rewrite int64_id by int_lia.
  - by rewrite Z.add_0_r, app_nil_r.
Qed.

Lemma fraud_cases req d :
  risk_in_range d ->
  exists dec, RulesEngine_Score req d = Ok dec /\
    f_Status dec = score_status (f_Score dec) /\
    f_Score dec = d_RiskSignal d
      + (if 1000000 <=? cr_AmountCents req then 40 else 0)
      + (if 500000 <=? cr_AmountCents req then 15 else 0)
      + (if 80 <=? d_RiskSignal d then 35 else 0)
      + (if cr_AccountID req ==s d_AccountHash d then 25 else 0) /\
    f_Score dec = d_RiskSignal d + sum_Z (rule_points <$> f_Rules dec).
Proof.
  intros Hr. unfold risk_in_range in Hr. unfold RulesEngine_Score.
  rewrite !fraud_rule_small by (repeat case_match; lia).
  eexists; split; [reflexivity|]. unfold score_status.
  match goal with |- context [90 <=? ?s] => set (score := s) end.
  destruct (90 <=? score) eqn:E1; [|destruct (65 <=? score) eqn:E2]; cbn;
    rewrite ?E1, ?E2; split_and!; try done; subst score;
    repeat case_match; cbn; lia.
Qed.

(** The engine always decides; the score is the receiver's risk
    signal plus the points of the rules it names, and the status is blocked from
    90, review from 65 and accepted below. *)
Theorem Score_accounts_for_rules req d :
  risk_in_range d ->
  exists dec, RulesEngine_Score req d = Ok dec /\
    f_Score dec = d_RiskSignal d + sum_Z (rule_points <$> f_Rules dec) /\
    f_Status dec = score_status (f_Score dec).
Proof. intros Hr. destruct (fraud_cases req d Hr) as (dec & E & Hs & _ & Hp). eauto. Qed.

(** For the same payer account and receiver, a larger amount
    never scores lower: raising the amount cannot turn a block into a review or
    an acceptance. *)
Theorem Score_monotone_in_amount req req' d dec dec' :
  risk_in_range d ->
  cr_AccountID req' = cr_AccountID req ->
  cr_AmountCents req <= cr_AmountCents req' ->
  RulesEngine_Score req d = Ok dec -> RulesEngine_Score req' d = Ok dec' ->
  f_Score dec <= f_Score dec' /\
  (f_Status dec = StatusBlocked -> f_Status dec' = StatusBlocked) /\
  (f_Status dec' = StatusAccepted -> f_Status dec = StatusAccepted).
Proof.
  intros Hr Ha Hle E E'.
  destruct (fraud_cases req d Hr) as (x & Ex & Hs & Hx & _).
  destruct (fraud_cases req' d Hr) as (x' & Ex' & Hs' & Hx' & _).
  rewrite E in Ex. rewrite E' in Ex'.
  injection Ex as <-. injection Ex' as <-. rewrite Ha in Hx'.
  assert (Hm : f_Score dec <= f_Score dec').
  { rewrite Hx, Hx'.
    destruct (1000000 <=? cr_AmountCents req) eqn:?,
      (1000000 <=? cr_AmountCents req') eqn:?,
      (500000 <=? cr_AmountCents req) eqn:?,
      (500000 <=? cr_AmountCents req') eqn:?; b2p; lia. }
  split; [done|]. rewrite Hs, Hs'. unfold score_status.
  repeat (case_match; b2p); split; intros; try done; lia.
Qed.
