(* ===== verification/Dict.v ===== *)
(** * The DICT resolver simulation ([internal/dict/resolver.go])

    [StaticResolver.Resolve] waits for its latency and, for a key that contains
    "timeout", for its timeout signal; a wait ends either by its timer or by the
    context. The [k]-th observation of the call says which: [obs_ctx] is the
    context's error when the context ended first. *)

From S2P Require Import Prelude GoStrings Sha256 Rail.

Record StaticResolver := mkStaticResolver {
  sr_Latency : Duration;
  sr_TimeoutSignal : Duration
}.

(** [hash[i]]. *)
Definition byte_at (h : list byte) (i : nat) : Z := b2z (nth i h x00).

(** [timer.Stop()] and the select between [ctx.Done()] and [timer.C]. *)
Definition wait (o : Obs) : option error := obs_ctx o.

Section Resolve.
(** The Unicode case mapping of package [unicode]. *)
Context (unicode_lower : string -> string).

Definition StaticResolver_Resolve (r : StaticResolver) (o : nat -> Obs)
    (tenantID key : string) (keyType : DictKeyType) : result DictEntry :=
  match (if 0 <? sr_Latency r then wait (o 0%nat) else None) with
  | Some err => Err err
  | None =>
      let normalized := ToLower unicode_lower (TrimSpace key) in
      if Contains normalized "missing" then
        Err (Errorf ErrDependencyFailed "dict key not found")
      else if Contains normalized "timeout" then
        match wait (o 1%nat) with
        | Some err => Err err
        | None => Err (sentinel DeadlineExceeded)
        end
      else
        let hash := sha256_Sum256 (bytes_of_string (tenantID +:+ ":" +:+ normalized)) in
        let high_risk := Contains normalized "mule" || Contains normalized "risk" in
        let risk := if high_risk then 92 else byte_at hash 0 mod 35 in
        let name := if high_risk then "Conta de Alto Risco" else "Recebedor PixRail" in
        Ok {| d_Key := key; d_KeyType := keyType;
              d_ReceiverID := "dict_" +:+ hex_EncodeToString (take 6 hash);
              d_Name := name;
              d_BankISPB := pad0 8 (10000000 + byte_at hash 1 * 1000 + byte_at hash 2);
              d_AccountHash := hex_EncodeToString (take 12 hash);
              d_RiskSignal := risk;
              d_ResolvedAt := time_UTC (obs_now (o 2%nat)) |}
  end.

Lemma resolve_inv r o tenantID key keyType d :
  StaticResolver_Resolve r o tenantID key keyType = Ok d ->
  (d_RiskSignal d = 92 \/ 0 <= d_RiskSignal d < 35) /\
  exists n, 0 <= n < 100000000 /\ 10000000 <= n /\ d_BankISPB d = pad0 8 n.
Proof.
  unfold StaticResolver_Resolve. intros H.
  destruct (if 0 <? sr_Latency r then _ else _); [done|].
  destruct (Contains _ "missing"); [done|].
  destruct (Contains _ "timeout"); [by destruct (wait _)|].
  simplify_eq. cbn. set (h := sha256_Sum256 _).
  pose proof (b2z_range (nth 1 h x00)). pose proof (b2z_range (nth 2 h x00)). split.
  - destruct (_ || _); [by left|right]. apply Z.mod_pos_bound. lia.
  - eexists. split; [|split; [|reflexivity]]; unfold byte_at; lia.
Qed.
End Resolve.
