(* ===== verification/Spi.v ===== *)
(** * The SPI simulator ([internal/spi/simulator.go])

    [Submit] derives the message and end-to-end identifiers from the SHA-256 of
    the transfer's identifiers and stamps the latter with the submission time in
    the layout ["20060102150405"] of package [time]. *)

From S2P Require Import Prelude GoStrings GoTime Sha256 Rail.

(** ** The simulator *)

Definition Simulator_Submit (o : Obs) (transfer : Transfer) : result SPIMessage :=
  let sum := sha256_Sum256 (bytes_of_string
    (t_ID transfer +:+ ":" +:+ t_AccountID transfer +:+ ":" +:+ t_ReceiverKey transfer)) in
  let submittedAt := time_UTC (t_CreatedAt transfer) in
  let submittedAt := if time_IsZero submittedAt then time_UTC (obs_now o) else submittedAt in
  Ok {| m_MessageID := "spi_" +:+ hex_EncodeToString (take 8 sum);
        m_EndToEndID := "E" +:+ format_compact submittedAt +:+
                        hex_EncodeToString (take 8 sum);
        m_TransferID := t_ID transfer;
        m_SubmittedAt := submittedAt |}.

(** The simulator always produces a message for the transfer it was given,
    with identifiers the aggregate accepts; a resubmission of a transfer with a
    creation time, under any claim and at any time, carries the same message, so
    the at-least-once submission of the worker is idempotent at the provider. *)
Theorem Submit_deterministic o o' t t' :
  transfer_identity t' = transfer_identity t -> t_CreatedAt t <> 0 ->
  exists m, Simulator_Submit o t = Ok m /\ Simulator_Submit o' t' = Ok m /\
    m_TransferID m = t_ID t /\
    TrimSpace (m_MessageID m) <> "" /\ TrimSpace (m_EndToEndID m) <> "".
Proof.
  unfold transfer_identity. intros E Hz. injection E as Eid _ Eacc _ _ _ _ _ Ekey _ _ _ _ _ _ Ecr.
  unfold Simulator_Submit, time_UTC, time_IsZero. rewrite Eid, Eacc, Ekey, Ecr.
  apply Z.eqb_neq in Hz. rewrite Hz.
  eexists. split_and!; [reflexivity..| |]; by apply TrimSpace_visible.
Qed.
