(* ===== verification/RateLimit.v ===== *)
(** * Rate limiters ([internal/ratelimit])

    The token bucket of [limiter.go], which the service uses for the tenant and
    DICT budgets, and the fixed-window, sliding-window and leaky-bucket limiters
    of [strategies.go]. Each limiter is a map from keys to the key's state;
    [Allow] takes the clock reading as an argument. [Strategy] is the interface
    of the package; [granted] counts the requests of one key a limiter lets
    through in a sequence of calls for any keys. The main theorems bound it: an
    amortised argument on a credit function, proved once ([granted_le_credit])
    and used for three limiters, and an exact rolling-window bound for the
    sliding-window log. *)

From S2P Require Import Prelude.

(** ** The interface *)

Class Strategy (L : Type) := Allow : Time -> string -> L -> bool * L.

(** The requests for [key] granted in a sequence of calls. *)
Fixpoint granted `{Strategy L} (key : string) (calls : list (Time * string)) (l : L) : Z :=
  match calls with
  | [] => 0
  | (now, k) :: rest =>
      let '(b, l') := Allow now k l in
      (if (k ==s key) && b then 1 else 0) + granted key rest l'
  end.

(** The limiter after a sequence of calls. *)
Fixpoint after `{Strategy L} (calls : list (Time * string)) (l : L) : L :=
  match calls with
  | [] => l
  | (now, k) :: rest => after rest (snd (Allow now k l))
  end.

(** ** Token bucket *)

Record BucketConfig := mkBucketConfig {
  bc_Capacity : Z;
  bc_RefillTokens : Z;
  bc_RefillEvery : Duration
}.

Record bucket := mkBucket { bk_tokens : Z; bk_seenAt : Time }.

Record Limiter := mkLimiter {
  l_config : BucketConfig;
  l_buckets : gmap string bucket
}.

Definition ratelimit_New (config : BucketConfig) : Limiter :=
  let capacity := if bc_Capacity config <=? 0 then 60 else bc_Capacity config in
  let refillTokens := if bc_RefillTokens config <=? 0 then capacity
                      else bc_RefillTokens config in
  let refillEvery := if bc_RefillEvery config <=? 0 then Minute
                     else bc_RefillEvery config in
  mkLimiter (mkBucketConfig capacity refillTokens refillEvery) ∅.

(** The refill step of [Allow] on the bucket of a known key. *)
Definition bucket_refill (c : BucketConfig) (now : Time) (b : bucket) : bucket :=
  let elapsed := time_Sub now (bk_seenAt b) in
  if bc_RefillEvery c <=? elapsed then
    let periods := Z.quot elapsed (bc_RefillEvery c) in
    let tokens := int64 (bk_tokens b + int64 (periods * bc_RefillTokens c)) in
    let tokens := if bc_Capacity c <? tokens then bc_Capacity c else tokens in
    mkBucket tokens (time_Add (bk_seenAt b) (int64 (periods * bc_RefillEvery c)))
  else b.

Definition Limiter_Allow (now : Time) (key : string) (l : Limiter) : bool * Limiter :=
  match l_buckets l !! key with
  | None =>
      (true, mkLimiter (l_config l)
               (<[key := mkBucket (int64 (bc_Capacity (l_config l) - 1)) now]> (l_buckets l)))
  | Some b =>
      let b := bucket_refill (l_config l) now b in
      if bk_tokens b <=? 0 then
        (false, mkLimiter (l_config l) (<[key := b]> (l_buckets l)))
      else
        (true, mkLimiter (l_config l)
                 (<[key := mkBucket (int64 (bk_tokens b - 1)) (bk_seenAt b)]> (l_buckets l)))
  end.

#[export] Instance Limiter_Strategy : Strategy Limiter := Limiter_Allow.

(** ** Fixed window *)

Record FixedWindowConfig := mkFixedWindowConfig { fc_Limit : Z; fc_Window : Duration }.
Record fixedWindow := mkFixedWindow { fw_start : Time; fw_count : Z }.

Record FixedWindowLimiter := mkFixedWindowLimiter {
  fl_config : FixedWindowConfig;
  fl_windows : gmap string fixedWindow
}.

Definition NewFixedWindow (config : FixedWindowConfig) : FixedWindowLimiter :=
  mkFixedWindowLimiter
    (mkFixedWindowConfig (if fc_Limit config <=? 0 then 60 else fc_Limit config)
       (if fc_Window config <=? 0 then Minute else fc_Window config)) ∅.

Definition FixedWindowLimiter_Allow (now : Time) (key : string) (l : FixedWindowLimiter) : bool * FixedWindowLimiter :=
  let window := default (mkFixedWindow 0 0) (fl_windows l !! key) in
  if time_IsZero (fw_start window) ||
     (fc_Window (fl_config l) <=? time_Sub now (fw_start window)) then
    (true, mkFixedWindowLimiter (fl_config l)
             (<[key := mkFixedWindow now 1]> (fl_windows l)))
  else if fc_Limit (fl_config l) <=? fw_count window then (false, l)
  else
    (true, mkFixedWindowLimiter (fl_config l)
             (<[key := mkFixedWindow (fw_start window) (int64 (fw_count window + 1))]>
                (fl_windows l))).

#[export] Instance FixedWindowLimiter_Strategy : Strategy FixedWindowLimiter :=
  FixedWindowLimiter_Allow.

(** ** Sliding window *)

Record SlidingWindowConfig := mkSlidingWindowConfig { sc_Limit : Z; sc_Window : Duration }.

Record SlidingWindowLimiter := mkSlidingWindowLimiter {
  sl_config : SlidingWindowConfig;
  sl_events : gmap string (list Time)
}.

Definition NewSlidingWindow (config : SlidingWindowConfig) : SlidingWindowLimiter :=
  mkSlidingWindowLimiter
    (mkSlidingWindowConfig (if sc_Limit config <=? 0 then 60 else sc_Limit config)
       (if sc_Window config <=? 0 then Minute else sc_Window config)) ∅.

(** The [keepFrom] loop and the copy that drops the expired prefix. *)
Fixpoint drop_expired (cutoff : Time) (events : list Time) : list Time :=
  match events with
  | [] => []
  | e :: rest => if negb (time_After e cutoff) then drop_expired cutoff rest else events
  end.

Definition SlidingWindowLimiter_Allow (now : Time) (key : string) (l : SlidingWindowLimiter) : bool * SlidingWindowLimiter :=
  let cutoff := time_Add now (- sc_Window (sl_config l)) in
  let events := drop_expired cutoff (default [] (sl_events l !! key)) in
  if sc_Limit (sl_config l) <=? Z.of_nat (length events) then
    (false, mkSlidingWindowLimiter (sl_config l) (<[key := events]> (sl_events l)))
  else
    (true, mkSlidingWindowLimiter (sl_config l) (<[key := events ++ [now]]> (sl_events l))).

#[export] Instance SlidingWindowLimiter_Strategy : Strategy SlidingWindowLimiter :=
  SlidingWindowLimiter_Allow.

(** ** Leaky bucket *)

Record LeakyBucketConfig := mkLeakyBucketConfig { lc_Capacity : Z; lc_LeakEvery : Duration }.
Record leakyBucket := mkLeakyBucket { lb_level : Z; lb_seenAt : Time }.

Record LeakyBucketLimiter := mkLeakyBucketLimiter {
  ll_config : LeakyBucketConfig;
  ll_buckets : gmap string leakyBucket
}.

Definition NewLeakyBucket (config : LeakyBucketConfig) : LeakyBucketLimiter :=
  mkLeakyBucketLimiter
    (mkLeakyBucketConfig (if lc_Capacity config <=? 0 then 60 else lc_Capacity config)
       (if lc_LeakEvery config <=? 0 then Second else lc_LeakEvery config)) ∅.

Definition bucket_leak (c : LeakyBucketConfig) (now : Time) (b : leakyBucket) : leakyBucket :=
  let elapsed := time_Sub now (lb_seenAt b) in
  if lc_LeakEvery c <=? elapsed then
    let leaked := Z.quot elapsed (lc_LeakEvery c) in
    let level := int64 (lb_level b - leaked) in
    let level := if level <? 0 then 0 else level in
    mkLeakyBucket level (time_Add (lb_seenAt b) (int64 (leaked * lc_LeakEvery c)))
  else b.

Definition LeakyBucketLimiter_Allow (now : Time) (key : string) (l : LeakyBucketLimiter) : bool * LeakyBucketLimiter :=
  let b := default (mkLeakyBucket 0 0) (ll_buckets l !! key) in
  if time_IsZero (lb_seenAt b) then
    (true, mkLeakyBucketLimiter (ll_config l)
             (<[key := mkLeakyBucket 1 now]> (ll_buckets l)))
  else
    let b := bucket_leak (ll_config l) now b in
    if lc_Capacity (ll_config l) <=? lb_level b then
      (false, mkLeakyBucketLimiter (ll_config l) (<[key := b]> (ll_buckets l)))
    else
      (true, mkLeakyBucketLimiter (ll_config l)
               (<[key := mkLeakyBucket (int64 (lb_level b + 1)) (lb_seenAt b)]>
                  (ll_buckets l))).

#[export] Instance LeakyBucketLimiter_Strategy : Strategy LeakyBucketLimiter :=
  LeakyBucketLimiter_Allow.

(** ** The amortised bound *)

Section Credit.
Context `{Strategy L} (key : string) (Inv : L -> Prop) (credit : L -> Z).
Context (first last : Time).

(** Every call within [[first, last]] keeps the invariant and pays for what it
    grants to [key]. *)
Definition pays : Prop := forall l now k b l',
  Inv l -> first <= now <= last -> Allow now k l = (b, l') ->
  Inv l' /\ credit l' + (if (k ==s key) && b then 1 else 0) <= credit l.

Lemma granted_le_credit calls l :
  pays -> (forall l, Inv l -> 0 <= credit l) -> Inv l ->
  Forall (fun c => first <= fst c <= last) calls ->
  granted key calls l <= credit l.
Proof.
  intros Hpay Hpos. revert l. induction calls as [|[now k] calls IH]; intros l Hl Hc.
  - by apply Hpos.
  - inversion_clear Hc as [|? ? Hnow Hrest]. cbn.
    destruct (Allow now k l) as [b l'] eqn:E.
    destruct (Hpay _ _ _ _ _ Hl Hnow E) as [Hl' Hcr].
    specialize (IH l' Hl' Hrest). lia.
Qed.

Lemma after_inv calls l :
  pays -> Inv l -> Forall (fun c => first <= fst c <= last) calls -> Inv (after calls l).
Proof.
  intros Hpay. revert l. induction calls as [|[now k] calls IH]; intros l Hl Hc; [done|].
  inversion_clear Hc as [|? ? Hnow Hrest]. cbn. apply IH; [|done].
  destruct (Allow now k l) as [b l'] eqn:E. by apply (Hpay _ _ _ _ _ Hl Hnow E).
Qed.
End Credit.

(** Elapsed time in whole periods, as [Allow] computes it. *)
Lemma periods_spec now seen every :
  0 < every -> every <= time_Sub now seen ->
  let p := Z.quot (time_Sub now seen) every in
  1 <= p <= max_int64 / every /\ p * every <= max_int64 /\ seen + p * every <= now /\
  int64 (p * every) = p * every.
Proof.
  intros He Hle p. unfold time_Sub in *.
  set (d := Z.max _ _) in *. assert (Hd : d <= now - seen /\ d <= max_int64) by int_lia.
  assert (Hp : p = d / every) by (apply Z.quot_div_nonneg; lia).
  assert (H1 : 1 <= p) by (rewrite Hp; apply Z.div_le_lower_bound; lia).
  assert (H2 : p * every <= d) by (rewrite Hp, Z.mul_comm; apply Z.mul_div_le; lia).
  assert (H3 : p <= max_int64 / every) by (rewrite Hp; apply Z.div_le_mono; lia).
  split_and!; try lia. apply int64_id. int_unfold. nia.
Qed.

(** Advancing the clock of a bucket by [p] periods removes [p] future periods. *)
Lemma future_periods last seen every p :
  0 < every -> (last - (seen + p * every)) / every = (last - seen) / every - p.
Proof.
  intros He. replace (last - (seen + p * every)) with (last - seen + (- p) * every) by ring.
  rewrite Z.div_add by lia. lia.
Qed.

(** ** Token bucket: bounds *)

(** A configuration [New] returns whose refill arithmetic does not overflow. *)
Definition bucket_config_ok (c : BucketConfig) : Prop :=
  1 <= bc_Capacity c /\ 1 <= bc_RefillTokens c /\
  1 <= bc_RefillEvery c <= max_int64 /\
  bc_Capacity c + bc_RefillTokens c * (max_int64 / bc_RefillEvery c) <= max_int64.

Definition bucket_ok (c : BucketConfig) (b : bucket) : Prop :=
  0 <= bk_tokens b <= bc_Capacity c.

(** Unless the elapsed time saturates, the refill leaves less than one period. *)
Lemma refill_recent c now b :
  1 <= bc_RefillEvery c -> now - bk_seenAt b <= max_int64 ->
  now - bc_RefillEvery c < bk_seenAt (bucket_refill c now b).
Proof.
  intros He Hsat. unfold bucket_refill.
  destruct (bc_RefillEvery c <=? time_Sub now (bk_seenAt b)) eqn:Ee; b2p.
  - destruct (periods_spec _ _ _ (ltac:(lia) : 0 < bc_RefillEvery c) Ee) as (_ & _ & _ & Hw).
    cbv zeta in Hw. rewrite Hw. unfold time_Add. cbn [bk_seenAt].
    assert (Ed : time_Sub now (bk_seenAt b) = now - bk_seenAt b)
      by (unfold time_Sub in *; int_lia).
    rewrite Ed in *. rewrite Z.quot_div_nonneg by lia.
    pose proof (Z.mod_pos_bound (now - bk_seenAt b) (bc_RefillEvery c)).
    pose proof (Z.div_mod (now - bk_seenAt b) (bc_RefillEvery c)). lia.
  - unfold time_Sub in Ee. int_lia.
Qed.

Lemma refill_spec c now b :
  bucket_config_ok c -> bucket_ok c b ->
  let b' := bucket_refill c now b in
  bucket_ok c b' /\ bk_seenAt b <= bk_seenAt b' <= Z.max now (bk_seenAt b) /\
  (bc_RefillEvery c <= now - bk_seenAt b -> 1 <= bk_tokens b') /\
  forall last,
    bk_tokens b' + bc_RefillTokens c * ((last - bk_seenAt b') / bc_RefillEvery c) <=
    bk_tokens b + bc_RefillTokens c * ((last - bk_seenAt b) / bc_RefillEvery c).
Proof.
  intros (Hcap & Hr & He & Hov) Hb b'. unfold bucket_ok in *.
  unfold b', bucket_refill.
  destruct (bc_RefillEvery c <=? time_Sub now (bk_seenAt b)) eqn:Ee; b2p.
  - destruct (periods_spec _ _ _ (ltac:(lia) : 0 < bc_RefillEvery c) Ee)
      as (Hp & Hpe & Hnow & Hw). cbv zeta in Hp, Hpe, Hnow, Hw.
    set (p := Z.quot _ _) in *. rewrite Hw.
    assert (Hpr : p * bc_RefillTokens c <= bc_RefillTokens c * (max_int64 / bc_RefillEvery c))
      by nia.
    assert (Hpos : 1 <= p * bc_RefillTokens c) by nia.
    rewrite (int64_id (p * bc_RefillTokens c)) by (int_unfold; lia).
    rewrite (int64_id (bk_tokens b + _)) by (int_unfold; lia).
    unfold time_Add. cbn [bk_tokens bk_seenAt].
    destruct (bc_Capacity c <? _) eqn:Ec; b2p.
    all: split_and!; try nia; intros last; rewrite future_periods by lia; nia.
  - split_and!; try lia. intros Hge. exfalso. unfold time_Sub in Ee. int_lia.
Qed.

(** What the bound needs of a limiter over the period [[first, last]]. *)
Definition limiter_ok (c : BucketConfig) (first last : Time) (l : Limiter) : Prop :=
  l_config l = c /\
  forall k b, l_buckets l !! k = Some b -> bucket_ok c b /\ first <= bk_seenAt b <= last.

(** The tokens a key can still draw until [last]. *)
Definition limiter_credit (c : BucketConfig) (first last : Time) (key : string)
    (l : Limiter) : Z :=
  match l_buckets l !! key with
  | Some b => bk_tokens b + bc_RefillTokens c * ((last - bk_seenAt b) / bc_RefillEvery c)
  | None => bc_Capacity c + bc_RefillTokens c * ((last - first) / bc_RefillEvery c)
  end.

Lemma limiter_credit_pos c first last key l :
  bucket_config_ok c -> first <= last -> limiter_ok c first last l ->
  0 <= limiter_credit c first last key l.
Proof.
  intros (Hcap & Hr & He & _) Hfl [_ Hb]. unfold limiter_credit.
  destruct (l_buckets l !! key) as [b|] eqn:E.
  - destruct (Hb _ _ E) as [Hok Hs]. unfold bucket_ok in Hok.
    assert (0 <= (last - bk_seenAt b) / bc_RefillEvery c) by (apply Z.div_pos; lia). nia.
  - assert (0 <= (last - first) / bc_RefillEvery c) by (apply Z.div_pos; lia). nia.
Qed.

(** The answer of [Allow] on the state of the key it is asked about, and the
    state it stores for it. *)
Definition bucket_answer (c : BucketConfig) (now : Time) (ob : option bucket)
    (b : bool) (bk : bucket) : Prop :=
  match ob with
  | None => b = true /\ bk = mkBucket (int64 (bc_Capacity c - 1)) now
  | Some bk0 =>
      let r := bucket_refill c now bk0 in
      if bk_tokens r <=? 0 then b = false /\ bk = r
      else b = true /\ bk = mkBucket (int64 (bk_tokens r - 1)) (bk_seenAt r)
  end.

Lemma Limiter_Allow_inv now k l b l' :
  Limiter_Allow now k l = (b, l') ->
  exists bk, l' = mkLimiter (l_config l) (<[k := bk]> (l_buckets l)) /\
    bucket_answer (l_config l) now (l_buckets l !! k) b bk.
Proof.
  unfold Limiter_Allow, bucket_answer. intros E.
  destruct (l_buckets l !! k); cbv zeta in *; [destruct (_ <=? 0)|]; simplify_eq; eauto.
Qed.

(** The stored state is well-formed, and pays out of the refilled one. *)
Lemma bucket_answer_spec c now ob b bk :
  bucket_config_ok c -> (forall b0, ob = Some b0 -> bucket_ok c b0) ->
  bucket_answer c now ob b bk ->
  bucket_ok c bk /\
  bk_tokens bk + (if b then 1 else 0) =
    match ob with Some b0 => bk_tokens (bucket_refill c now b0) | None => bc_Capacity c end /\
  bk_seenAt bk =
    match ob with Some b0 => bk_seenAt (bucket_refill c now b0) | None => now end.
Proof.
  intros Hc Hob E. pose proof Hc as (Hcap & Hr & He & Hov).
  assert (Hmax : 0 <= max_int64 / bc_RefillEvery c) by (apply Z.div_pos; int_lia).
  unfold bucket_answer in E. unfold bucket_ok in *. destruct ob as [b0|]; cbv zeta in E.
  - destruct (refill_spec c now b0 Hc (Hob _ eq_refl)) as (Hok' & _).
    set (r := bucket_refill c now b0) in *. unfold bucket_ok in Hok'.
    destruct (_ <=? 0) eqn:Et; b2p; destruct E as [-> ->]; cbn;
      rewrite ?int64_id by (int_unfold; nia); split_and!; lia.
  - destruct E as [-> ->]. cbn. rewrite int64_id by (int_unfold; nia). split_and!; lia.
Qed.

(** A credit on the state of one key that pays for that key's grants pays for
    the limiter's. *)
Lemma limiter_pays_with c lo hi first last key (f : option bucket -> Z) :
  bucket_config_ok c -> lo <= first -> last <= hi ->
  (forall now ob b bk, first <= now <= last ->
     (forall b0, ob = Some b0 -> bucket_ok c b0 /\ lo <= bk_seenAt b0 <= hi) ->
     bucket_answer c now ob b bk -> f (Some bk) + (if b then 1 else 0) <= f ob) ->
  pays key (limiter_ok c lo hi) (fun l => f (l_buckets l !! key)) first last.
Proof.
  intros Hc Hlo Hhi Hf l now k b l' [Hcfg Hb] Hnow E.
  apply Limiter_Allow_inv in E as (bk & -> & E). rewrite Hcfg in *.
  assert (Hk : forall b0, l_buckets l !! k = Some b0 ->
    bucket_ok c b0 /\ lo <= bk_seenAt b0 <= hi) by eauto.
  specialize (Hf now _ b bk Hnow Hk E).
  destruct (bucket_answer_spec c now _ b bk Hc (fun b0 H => proj1 (Hk b0 H)) E)
    as (Hok & _ & Hs).
  split.
  - split; [done|]. cbn. intros k' b' Hk'. rewrite lookup_insert in Hk'.
    case_decide; simplify_eq; [|by eauto]. split; [done|]. rewrite Hs.
    destruct (l_buckets l !! k') as [b0|]; [|lia].
    destruct (Hk _ eq_refl) as [Hok0 ?].
    destruct (refill_spec _ now b0 Hc Hok0) as (_ & ? & _). lia.
  - cbn. destruct (k ==s key) eqn:Ekey; b2p; cbn.
    + subst k. by rewrite lookup_insert_eq.
    + rewrite lookup_insert_ne by done. lia.
Qed.

Lemma limiter_pays c first last key :
  bucket_config_ok c ->
  pays key (limiter_ok c first last) (limiter_credit c first last key) first last.
Proof.
  intros Hc. pose proof Hc as (Hcap & Hr & He & _).
  apply (limiter_pays_with c first last first last key (fun ob =>
    match ob with
    | Some b => bk_tokens b + bc_RefillTokens c * ((last - bk_seenAt b) / bc_RefillEvery c)
    | None => bc_Capacity c + bc_RefillTokens c * ((last - first) / bc_RefillEvery c)
    end)); [done|lia..|].
  intros now ob b bk Hnow Hob E.
  destruct (bucket_answer_spec c now ob b bk Hc (fun b0 H => proj1 (Hob b0 H)) E)
    as (_ & Ht & Hs). rewrite Hs. destruct ob as [b0|].
  - destruct (refill_spec c now b0 Hc (proj1 (Hob _ eq_refl))) as (_ & _ & _ & Hcr).
    specialize (Hcr last). lia.
  - assert ((last - now) / bc_RefillEvery c <= (last - first) / bc_RefillEvery c)
      by (apply Z.div_le_mono; lia). nia.
Qed.

(** The refill periods that may end in a window of length [n] that starts at any
    point of a period. *)
Definition periods_up (n every : Z) : Z := (n + every - 1) / every.

(** What a key can draw between [first] and [last] from a limiter in use: the
    bucket as it stands if it was refilled less than a period before [first], and
    at most a full bucket otherwise. *)
Definition window_credit (c : BucketConfig) (first last : Time) (ob : option bucket) : Z :=
  match ob with
  | Some b =>
      if first - bc_RefillEvery c <? bk_seenAt b then
        bk_tokens b + bc_RefillTokens c * ((last - bk_seenAt b) / bc_RefillEvery c)
      else bc_Capacity c + bc_RefillTokens c * periods_up (last - first) (bc_RefillEvery c)
  | None => bc_Capacity c + bc_RefillTokens c * periods_up (last - first) (bc_RefillEvery c)
  end.

Lemma recent_periods c first last seen :
  1 <= bc_RefillTokens c -> 1 <= bc_RefillEvery c -> first - bc_RefillEvery c < seen ->
  bc_RefillTokens c * ((last - seen) / bc_RefillEvery c) <=
    bc_RefillTokens c * periods_up (last - first) (bc_RefillEvery c).
Proof.
  intros Hr He Hs. apply Z.mul_le_mono_nonneg_l; [lia|]. apply Z.div_le_mono; lia.
Qed.

Lemma window_credit_bounds c first last ob :
  bucket_config_ok c -> first <= last ->
  (forall b, ob = Some b -> bucket_ok c b /\ bk_seenAt b <= last) ->
  0 <= window_credit c first last ob <=
    bc_Capacity c + bc_RefillTokens c * periods_up (last - first) (bc_RefillEvery c).
Proof.
  intros (Hcap & Hr & He & _) Hfl Hob.
  assert (0 <= periods_up (last - first) (bc_RefillEvery c))
    by (apply Z.div_pos; lia).
  unfold window_credit, bucket_ok in *. destruct ob as [b|]; [|nia].
  destruct (Hob b eq_refl) as [Hok Hs]. destruct (_ <? _) eqn:E; b2p; [|nia].
  pose proof (recent_periods c first last _ Hr (proj1 He) E).
  assert (0 <= (last - bk_seenAt b) / bc_RefillEvery c) by (apply Z.div_pos; lia). nia.
Qed.

Lemma window_pays c start first last key :
  bucket_config_ok c -> start <= first <= last -> last - start <= max_int64 ->
  pays key (limiter_ok c start last)
    (fun l => window_credit c first last (l_buckets l !! key)) first last.
Proof.
  intros Hc Hfl Hsat. pose proof Hc as (Hcap & Hr & He & _).
  apply limiter_pays_with; [done|lia..|].
  intros now ob b bk Hnow Hob E.
  destruct (bucket_answer_spec c now ob b bk Hc (fun b0 H => proj1 (Hob b0 H)) E)
    as (_ & Ht & Hs). unfold window_credit. rewrite Hs.
  assert (Hrec : first - bc_RefillEvery c < bk_seenAt bk).
  { rewrite Hs. destruct ob as [b0|]; [|lia]. destruct (Hob _ eq_refl) as [_ ?].
    pose proof (refill_recent c now b0 (proj1 He)). lia. }
  pose proof (recent_periods c first last _ Hr (proj1 He) Hrec).
  apply Z.ltb_lt in Hrec. rewrite Hs in *. rewrite Hrec. destruct ob as [b0|]; [|lia].
  destruct (Hob _ eq_refl) as [Hok _].
  destruct (refill_spec c now b0 Hc Hok) as (Hok' & _ & _ & Hcr). specialize (Hcr last).
  unfold bucket_ok in Hok'. destruct (_ <? bk_seenAt b0); lia.
Qed.

(** C39: whatever calls for whatever keys a token bucket limiter has served
    before, in a window from [first] to [last] it grants one key at most its
    capacity plus one refill for every refill period the window reaches into; a
    limiter that starts empty grants at most the refill of the whole periods that
    fit. The configuration must be one whose refill arithmetic does not overflow,
    and the clock must not span more than 292 years, where [Time.Sub]
    saturates. *)
Theorem token_bucket_rate_bound config key before calls start first last :
  let l := ratelimit_New config in
  let c := l_config l in
  bucket_config_ok c -> start <= first <= last -> last - start <= max_int64 ->
  Forall (fun call => start <= fst call <= first) before ->
  Forall (fun call => first <= fst call <= last) calls ->
  granted key calls (after before l) <=
    bc_Capacity c + bc_RefillTokens c * periods_up (last - first) (bc_RefillEvery c) /\
  granted key calls l <=
    bc_Capacity c + bc_RefillTokens c * ((last - first) / bc_RefillEvery c).
Proof.
  intros l c Hc Hfl Hsat Hbefore Hcalls. split.
  - assert (Hl : limiter_ok c start last (after before l)).
    { destruct (after_inv key (limiter_ok c start first) _ start first before l
        (limiter_pays c start first key Hc)) as [Hcfg Hb]; [done..|].
      split; [done|]. intros k b Hk. destruct (Hb k b Hk). split; [done|lia]. }
    transitivity (window_credit c first last (l_buckets (after before l) !! key)).
    + apply (granted_le_credit key (limiter_ok c start last)
        (fun l => window_credit c first last (l_buckets l !! key)) first last); auto.
      { by apply (window_pays c start). }
      intros l0 [_ Hb]. apply window_credit_bounds; [done|lia|].
      intros b Hk. destruct (Hb _ _ Hk). split; [done|lia].
    + apply window_credit_bounds; [done|lia|]. intros b Hk.
      destruct (proj2 Hl _ _ Hk). split; [done|lia].
  - assert (Hl : limiter_ok c first last l) by done.
    apply (granted_le_credit key (limiter_ok c first last)
      (limiter_credit c first last key) first last calls l);
      auto using limiter_pays. intros. apply limiter_credit_pos; [done|lia|done].
Qed.

(** A key is never starved: once a refill period has passed
    since its bucket was last refilled, or when it has no bucket, the next request
    is granted. *)
Theorem token_bucket_no_starvation l now key :
  bucket_config_ok (l_config l) ->
  (forall b, l_buckets l !! key = Some b -> bucket_ok (l_config l) b /\
     bc_RefillEvery (l_config l) <= now - bk_seenAt b) ->
  fst (Limiter_Allow now key l) = true.
Proof.
  intros Hc Hb. unfold Limiter_Allow.
  destruct (l_buckets l !! key) as [b|]; [|done].
  destruct (Hb b eq_refl) as [Hok Hw].
  destruct (refill_spec _ now b Hc Hok) as (_ & _ & Hpos & _).
  specialize (Hpos Hw). cbv zeta. by rewrite (proj2 (Z.leb_gt _ 0)) by lia.
Qed.

(** ** Fixed window: bounds *)

Lemma time_Sub_ge now seen w : 0 < w -> w <= time_Sub now seen -> w <= now - seen.
Proof. unfold time_Sub. int_lia. Qed.

Definition fixed_config_ok (c : FixedWindowConfig) : Prop :=
  1 <= fc_Limit c <= max_int64 /\ 1 <= fc_Window c <= max_int64.

Definition fixed_ok (c : FixedWindowConfig) (first last : Time) (l : FixedWindowLimiter) : Prop :=
  fl_config l = c /\
  forall k w, fl_windows l !! k = Some w ->
    1 <= fw_count w <= fc_Limit c /\ first <= fw_start w <= last.

Definition fixed_credit (c : FixedWindowConfig) (first last : Time) (key : string)
    (l : FixedWindowLimiter) : Z :=
  match fl_windows l !! key with
  | Some w => fc_Limit c - fw_count w + fc_Limit c * ((last - fw_start w) / fc_Window c)
  | None => fc_Limit c * ((last - first) / fc_Window c + 1)
  end.

Lemma fixed_credit_pos c first last key l :
  fixed_config_ok c -> first <= last -> fixed_ok c first last l ->
  0 <= fixed_credit c first last key l.
Proof.
  intros (Hl & Hw) Hfl [_ Hb]. unfold fixed_credit.
  destruct (fl_windows l !! key) as [w|] eqn:E.
  - destruct (Hb _ _ E) as [Hok Hs].
    assert (0 <= (last - fw_start w) / fc_Window c) by (apply Z.div_pos; lia). nia.
  - assert (0 <= (last - first) / fc_Window c) by (apply Z.div_pos; lia). nia.
Qed.

(** Opening a window now costs at least the window it replaces. *)
Lemma fixed_reset c first last now k l :
  fixed_config_ok c -> 0 < first -> first <= now <= last -> fixed_ok c first last l ->
  (forall w, fl_windows l !! k = Some w -> fc_Window c <= now - fw_start w) ->
  fc_Limit c + fc_Limit c * ((last - now) / fc_Window c) <= fixed_credit c first last k l.
Proof.
  intros (Hl & Hw) Hf Hnow [_ Hb] Hold. unfold fixed_credit.
  destruct (fl_windows l !! k) as [w|] eqn:E.
  - destruct (Hb _ _ E) as [Hok Hs]. specialize (Hold w eq_refl).
    assert ((last - now) / fc_Window c <= (last - fw_start w) / fc_Window c - 1).
    { rewrite <- (future_periods last (fw_start w) (fc_Window c) 1) by lia.
      apply Z.div_le_mono; lia. }
    nia.
  - assert ((last - now) / fc_Window c <= (last - first) / fc_Window c)
      by (apply Z.div_le_mono; lia). nia.
Qed.

Lemma fixed_pays c first last key :
  fixed_config_ok c -> 0 < first ->
  pays key (fixed_ok c first last) (fixed_credit c first last key) first last.
Proof.
  intros Hc Hf l now k b l' Hl Hnow E. pose proof Hc as (Hlim & Hw).
  pose proof Hl as [Hcfg Hb].
  cbv [Allow FixedWindowLimiter_Strategy FixedWindowLimiter_Allow] in E. rewrite Hcfg in E.
  destruct (decide (b = false)) as [->|Hb1].
  { cases_in E; simplify_eq. split; [done|]. rewrite andb_false_r. lia. }
  assert (b = true) as -> by by destruct b.
  assert (Hst : exists w, l' = mkFixedWindowLimiter c (<[k := w]> (fl_windows l)) /\
    1 <= fw_count w <= fc_Limit c /\ first <= fw_start w <= last /\
    fc_Limit c - fw_count w + fc_Limit c * ((last - fw_start w) / fc_Window c) + 1
      <= fixed_credit c first last k l).
  { destruct (_ || _) eqn:Eo in E.
    - simplify_eq. eexists. split; [reflexivity|]. cbn. split_and!; try lia.
      enough (fc_Limit (fl_config l) + fc_Limit (fl_config l) *
        ((last - now) / fc_Window (fl_config l)) <=
        fixed_credit (fl_config l) first last k l) by lia.
      apply fixed_reset; auto. intros w Ew. rewrite Ew in Eo. cbn in Eo.
      apply orb_true_elim in Eo as [Ez|Ez]; b2p.
      + unfold time_IsZero in Ez. b2p. destruct (Hb _ _ Ew). lia.
      + apply time_Sub_ge; lia.
    - destruct (fl_windows l !! k) as [w|] eqn:Ew; cbn in Eo, E; [|done].
      destruct (Hb _ _ Ew) as [Hcnt Hs].
      destruct (_ <=? _) eqn:El in E; b2p; simplify_eq.
      eexists. split; [reflexivity|]. cbn. rewrite int64_id by int_lia.
      unfold fixed_credit. rewrite Ew. split_and!; lia. }
  destruct Hst as (w & -> & Hcnt & Hs & Hcr). split.
  - split; [done|]. cbn. intros k' w' Hk'. rewrite lookup_insert in Hk'.
    case_decide; simplify_eq; eauto.
  - destruct (k ==s key) eqn:Ekey; b2p; cbn.
    + subst k. unfold fixed_credit at 1. cbn. rewrite lookup_insert_eq. done.
    + unfold fixed_credit. cbn. rewrite lookup_insert_ne by done. lia.
Qed.

(** A fixed-window limiter grants one key at most its limit in
    each window that fits in the period, plus one window: the boundary burst of
    [docs/rate-limiting.md] is exactly the last summand. *)
Theorem fixed_window_rate_bound config key calls first last :
  let l := NewFixedWindow config in
  fixed_config_ok (fl_config l) -> 0 < first <= last ->
  Forall (fun c => first <= fst c <= last) calls ->
  granted key calls l <=
    fc_Limit (fl_config l) * ((last - first) / fc_Window (fl_config l) + 1).
Proof.
  intros l Hc Hfl Hcalls. set (c := fl_config l) in *.
  assert (Hl : fixed_ok c first last l) by done.
  apply (granted_le_credit key (fixed_ok c first last)
    (fixed_credit c first last key) first last calls l); auto.
  - apply fixed_pays; [done|lia].
  - intros. apply fixed_credit_pos; [done|lia|done].
Qed.

(** ** Leaky bucket: bounds *)

Definition leaky_config_ok (c : LeakyBucketConfig) : Prop :=
  1 <= lc_Capacity c < max_int64 /\ 1 <= lc_LeakEvery c <= max_int64.

Definition leaky_ok (c : LeakyBucketConfig) (first last : Time) (l : LeakyBucketLimiter) : Prop :=
  ll_config l = c /\
  forall k b, ll_buckets l !! k = Some b ->
    0 <= lb_level b <= lc_Capacity c /\ first <= lb_seenAt b <= last.

Definition leaky_credit (c : LeakyBucketConfig) (first last : Time) (key : string)
    (l : LeakyBucketLimiter) : Z :=
  match ll_buckets l !! key with
  | Some b => lc_Capacity c - lb_level b + (last - lb_seenAt b) / lc_LeakEvery c
  | None => lc_Capacity c + (last - first) / lc_LeakEvery c
  end.

Lemma leaky_credit_pos c first last key l :
  leaky_config_ok c -> first <= last -> leaky_ok c first last l ->
  0 <= leaky_credit c first last key l.
Proof.
  intros (Hl & Hw) Hfl [_ Hb]. unfold leaky_credit.
  destruct (ll_buckets l !! key) as [b|] eqn:E.
  - destruct (Hb _ _ E) as [Hok Hs].
    assert (0 <= (last - lb_seenAt b) / lc_LeakEvery c) by (apply Z.div_pos; lia). lia.
  - assert (0 <= (last - first) / lc_LeakEvery c) by (apply Z.div_pos; lia). lia.
Qed.

Lemma leak_spec c now b :
  leaky_config_ok c -> 0 <= lb_level b <= lc_Capacity c ->
  let b' := bucket_leak c now b in
  0 <= lb_level b' <= lb_level b /\
  lb_seenAt b <= lb_seenAt b' <= Z.max now (lb_seenAt b) /\
  forall last,
    lc_Capacity c - lb_level b' + (last - lb_seenAt b') / lc_LeakEvery c <=
    lc_Capacity c - lb_level b + (last - lb_seenAt b) / lc_LeakEvery c.
Proof.
  intros (Hcap & He) Hb b'. unfold b', bucket_leak.
  destruct (_ <=? _) eqn:Ee; b2p; [|split_and!; intros; lia].
  destruct (periods_spec _ _ _ (ltac:(lia) : 0 < lc_LeakEvery c) Ee)
    as (Hp & Hpe & Hnow & Hw). cbv zeta in Hp, Hpe, Hnow, Hw.
  set (p := Z.quot _ _) in *. rewrite Hw.
  assert (p <= max_int64) by nia.
  rewrite (int64_id (lb_level b - p)) by int_lia.
  unfold time_Add. cbn [lb_level lb_seenAt].
  destruct (_ <? 0) eqn:Ec; b2p.
  all: split_and!; try nia; intros last; rewrite future_periods by lia; lia.
Qed.

Lemma leaky_pays c first last key :
  leaky_config_ok c -> 0 < first ->
  pays key (leaky_ok c first last) (leaky_credit c first last key) first last.
Proof.
  intros Hc Hf l now k g l' [Hcfg Hb] Hnow E. pose proof Hc as (Hcap & He).
  cbv [Allow LeakyBucketLimiter_Strategy LeakyBucketLimiter_Allow] in E. rewrite Hcfg in E.
  assert (Hst : exists b, l' = mkLeakyBucketLimiter c (<[k := b]> (ll_buckets l)) /\
    0 <= lb_level b <= lc_Capacity c /\ first <= lb_seenAt b <= last /\
    lc_Capacity c - lb_level b + (last - lb_seenAt b) / lc_LeakEvery c +
      (if g then 1 else 0) <= leaky_credit c first last k l).
  { unfold leaky_credit. destruct (ll_buckets l !! k) as [b|] eqn:Ek; cbn in E.
    - destruct (Hb _ _ Ek) as [Hok Hs].
      unfold time_IsZero in E. rewrite (proj2 (Z.eqb_neq (lb_seenAt b) 0)) in E by lia.
      destruct (leak_spec c now b Hc Hok) as (Hl & Hs' & Hcr). specialize (Hcr last).
      set (b' := bucket_leak c now b) in *.
      destruct (_ <=? _) eqn:El in E; b2p; simplify_eq; eexists; (split; [reflexivity|]);
        cbn; rewrite ?int64_id by int_lia; split_and!; lia.
    - simplify_eq. eexists. split; [reflexivity|]. cbn.
      assert ((last - now) / lc_LeakEvery (ll_config l) <=
        (last - first) / lc_LeakEvery (ll_config l)) by (apply Z.div_le_mono; lia).
      split_and!; lia. }
  destruct Hst as (b & -> & Hlev & Hs & Hcr). split.
  - split; [done|]. cbn. intros k' w' Hk'. rewrite lookup_insert in Hk'.
    case_decide; simplify_eq; eauto.
  - destruct (k ==s key) eqn:Ekey; b2p; cbn.
    + subst k. unfold leaky_credit at 1. cbn. rewrite lookup_insert_eq. done.
    + unfold leaky_credit. cbn. rewrite lookup_insert_ne by done. lia.
Qed.

(** A leaky bucket grants one key at most its capacity plus one
    request per leak interval that fits in the period. *)
Theorem leaky_bucket_rate_bound config key calls first last :
  let l := NewLeakyBucket config in
  leaky_config_ok (ll_config l) -> 0 < first <= last ->
  Forall (fun c => first <= fst c <= last) calls ->
  granted key calls l <=
    lc_Capacity (ll_config l) + (last - first) / lc_LeakEvery (ll_config l).
Proof.
  intros l Hc Hfl Hcalls. set (c := ll_config l) in *.
  assert (Hl : leaky_ok c first last l) by done.
  apply (granted_le_credit key (leaky_ok c first last)
    (leaky_credit c first last key) first last calls l); auto.
  - apply leaky_pays; [done|lia].
  - intros. apply leaky_credit_pos; [done|lia|done].
Qed.

(** ** Sliding window: exact rolling bound *)

(** The times at which [key] was granted in a sequence of calls. *)
Fixpoint grants `{Strategy L} (key : string) (calls : list (Time * string)) (l : L)
    : list Time :=
  match calls with
  | [] => []
  | (now, k) :: rest =>
      let '(b, l') := Allow now k l in
      if (k ==s key) && b then now :: grants key rest l' else grants key rest l'
  end.

Definition in_window (w t : Z) (x : Time) : bool := (t - w <? x) && (x <=? t).

(** The grants of a log that fall in the window of length [w] ending at [t]. *)
Definition window_count (w t : Z) (log : list Time) : Z :=
  Z.of_nat (length (List.filter (in_window w t) log)).

Lemma window_count_app w t l1 l2 :
  window_count w t (l1 ++ l2) = window_count w t l1 + window_count w t l2.
Proof. unfold window_count. rewrite List.filter_app, length_app. lia. Qed.

Lemma window_count_le w t l : 0 <= window_count w t l <= Z.of_nat (length l).
Proof. unfold window_count. pose proof (List.filter_length_le (in_window w t) l). lia. Qed.

(** Entries that left the window before [t] do not count. *)
Lemma window_count_old w t now l :
  now <= t -> Forall (fun x => x <= now - w) l -> window_count w t l = 0.
Proof.
  intros Ht. induction 1 as [|x l Hx _ IH]; [done|].
  unfold window_count, in_window in *. cbn.
  rewrite (proj2 (Z.ltb_ge (t - w) x)) by lia. done.
Qed.

Lemma drop_expired_spec cutoff l :
  exists p, l = p ++ drop_expired cutoff l /\ Forall (fun x => x <= cutoff) p.
Proof.
  induction l as [|e l (p & Hl & Hp)]; [by exists []|]. cbn. unfold time_After.
  destruct (cutoff <? e) eqn:E; cbn; b2p.
  - by exists [].
  - exists (e :: p). split; [cbn; congruence|by constructor].
Qed.

(** The limiter's log of [key] is the granted history less what has expired. *)
Definition sliding_log (w : Duration) (key : string) (last : Time) (hist : list Time)
    (l : SlidingWindowLimiter) : Prop :=
  exists p, hist = p ++ default [] (sl_events l !! key) /\
    Forall (fun x => x <= last - w) p.

Lemma sliding_log_drop w key last now hist l :
  last <= now -> sliding_log w key last hist l ->
  exists p, hist = p ++ drop_expired (now - w) (default [] (sl_events l !! key)) /\
    Forall (fun x => x <= now - w) p.
Proof.
  intros Hn (p & -> & Hp).
  destruct (drop_expired_spec (now - w) (default [] (sl_events l !! key))) as (q & Hq & Hqf).
  exists (p ++ q). rewrite <- app_assoc, <- Hq. split; [done|].
  apply Forall_app. split; [|done]. eapply Forall_impl; [exact Hp|]. cbn. lia.
Qed.

(** One call for [key]: the log follows, and what it grants fits the window. *)
Lemma sliding_step_same w key last now hist l b l' :
  sc_Window (sl_config l) = w -> last <= now -> sliding_log w key last hist l ->
  (forall t, window_count w t hist <= sc_Limit (sl_config l)) ->
  SlidingWindowLimiter_Allow now key l = (b, l') ->
  let hist' := hist ++ (if b then [now] else []) in
  sl_config l' = sl_config l /\ sliding_log w key now hist' l' /\
  (forall t, window_count w t hist' <= sc_Limit (sl_config l)).
Proof.
  intros Hw Hn Hlog Hcnt E hist'.
  destruct (sliding_log_drop w key last now hist l Hn Hlog) as (p & Hh & Hp).
  unfold SlidingWindowLimiter_Allow, time_Add in E. rewrite Hw in E.
  replace (now + - w) with (now - w) in E by lia.
  set (ev := drop_expired _ _) in *.
  destruct (_ <=? _) eqn:El in E; b2p; simplify_eq; unfold hist'.
  - rewrite app_nil_r. split_and!; [done| |done].
    exists p. cbn. rewrite lookup_insert_eq. cbn. auto.
  - split_and!; [done| |].
    + exists p. cbn. rewrite lookup_insert_eq. cbn. rewrite app_assoc. auto.
    + intros t. rewrite window_count_app.
      destruct (Z_lt_le_dec t now) as [Hlt|Hge].
      * specialize (Hcnt t). unfold window_count at 2, in_window. cbn.
        rewrite (proj2 (Z.leb_gt now t)) by lia. rewrite andb_false_r. cbn. lia.
      * rewrite window_count_app.
        rewrite (window_count_old (sc_Window (sl_config l)) t now p) by done.
        pose proof (window_count_le (sc_Window (sl_config l)) t ev).
        pose proof (window_count_le (sc_Window (sl_config l)) t [now]). cbn in *. lia.
Qed.

Lemma sliding_step_other w key k last now hist l b l' :
  k <> key -> last <= now -> sliding_log w key last hist l ->
  SlidingWindowLimiter_Allow now k l = (b, l') ->
  sl_config l' = sl_config l /\ sliding_log w key now hist l'.
Proof.
  intros Hk Hn (p & Hh & Hp) E. unfold SlidingWindowLimiter_Allow in E.
  assert (Hp' : Forall (fun x => x <= now - w) p)
    by (eapply Forall_impl; [exact Hp|cbn; lia]).
  destruct (_ <=? _) in E; simplify_eq; (split; [done|]); exists p; cbn;
    rewrite lookup_insert_ne by done; auto.
Qed.

Lemma sliding_grants w key calls last hist l :
  sc_Window (sl_config l) = w -> sliding_log w key last hist l ->
  StronglySorted (fun a b => fst a <= fst b) calls ->
  Forall (fun c => last <= fst c) calls ->
  (forall t, window_count w t hist <= sc_Limit (sl_config l)) ->
  forall t, window_count w t (hist ++ grants key calls l) <= sc_Limit (sl_config l).
Proof.
  revert last hist l. induction calls as [|[now k] calls IH];
    intros last hist l Hw Hlog Hsort Hlast Hcnt t; cbn [grants].
  { by rewrite app_nil_r. }
  apply StronglySorted_inv in Hsort as [Hsort Hge].
  inversion_clear Hlast as [|? ? Hn _]. cbn in Hn.
  change (Allow now k l) with (SlidingWindowLimiter_Allow now k l).
  destruct (SlidingWindowLimiter_Allow now k l) as [b l'] eqn:E.
  destruct (k ==s key) eqn:Ek; b2p; cbn.
  - subst k. destruct (sliding_step_same w key last now hist l b l' Hw Hn Hlog Hcnt E)
      as (Hc & Hlog' & Hcnt').
    replace (hist ++ (if b then now :: grants key calls l' else grants key calls l'))
      with ((hist ++ (if b then [now] else [])) ++ grants key calls l')
      by (destruct b; by rewrite <- app_assoc).
    rewrite <- Hc in *. apply (IH now); auto.
  - destruct (sliding_step_other w key k last now hist l b l' Ek Hn Hlog E) as (Hc & Hlog').
    rewrite <- Hc in *. apply (IH now); auto.
Qed.

(** C40: with a clock that does not go back (the limiter's readings are UTC, without
    the monotonic part), a sliding-window limiter
    never grants one key more than its limit inside any window of its length,
    whatever calls for other keys are interleaved. *)
Theorem sliding_window_exact config key calls t :
  let l := NewSlidingWindow config in
  StronglySorted (fun a b => fst a <= fst b) calls ->
  window_count (sc_Window (sl_config l)) t (grants key calls l) <= sc_Limit (sl_config l).
Proof.
  intros l Hsort.
  assert (Hlim : 0 <= sc_Limit (sl_config l))
    by (cbn; destruct (sc_Limit config <=? 0) eqn:?; b2p; lia).
  destruct calls as [|c calls]; [done|].
  apply (sliding_grants _ key (c :: calls) (fst c) [] l); auto.
  - exists []. cbn. by rewrite lookup_empty.
  - apply StronglySorted_inv in Hsort as [_ Hge]. constructor; [lia|done].
Qed.
