(* ===== verification/StoreSpec.v ===== *)
(** * The store interface and its contract ([switcher.Store])

    [Store] is the Go interface [internal/switcher/service.go] declares, one
    operation per method on a store of type [St]. [StoreLaws] is what the switch
    relies on: a view of the store (the transfers a tenant owns, the transfer
    behind an idempotency key, the callback remembered for an SPI message, the
    event and audit logs), an invariant, how a store may evolve, and for every
    method its outcome in terms of the view. A method either meets its
    specification or, when its backend is unavailable, fails and changes nothing.
    A store may keep less than it is given: [st_read] is a transfer as it reads back
    once stored, which differs from the one written at most in the precision of its
    times and the encoding of its rules. The switch is proved against this contract;
    [MemStoreLaws] and [PostgresLaws] discharge it for the two stores. *)

From S2P Require Import Prelude GoStrings Rail Events.

(** ** The interface *)

Class Store (St : Type) := mkStore {
  Health : Obs -> St -> option error;
  FindByIdempotency : Obs -> string -> string -> St -> result (option Transfer);
  InsertTransfer : Obs -> Transfer -> list Event -> list AuditRecord -> St -> result unit * St;
  GetTransfer : Obs -> string -> string -> St -> result Transfer;
  ClaimSPISubmission : Obs -> string -> string -> string -> Time -> St ->
    result (Transfer * bool) * St;
  RecordSPISubmission : Obs -> string -> string -> string -> SPIMessage -> list Event ->
    AuditRecord -> St -> result (Transfer * bool) * St;
  ReleaseSPISubmission : Obs -> string -> string -> string -> string -> Time -> St ->
    result unit * St;
  RecordReviewDecision : Obs -> string -> string -> TransferStatus -> string -> list Event ->
    AuditRecord -> St -> result Transfer * St;
  UpdateSettlement : Obs -> string -> string -> SettlementCallback -> list Event ->
    AuditRecord -> St -> result (Transfer * bool) * St;
  PendingSPISubmissions : Obs -> Z -> St -> result (list Transfer);
  Outbox : Obs -> St -> result (list OutboxRecord);
  Audit : Obs -> St -> result (list AuditRecord)
}.

(** ** Evidence *)

(** Evidence written for a transfer names it, its tenant and its account. *)
Definition event_of (t : Transfer) (e : Event) : Prop :=
  e_TransferID e = t_ID t /\ e_TenantID e = t_TenantID t /\ e_AccountID e = t_AccountID t.
Definition audit_of (t : Transfer) (a : AuditRecord) : Prop :=
  a_TransferID a = t_ID t /\ a_TenantID a = t_TenantID t /\ a_AccountID a = t_AccountID t.

(** A transfer as the switch creates it. *)
Definition new_transfer (t : Transfer) : Prop :=
  transfer_ok t /\ pre_spi (t_Status t) /\ t_SPIClaimToken t = "".

(** ** The outcome of an update on the stored transfer

    [Ok (t, true)] is a replay: nothing is written. *)

Definition already_submitted (t : Transfer) : bool :=
  (t_Status t ==s StatusApproved) && negb (t_SPIMessageID t ==s "").

Definition fresh (r : result Transfer) : result (Transfer * bool) :=
  t <-? r; Ok (t, false).

Definition claim_spec (tok : string) (until now : Time) (t : Transfer) : result (Transfer * bool) :=
  if already_submitted t then Ok (t, true)
  else fresh (Transfer_ClaimSPISubmission t tok until now).

Definition record_spec (tok : string) (msg : SPIMessage) (t : Transfer) : result (Transfer * bool) :=
  if (t_Status t ==s StatusApproved) && (t_SPIMessageID t ==s m_MessageID msg) then Ok (t, true)
  else fresh (Transfer_RecordSPISubmission t tok msg).

Definition release_spec (tok err : string) (retry now : Time) (t : Transfer)
    : result (Transfer * bool) :=
  if already_submitted t then Ok (t, true)
  else fresh (Transfer_ReleaseSPISubmission t tok err retry now).

Definition review_spec (status : TransferStatus) (reason : string) (at_ : Time) (t : Transfer)
    : result (Transfer * bool) :=
  fresh (Transfer_RecordReviewDecision t status reason at_).

Definition conflicting_callback : error :=
  Errorf ErrConflict "conflicting settlement callback for terminal transfer".

(** [known] is the hash remembered for the callback's SPI message. *)
Definition settle_spec (cb : SettlementCallback) (known : option string) (t : Transfer)
    : result (Transfer * bool) :=
  match known with
  | Some h => if h ==s cb_CallbackHash cb then Ok (t, true) else Err conflicting_callback
  | None => fresh (Transfer_RecordSettlement t cb)
  end.

(** ** The contract *)

(** Two transfers that differ at most in their times and in the names of their rules;
    the claim of the first ends no later. *)
Record same_content (t t' : Transfer) : Prop := mkSameContent {
  sc_fields :
    (t_ID t, t_TenantID t, t_AccountID t, t_IdempotencyKey t, t_RequestHash t,
     (t_CorrelationID t, t_EndToEndID t, t_AmountCents t, t_Currency t),
     (t_ReceiverKey t, t_ReceiverKeyType t, t_ReceiverName t, t_ReceiverBank t,
      t_ReceiverRisk t, t_FraudScore t, t_Status t, t_DecisionReason t),
     (t_SPIMessageID t, t_SPIClaimToken t, t_SPISubmissionAttempts t, t_SPILastError t,
      t_SettlementCode t)) =
    (t_ID t', t_TenantID t', t_AccountID t', t_IdempotencyKey t', t_RequestHash t',
     (t_CorrelationID t', t_EndToEndID t', t_AmountCents t', t_Currency t'),
     (t_ReceiverKey t', t_ReceiverKeyType t', t_ReceiverName t', t_ReceiverBank t',
      t_ReceiverRisk t', t_FraudScore t', t_Status t', t_DecisionReason t'),
     (t_SPIMessageID t', t_SPIClaimToken t', t_SPISubmissionAttempts t', t_SPILastError t',
      t_SettlementCode t'));
  sc_claim :
    match t_SPIClaimedUntil t, t_SPIClaimedUntil t' with
    | Some u, Some u' => u <= u'
    | None, None => True
    | _, _ => False
    end
}.

(** What a stored event keeps of the one written. *)
Definition event_content (e : Event) :=
  (e_EventID e, e_EventType e, e_SchemaVersion e, e_Producer e, e_TenantID e, e_AccountID e,
   e_TransferID e, e_CorrelationID e).

(** What a stored audit record keeps of the one written. *)
Definition audit_content (a : AuditRecord) :=
  (a_TenantID a, a_AccountID a, a_TransferID a, a_Action a, a_CorrelationID a).

(** What can be observed of a store, its invariant, its evolution, how what is written
    reads back, when its backend answers, and which transfers it claims no more. *)
Class StoreView (St : Type) := mkStoreView {
  st_inv : St -> Prop;
  st_evolves : St -> St -> Prop;
  st_owned : St -> string -> string -> option Transfer;
  st_keyed : St -> string -> string -> option Transfer;
  st_callback : St -> string -> string -> option string;
  st_outbox : St -> list Event;
  st_audit : St -> list AuditRecord;
  st_read : Transfer -> Transfer;
  st_read_event : Event -> Event;
  st_read_audit : AuditRecord -> AuditRecord;
  st_avail : Obs -> Prop;
  st_exhausted : Transfer -> Prop
}.

Section Outcomes.
Context `{StoreView St}.

(** Evidence passed with an update is about the stored transfer. *)
Definition st_evidence (s : St) (tn id : string) (evs : list Event) (aud : list AuditRecord) : Prop :=
  forall t, st_owned s tn id = Some t -> Forall (event_of t) evs /\ Forall (audit_of t) aud.

(** No stored transfer has a colon in its tenant's name, as no configured key has. *)
Definition st_plain (s : St) : Prop :=
  forall tn id t, st_owned s tn id = Some t -> has_char ":" tn = false.

(** One operation of the aggregate on a stored transfer, written back. *)
Definition stored_step (t t' : Transfer) : Prop := exists u, transfer_step t u /\ t' = st_read u.

(** No other transfer changes. *)
Definition others_kept (s : St) (tn id : string) (s' : St) : Prop :=
  forall tn' id', (tn', id') <> (tn, id) -> st_owned s' tn' id' = st_owned s tn' id'.

Lemma others_trans s1 s2 s3 tn id :
  others_kept s1 tn id s2 -> others_kept s2 tn id s3 -> others_kept s1 tn id s3.
Proof. intros H1 H2 tn' id' Hne. by rewrite H2, H1. Qed.

(** One transaction: the view gains exactly the transfer and its evidence. *)
Definition writes (s : St) (tn id : string) (t : Transfer) (evs : list Event)
    (aud : list AuditRecord) (s' : St) : Prop :=
  st_inv s' /\ st_evolves s s' /\ st_owned s' tn id = Some (st_read t) /\
  st_outbox s' = st_outbox s ++ map st_read_event evs /\
  st_audit s' = st_audit s ++ map st_read_audit aud /\
  others_kept s tn id s'.

(** An update of the transfer [id] of tenant [tn] that meets [spec]; [out] is how
    the method reports [spec]'s success. *)
Definition meets {A} (s : St) (tn id : string) (spec : Transfer -> result (Transfer * bool))
    (out : Transfer * bool -> A) (evs : list Event) (aud : list AuditRecord)
    (r : result A * St) : Prop :=
  match st_owned s tn id with
  | None => r = (Err (sentinel ErrNotFound), s)
  | Some t =>
      match spec t with
      | Err e => r = (Err e, s)
      | Ok (u, true) => r = (Ok (out (u, true)), s)
      | Ok (u, false) => exists s', r = (Ok (out (u, false)), s') /\ writes s tn id u evs aud s'
      end
  end.

(** Or the method fails and changes nothing. *)
Definition fails {A} (s : St) (r : result A * St) : Prop := exists e, r = (Err e, s).
End Outcomes.

Class StoreLaws (St : Type) `{Store St} `{StoreView St} := mkStoreLaws {
  evolves_refl :: Reflexive st_evolves;
  evolves_trans :: Transitive st_evolves;
  evolves_owned : forall s s' tn id t, st_inv s -> st_evolves s s' ->
    st_owned s tn id = Some t -> exists t', st_owned s' tn id = Some t' /\ rtc stored_step t t';
  evolves_keyed : forall s s' tn k t, st_inv s -> st_evolves s s' ->
    st_keyed s tn k = Some t -> exists t', st_keyed s' tn k = Some t' /\ rtc stored_step t t';
  evolves_callback : forall s s' tn m h, st_evolves s s' ->
    st_callback s tn m = Some h -> st_callback s' tn m = Some h;
  evolves_audit : forall s s', st_evolves s s' -> st_audit s `prefix_of` st_audit s';
  evolves_outbox : forall s s', st_evolves s s' -> st_outbox s `prefix_of` st_outbox s';

  read_content : forall t, same_content (st_read t) t;
  read_idem : forall t, st_read (st_read t) = st_read t;
  read_event_content : forall e, event_content (st_read_event e) = event_content e;
  read_audit_content : forall a, audit_content (st_read_audit a) = audit_content a;

  owned_ok : forall s tn id t, st_inv s -> st_owned s tn id = Some t ->
    t_ID t = id /\ t_TenantID t = tn /\ transfer_ok t;
  keyed_ok : forall s tn k t, st_inv s -> st_keyed s tn k = Some t -> transfer_ok t;
  keyed_own : forall s tn k t, st_inv s -> st_plain s -> has_char ":" tn = false ->
    st_keyed s tn k = Some t ->
    t_TenantID t = tn /\ t_IdempotencyKey t = k /\ st_owned s tn (t_ID t) = Some t;
  owned_read : forall s tn id t, st_inv s -> st_owned s tn id = Some t -> st_read t = t;
  keyed_read : forall s tn k t, st_inv s -> st_keyed s tn k = Some t -> st_read t = t;

  find_law : forall o tn k s, st_inv s ->
    FindByIdempotency o tn k s = Ok (st_keyed s tn k) \/
    (~ st_avail o /\ exists e, FindByIdempotency o tn k s = Err e);
  get_law : forall o tn id s, st_inv s ->
    GetTransfer o tn id s =
      match st_owned s tn id with Some t => Ok t | None => Err (sentinel ErrNotFound) end \/
    (~ st_avail o /\ exists e, GetTransfer o tn id s = Err e);
  pending_law : forall o limit s ts, st_inv s -> PendingSPISubmissions o limit s = Ok ts ->
    Z.of_nat (length ts) <= (if limit <=? 0 then 100 else limit) /\
    Forall (fun t => st_owned s (t_TenantID t) (t_ID t) = Some t /\
                     t_Status t = StatusAccepted) ts;

  insert_law : forall o t evs aud s, st_inv s ->
    new_transfer t -> Forall (event_of t) evs -> Forall (audit_of t) aud ->
    match InsertTransfer o t evs aud s with
    | (Ok _, s') =>
        writes s (t_TenantID t) (t_ID t) t evs aud s' /\
        st_owned s (t_TenantID t) (t_ID t) = None /\
        st_keyed s (t_TenantID t) (t_IdempotencyKey t) = None /\
        st_keyed s' (t_TenantID t) (t_IdempotencyKey t) = Some (st_read t)
    | (Err _, s') => s' = s
    end;
  claim_law : forall o tn id tok until s, st_inv s ->
    let r := ClaimSPISubmission o tn id tok until s in
    meets s tn id (claim_spec tok until (obs_now o)) (fun x => x) [] [] r \/
    (fails s r /\ (~ st_avail o \/ exists t, st_owned s tn id = Some t /\ st_exhausted t));
  record_law : forall o tn id tok msg evs aud s, st_inv s -> st_evidence s tn id evs [aud] ->
    let r := RecordSPISubmission o tn id tok msg evs aud s in
    meets s tn id (record_spec tok msg) (fun x => x) evs [aud] r \/ fails s r;
  release_law : forall o tn id tok err retry s, st_inv s ->
    let r := ReleaseSPISubmission o tn id tok err retry s in
    meets s tn id (release_spec tok err retry (obs_now o)) (fun _ => tt) [] [] r \/
    (~ st_avail o /\ fails s r);
  review_law : forall o tn id status reason evs aud s, st_inv s -> st_evidence s tn id evs [aud] ->
    let r := RecordReviewDecision o tn id status reason evs aud s in
    meets s tn id (review_spec status reason (a_CreatedAt aud)) fst evs [aud] r \/ fails s r;
  settle_law : forall o tn id cb evs aud s, st_inv s -> st_evidence s tn id evs [aud] ->
    cb_CallbackHash cb <> "" ->
    let r := UpdateSettlement o tn id cb evs aud s in
    (meets s tn id (settle_spec cb (st_callback s tn (cb_SPIMessageID cb))) (fun x => x)
       evs [aud] r /\
     forall t s', r = (Ok (t, false), s') ->
       st_callback s' tn (cb_SPIMessageID cb) = Some (cb_CallbackHash cb)) \/ fails s r
}.

(** ** Reading back

    What the aggregate's lemmas say of an operation holds of stored transfers. *)
Section Reading.
Context `{StoreLaws St}.

(** [transfer_identity] without what a store may encode otherwise. *)
Definition stored_identity (t : Transfer) :=
  (t_ID t, t_TenantID t, t_AccountID t, t_IdempotencyKey t, t_RequestHash t,
   t_CorrelationID t, t_AmountCents t, t_Currency t,
   (t_ReceiverKey t, t_ReceiverKeyType t, t_ReceiverName t, t_ReceiverBank t,
    t_ReceiverRisk t, t_FraudScore t)).

Lemma content_identity t t' : same_content t t' -> stored_identity t = stored_identity t'.
Proof. intros [Hf _]. unfold stored_identity. simplify_eq. congruence. Qed.

Lemma content_status t t' : same_content t t' ->
  t_Status t = t_Status t' /\ t_SPIMessageID t = t_SPIMessageID t' /\
  t_EndToEndID t = t_EndToEndID t' /\ t_SPIClaimToken t = t_SPIClaimToken t'.
Proof. intros [Hf _]. simplify_eq. done. Qed.

Lemma content_ok t t' : same_content t t' -> transfer_ok t' -> transfer_ok t.
Proof.
  intros Hsame [Hst Hpre Hpost Hcl].
  destruct (content_status _ _ Hsame) as (Es & Em & Ee & Et). destruct Hsame as [_ Hc].
  split; rewrite ?Es, ?Em, ?Ee, ?Et; try done.
  intros Ht. destruct (Hcl Ht) as [Ha [u Hu]]. split; [done|]. rewrite Hu in Hc.
  by destruct (t_SPIClaimedUntil t).
Qed.

Lemma stored_step_ok t t' : transfer_ok t -> stored_step t t' ->
  transfer_ok t' /\ stored_identity t' = stored_identity t /\
  (t_Status t' = t_Status t \/ status_step (t_Status t) (t_Status t')).
Proof.
  intros Hok (u & Hu & ->). pose proof (read_content u) as Hc.
  destruct (content_status _ _ Hc) as (Es & _). split_and!.
  - eapply content_ok; [exact Hc|by eapply step_ok].
  - rewrite (content_identity _ _ Hc). apply step_identity in Hu.
    unfold transfer_identity in Hu. unfold stored_identity. simplify_eq. congruence.
  - rewrite Es. by apply step_status.
Qed.

Lemma stored_rtc t t' : transfer_ok t -> rtc stored_step t t' ->
  transfer_ok t' /\ stored_identity t' = stored_identity t /\
  rtc status_step (t_Status t) (t_Status t').
Proof.
  intros Hok Hs. induction Hs as [t|t u t' Htu _ IH]; [done|].
  destruct (stored_step_ok _ _ Hok Htu) as (Hu & Hid & Hst).
  destruct (IH Hu) as (? & Hid' & Hst'). split_and!; [done|congruence|].
  destruct Hst as [<-|Hstep]; [done|]. eapply rtc_l; eauto.
Qed.

(** A stored transfer handed to SPI keeps its identifiers; a settled one stays as it is. *)
Lemma post_spi_stored t t' : transfer_ok t -> rtc stored_step t t' -> post_spi (t_Status t) ->
  post_spi (t_Status t') /\ t_SPIMessageID t' = t_SPIMessageID t /\
  t_EndToEndID t' = t_EndToEndID t.
Proof.
  intros Hok Hs. induction Hs as [t|t u t' Htu _ IH]; [done|]. intros Hp.
  destruct (stored_step_ok _ _ Hok Htu) as (Hu & _ & _). destruct Htu as (v & Hv & ->).
  destruct (post_spi_step _ _ Hok Hv Hp) as (Hp' & Em & Ee).
  destruct (content_status _ _ (read_content v)) as (Es & Em' & Ee' & _).
  destruct (IH Hu) as (? & -> & ->); [by rewrite Es|]. split_and!; [done|congruence..].
Qed.

Lemma settled_stored t t' : transfer_ok t -> settled t -> rtc stored_step t t' -> t' = t.
Proof.
  intros Hok Hs H2. destruct H2 as [|t u t' (v & Hv & _) _]; [done|].
  by destruct (settled_no_step t v Hok Hs).
Qed.

(** What reads back has the written content. *)
Lemma read_status t : t_Status (st_read t) = t_Status t.
Proof. by destruct (content_status _ _ (read_content t)) as (? & _). Qed.

Lemma read_identity t : stored_identity (st_read t) = stored_identity t.
Proof. apply content_identity, read_content. Qed.
End Reading.

(** Every update keeps the invariant and is an evolution. *)
Section Preserved.
Context `{StoreLaws St}.

Definition preserves (s s' : St) : Prop := st_inv s' /\ st_evolves s s'.

Lemma preserves_refl s : st_inv s -> preserves s s.
Proof. intros Hs. split; [done|]. reflexivity. Qed.

Lemma preserves_trans s1 s2 s3 : preserves s1 s2 -> preserves s2 s3 -> preserves s1 s3.
Proof. intros [? ?] [? ?]. split; [done|]. by etrans. Qed.

Lemma meets_preserves {A} s tn id spec (out : _ -> A) evs aud r :
  st_inv s -> meets s tn id spec out evs aud r -> preserves s (snd r).
Proof.
  intros Hs. unfold meets. destruct (st_owned s tn id) as [t|].
  - destruct (spec t) as [[u []]|e].
    + intros ->. by apply preserves_refl.
    + intros (s' & -> & ? & ? & _). by split.
    + intros ->. by apply preserves_refl.
  - intros ->. by apply preserves_refl.
Qed.

Lemma fails_preserves {A} s (r : result A * St) : st_inv s -> fails s r -> preserves s (snd r).
Proof. intros Hs [e ->]. by apply preserves_refl. Qed.
End Preserved.
