(* ===== verification/MemStore.v ===== *)
(** * The in-memory store ([internal/store/memory.go])

    State and operations of [MemoryStore]. Every method holds the store's mutex
    for its whole body, so each operation is one atomic step on the store. The
    values of [ctx.Err()] and [time.Now()] a method reads are arguments. Maps are
    [gmap]s keyed as in the code, by ["tenant:key"] strings; the iteration order
    of a Go map is an argument of the method that ranges over one. *)

From S2P Require Import Prelude GoStrings Rail Events.

Record MemoryStore := mkMemoryStore {
  ms_transfers : gmap string Transfer;
  ms_idempotency : gmap string string;
  ms_callbacks : gmap string string;
  ms_events : list OutboxRecord;
  ms_audit : list AuditRecord;
  ms_nextSeq : Z
}.

#[export] Instance eta_MemoryStore : Eta MemoryStore := fun s =>
  mkMemoryStore (ms_transfers s) (ms_idempotency s) (ms_callbacks s) (ms_events s)
    (ms_audit s) (ms_nextSeq s).

Definition NewMemoryStore : MemoryStore := mkMemoryStore ∅ ∅ ∅ [] [] 0.

(** ** Transfers *)

Definition MemoryStore_Health (o : Obs) : option error := obs_ctx o.

(** The map keys [tenantID + ":" + key]. *)
Definition tenant_key (tenantID key : string) : string := tenantID +:+ ":" +:+ key.

(** [(transfer, ok, err)]: [Ok None] is [ok = false]. *)
Definition MemoryStore_FindByIdempotency (o : Obs) (tenantID key : string) (s : MemoryStore)
    : result (option Transfer) :=
  match MemoryStore_Health o with
  | Some err => Err err
  | None =>
      match ms_idempotency s !! tenant_key tenantID key with
      | None => Ok None
      | Some id => Ok (ms_transfers s !! id)
      end
  end.

Definition new_outbox_record (seq : Z) (event : Event) : OutboxRecord :=
  {| o_Sequence := seq; o_Event := event; o_Published := false; o_Attempts := 0;
     o_LastError := ""; o_AvailableAt := e_OccurredAt event; o_ClaimToken := "";
     o_ClaimedUntil := None; o_DispatchedAt := None |}.

Fixpoint MemoryStore_appendEventsLocked (outbox : list Event) (s : MemoryStore) : MemoryStore :=
  match outbox with
  | [] => s
  | event :: rest =>
      let s := s <| ms_nextSeq := int64 (ms_nextSeq s + 1) |> in
      let s := s <| ms_events := ms_events s ++ [new_outbox_record (ms_nextSeq s) event] |> in
      MemoryStore_appendEventsLocked rest s
  end.

Definition MemoryStore_InsertTransfer (transfer : Transfer) (outbox : list Event)
    (audit : list AuditRecord) (s : MemoryStore) : result unit * MemoryStore :=
  let idem := tenant_key (t_TenantID transfer) (t_IdempotencyKey transfer) in
  let taken := match ms_idempotency s !! idem with
               | Some existingID => negb (existingID ==s t_ID transfer)
               | None => false
               end in
  if taken then (Err (Errorf ErrConflict "idempotency key already used"), s)
  else match ms_transfers s !! t_ID transfer with
  | Some _ => (Err (Errorf ErrConflict "transfer already exists"), s)
  | None =>
      let s := s <| ms_transfers := <[t_ID transfer := transfer]> (ms_transfers s) |> in
      let s := s <| ms_idempotency := <[idem := t_ID transfer]> (ms_idempotency s) |> in
      let s := MemoryStore_appendEventsLocked outbox s in
      let s := s <| ms_audit := ms_audit s ++ audit |> in
      (Ok tt, s)
  end.

(** [transfer, ok := s.transfers[transferID]; !ok || transfer.TenantID != tenantID]. *)
Definition lookup_tenant (tenantID transferID : string) (s : MemoryStore) : option Transfer :=
  match ms_transfers s !! transferID with
  | Some transfer => if t_TenantID transfer ==s tenantID then Some transfer else None
  | None => None
  end.

Definition MemoryStore_GetTransfer (tenantID transferID : string) (s : MemoryStore)
    : result Transfer :=
  match lookup_tenant tenantID transferID s with
  | None => Err (sentinel ErrNotFound)
  | Some transfer => Ok transfer
  end.

(** [s.transfers[transfer.ID] = transfer]. *)
Definition put_transfer (transfer : Transfer) (s : MemoryStore) : MemoryStore :=
  s <| ms_transfers := <[t_ID transfer := transfer]> (ms_transfers s) |>.

Definition MemoryStore_ClaimSPISubmission (o : Obs) (tenantID transferID claimToken : string)
    (claimUntil : Time) (s : MemoryStore) : result (Transfer * bool) * MemoryStore :=
  match MemoryStore_Health o with
  | Some err => (Err err, s)
  | None =>
      let now := time_UTC (obs_now o) in
      match lookup_tenant tenantID transferID s with
      | None => (Err (sentinel ErrNotFound), s)
      | Some transfer =>
          if (t_Status transfer ==s StatusApproved) && negb (t_SPIMessageID transfer ==s "")
          then (Ok (transfer, true), s)
          else match Transfer_ClaimSPISubmission transfer claimToken claimUntil now with
          | Err err => (Err err, s)
          | Ok transfer => (Ok (transfer, false), put_transfer transfer s)
          end
      end
  end.

Definition MemoryStore_RecordSPISubmission (o : Obs) (tenantID transferID claimToken : string)
    (message : SPIMessage) (outbox : list Event) (audit : AuditRecord) (s : MemoryStore)
    : result (Transfer * bool) * MemoryStore :=
  match MemoryStore_Health o with
  | Some err => (Err err, s)
  | None =>
      match lookup_tenant tenantID transferID s with
      | None => (Err (sentinel ErrNotFound), s)
      | Some transfer =>
          if (t_Status transfer ==s StatusApproved) &&
             (t_SPIMessageID transfer ==s m_MessageID message)
          then (Ok (transfer, true), s)
          else match Transfer_RecordSPISubmission transfer claimToken message with
          | Err err => (Err err, s)
          | Ok transfer =>
              let s := put_transfer transfer s in
              let s := MemoryStore_appendEventsLocked outbox s in
              let s := s <| ms_audit := ms_audit s ++ [audit] |> in
              (Ok (transfer, false), s)
          end
      end
  end.

Definition MemoryStore_ReleaseSPISubmission (o : Obs)
    (tenantID transferID claimToken lastError : string) (retryAt : Time) (s : MemoryStore)
    : result unit * MemoryStore :=
  match MemoryStore_Health o with
  | Some err => (Err err, s)
  | None =>
      match lookup_tenant tenantID transferID s with
      | None => (Err (sentinel ErrNotFound), s)
      | Some transfer =>
          if (t_Status transfer ==s StatusApproved) && negb (t_SPIMessageID transfer ==s "")
          then (Ok tt, s)
          else match Transfer_ReleaseSPISubmission transfer claimToken lastError retryAt
                       (time_UTC (obs_now o)) with
          | Err err => (Err err, s)
          | Ok transfer => (Ok tt, put_transfer transfer s)
          end
      end
  end.

Definition MemoryStore_RecordReviewDecision (tenantID transferID : string)
    (status : TransferStatus) (reason : string) (outbox : list Event) (audit : AuditRecord)
    (s : MemoryStore) : result Transfer * MemoryStore :=
  match lookup_tenant tenantID transferID s with
  | None => (Err (sentinel ErrNotFound), s)
  | Some transfer =>
      match Transfer_RecordReviewDecision transfer status reason (a_CreatedAt audit) with
      | Err err => (Err err, s)
      | Ok transfer =>
          let s := put_transfer transfer s in
          let s := MemoryStore_appendEventsLocked outbox s in
          let s := s <| ms_audit := ms_audit s ++ [audit] |> in
          (Ok transfer, s)
      end
  end.

(** The hash under which a callback is remembered. *)
Definition callback_hash (callback : SettlementCallback) : string :=
  if cb_CallbackHash callback ==s "" then SettlementCallback_Fingerprint callback
  else cb_CallbackHash callback.

Definition MemoryStore_UpdateSettlement (tenantID transferID : string)
    (callback : SettlementCallback) (outbox : list Event) (audit : AuditRecord)
    (s : MemoryStore) : result (Transfer * bool) * MemoryStore :=
  match lookup_tenant tenantID transferID s with
  | None => (Err (sentinel ErrNotFound), s)
  | Some transfer =>
      let callbackHash := callback_hash callback in
      let callbackKey := tenant_key tenantID (cb_SPIMessageID callback) in
      match ms_callbacks s !! callbackKey with
      | Some existingHash =>
          if existingHash ==s callbackHash then (Ok (transfer, true), s)
          else (Err (Errorf ErrConflict
                  "conflicting settlement callback for terminal transfer"), s)
      | None =>
          match Transfer_RecordSettlement transfer callback with
          | Err err => (Err err, s)
          | Ok transfer =>
              let s := put_transfer transfer s in
              let s := s <| ms_callbacks := <[callbackKey := callbackHash]> (ms_callbacks s) |> in
              let s := MemoryStore_appendEventsLocked outbox s in
              let s := s <| ms_audit := ms_audit s ++ [audit] |> in
              (Ok (transfer, false), s)
          end
      end
  end.

(** A transfer the SPI worker may claim at [now]. *)
Definition spi_pending (now : Time) (t : Transfer) : bool :=
  (t_Status t ==s StatusAccepted) && (t_SPIMessageID t ==s "") &&
  negb (ptr_After (t_SPIClaimedUntil t) now).

Definition created_le (a b : Transfer) : Prop := t_CreatedAt a <= t_CreatedAt b.
#[export] Instance created_le_dec a b : Decision (created_le a b).
Proof. unfold created_le; apply _. Defined.

Definition default_limit (limit : Z) : Z := if limit <=? 0 then 100 else limit.

(** [order] is the order in which the [range] over the map meets the transfers;
    [sort.Slice] leaves equal creation times in an unspecified order, which
    [order] also accounts for. *)
Definition MemoryStore_PendingSPISubmissions (o : Obs)
    (order : list Transfer -> list Transfer) (limit : Z) (s : MemoryStore)
    : result (list Transfer) :=
  match MemoryStore_Health o with
  | Some err => Err err
  | None =>
      let limit := default_limit limit in
      let now := time_UTC (obs_now o) in
      let all := order (map snd (map_to_list (ms_transfers s))) in
      let transfers := merge_sort created_le (List.filter (spi_pending now) all) in
      Ok (take (Z.to_nat limit) transfers)
  end.

(** ** Outbox *)

Definition MemoryStore_Outbox (o : Obs) (s : MemoryStore) : result (list OutboxRecord) :=
  match MemoryStore_Health o with
  | Some err => Err err
  | None => Ok (ms_events s)
  end.

Definition MemoryStore_Audit (o : Obs) (s : MemoryStore) : result (list AuditRecord) :=
  match MemoryStore_Health o with
  | Some err => Err err
  | None => Ok (ms_audit s)
  end.

(** A record the relay may claim at [now]. *)
Definition outbox_pending (now : Time) (r : OutboxRecord) : bool :=
  negb (o_Published r || time_After (o_AvailableAt r) now) &&
  negb (ptr_After (o_ClaimedUntil r) now).

Definition seq_le (a b : OutboxRecord) : Prop := o_Sequence a <= o_Sequence b.
#[export] Instance seq_le_dec a b : Decision (seq_le a b).
Proof. unfold seq_le; apply _. Defined.

(** The loop of [PendingOutbox]: the first [n] pending records. *)
Fixpoint scan_pending (now : Time) (n : nat) (events : list OutboxRecord) : list OutboxRecord :=
  match n, events with
  | S m, r :: rest =>
      if outbox_pending now r then r :: scan_pending now m rest
      else scan_pending now n rest
  | _, _ => []
  end.

Definition MemoryStore_PendingOutbox (o : Obs) (limit : Z) (s : MemoryStore)
    : result (list OutboxRecord) :=
  match MemoryStore_Health o with
  | Some err => Err err
  | None =>
      Ok (merge_sort seq_le
            (scan_pending (time_UTC (obs_now o)) (Z.to_nat (default_limit limit)) (ms_events s)))
  end.

Definition claim_record (claimToken : string) (claimUntil : Time) (r : OutboxRecord) : OutboxRecord :=
  r <| o_ClaimToken := claimToken |> <| o_ClaimedUntil := Some (time_UTC claimUntil) |>.

(** The loop of [ClaimPendingOutbox]: the events it leaves in the store and the
    records it collects. *)
Fixpoint scan_claim (now : Time) (claimToken : string) (claimUntil : Time) (n : nat)
    (events : list OutboxRecord) : list OutboxRecord * list OutboxRecord :=
  match n, events with
  | S m, r :: rest =>
      if outbox_pending now r then
        let r := claim_record claimToken claimUntil r in
        let '(evs, recs) := scan_claim now claimToken claimUntil m rest in
        (r :: evs, r :: recs)
      else
        let '(evs, recs) := scan_claim now claimToken claimUntil n rest in
        (r :: evs, recs)
  | _, _ => (events, [])
  end.

(** [now1] is the first clock reading, in the guard; [obs_now o] the second. *)
Definition MemoryStore_ClaimPendingOutbox (o : Obs) (now1 : Time) (limit : Z)
    (claimToken : string) (claimUntil : Time) (s : MemoryStore)
    : result (list OutboxRecord) * MemoryStore :=
  match MemoryStore_Health o with
  | Some err => (Err err, s)
  | None =>
      let limit := default_limit limit in
      if (claimToken ==s "") || negb (time_After claimUntil (time_UTC now1)) then
        (Err (Errorf ErrValidation "valid outbox claim token and expiry are required"), s)
      else
        let now := time_UTC (obs_now o) in
        let '(evs, recs) := scan_claim now claimToken claimUntil (Z.to_nat limit) (ms_events s) in
        (Ok (merge_sort seq_le recs), s <| ms_events := evs |>)
  end.

(** The loop over [s.events] of the two mark operations: [f] on the first record
    with the sequence number, when this worker holds its claim. *)
Fixpoint mark_loop (sequence : Z) (claimToken : string) (f : OutboxRecord -> OutboxRecord)
    (events : list OutboxRecord) : result (list OutboxRecord) :=
  match events with
  | [] => Err (Errorf ErrNotFound "outbox sequence not found")
  | r :: rest =>
      if negb (o_Sequence r =? sequence) then
        evs <-? mark_loop sequence claimToken f rest; Ok (r :: evs)
      else if (o_ClaimToken r ==s "") || negb (o_ClaimToken r ==s claimToken) then
        Err (Errorf ErrConflict "outbox record is not claimed by this worker")
      else Ok (f r :: rest)
  end.

Definition published_record (dispatchedAt : Time) (r : OutboxRecord) : OutboxRecord :=
  r <| o_Published := true |> <| o_LastError := "" |> <| o_ClaimToken := "" |>
    <| o_ClaimedUntil := None |> <| o_DispatchedAt := Some (time_UTC dispatchedAt) |>.

Definition failed_record (lastError : string) (retryAt : Time) (r : OutboxRecord) : OutboxRecord :=
  r <| o_Attempts := int64 (o_Attempts r + 1) |> <| o_LastError := lastError |>
    <| o_AvailableAt := time_UTC retryAt |> <| o_ClaimToken := "" |>
    <| o_ClaimedUntil := None |>.

Definition mark_with (o : Obs) (sequence : Z) (claimToken : string)
    (f : OutboxRecord -> OutboxRecord) (s : MemoryStore) : result unit * MemoryStore :=
  match MemoryStore_Health o with
  | Some err => (Err err, s)
  | None =>
      match mark_loop sequence claimToken f (ms_events s) with
      | Err err => (Err err, s)
      | Ok evs => (Ok tt, s <| ms_events := evs |>)
      end
  end.

Definition MemoryStore_MarkOutboxPublished (o : Obs) (sequence : Z) (claimToken : string)
    (dispatchedAt : Time) : MemoryStore -> result unit * MemoryStore :=
  mark_with o sequence claimToken (published_record dispatchedAt).

Definition MemoryStore_MarkOutboxFailed (o : Obs) (sequence : Z) (claimToken lastError : string)
    (retryAt : Time) : MemoryStore -> result unit * MemoryStore :=
  mark_with o sequence claimToken (failed_record lastError retryAt).
