(* ===== verification/MemStoreProps.v ===== *)
(** * Invariant and evolution of the in-memory store

    [store_ok] is the invariant of a [MemoryStore]; [store_step] is one store
    operation, successful or not, called the way the service calls it;
    [store_le] says how a store may evolve: transfers move along the aggregate's
    operations, keys and callbacks are never rebound, the audit log only grows
    and an outbox record keeps its event. Every reachable store is well formed
    and every step is an evolution, so the domain invariants of
    [docs/domain/invariants.md] hold in every interleaving of operations. *)

From S2P Require Import Prelude GoStrings Rail Events StoreSpec MemStore.

(** ** The invariant *)

Definition idem_key (t : Transfer) : string :=
  tenant_key (t_TenantID t) (t_IdempotencyKey t).
Definition callback_key (t : Transfer) : string :=
  tenant_key (t_TenantID t) (t_SPIMessageID t).

Record store_ok (s : MemoryStore) : Prop := mkStoreOk {
  so_id : forall id t, ms_transfers s !! id = Some t -> t_ID t = id;
  so_transfer : forall id t, ms_transfers s !! id = Some t -> transfer_ok t;
  so_idem : forall id t, ms_transfers s !! id = Some t ->
    ms_idempotency s !! idem_key t = Some id;
  so_idem_inv : forall k id, ms_idempotency s !! k = Some id ->
    exists t, ms_transfers s !! id = Some t /\ idem_key t = k;
  so_settled : forall id t, ms_transfers s !! id = Some t -> settled t ->
    is_Some (ms_callbacks s !! callback_key t);
  so_next : ms_nextSeq s = int64 (Z.of_nat (length (ms_events s)));
  so_seq : forall i r, ms_events s !! i = Some r ->
    o_Sequence r = int64 (Z.of_nat i + 1);
  so_events : Forall (fun r => exists t,
    ms_transfers s !! e_TransferID (o_Event r) = Some t /\ event_of t (o_Event r))
    (ms_events s);
  so_audit : Forall (fun a => exists t,
    ms_transfers s !! a_TransferID a = Some t /\ audit_of t a) (ms_audit s)
}.

(** The part of it that holds whatever transfers and evidence the store is given: its
    indexes and its sequence numbers. *)
Record store_indexed (s : MemoryStore) : Prop := mkStoreIndexed {
  si_id : forall id t, ms_transfers s !! id = Some t -> t_ID t = id;
  si_idem : forall id t, ms_transfers s !! id = Some t ->
    ms_idempotency s !! idem_key t = Some id;
  si_idem_inv : forall k id, ms_idempotency s !! k = Some id ->
    exists t, ms_transfers s !! id = Some t /\ idem_key t = k;
  si_next : ms_nextSeq s = int64 (Z.of_nat (length (ms_events s)));
  si_seq : forall i r, ms_events s !! i = Some r -> o_Sequence r = int64 (Z.of_nat i + 1)
}.

Lemma store_ok_indexed s : store_ok s -> store_indexed s.
Proof. intros []. by split. Qed.
#[export] Hint Resolve store_ok_indexed : pix.

(** ** Store operations as steps *)

(** The evidence passed with an update is about the stored transfer. *)
Definition evidence (s : MemoryStore) (tenantID transferID : string)
    (outbox : list Event) (audit : list AuditRecord) : Prop :=
  forall t, lookup_tenant tenantID transferID s = Some t ->
    Forall (event_of t) outbox /\ Forall (audit_of t) audit.

(** A call of a state-changing method, with what it observes. *)
Inductive StoreOp :=
  | OpInsert (t : Transfer) (outbox : list Event) (audit : list AuditRecord)
  | OpClaim (o : Obs) (tn id tok : string) (until : Time)
  | OpRecord (o : Obs) (tn id tok : string) (msg : SPIMessage) (outbox : list Event)
      (audit : AuditRecord)
  | OpRelease (o : Obs) (tn id tok err : string) (retry : Time)
  | OpReview (tn id : string) (status : TransferStatus) (reason : string)
      (outbox : list Event) (audit : AuditRecord)
  | OpSettle (tn id : string) (cb : SettlementCallback) (outbox : list Event)
      (audit : AuditRecord)
  | OpClaimOutbox (o : Obs) (now1 : Time) (limit : Z) (tok : string) (until : Time)
  | OpPublished (o : Obs) (seq : Z) (tok : string) (at_ : Time)
  | OpFailed (o : Obs) (seq : Z) (tok err : string) (retry : Time).

Definition run_op (op : StoreOp) (s : MemoryStore) : MemoryStore :=
  match op with
  | OpInsert t outbox audit => snd (MemoryStore_InsertTransfer t outbox audit s)
  | OpClaim o tn id tok until => snd (MemoryStore_ClaimSPISubmission o tn id tok until s)
  | OpRecord o tn id tok msg outbox audit =>
      snd (MemoryStore_RecordSPISubmission o tn id tok msg outbox audit s)
  | OpRelease o tn id tok err retry =>
      snd (MemoryStore_ReleaseSPISubmission o tn id tok err retry s)
  | OpReview tn id status reason outbox audit =>
      snd (MemoryStore_RecordReviewDecision tn id status reason outbox audit s)
  | OpSettle tn id cb outbox audit =>
      snd (MemoryStore_UpdateSettlement tn id cb outbox audit s)
  | OpClaimOutbox o now1 limit tok until =>
      snd (MemoryStore_ClaimPendingOutbox o now1 limit tok until s)
  | OpPublished o seq tok at_ => snd (MemoryStore_MarkOutboxPublished o seq tok at_ s)
  | OpFailed o seq tok err retry => snd (MemoryStore_MarkOutboxFailed o seq tok err retry s)
  end.

(** How the service calls the store: with a new transfer, and with evidence about
    the transfer it updates. *)
Definition op_pre (op : StoreOp) (s : MemoryStore) : Prop :=
  match op with
  | OpInsert t outbox audit =>
      new_transfer t /\ Forall (event_of t) outbox /\ Forall (audit_of t) audit
  | OpRecord _ tn id _ _ outbox audit | OpReview tn id _ _ outbox audit
  | OpSettle tn id _ outbox audit => evidence s tn id outbox [audit]
  | _ => True
  end.

(** The tenant on whose behalf the operation runs; the relay's have none. *)
Definition op_tenant (op : StoreOp) : option string :=
  match op with
  | OpInsert t _ _ => Some (t_TenantID t)
  | OpClaim _ tn _ _ _ | OpRecord _ tn _ _ _ _ _ | OpRelease _ tn _ _ _ _
  | OpReview tn _ _ _ _ _ | OpSettle tn _ _ _ _ => Some tn
  | _ => None
  end.

(** The events and the audit records it is given. *)
Definition op_events (op : StoreOp) : list Event :=
  match op with
  | OpInsert _ outbox _ | OpRecord _ _ _ _ _ outbox _ | OpReview _ _ _ _ outbox _
  | OpSettle _ _ _ outbox _ => outbox
  | _ => []
  end.
Definition op_audit (op : StoreOp) : list AuditRecord :=
  match op with
  | OpInsert _ _ audit => audit
  | OpRecord _ _ _ _ _ _ a | OpReview _ _ _ _ _ a | OpSettle _ _ _ _ a => [a]
  | _ => []
  end.

(** One call of the store with any arguments, and one the way the service calls it. *)
Inductive store_call (s : MemoryStore) : MemoryStore -> Prop :=
  | sc_op op : store_call s (run_op op s).
Inductive store_step (s : MemoryStore) : MemoryStore -> Prop :=
  | st_op op : op_pre op s -> store_step s (run_op op s).

(** ** Evolution *)

(** The relay may change a record's publication state, never its event. *)
Definition record_le (r r' : OutboxRecord) : Prop :=
  o_Sequence r' = o_Sequence r /\ o_Event r' = o_Event r /\
  (o_Published r = true -> o_Published r' = true).

Record store_le (s s' : MemoryStore) : Prop := mkStoreLe {
  le_transfers : forall id t, ms_transfers s !! id = Some t ->
    exists t', ms_transfers s' !! id = Some t' /\ rtc transfer_step t t';
  le_idem : ms_idempotency s ⊆ ms_idempotency s';
  le_callbacks : ms_callbacks s ⊆ ms_callbacks s';
  le_audit : ms_audit s `prefix_of` ms_audit s';
  le_events : exists old new, ms_events s' = old ++ new /\
    Forall2 record_le (ms_events s) old
}.

#[export] Instance record_le_refl : Reflexive record_le.
Proof. by intros r. Qed.
#[export] Instance record_le_trans : Transitive record_le.
Proof. intros a b c (?&?&?) (?&?&?). split_and!; [congruence..|auto]. Qed.

#[export] Instance store_le_preorder : PreOrder store_le.
Proof.
  split.
  - intros s. split; try done.
    + intros id t H. exists t. split; [done|reflexivity].
    + exists (ms_events s), []. rewrite app_nil_r. split; [done|]. reflexivity.
  - intros a b c [T1 I1 C1 A1 (o1&n1&E1&F1)] [T2 I2 C2 A2 (o2&n2&E2&F2)]. split.
    + intros id t H. destruct (T1 id t H) as (t1 & H1 & S1).
      destruct (T2 id t1 H1) as (t2 & H2 & S2). exists t2. split; [done|]. by etrans.
    + by etrans.
    + by etrans.
    + by etrans.
    + rewrite E1 in F2. apply Forall2_app_inv_l in F2 as (x & y & Fx & Fy & ->).
      exists x, (y ++ n2). rewrite E2, <- app_assoc. split; [done|].
      by etrans.
Qed.

(** ** The common shape of the updates *)

(** The records [appendEventsLocked] adds after sequence number [n]. *)
Fixpoint records_from (n : Z) (outbox : list Event) : list OutboxRecord :=
  match outbox with
  | [] => []
  | e :: rest => new_outbox_record (int64 (n + 1)) e :: records_from (int64 (n + 1)) rest
  end.

Fixpoint seq_after (n : Z) (outbox : list Event) : Z :=
  match outbox with [] => n | _ :: rest => seq_after (int64 (n + 1)) rest end.

Lemma append_spec outbox s :
  MemoryStore_appendEventsLocked outbox s =
  s <| ms_events := ms_events s ++ records_from (ms_nextSeq s) outbox |>
    <| ms_nextSeq := seq_after (ms_nextSeq s) outbox |>.
Proof.
  revert s. induction outbox as [|e rest IH]; intros s; cbn.
  - rewrite app_nil_r. by destruct s.
  - rewrite IH. cbn. by rewrite <- app_assoc.
Qed.

(** Writing transfer [t'] with callbacks [cb] and its evidence. *)
Definition commit (t' : Transfer) (cb : gmap string string) (outbox : list Event)
    (audit : list AuditRecord) (s : MemoryStore) : MemoryStore :=
  mkMemoryStore (<[t_ID t' := t']> (ms_transfers s)) (ms_idempotency s) cb
    (ms_events s ++ records_from (ms_nextSeq s) outbox) (ms_audit s ++ audit)
    (seq_after (ms_nextSeq s) outbox).

Lemma seq_after_spec outbox n :
  seq_after (int64 n) outbox = int64 (n + Z.of_nat (length outbox)).
Proof.
  revert n. induction outbox as [|e rest IH]; intros n; cbn [seq_after length].
  - by rewrite Z.add_0_r.
  - rewrite int64_add_l, IH. f_equal. lia.
Qed.

Lemma length_records_from n outbox : length (records_from n outbox) = length outbox.
Proof. revert n. induction outbox; intros; cbn; auto. Qed.

Lemma records_from_lookup outbox n i r :
  records_from (int64 n) outbox !! i = Some r ->
  o_Sequence r = int64 (n + Z.of_nat i + 1) /\ outbox !! i = Some (o_Event r).
Proof.
  revert n i. induction outbox as [|e rest IH]; intros n i; [done|].
  cbn [records_from]. rewrite int64_add_l. destruct i as [|i]; cbn.
  - intros ?. simplify_eq. cbn. split; [f_equal; lia|done].
  - intros H. apply IH in H as [-> H]. split; [f_equal; lia|exact H].
Qed.

Lemma records_from_events n outbox : map o_Event (records_from n outbox) = outbox.
Proof. revert n. induction outbox; intros; cbn; [done|]. f_equal. auto. Qed.

Lemma records_from_Forall (P : Event -> Prop) n outbox :
  Forall P outbox -> Forall (fun r => P (o_Event r)) (records_from n outbox).
Proof. intros H. revert n. induction H; intros; constructor; auto. Qed.

Lemma identity_fields t t' :
  transfer_identity t' = transfer_identity t ->
  t_ID t' = t_ID t /\ t_TenantID t' = t_TenantID t /\ t_AccountID t' = t_AccountID t /\
  t_IdempotencyKey t' = t_IdempotencyKey t /\ t_RequestHash t' = t_RequestHash t.
Proof. unfold transfer_identity. intros E. by simplify_eq. Qed.

Lemma lookup_tenant_Some tn id s t :
  lookup_tenant tn id s = Some t <-> ms_transfers s !! id = Some t /\ t_TenantID t = tn.
Proof.
  unfold lookup_tenant. destruct (ms_transfers s !! id) as [u|]; [|naive_solver].
  destruct (t_TenantID u ==s tn) eqn:E; b2p; naive_solver.
Qed.

(** ** Preservation *)

Lemma insert_keeps_ref {A} (P : Transfer -> A -> Prop) (key : A -> string)
    (m : gmap string Transfer) t t' (l : list A) :
  m !! t_ID t' = Some t -> (forall a, P t a -> P t' a) ->
  Forall (fun a => exists u, m !! key a = Some u /\ P u a) l ->
  Forall (fun a => exists u, <[t_ID t' := t']> m !! key a = Some u /\ P u a) l.
Proof.
  intros Hm Hp Hl. eapply Forall_impl; [exact Hl|]. intros a (u & Hu & Pu).
  destruct (decide (t_ID t' = key a)) as [E|N].
  - exists t'. rewrite E, lookup_insert_eq. split; [done|]. apply Hp. congruence.
  - exists u. by rewrite lookup_insert_ne.
Qed.

Lemma new_refs {A} (P : Transfer -> A -> Prop) (key : A -> string)
    (m : gmap string Transfer) t (l : list A) :
  (forall a, P t a -> key a = t_ID t) -> Forall (P t) l ->
  Forall (fun a => exists u, <[t_ID t := t]> m !! key a = Some u /\ P u a) l.
Proof.
  intros Hk Hl. eapply Forall_impl; [exact Hl|]. intros a Pa. exists t.
  by rewrite (Hk a Pa), lookup_insert_eq.
Qed.

Lemma commit_seq s t' cb outbox audit :
  store_indexed s ->
  ms_nextSeq (commit t' cb outbox audit s) =
    int64 (Z.of_nat (length (ms_events (commit t' cb outbox audit s)))) /\
  forall i r, ms_events (commit t' cb outbox audit s) !! i = Some r ->
    o_Sequence r = int64 (Z.of_nat i + 1).
Proof.
  intros Hs. cbn. rewrite (si_next s Hs), seq_after_spec, length_app, length_records_from.
  split; [f_equal; lia|]. intros i r H.
  apply lookup_app_Some in H as [H|[Hi H]]; [by apply (si_seq s Hs)|].
  apply records_from_lookup in H as [-> _]. f_equal. lia.
Qed.

(** A transfer replaced by one of its identity, and its evidence, keep the indexes. *)
Lemma commit_indexed s t t' cb outbox audit :
  store_indexed s -> ms_transfers s !! t_ID t = Some t ->
  transfer_identity t' = transfer_identity t -> store_indexed (commit t' cb outbox audit s).
Proof.
  intros Hs Ht Hid. destruct (identity_fields _ _ Hid) as (Eid & Etn & _ & Eik & _).
  assert (Eidem : idem_key t' = idem_key t) by (unfold idem_key; congruence).
  destruct (commit_seq s t' cb outbox audit Hs) as [Hnext Hseq].
  assert (Hlk : forall id u, <[t_ID t' := t']> (ms_transfers s) !! id = Some u ->
    id = t_ID t' /\ u = t' \/ ms_transfers s !! id = Some u).
  { intros id u H. rewrite lookup_insert in H. case_decide; simplify_eq; auto. }
  split; cbn in *; auto.
  - intros id u [[-> ->]|H]%Hlk; [done|by apply (si_id s Hs)].
  - intros id u [[-> ->]|H]%Hlk; [|by apply (si_idem s Hs)].
    rewrite Eidem, Eid. by apply (si_idem s Hs).
  - intros k id (u & Hu & Ek)%(si_idem_inv s Hs).
    destruct (decide (id = t_ID t')) as [->|N].
    + exists t'. rewrite lookup_insert_eq. split; [done|]. rewrite Eidem. congruence.
    + exists u. by rewrite lookup_insert_ne.
Qed.

Lemma commit_le s t t' cb outbox audit :
  ms_transfers s !! t_ID t = Some t -> t_ID t' = t_ID t -> rtc transfer_step t t' ->
  ms_callbacks s ⊆ cb -> store_le s (commit t' cb outbox audit s).
Proof.
  intros Ht Eid Hstep Hcb. split; cbn; auto.
  - intros id u Hu. destruct (decide (id = t_ID t')) as [->|N].
    + exists t'. rewrite lookup_insert_eq. split; [done|]. congruence.
    + exists u. rewrite lookup_insert_ne by done. split; [done|reflexivity].
  - by apply prefix_app_r.
  - exists (ms_events s), (records_from (ms_nextSeq s) outbox). split; [done|]. reflexivity.
Qed.

Lemma commit_ok s t t' cb outbox audit :
  store_ok s -> ms_transfers s !! t_ID t = Some t -> rtc transfer_step t t' ->
  ms_callbacks s ⊆ cb -> (settled t' -> is_Some (cb !! callback_key t')) ->
  Forall (event_of t) outbox -> Forall (audit_of t) audit ->
  store_ok (commit t' cb outbox audit s) /\ store_le s (commit t' cb outbox audit s).
Proof.
  intros Hs Ht Hstep Hcb Hset Hev Hau.
  destruct (rtc_step_ok t t' (so_transfer s Hs _ _ Ht) Hstep) as (Hok & Hid & _).
  destruct (identity_fields _ _ Hid) as (Eid & Etn & Eac & _).
  pose proof (store_ok_indexed s Hs) as Hix.
  destruct (commit_indexed s t t' cb outbox audit Hix Ht Hid) as [I1 I2 I3 I4 I5].
  assert (Hev' : forall e, event_of t e -> event_of t' e)
    by (unfold event_of; intros e (?&?&?); split_and!; congruence).
  assert (Hau' : forall a, audit_of t a -> audit_of t' a)
    by (unfold audit_of; intros a (?&?&?); split_and!; congruence).
  assert (Hlk : forall id u, <[t_ID t' := t']> (ms_transfers s) !! id = Some u ->
    id = t_ID t' /\ u = t' \/ ms_transfers s !! id = Some u).
  { intros id u H. rewrite lookup_insert in H. case_decide; simplify_eq; auto. }
  split; [|by eapply commit_le]. split; cbn in *; auto.
  - intros id u [[-> ->]|H]%Hlk; [done|by eapply (so_transfer s Hs)].
  - intros id u [[-> ->]|H]%Hlk Hu; [by apply Hset|].
    destruct (so_settled s Hs id u H Hu) as [h Hh].
    exists h. by eapply lookup_weaken.
  - apply Forall_app. split.
    + apply (insert_keeps_ref (fun t r => event_of t (o_Event r))
        (fun r => e_TransferID (o_Event r)) _ t); [congruence|auto|apply (so_events s Hs)].
    + apply (new_refs (fun t r => event_of t (o_Event r))).
      * intros r (->&_). done.
      * apply records_from_Forall. eapply Forall_impl; eauto.
  - apply Forall_app. split.
    + apply (insert_keeps_ref audit_of a_TransferID _ t); [congruence|auto|apply (so_audit s Hs)].
    + apply (new_refs audit_of); [by intros a (->&_)|]. eapply Forall_impl; eauto.
Qed.

(** An update is one aggregate operation on the tenant's transfer, committed with
    its evidence. *)
Definition updated (tn id : string) (outbox : list Event) (audit : list AuditRecord)
    (s s' : MemoryStore) : Prop :=
  exists t t', lookup_tenant tn id s = Some t /\ transfer_step t t' /\
    (transfer_ok t -> ~ settled t') /\ s' = commit t' (ms_callbacks s) outbox audit s.

Lemma commit_nil t' s : put_transfer t' s = commit t' (ms_callbacks s) [] [] s.
Proof. unfold put_transfer, commit. cbn. by rewrite !app_nil_r. Qed.

(** The four updates that record no callback. *)
Lemma claim_committed o tn id tok until s s' :
  s' = snd (MemoryStore_ClaimSPISubmission o tn id tok until s) ->
  s' = s \/ updated tn id [] [] s s'.
Proof.
  unfold MemoryStore_ClaimSPISubmission. intros ->.
  cases_goal; cbn; auto. right. eexists _, _. rewrite commit_nil.
  split_and!; [eassumption|eauto with pix..|done].
Qed.

Lemma release_committed o tn id tok err retry s s' :
  s' = snd (MemoryStore_ReleaseSPISubmission o tn id tok err retry s) ->
  s' = s \/ updated tn id [] [] s s'.
Proof.
  unfold MemoryStore_ReleaseSPISubmission. intros ->.
  cases_goal; cbn; auto. right. eexists _, _. rewrite commit_nil.
  split_and!; [eassumption|eauto with pix..|done].
Qed.

Lemma record_committed o tn id tok msg outbox audit s s' :
  s' = snd (MemoryStore_RecordSPISubmission o tn id tok msg outbox audit s) ->
  s' = s \/ updated tn id outbox [audit] s s'.
Proof.
  unfold MemoryStore_RecordSPISubmission. intros ->.
  cases_goal; cbn; auto. right. eexists _, _. rewrite append_spec.
  split_and!; [eassumption|eauto with pix..|done].
Qed.

Lemma review_committed tn id status reason outbox audit s s' :
  s' = snd (MemoryStore_RecordReviewDecision tn id status reason outbox audit s) ->
  s' = s \/ updated tn id outbox [audit] s s'.
Proof.
  unfold MemoryStore_RecordReviewDecision. intros ->.
  cases_goal; cbn; auto. right. eexists _, _. rewrite append_spec.
  split_and!; [eassumption|eauto with pix..|done].
Qed.

Lemma settle_result tn id cb outbox audit s :
  let r := MemoryStore_UpdateSettlement tn id cb outbox audit s in
  (snd r = s /\ forall t, fst r <> Ok (t, false)) \/
  exists t t', lookup_tenant tn id s = Some t /\ Transfer_RecordSettlement t cb = Ok t' /\
    ms_callbacks s !! tenant_key tn (cb_SPIMessageID cb) = None /\
    r = (Ok (t', false),
         commit t' (<[tenant_key tn (cb_SPIMessageID cb) := callback_hash cb]> (ms_callbacks s))
           outbox [audit] s).
Proof.
  unfold MemoryStore_UpdateSettlement.
  cases_goal; cbn; try (left; by split). right. eexists _, _. rewrite append_spec.
  split_and!; [done|eassumption|done..].
Qed.

Lemma evidence_nil s tn id : evidence s tn id [] [].
Proof. by split. Qed.

Lemma updated_ok tn id outbox audit s s' :
  store_ok s -> evidence s tn id outbox audit ->
  s' = s \/ updated tn id outbox audit s s' -> store_ok s' /\ store_le s s'.
Proof.
  intros Hs Hev [->|(t & t' & Hl & Hst & Hun & ->)]; [done|].
  destruct (Hev t Hl) as [He Ha]. apply lookup_tenant_Some in Hl as [Hl <-].
  pose proof (so_transfer s Hs _ _ Hl) as Hok.
  rewrite <- (so_id s Hs _ _ Hl) in Hl.
  apply (commit_ok s t); auto using rtc_once. intros Hset. by destruct (Hun Hok).
Qed.

Lemma settle_ok tn id cb outbox audit s :
  store_ok s -> evidence s tn id outbox [audit] ->
  let s' := snd (MemoryStore_UpdateSettlement tn id cb outbox audit s) in
  store_ok s' /\ store_le s s'.
Proof.
  intros Hs Hev. cbn.
  destruct (settle_result tn id cb outbox audit s) as [[-> _]|(t & t' & Hl & E & Hn & ->)]; [done|].
  destruct (Hev t Hl) as [He Ha]. apply lookup_tenant_Some in Hl as [Hl <-].
  rewrite <- (so_id s Hs _ _ Hl) in Hl. cbn.
  apply (commit_ok s t); auto.
  - eapply rtc_once, ts_settle, E.
  - by apply insert_subseteq.
  - intros _. apply settle_inv in E as (Em & _ & _ & st & _ & ->).
    unfold callback_key. cbn. rewrite Em, lookup_insert_eq. done.
Qed.

(** *** Insertion *)

Definition inserted (t : Transfer) (outbox : list Event) (audit : list AuditRecord)
    (s : MemoryStore) : MemoryStore :=
  commit t (ms_callbacks s) outbox audit
    (s <| ms_idempotency := <[idem_key t := t_ID t]> (ms_idempotency s) |>).

(** On a well-formed store an insertion succeeds exactly when both the
    idempotency key and the transfer id are free. *)
Lemma insert_result t outbox audit s :
  store_indexed s ->
  (ms_transfers s !! t_ID t = None /\ ms_idempotency s !! idem_key t = None /\
   MemoryStore_InsertTransfer t outbox audit s = (Ok tt, inserted t outbox audit s)) \/
  ((is_Some (ms_transfers s !! t_ID t) \/ is_Some (ms_idempotency s !! idem_key t)) /\
   exists e, MemoryStore_InsertTransfer t outbox audit s = (Err e, s) /\
     errors_Is e ErrConflict = true).
Proof.
  intros Hs. unfold MemoryStore_InsertTransfer. fold (idem_key t).
  destruct (ms_idempotency s !! idem_key t) as [id|] eqn:Ei.
  - right. destruct (id ==s t_ID t) eqn:E; cbn; [|eauto].
    b2p. destruct (si_idem_inv s Hs _ _ Ei) as (u & Hu & _). subst id.
    rewrite Hu. eauto.
  - destruct (ms_transfers s !! t_ID t) eqn:Et; [right; eauto|left].
    rewrite append_spec. done.
Qed.

Lemma inserted_le t outbox audit s :
  ms_transfers s !! t_ID t = None -> ms_idempotency s !! idem_key t = None ->
  store_le s (inserted t outbox audit s).
Proof.
  intros Ht Hi. split; cbn.
  - intros id u Hu. exists u. rewrite lookup_insert_ne by congruence. done.
  - by apply insert_subseteq.
  - done.
  - by apply prefix_app_r.
  - eexists _, _. split; [done|]. reflexivity.
Qed.

Lemma fresh_keeps_ref {A} (P : Transfer -> A -> Prop) (key : A -> string)
    (m : gmap string Transfer) t (l : list A) :
  m !! t_ID t = None ->
  Forall (fun a => exists u, m !! key a = Some u /\ P u a) l ->
  Forall (fun a => exists u, <[t_ID t := t]> m !! key a = Some u /\ P u a) l.
Proof.
  intros Hm Hl. eapply Forall_impl; [exact Hl|]. intros a (u & Hu & Pu).
  exists u. rewrite lookup_insert_ne by congruence. done.
Qed.

Lemma inserted_indexed t outbox audit s :
  store_indexed s -> ms_transfers s !! t_ID t = None -> ms_idempotency s !! idem_key t = None ->
  store_indexed (inserted t outbox audit s).
Proof.
  intros Hs Ht Hi.
  assert (Hlk : forall id u, <[t_ID t := t]> (ms_transfers s) !! id = Some u ->
    id = t_ID t /\ u = t \/ ms_transfers s !! id = Some u).
  { intros id u H. rewrite lookup_insert in H. case_decide; simplify_eq; auto. }
  split; cbn.
  - intros id u [[-> ->]|H]%Hlk; [done|by apply (si_id s Hs)].
  - intros id u [[-> ->]|H]%Hlk; [by rewrite lookup_insert_eq|].
    pose proof (si_idem s Hs _ _ H). rewrite lookup_insert_ne; congruence.
  - intros k id H. rewrite lookup_insert in H. case_decide; simplify_eq.
    + exists t. by rewrite lookup_insert_eq.
    + destruct (si_idem_inv s Hs _ _ H) as (u & Hu & Ek). exists u.
      rewrite lookup_insert_ne by congruence. done.
  - rewrite (si_next s Hs), seq_after_spec, length_app, length_records_from. f_equal; lia.
  - intros i r H. apply lookup_app_Some in H as [H|[Hi' H]]; [by apply (si_seq s Hs)|].
    rewrite (si_next s Hs) in H. apply records_from_lookup in H as [-> _]. f_equal. lia.
Qed.

Lemma inserted_ok t outbox audit s :
  store_ok s -> new_transfer t ->
  ms_transfers s !! t_ID t = None -> ms_idempotency s !! idem_key t = None ->
  Forall (event_of t) outbox -> Forall (audit_of t) audit ->
  store_ok (inserted t outbox audit s).
Proof.
  intros Hs (Hok & Hpre & Htok) Ht Hi Hev Hau.
  destruct (inserted_indexed t outbox audit s (store_ok_indexed s Hs) Ht Hi) as [I1 I2 I3 I4 I5].
  assert (Hlk : forall id u, <[t_ID t := t]> (ms_transfers s) !! id = Some u ->
    id = t_ID t /\ u = t \/ ms_transfers s !! id = Some u).
  { intros id u H. rewrite lookup_insert in H. case_decide; simplify_eq; auto. }
  split; cbn in *; auto.
  - intros id u [[-> ->]|H]%Hlk; [done|by eapply (so_transfer s Hs)].
  - intros id u [[-> ->]|H]%Hlk Hu; [|by eapply (so_settled s Hs)].
    unfold settled in Hu. exfalso. status_solve.
  - apply Forall_app. split.
    + by apply (fresh_keeps_ref (fun t r => event_of t (o_Event r))
        (fun r => e_TransferID (o_Event r))), (so_events s Hs).
    + apply (new_refs (fun t r => event_of t (o_Event r))); [by intros r (->&_)|].
      by apply records_from_Forall.
  - apply Forall_app. split.
    + by apply (fresh_keeps_ref audit_of a_TransferID), (so_audit s Hs).
    + apply (new_refs audit_of); [by intros a (->&_)|done].
Qed.

(** *** Outbox updates *)

Lemma scan_claim_le now tok until n events :
  Forall2 record_le events (fst (scan_claim now tok until n events)).
Proof.
  revert n. induction events as [|r rest IH]; intros [|n]; try reflexivity.
  cbn [scan_claim]. destruct (outbox_pending now r).
  - specialize (IH n). destruct (scan_claim now tok until n rest); by constructor.
  - specialize (IH (S n)). destruct (scan_claim now tok until (S n) rest); by constructor.
Qed.

Lemma mark_loop_le seq tok f events evs :
  (forall r, record_le r (f r)) ->
  mark_loop seq tok f events = Ok evs -> Forall2 record_le events evs.
Proof.
  intros Hf. revert evs. induction events as [|r rest IH]; cbn; intros evs H; [done|].
  cases_in H; simplify_eq; constructor; auto; reflexivity.
Qed.

Lemma events_update_indexed s evs :
  store_indexed s -> Forall2 record_le (ms_events s) evs ->
  store_indexed (s <| ms_events := evs |>) /\ store_le s (s <| ms_events := evs |>).
Proof.
  intros Hs Hf. destruct Hs as [H1 H2 H3 H4 H5]. split; split; cbn; auto.
  - by rewrite <- (Forall2_length _ _ _ Hf).
  - intros i r Hr. destruct (Forall2_lookup_r _ _ _ _ _ Hf Hr) as (r0 & Hr0 & (-> & _)).
    by apply H5.
  - intros id t Ht. exists t. by split.
  - exists evs, []. by rewrite app_nil_r.
Qed.

Lemma events_update_ok s evs :
  store_ok s -> Forall2 record_le (ms_events s) evs ->
  store_ok (s <| ms_events := evs |>) /\ store_le s (s <| ms_events := evs |>).
Proof.
  intros Hs Hf. destruct (events_update_indexed s evs (store_ok_indexed s Hs) Hf) as [[] Hle].
  destruct Hs as [H1 H2 H3 H4 H5 H6 H7 H8 H9]. split; [|exact Hle]. split; cbn; auto.
  clear -H8 Hf. revert H8. induction Hf as [|r r' l l' (_&E&_) Hf IH]; [done|].
  intros H8. inversion H8; subst. constructor; [by rewrite E|auto].
Qed.

Lemma claim_outbox_result o now1 limit tok until s :
  snd (MemoryStore_ClaimPendingOutbox o now1 limit tok until s) = s \/
  snd (MemoryStore_ClaimPendingOutbox o now1 limit tok until s) =
    s <| ms_events := fst (scan_claim (obs_now o) tok until
                             (Z.to_nat (default_limit limit)) (ms_events s)) |>.
Proof.
  unfold MemoryStore_ClaimPendingOutbox, time_UTC.
  destruct (MemoryStore_Health o); [by left|].
  destruct (_ || _)%bool; [by left|right]. by destruct (scan_claim _ _ _ _ _).
Qed.

Lemma mark_result o seq tok f s :
  (snd (mark_with o seq tok f s) = s /\ fst (mark_with o seq tok f s) <> Ok tt) \/
  exists evs, mark_loop seq tok f (ms_events s) = Ok evs /\
    mark_with o seq tok f s = (Ok tt, s <| ms_events := evs |>).
Proof. unfold mark_with. cases_goal; cbn; eauto; by left. Qed.

Lemma mark_ok o seq tok f s :
  store_ok s -> (forall r, record_le r (f r)) ->
  store_ok (snd (mark_with o seq tok f s)) /\ store_le s (snd (mark_with o seq tok f s)).
Proof.
  intros Hs Hf. destruct (mark_result o seq tok f s) as [[-> _]|(evs & E & ->)]; [done|].
  apply events_update_ok; [done|]. by eapply mark_loop_le.
Qed.

(** ** Calls with any arguments *)

Lemma updated_indexed tn id outbox audit s s' :
  store_indexed s -> s' = s \/ updated tn id outbox audit s s' ->
  store_indexed s' /\ store_le s s'.
Proof.
  intros Hs [->|(t & t' & Hl & Hst & _ & ->)]; [done|]. apply lookup_tenant_Some in Hl as [Hl _].
  pose proof (step_identity _ _ Hst) as Hid. destruct (identity_fields _ _ Hid) as (Eid & _).
  rewrite <- (si_id s Hs _ _ Hl) in Hl. split; [by eapply commit_indexed|].
  apply (commit_le s t); auto using rtc_once.
Qed.

Lemma settle_indexed tn id cb outbox audit s :
  store_indexed s -> let s' := snd (MemoryStore_UpdateSettlement tn id cb outbox audit s) in
  store_indexed s' /\ store_le s s'.
Proof.
  intros Hs. cbn.
  destruct (settle_result tn id cb outbox audit s) as [[-> _]|(t & t' & Hl & E & Hn & ->)]; [done|].
  apply lookup_tenant_Some in Hl as [Hl _].
  pose proof (ts_settle _ _ _ E) as Hst. pose proof (step_identity _ _ Hst) as Hid.
  destruct (identity_fields _ _ Hid) as (Eid & _). rewrite <- (si_id s Hs _ _ Hl) in Hl. cbn.
  split; [by eapply commit_indexed|]. apply (commit_le s t); auto using rtc_once.
  by apply insert_subseteq.
Qed.

Lemma mark_indexed o seq tok f s :
  store_indexed s -> (forall r, record_le r (f r)) ->
  store_indexed (snd (mark_with o seq tok f s)) /\ store_le s (snd (mark_with o seq tok f s)).
Proof.
  intros Hs Hf. destruct (mark_result o seq tok f s) as [[-> _]|(evs & E & ->)]; [done|].
  apply events_update_indexed; [done|]. by eapply mark_loop_le.
Qed.

Lemma run_op_indexed op s :
  store_indexed s -> store_indexed (run_op op s) /\ store_le s (run_op op s).
Proof.
  intros Hs. destruct op; cbn.
  - destruct (insert_result t outbox audit s Hs) as [(Ht&Hi&->)|(_&e&->&_)]; [|done].
    split; [by apply inserted_indexed|by apply inserted_le].
  - eapply updated_indexed; [done|by eapply claim_committed].
  - eapply updated_indexed; [done|by eapply record_committed].
  - eapply updated_indexed; [done|by eapply release_committed].
  - eapply updated_indexed; [done|by eapply review_committed].
  - by apply settle_indexed.
  - destruct (claim_outbox_result o now1 limit tok until s) as [->| ->]; [done|].
    apply events_update_indexed; [done|apply scan_claim_le].
  - by apply mark_indexed.
  - by apply mark_indexed.
Qed.

Lemma calls_indexed s s' :
  store_indexed s -> rtc store_call s s' -> store_indexed s' /\ store_le s s'.
Proof.
  intros Hs H. induction H as [s|s u s' [op] _ IH]; [done|].
  destruct (run_op_indexed op s Hs) as [Hix Hle]. destruct (IH Hix). split; [done|]. by etrans.
Qed.

Lemma run_op_ok op s :
  store_ok s -> op_pre op s -> store_ok (run_op op s) /\ store_le s (run_op op s).
Proof.
  intros Hs Hpre. destruct op; cbn in *.
  - destruct Hpre as (Hn & He & Ha).
    destruct (insert_result t outbox audit s (store_ok_indexed s Hs)) as [(?&?&->)|(_&e&->&_)]; [|done].
    split; [by apply inserted_ok|by apply inserted_le].
  - eapply updated_ok; [done|apply evidence_nil|by eapply claim_committed].
  - eapply updated_ok; [done|exact Hpre|by eapply record_committed].
  - eapply updated_ok; [done|apply evidence_nil|by eapply release_committed].
  - eapply updated_ok; [done|exact Hpre|by eapply review_committed].
  - by apply settle_ok.
  - destruct (claim_outbox_result o now1 limit tok until s) as [->| ->]; [done|].
    apply events_update_ok; [done|apply scan_claim_le].
  - by apply mark_ok.
  - by apply mark_ok.
Qed.

Lemma new_store_ok : store_ok NewMemoryStore.
Proof. split; cbn; intros *; rewrite ?lookup_empty; done. Qed.

Lemma steps_ok s s' : store_ok s -> rtc store_step s s' -> store_ok s' /\ store_le s s'.
Proof.
  intros Hs H. induction H as [s|s u s' Hsu _ IH]; [done|]. inversion Hsu as [op Hpre Eu].
  subst u. destruct (run_op_ok op s Hs Hpre) as [Hok Hle].
  destruct (IH Hok). split; [done|]. by etrans.
Qed.

(** C13: in every store reached from an empty one by any calls of its methods, with
    any arguments, each transfer is indexed by its id and by exactly its own
    idempotency key and outbox sequence numbers count the records; and further calls
    only move transfers along the aggregate's operations, never rebind a key or a
    callback, never unpublish a record, and only add audit and outbox records. When the
    store is called the way the service calls it, that is with new transfers as the
    aggregate makes them and with evidence about the transfer it updates, moreover each
    transfer is well-formed, a settled one has its callback on record, and every outbox
    and audit record belongs to a stored transfer, to its tenant and its account. *)
Theorem store_reachable_ok s s' :
  (rtc store_call NewMemoryStore s -> rtc store_call s s' ->
     store_indexed s /\ store_indexed s' /\ store_le s s') /\
  (rtc store_step NewMemoryStore s -> rtc store_step s s' ->
     store_ok s /\ store_ok s' /\ store_le s s').
Proof.
  split; intros H H'.
  - destruct (calls_indexed _ _ (store_ok_indexed _ new_store_ok) H) as [Hs _].
    destruct (calls_indexed _ _ Hs H'). done.
  - destruct (steps_ok _ _ new_store_ok H) as [Hs _]. destruct (steps_ok _ _ Hs H'). done.
Qed.

(** ** Tenants *)

(** What an operation for tenant [tn] may do to a store, given the evidence [evs] and
    [aus]: the transfers of the other tenants stay as they are, and none is added; keys
    and callbacks are bound under the tenant's prefix only; the logs gain nothing or
    exactly the evidence. *)
Record tenant_delta (tn : string) (evs : list Event) (aus : list AuditRecord)
    (s s' : MemoryStore) : Prop := mkTenantDelta {
  td_transfers : forall id u, t_TenantID u <> tn ->
    ms_transfers s' !! id = Some u <-> ms_transfers s !! id = Some u;
  td_keys : forall k, (forall key, k <> tenant_key tn key) ->
    ms_idempotency s' !! k = ms_idempotency s !! k /\ ms_callbacks s' !! k = ms_callbacks s !! k;
  td_logs : exists recs added, ms_events s' = ms_events s ++ recs /\
    ms_audit s' = ms_audit s ++ added /\
    (recs = [] /\ added = [] \/ map o_Event recs = evs /\ added = aus)
}.

Lemma tenant_delta_refl tn evs aus s : tenant_delta tn evs aus s s.
Proof. split; [done|done|]. exists [], []. rewrite !app_nil_r. split_and!; auto. Qed.

Lemma tenant_delta_commit t' idem cb outbox audit s tn :
  (forall u, ms_transfers s !! t_ID t' = Some u -> t_TenantID u = tn) ->
  t_TenantID t' = tn ->
  (forall k, (forall key, k <> tenant_key tn key) ->
     idem !! k = ms_idempotency s !! k /\ cb !! k = ms_callbacks s !! k) ->
  tenant_delta tn outbox audit s (commit t' cb outbox audit (s <| ms_idempotency := idem |>)).
Proof.
  intros Hold <- Hk. split; cbn.
  - intros id u Hn. destruct (decide (id = t_ID t')) as [->|Hne].
    + rewrite lookup_insert_eq. split; [intros [= ->]; done|]. by intros Hu%Hold.
    + by rewrite lookup_insert_ne.
  - exact Hk.
  - eexists _, _. split_and!; [done..|]. right. by rewrite records_from_events.
Qed.

Lemma tenant_delta_step tn id t t' cb outbox audit s :
  store_indexed s -> lookup_tenant tn id s = Some t -> transfer_step t t' ->
  (forall k, (forall key, k <> tenant_key tn key) -> cb !! k = ms_callbacks s !! k) ->
  tenant_delta tn outbox audit s (commit t' cb outbox audit s).
Proof.
  intros Hs Hl Hst Hcb. apply lookup_tenant_Some in Hl as [Hl <-].
  destruct (identity_fields _ _ (step_identity _ _ Hst)) as (Eid & Etn & _).
  rewrite <- (si_id s Hs _ _ Hl) in Hl.
  change (commit t' cb outbox audit s)
    with (commit t' cb outbox audit (s <| ms_idempotency := ms_idempotency s |>)).
  apply tenant_delta_commit; [congruence|done|auto].
Qed.

Lemma tenant_delta_updated tn id outbox audit s s' :
  store_indexed s -> s' = s \/ updated tn id outbox audit s s' ->
  tenant_delta tn outbox audit s s'.
Proof.
  intros Hs [->|(t & t' & Hl & Hst & _ & ->)]; [apply tenant_delta_refl|].
  by eapply tenant_delta_step.
Qed.

(** C30: an operation run for one tenant, with whatever arguments, leaves the
    transfers of every other tenant exactly as they were and adds none of theirs, binds
    keys and callbacks under its own tenant's prefix only, and adds to the logs nothing
    but the evidence it was given, as a whole and in order, or nothing. *)
Theorem tenant_isolation op tn s :
  store_indexed s -> op_tenant op = Some tn ->
  tenant_delta tn (op_events op) (op_audit op) s (run_op op s).
Proof.
  intros Hs Htn. destruct op; cbn in *; simplify_eq.
  - destruct (insert_result t outbox audit s Hs) as [(Hf&_&->)|(_&e&->&_)];
      [|apply tenant_delta_refl].
    apply tenant_delta_commit; [congruence|done|]. intros k Hk. split; [|done].
    apply lookup_insert_ne. intros E. by apply (Hk (t_IdempotencyKey t)).
  - eapply tenant_delta_updated; [done|by eapply claim_committed].
  - eapply tenant_delta_updated; [done|by eapply record_committed].
  - eapply tenant_delta_updated; [done|by eapply release_committed].
  - eapply tenant_delta_updated; [done|by eapply review_committed].
  - destruct (settle_result tn id cb outbox audit s) as [[-> _]|(t & t' & Hl & E & _ & ->)];
      [apply tenant_delta_refl|].
    eapply tenant_delta_step; [done|done|by eapply ts_settle|]. intros k Hk.
    apply lookup_insert_ne. intros E'. by apply (Hk (cb_SPIMessageID cb)).
Qed.

Definition not_found (e : error) : Prop := errors_Is e ErrNotFound = true.

(** Addressed by a tenant that does not own it, a transfer cannot be
    read, claimed, recorded, released, reviewed or settled: every operation
    answers "not found" and leaves the store unchanged. *)
Theorem foreign_transfer_not_found s tn id now u :
  ms_transfers s !! id = Some u -> t_TenantID u <> tn ->
  let o := mkObs None now in
  let refused {A} (r : result A * MemoryStore) :=
    exists e, r = (Err e, s) /\ not_found e in
  (exists e, MemoryStore_GetTransfer tn id s = Err e /\ not_found e) /\
  (forall tok until, refused (MemoryStore_ClaimSPISubmission o tn id tok until s)) /\
  (forall tok msg evs a, refused (MemoryStore_RecordSPISubmission o tn id tok msg evs a s)) /\
  (forall tok err retry, refused (MemoryStore_ReleaseSPISubmission o tn id tok err retry s)) /\
  (forall st why evs a, refused (MemoryStore_RecordReviewDecision tn id st why evs a s)) /\
  (forall cb evs a, refused (MemoryStore_UpdateSettlement tn id cb evs a s)).
Proof.
  intros Hu Hn o refused. apply String.eqb_neq in Hn.
  assert (Hl : lookup_tenant tn id s = None) by (unfold lookup_tenant; by rewrite Hu, Hn).
  unfold MemoryStore_GetTransfer, MemoryStore_ClaimSPISubmission,
    MemoryStore_RecordSPISubmission, MemoryStore_ReleaseSPISubmission,
    MemoryStore_RecordReviewDecision, MemoryStore_UpdateSettlement, refused.
  rewrite !Hl. cbn. split_and!; intros; eexists; by split.
Qed.

(** ** Idempotency keys *)

Definition plain_tenants (s : MemoryStore) : Prop :=
  forall id t, ms_transfers s !! id = Some t -> has_char ":" (t_TenantID t) = false.

(** Where tenant ids hold no colon, a lookup by idempotency
    key finds a transfer if and only if that transfer is stored under the same
    tenant with the same key; so a tenant never has two transfers with one key. *)
Theorem find_by_idempotency_exact s now tn key t :
  store_ok s -> plain_tenants s -> has_char ":" tn = false ->
  MemoryStore_FindByIdempotency (mkObs None now) tn key s = Ok (Some t) <->
  ms_transfers s !! t_ID t = Some t /\ t_TenantID t = tn /\ t_IdempotencyKey t = key.
Proof.
  intros Hs Hp Htn. unfold MemoryStore_FindByIdempotency. cbn. split.
  - destruct (ms_idempotency s !! _) as [id|] eqn:E; [|done]. intros [= Ht].
    destruct (so_idem_inv s Hs _ _ E) as (u & Hu & Ek).
    rewrite Hu in Ht. injection Ht as ->.
    rewrite (so_id s Hs _ _ Hu). split; [done|].
    by apply colon_key_inj in Ek; [|eapply Hp|].
  - intros (Ht & <- & <-). pose proof (so_idem s Hs _ _ Ht) as Hi.
    unfold idem_key in Hi. by rewrite Hi, Ht.
Qed.

(** Inserting a new transfer succeeds exactly when its id and its
    idempotency key are both unused; then the transfer can be read back by id and
    by key, and its events and audit records are at the end of the logs. Otherwise
    the call is a conflict and changes nothing. *)
Theorem insert_transfer_roundtrip s t outbox audit now :
  store_ok s ->
  match MemoryStore_InsertTransfer t outbox audit s with
  | (Ok _, s') =>
      ms_transfers s !! t_ID t = None /\ ms_idempotency s !! idem_key t = None /\
      MemoryStore_GetTransfer (t_TenantID t) (t_ID t) s' = Ok t /\
      MemoryStore_FindByIdempotency (mkObs None now) (t_TenantID t) (t_IdempotencyKey t) s'
        = Ok (Some t) /\
      map o_Event (ms_events s') = map o_Event (ms_events s) ++ outbox /\
      ms_audit s' = ms_audit s ++ audit
  | (Err e, s') =>
      s' = s /\ errors_Is e ErrConflict = true /\
      (is_Some (ms_transfers s !! t_ID t) \/ is_Some (ms_idempotency s !! idem_key t))
  end.
Proof.
  intros Hs. destruct (insert_result t outbox audit s (store_ok_indexed s Hs)) as [(Ht&Hi&->)|(Hd&e&->&He)];
    [|done].
  split_and!; [done|done| | | |done].
  - unfold MemoryStore_GetTransfer, lookup_tenant. cbn.
    by rewrite lookup_insert_eq, String.eqb_refl.
  - unfold MemoryStore_FindByIdempotency. fold (idem_key t). cbn. by rewrite !lookup_insert_eq.
  - cbn. by rewrite map_app, records_from_events.
Qed.

(** ** Settlement *)

(** Once a callback has settled or rejected a transfer, then after
    any further operations the same callback is a replay that returns that
    transfer, unchanged, and any callback for the same SPI message with another
    payload hash is a conflict; neither changes the store. *)
Theorem settlement_exactly_once s tn id cb outbox audit t1 s1 s2 :
  store_ok s -> evidence s tn id outbox [audit] ->
  MemoryStore_UpdateSettlement tn id cb outbox audit s = (Ok (t1, false), s1) ->
  rtc store_step s1 s2 ->
  settled t1 /\
  forall cb' outbox' audit', cb_SPIMessageID cb' = cb_SPIMessageID cb ->
    if callback_hash cb' ==s callback_hash cb
    then MemoryStore_UpdateSettlement tn id cb' outbox' audit' s2 = (Ok (t1, true), s2)
    else exists e, MemoryStore_UpdateSettlement tn id cb' outbox' audit' s2 = (Err e, s2) /\
           errors_Is e ErrConflict = true.
Proof.
  intros Hs Hev E Hrun.
  pose proof (settle_ok tn id cb outbox audit s Hs Hev) as [Hs1 _].
  destruct (settle_result tn id cb outbox audit s) as [[_ Hf]|(t & t' & Hl & Es & _ & Er)];
    [by rewrite E in Hf; destruct (Hf t1)|].
  rewrite E in Er. cbn in Er. simplify_eq. rewrite E in Hs1. cbn in Hs1.
  assert (Hset : settled t').
  { apply settle_inv in Es as (_&_&_&st&Hst&->). unfold settled. cbn. naive_solver. }
  split; [done|]. intros cb' outbox' audit' Em.
  destruct (steps_ok _ _ Hs1 Hrun) as [_ Hle].
  apply lookup_tenant_Some in Hl as [Hl <-].
  pose proof (identity_fields _ _ (step_identity _ _ (ts_settle _ _ _ Es))) as (Eid&Etn&_).
  rewrite <- (so_id s Hs _ _ Hl) in *.
  destruct (le_transfers _ _ Hle (t_ID t') t') as (t2 & Ht2 & Hst); [apply lookup_insert_eq|].
  assert (transfer_ok t') by (eapply (so_transfer _ Hs1); apply lookup_insert_eq).
  apply settled_fixed in Hst as ->; [|done..].
  pose proof (lookup_weaken _ _ _ _ (lookup_insert_eq _ _ _) (le_callbacks _ _ Hle)) as Hcb.
  unfold MemoryStore_UpdateSettlement, lookup_tenant.
  rewrite <- Eid, Ht2, Etn, String.eqb_refl, Em, Hcb, String.eqb_sym.
  destruct (callback_hash cb ==s callback_hash cb'); eauto.
Qed.
