(* ===== verification/OutboxProps.v ===== *)
(** * The outbox and the SPI work queue of the in-memory store

    What [ClaimPendingOutbox] hands to a relay worker and leaves to the others,
    what the mark operations do, and what [PendingSPISubmissions] returns. *)

From S2P Require Import Prelude GoStrings Rail Events StoreSpec MemStore MemStoreProps.

(** ** Sequence order *)

Definition seq_lt (a b : OutboxRecord) : Prop := o_Sequence a < o_Sequence b.

Lemma ssorted_sublist {A} (R : relation A) l l' :
  l' `sublist_of` l -> StronglySorted R l -> StronglySorted R l'.
Proof.
  intros Hl. induction Hl as [|x l1 l2 Hl IH|x l1 l2 Hl IH]; intros Hs; [done|..];
    apply StronglySorted_inv in Hs as [Hs Hf]; [|auto].
  constructor; [auto|]. apply Forall_forall. intros y Hy.
  rewrite Forall_forall in Hf. apply Hf. by eapply elem_of_sublist.
Qed.

Lemma seq_lt_inj l a b :
  StronglySorted seq_lt l -> a ∈ l -> b ∈ l -> o_Sequence a = o_Sequence b -> a = b.
Proof.
  induction 1 as [|x l Hs IH Hf]; [by intros ?%elem_of_nil|].
  rewrite Forall_forall in Hf. rewrite !elem_of_cons. intros [->|Ha] [->|Hb] E; auto.
  - apply Hf in Hb. unfold seq_lt in Hb. lia.
  - apply Hf in Ha. unfold seq_lt in Ha. lia.
Qed.

Lemma seq_lt_index l i j r :
  StronglySorted seq_lt l -> l !! i = Some r -> l !! j = Some r -> i = j.
Proof.
  intros Hs. revert i j. induction Hs as [|x l Hs IH Hx]; [done|].
  rewrite Forall_forall in Hx.
  intros [|i] [|j] Hi Hj; cbn in *; simplify_eq; [done|..].
  - apply list_elem_of_lookup_2, Hx in Hj. unfold seq_lt in Hj. lia.
  - apply list_elem_of_lookup_2, Hx in Hi. unfold seq_lt in Hi. lia.
  - f_equal. by apply IH.
Qed.

#[export] Instance seq_le_trans : Transitive seq_le.
Proof. intros a b c. unfold seq_le. lia. Qed.
#[export] Instance seq_le_total : Total seq_le.
Proof. intros a b. unfold seq_le. lia. Qed.

Lemma merge_sort_id l : StronglySorted seq_lt l -> merge_sort seq_le l = l.
Proof.
  intros Hs. apply (StronglySorted_unique_strong seq_le).
  - intros a b Ha Hb H1 H2. apply (seq_lt_inj l); auto.
    + by rewrite merge_sort_Permutation in Ha.
    + unfold seq_le in *. lia.
  - apply StronglySorted_merge_sort; apply _.
  - clear -Hs. induction Hs as [|x l Hs IH Hf]; constructor; auto.
    eapply Forall_impl; [exact Hf|]. unfold seq_lt, seq_le. lia.
  - apply merge_sort_Permutation.
Qed.

Lemma ssorted_lookup {A} (R : relation A) l :
  (forall i j x y, l !! i = Some x -> l !! j = Some y -> (i < j)%nat -> R x y) ->
  StronglySorted R l.
Proof.
  induction l as [|x l IH]; intros H; constructor.
  - apply IH. intros i j a b Ha Hb Hij. apply (H (S i) (S j)); auto; lia.
  - apply Forall_forall. intros y [j Hj]%list_elem_of_lookup. apply (H 0%nat (S j)); auto; lia.
Qed.

(** Fewer than 2^63 records: the counter has not wrapped. *)
Definition small_outbox (s : MemoryStore) : Prop :=
  Z.of_nat (length (ms_events s)) <= max_int64.

Lemma indexed_sorted s : store_indexed s -> small_outbox s -> StronglySorted seq_lt (ms_events s).
Proof.
  intros Hs Hn. apply ssorted_lookup. intros i j x y Hx Hy Hij. unfold seq_lt.
  rewrite (si_seq s Hs _ _ Hx), (si_seq s Hs _ _ Hy).
  apply lookup_lt_Some in Hx, Hy. unfold small_outbox in Hn.
  rewrite !int64_id; int_lia.
Qed.

Lemma events_sorted s : store_ok s -> small_outbox s -> StronglySorted seq_lt (ms_events s).
Proof. intros Hs. by apply indexed_sorted, store_ok_indexed. Qed.

(** ** What a claim picks *)

(** The first [limit] pending records, in outbox order. *)
Definition picked (now : Time) (limit : Z) (s : MemoryStore) : list OutboxRecord :=
  take (Z.to_nat (default_limit limit)) (List.filter (outbox_pending now) (ms_events s)).

Lemma scan_claim_recs now tok until n events :
  snd (scan_claim now tok until n events) =
  map (claim_record tok until) (take n (List.filter (outbox_pending now) events)).
Proof.
  revert n. induction events as [|r rest IH]; intros [|n]; try done.
  cbn [scan_claim List.filter]. destruct (outbox_pending now r).
  - specialize (IH n). destruct (scan_claim now tok until n rest). cbn in *. by rewrite IH.
  - specialize (IH (S n)). destruct (scan_claim now tok until (S n) rest). cbn in *. by rewrite IH.
Qed.

Lemma scan_pending_spec now n events :
  scan_pending now n events = take n (List.filter (outbox_pending now) events).
Proof.
  revert n. induction events as [|r rest IH]; intros [|n]; try done.
  cbn [scan_pending List.filter]. destruct (outbox_pending now r); cbn; by rewrite IH.
Qed.

Lemma sublist_picked now limit s : picked now limit s `sublist_of` ms_events s.
Proof.
  unfold picked. rewrite sublist_take.
  induction (ms_events s) as [|r l IH]; cbn; [done|].
  destruct (outbox_pending now r); by constructor.
Qed.

Lemma picked_pending now limit s r : r ∈ picked now limit s -> outbox_pending now r = true.
Proof.
  unfold picked. intros H. apply (fun H => elem_of_sublist _ _ _ H (sublist_take _ _)) in H.
  apply list_elem_of_In, filter_In in H. tauto.
Qed.

Lemma claimed_sorted tok until l :
  StronglySorted seq_lt l -> StronglySorted seq_lt (map (claim_record tok until) l).
Proof.
  induction 1 as [|x l Hs IH Hf]; cbn; constructor; auto.
  apply Forall_map. eapply Forall_impl; [exact Hf|]. done.
Qed.

Lemma scan_claim_marks now tok until n events r :
  r ∈ snd (scan_claim now tok until n events) -> r ∈ fst (scan_claim now tok until n events).
Proof.
  revert n. induction events as [|x rest IH]; intros [|n]; cbn [scan_claim];
    try (by intros ?%elem_of_nil).
  destruct (outbox_pending now x).
  - specialize (IH n). destruct (scan_claim now tok until n rest). cbn in *.
    rewrite !elem_of_cons. tauto.
  - specialize (IH (S n)). destruct (scan_claim now tok until (S n) rest). cbn in *.
    rewrite !elem_of_cons. tauto.
Qed.

Lemma picked_complete now limit s r :
  Z.of_nat (length (picked now limit s)) < default_limit limit ->
  r ∈ ms_events s -> outbox_pending now r = true -> r ∈ picked now limit s.
Proof.
  unfold picked. rewrite length_take. intros Hl Hr Hp.
  rewrite take_ge by lia. apply list_elem_of_In, filter_In. by rewrite <- list_elem_of_In.
Qed.

(** The store after a successful claim. *)
Definition claimed_store (now : Time) (limit : Z) (tok : string) (until : Time)
    (s : MemoryStore) : MemoryStore :=
  s <| ms_events := fst (scan_claim now tok until (Z.to_nat (default_limit limit)) (ms_events s)) |>.

Lemma claim_outbox_eq s now1 now limit tok until :
  store_indexed s -> small_outbox s -> tok <> "" -> now1 < until ->
  MemoryStore_ClaimPendingOutbox (mkObs None now) now1 limit tok until s =
  (Ok (map (claim_record tok until) (picked now limit s)), claimed_store now limit tok until s).
Proof.
  intros Hs Hn Htok Hu. unfold MemoryStore_ClaimPendingOutbox, claimed_store. cbn.
  apply String.eqb_neq in Htok. rewrite Htok. unfold time_After, time_UTC.
  rewrite (proj2 (Z.ltb_lt _ _) Hu). cbn.
  pose proof (scan_claim_recs now tok until (Z.to_nat (default_limit limit)) (ms_events s)) as E.
  destruct (scan_claim _ _ _ _ _) as [evs recs]. cbn in E. subst recs. cbn. do 2 f_equal.
  apply merge_sort_id, claimed_sorted.
  eapply ssorted_sublist; [apply sublist_picked|by apply indexed_sorted].
Qed.

Lemma claimed_in_store now limit tok until s r :
  r ∈ picked now limit s -> claim_record tok until r ∈ ms_events (claimed_store now limit tok until s).
Proof.
  intros Hr. apply scan_claim_marks. rewrite scan_claim_recs. by apply list_elem_of_fmap_2.
Qed.

(** *** What becomes of a claim while others work *)

Definition holds_claim (tok : string) (r : OutboxRecord) : bool :=
  negb (o_ClaimToken r ==s "") && (o_ClaimToken r ==s tok).

(** A claim touches pending records only, a mark those the worker holds. *)
Lemma scan_claim_touches now tok until n events :
  Forall2 (fun r r' => r' = r \/
    r ∈ take n (List.filter (outbox_pending now) events) /\ r' = claim_record tok until r)
    events (fst (scan_claim now tok until n events)).
Proof.
  assert (Hrefl : forall (P : OutboxRecord -> OutboxRecord -> Prop) l,
    Forall2 (fun r r' => r' = r \/ P r r') l l) by (intros P l; induction l; constructor; auto).
  revert n. induction events as [|r rest IH]; intros [|n]; [apply Hrefl..|].
  cbn [scan_claim List.filter]. destruct (outbox_pending now r).
  - specialize (IH n). destruct (scan_claim now tok until n rest). cbn in *. constructor.
    + right. split; [by left|done].
    + eapply Forall2_impl; [exact IH|]. intros x y [->|[Hx ->]]; [by left|right].
      split; [by right|done].
  - specialize (IH (S n)). destruct (scan_claim now tok until (S n) rest). cbn in *.
    constructor; [by left|exact IH].
Qed.

Lemma mark_loop_touches seq tok f events evs : mark_loop seq tok f events = Ok evs ->
  Forall2 (fun r r' => r' = r \/ holds_claim tok r = true /\ r' = f r) events evs.
Proof.
  revert evs. induction events as [|r rest IH]; cbn; intros evs H; [done|].
  destruct (negb (o_Sequence r =? seq)).
  - destruct (mark_loop seq tok f rest) as [evs'|]; [|done]. injection H as <-.
    constructor; [by left|by apply IH].
  - destruct (_ || _)%bool eqn:E; [done|]. injection H as <-. constructor.
    + right. split; [|done]. apply orb_false_elim in E as [E1 E2%negb_false_iff].
      unfold holds_claim. by rewrite E1, E2.
    + clear. induction rest; constructor; auto.
Qed.

(** An operation of another worker before the server's clock reaches [until]: a claim
    under any token, a mark under another one, or any other call of the store. *)
Definition other_worker (tok : string) (until : Time) (op : StoreOp) : Prop :=
  match op with
  | OpClaimOutbox o _ _ _ _ => obs_now o < until
  | OpPublished _ _ tok' _ | OpFailed _ _ tok' _ _ => tok' <> tok
  | _ => True
  end.

Inductive other_call (tok : string) (until : Time) (s : MemoryStore) : MemoryStore -> Prop :=
  | oc_op op : other_worker tok until op -> other_call tok until s (run_op op s).

Lemma standing_claim_excludes now tok until r : now < until ->
  outbox_pending now (claim_record tok until r) = false.
Proof.
  intros Hlt. unfold outbox_pending. cbn. unfold time_After, time_UTC.
  rewrite (proj2 (Z.ltb_lt _ _) Hlt). apply andb_false_r.
Qed.

(** The calls that are not of a relay append to the outbox. *)
Lemma updated_appends tn id outbox audit s s' : s' = s \/ updated tn id outbox audit s s' ->
  exists new, ms_events s' = ms_events s ++ new.
Proof.
  intros [->|(t & t' & _ & _ & _ & ->)]; [exists []; by rewrite app_nil_r|by eexists].
Qed.

Lemma marked_keeps o seq tok tok' until f r s : tok' <> tok ->
  claim_record tok until r ∈ ms_events s ->
  claim_record tok until r ∈ ms_events (snd (mark_with o seq tok' f s)).
Proof.
  intros Hne Hin. destruct (mark_result o seq tok' f s) as [[-> _]|(evs & E & ->)]; [done|]. cbn.
  apply mark_loop_touches in E. apply list_elem_of_lookup in Hin as [i Hi].
  destruct (Forall2_lookup_l _ _ _ _ _ E Hi) as (r' & Hr' & [->|[Hh _]]).
  - by eapply list_elem_of_lookup_2.
  - unfold holds_claim in Hh. cbn in Hh. b2p. congruence.
Qed.

Lemma other_keeps op tok until r s : store_indexed s -> other_worker tok until op ->
  claim_record tok until r ∈ ms_events s -> claim_record tok until r ∈ ms_events (run_op op s).
Proof.
  intros Hs Ho Hin.
  assert (Happ : forall s', (exists new, ms_events s' = ms_events s ++ new) ->
    claim_record tok until r ∈ ms_events s') by (intros s' [new ->]; apply elem_of_app; by left).
  destruct op; cbn in *.
  - destruct (insert_result t outbox audit s Hs) as [(_&_&->)|(_&e&->&_)]; [|done].
    apply Happ. by eexists.
  - eapply Happ, updated_appends, claim_committed. reflexivity.
  - eapply Happ, updated_appends, record_committed. reflexivity.
  - eapply Happ, updated_appends, release_committed. reflexivity.
  - eapply Happ, updated_appends, review_committed. reflexivity.
  - destruct (settle_result tn id cb outbox audit s) as [[-> _]|(t & t' & _ & _ & _ & ->)]; [done|].
    apply Happ. by eexists.
  - destruct (claim_outbox_result o now1 limit tok0 until0 s) as [->| ->]; [done|]. cbn.
    apply list_elem_of_lookup in Hin as [i Hi].
    destruct (Forall2_lookup_l _ _ _ _ _ (scan_claim_touches (obs_now o) tok0 until0
      (Z.to_nat (default_limit limit)) (ms_events s)) Hi)
      as (r' & Hr' & [->|[Hp _]]); [by eapply list_elem_of_lookup_2|exfalso].
    apply (fun H => elem_of_sublist _ _ _ H (sublist_take _ _)) in Hp.
    apply list_elem_of_In, filter_In in Hp as [_ Hp]. by rewrite standing_claim_excludes in Hp.
  - by apply marked_keeps.
  - by apply marked_keeps.
Qed.

Lemma others_keep tok until r s s' : store_indexed s -> rtc (other_call tok until) s s' ->
  claim_record tok until r ∈ ms_events s ->
  store_indexed s' /\ claim_record tok until r ∈ ms_events s'.
Proof.
  intros Hs H. induction H as [s|s u s' [op Ho] _ IH]; [done|]. intros Hin.
  apply IH; [by apply run_op_indexed|by apply other_keeps].
Qed.

(** What any claim returns was pending. *)
Lemma claim_returns o now1 limit tok until s recs s' r :
  MemoryStore_ClaimPendingOutbox o now1 limit tok until s = (Ok recs, s') -> r ∈ recs ->
  exists x, x ∈ ms_events s /\ outbox_pending (obs_now o) x = true /\ o_Sequence r = o_Sequence x.
Proof.
  unfold MemoryStore_ClaimPendingOutbox, time_UTC. destruct (MemoryStore_Health o); [done|].
  destruct (_ || _)%bool; [done|].
  pose proof (scan_claim_recs (obs_now o) tok until (Z.to_nat (default_limit limit)) (ms_events s)) as E.
  destruct (scan_claim _ _ _ _ _) as [evs l]. cbn in E. subst l. intros [= <- _].
  rewrite merge_sort_Permutation. intros (x & -> & Hx)%list_elem_of_fmap. exists x.
  split_and!; [|by eapply (picked_pending _ limit)|done].
  exact (elem_of_sublist _ _ _ Hx (sublist_picked (obs_now o) limit s)).
Qed.

(** C27: a claim with a token and a future expiry returns the first
    [limit] pending records in sequence order, now owned by the worker until the
    expiry, and all of them when there are fewer, and changes no other record. As long
    as the server's clock has not reached the expiry, whatever other workers and the
    switch do in the meantime (claims under any token, marks under other tokens,
    insertions and updates), the records stay claimed as they are and no claim returns
    any of them. *)
Theorem outbox_claim_exclusive s now1 now limit tok until :
  store_indexed s -> small_outbox s -> tok <> "" -> now1 < until ->
  exists s', MemoryStore_ClaimPendingOutbox (mkObs None now) now1 limit tok until s =
    (Ok (map (claim_record tok until) (picked now limit s)), s') /\
  Z.of_nat (length (picked now limit s)) <= default_limit limit /\
  Forall (fun r => outbox_pending now r = true) (picked now limit s) /\
  (Z.of_nat (length (picked now limit s)) < default_limit limit ->
     forall r, r ∈ ms_events s -> outbox_pending now r = true -> r ∈ picked now limit s) /\
  Forall2 (fun r r' => r' = r \/ r ∈ picked now limit s /\ r' = claim_record tok until r)
    (ms_events s) (ms_events s') /\
  forall s2, rtc (other_call tok until) s' s2 -> forall r, r ∈ picked now limit s ->
    claim_record tok until r ∈ ms_events s2 /\
    forall o2 now2 limit2 tok2 until2 recs s3, small_outbox s2 -> obs_now o2 < until ->
      MemoryStore_ClaimPendingOutbox o2 now2 limit2 tok2 until2 s2 = (Ok recs, s3) ->
      forall r2, r2 ∈ recs -> o_Sequence r2 <> o_Sequence r.
Proof.
  intros Hs Hn Htok Hu. exists (claimed_store now limit tok until s).
  assert (Hs' : store_indexed (claimed_store now limit tok until s))
    by (apply events_update_indexed; [done|apply scan_claim_le]).
  split_and!.
  - by apply claim_outbox_eq.
  - unfold picked. rewrite length_take. unfold default_limit.
    destruct (limit <=? 0) eqn:E; b2p; lia.
  - apply Forall_forall. intros r. apply picked_pending.
  - intros. by apply picked_complete.
  - apply scan_claim_touches.
  - intros s2 Hrun r Hr. pose proof (claimed_in_store now limit tok until s r Hr) as Hin.
    destruct (others_keep tok until r _ _ Hs' Hrun Hin) as [Hs2 Hin2]. split; [exact Hin2|].
    intros o2 now2 limit2 tok2 until2 recs s3 Hn2 Hlt E r2 Hr2 Eseq.
    destruct (claim_returns _ _ _ _ _ _ _ _ _ E Hr2) as (x & Hx & Hp & Ex).
    assert (x = claim_record tok until r) as ->.
    { apply (seq_lt_inj (ms_events s2)); [by apply indexed_sorted|done|done|]. cbn. congruence. }
    by rewrite standing_claim_excludes in Hp.
Qed.

(** ** Acknowledging a record *)

Lemma mark_loop_spec tok f events i r :
  StronglySorted seq_lt events -> events !! i = Some r ->
  mark_loop (o_Sequence r) tok f events =
  if holds_claim tok r then Ok (<[i := f r]> events)
  else Err (Errorf ErrConflict "outbox record is not claimed by this worker").
Proof.
  unfold holds_claim. intros Hs. revert i. induction Hs as [|x l Hs IH Hf]; [done|].
  intros [|i] Hi; cbn in *.
  - simplify_eq. rewrite Z.eqb_refl. cbn.
    destruct (o_ClaimToken r ==s ""), (o_ClaimToken r ==s tok); done.
  - rewrite Forall_forall in Hf. assert (Hlt : seq_lt x r) by
      (apply Hf; by eapply list_elem_of_lookup_2).
    unfold seq_lt in Hlt. rewrite (proj2 (Z.eqb_neq _ _)) by lia. cbn.
    rewrite (IH i Hi). by destruct (_ && _)%bool.
Qed.

Lemma mark_with_spec s now tok f i r :
  store_ok s -> small_outbox s -> ms_events s !! i = Some r ->
  mark_with (mkObs None now) (o_Sequence r) tok f s =
  if holds_claim tok r then (Ok tt, s <| ms_events := <[i := f r]> (ms_events s) |>)
  else (Err (Errorf ErrConflict "outbox record is not claimed by this worker"), s).
Proof.
  intros Hs Hn Hi. unfold mark_with. cbn.
  rewrite (mark_loop_spec tok f _ i r); [|by apply events_sorted|done].
  by destruct (holds_claim tok r).
Qed.

(** Only the worker that holds the claim on a record can mark it:
    published clears the claim and the error and records the dispatch time; failed
    clears the claim, counts the attempt, keeps the error text and delays the
    record to the retry time. Every other record is untouched; anyone else gets a
    conflict and changes nothing. *)
Theorem outbox_mark_by_holder s now tok i r :
  store_ok s -> small_outbox s -> ms_events s !! i = Some r ->
  (forall at_, MemoryStore_MarkOutboxPublished (mkObs None now) (o_Sequence r) tok at_ s =
     if holds_claim tok r
     then (Ok tt, s <| ms_events := <[i := published_record at_ r]> (ms_events s) |>)
     else (Err (Errorf ErrConflict "outbox record is not claimed by this worker"), s)) /\
  (forall err retry,
     MemoryStore_MarkOutboxFailed (mkObs None now) (o_Sequence r) tok err retry s =
     if holds_claim tok r
     then (Ok tt, s <| ms_events := <[i := failed_record err retry r]> (ms_events s) |>)
     else (Err (Errorf ErrConflict "outbox record is not claimed by this worker"), s)).
Proof. intros Hs Hn Hi. split; intros; by apply mark_with_spec. Qed.

Lemma mark_loop_marked seq tok f events evs :
  mark_loop seq tok f events = Ok evs ->
  exists i r, events !! i = Some r /\ o_Sequence r = seq /\ evs !! i = Some (f r).
Proof.
  revert evs. induction events as [|x rest IH]; cbn; intros evs H; [done|].
  cases_in H; simplify_eq; b2p.
  - destruct (IH _ eq_refl) as (i & r & ? & ? & ?). by exists (S i), r.
  - by exists 0%nat, x.
Qed.

(** A record marked published is never handed out again,
    whatever operations follow. *)
Theorem published_never_reclaimed s s1 s2 o seq tok at_ :
  store_ok s -> MemoryStore_MarkOutboxPublished o seq tok at_ s = (Ok tt, s1) ->
  rtc store_step s1 s2 -> small_outbox s2 ->
  forall now limit r, r ∈ picked now limit s2 -> o_Sequence r <> seq.
Proof.
  intros Hs E Hrun Hn now limit r Hr Eseq.
  pose proof (mark_ok o seq tok (published_record at_) s Hs) as [Hs1 _]; [done|].
  unfold MemoryStore_MarkOutboxPublished in E. rewrite E in Hs1. cbn in Hs1.
  destruct (steps_ok _ _ Hs1 Hrun) as [Hs2 Hle].
  destruct (mark_result o seq tok (published_record at_) s) as [[_ Hf]|(evs & Em & Ew)];
    [by rewrite E in Hf|].
  rewrite E in Ew. injection Ew as ->.
  destruct (mark_loop_marked _ _ _ _ _ Em) as (i & r0 & Hi & <- & Hi1).
  destruct (le_events _ _ Hle) as (old & new & Hev & Hf2).
  destruct (Forall2_lookup_l _ _ _ _ _ Hf2 Hi1) as (r2 & Hr2 & (Es2 & _ & Hpub)).
  assert (r = r2) as ->.
  { apply (seq_lt_inj (ms_events s2)); [by apply events_sorted| | |].
    - eapply elem_of_sublist; [exact Hr|apply sublist_picked].
    - rewrite Hev. apply elem_of_app. left. by eapply list_elem_of_lookup_2.
    - by rewrite Es2. }
  apply picked_pending in Hr. unfold outbox_pending in Hr.
  by rewrite Hpub in Hr.
Qed.

(** ** The SPI work queue *)

#[export] Instance created_le_trans : Transitive created_le.
Proof. intros a b c. unfold created_le. lia. Qed.
#[export] Instance created_le_total : Total created_le.
Proof. intros a b. unfold created_le. lia. Qed.

Lemma ssorted_take_le {A} (R : relation A) n l x y :
  StronglySorted R l -> x ∈ take n l -> y ∈ drop n l -> R x y.
Proof.
  intros Hs. revert n. induction Hs as [|z l Hs IH Hf]; intros [|n]; cbn;
    try (by intros ?%elem_of_nil).
  rewrite elem_of_cons. intros [->|Hx] Hy; [|eauto].
  rewrite Forall_forall in Hf. apply Hf. eapply elem_of_sublist; [exact Hy|apply sublist_drop].
Qed.

Lemma elem_of_stored s t :
  store_ok s -> t ∈ map snd (map_to_list (ms_transfers s)) <->
  ms_transfers s !! t_ID t = Some t.
Proof.
  intros Hs. rewrite list_elem_of_fmap. split.
  - intros ([id u] & -> & Hu). cbn. apply elem_of_map_to_list in Hu.
    by rewrite (so_id s Hs _ _ Hu).
  - intros Ht. exists (t_ID t, t). split; [done|]. by apply elem_of_map_to_list.
Qed.

Lemma spi_queue s now order limit :
  store_ok s -> (forall l, order l ≡ₚ l) ->
  exists ts, MemoryStore_PendingSPISubmissions (mkObs None now) order limit s = Ok ts /\
  StronglySorted created_le ts /\ Z.of_nat (length ts) <= default_limit limit /\
  (forall t, t ∈ ts -> ms_transfers s !! t_ID t = Some t /\ spi_pending now t = true /\
     forall tok until, TrimSpace tok <> "" -> now < until ->
       is_Ok (Transfer_ClaimSPISubmission t tok until now) = true) /\
  (forall t, ms_transfers s !! t_ID t = Some t -> spi_pending now t = true -> t ∈ ts \/
     (Z.of_nat (length ts) = default_limit limit /\ forall u, u ∈ ts -> created_le u t)).
Proof.
  intros Hs Hord. unfold MemoryStore_PendingSPISubmissions, time_UTC. cbn.
  set (l := merge_sort _ _). eexists. split; [reflexivity|].
  assert (Hl : forall t, t ∈ l <-> ms_transfers s !! t_ID t = Some t /\ spi_pending now t = true).
  { intros t. unfold l. rewrite merge_sort_Permutation, list_elem_of_In, filter_In,
      <- list_elem_of_In, Hord. by rewrite elem_of_stored. }
  assert (Hsort : StronglySorted created_le l) by (apply StronglySorted_merge_sort; apply _).
  split_and!.
  - eapply ssorted_sublist; [apply sublist_take|done].
  - rewrite length_take. unfold default_limit. destruct (limit <=? 0) eqn:E; b2p; lia.
  - intros t Ht. apply (fun H => elem_of_sublist _ _ _ H (sublist_take _ _)) in Ht.
    apply Hl in Ht as [Ht Hp]. split_and!; [done..|]. intros tok until Htok Hu.
    unfold spi_pending in Hp. b2p. unfold Transfer_ClaimSPISubmission, time_After, time_UTC.
    apply String.eqb_neq in Htok. rewrite Htok, (proj2 (Z.ltb_lt _ _) Hu). cbn.
    match goal with E : t_Status t = _ |- _ => rewrite E end.
    match goal with E : ptr_After _ _ = _ |- _ => rewrite E end. done.
  - intros t Ht Hp. assert (Hin : t ∈ l) by by apply Hl.
    rewrite <- (take_drop (Z.to_nat (default_limit limit)) l), elem_of_app in Hin.
    destruct Hin as [Hin|Hin]; [by left|right]. split.
    + rewrite length_take. pose proof (list_elem_of_lookup_1 _ _ Hin) as [k Hk].
      apply lookup_lt_Some in Hk. rewrite length_drop in Hk. unfold default_limit in *.
      destruct (limit <=? 0) eqn:E; b2p; lia.
    + intros u Hu. by eapply ssorted_take_le.
Qed.

(** The SPI worker is handed at most [limit] stored transfers, in
    order of creation; exactly those that are accepted, have no SPI message and
    are not leased; each can be claimed at that moment; and a pending transfer is
    left out only when [limit] older ones (or ones just as old) are returned. The
    iteration order of the map does not matter. *)
Theorem spi_queue_spec s now order limit :
  store_ok s -> (forall l, order l ≡ₚ l) ->
  exists ts, MemoryStore_PendingSPISubmissions (mkObs None now) order limit s = Ok ts /\
  StronglySorted created_le ts /\ Z.of_nat (length ts) <= default_limit limit /\
  (forall t, t ∈ ts -> ms_transfers s !! t_ID t = Some t /\ spi_pending now t = true /\
     forall tok until, TrimSpace tok <> "" -> now < until ->
       is_Ok (Transfer_ClaimSPISubmission t tok until now) = true) /\
  (forall t, ms_transfers s !! t_ID t = Some t -> spi_pending now t = true -> t ∈ ts \/
     (Z.of_nat (length ts) = default_limit limit /\ forall u, u ∈ ts -> created_le u t)).
Proof. apply spi_queue. Qed.
