(* ===== verification/MemStoreLaws.v ===== *)
(** * The in-memory store meets the store contract

    Instances of [Store], [StoreView] and [StoreLaws] for [MemoryStore]: the
    switch's theorems hold for it. *)

From S2P Require Import Prelude GoStrings Rail Events StoreSpec MemStore MemStoreProps OutboxProps.

Section Laws.
(** The iteration order of the transfer map. *)
Context (order : list Transfer -> list Transfer) (order_perm : forall l, order l ≡ₚ l).

Definition MemoryStore_Store : Store MemoryStore := {|
  Health o _ := MemoryStore_Health o;
  FindByIdempotency := MemoryStore_FindByIdempotency;
  InsertTransfer _ := MemoryStore_InsertTransfer;
  GetTransfer _ := MemoryStore_GetTransfer;
  ClaimSPISubmission := MemoryStore_ClaimSPISubmission;
  RecordSPISubmission := MemoryStore_RecordSPISubmission;
  ReleaseSPISubmission := MemoryStore_ReleaseSPISubmission;
  RecordReviewDecision _ := MemoryStore_RecordReviewDecision;
  UpdateSettlement _ := MemoryStore_UpdateSettlement;
  PendingSPISubmissions o := MemoryStore_PendingSPISubmissions o order;
  Outbox := MemoryStore_Outbox;
  Audit := MemoryStore_Audit
|}.

#[export] Instance MemoryStore_View : StoreView MemoryStore := {|
  st_inv := store_ok;
  st_evolves := store_le;
  st_owned s tn id := lookup_tenant tn id s;
  st_keyed s tn k := id ← ms_idempotency s !! tenant_key tn k; ms_transfers s !! id;
  st_callback s tn m := ms_callbacks s !! tenant_key tn m;
  st_outbox s := map o_Event (ms_events s);
  st_audit := ms_audit;
  st_read t := t;
  st_read_event e := e;
  st_read_audit a := a;
  st_avail o := obs_ctx o = None;
  st_exhausted _ := False
|}.

(** What is written reads back as it is, so that a stored step is a step. *)
Lemma rtc_stored t t' : rtc transfer_step t t' -> rtc stored_step t t'.
Proof. apply rtc_subrel. intros x y Hxy. by exists y. Qed.

Lemma view_evolves_owned s s' tn id t :
  store_ok s -> store_le s s' -> lookup_tenant tn id s = Some t ->
  exists t', lookup_tenant tn id s' = Some t' /\ rtc stored_step t t'.
Proof.
  intros Hs Hle [Ht Etn]%lookup_tenant_Some.
  destruct (le_transfers _ _ Hle _ _ Ht) as (t' & Ht' & Hst). exists t'.
  split; [|by apply rtc_stored].
  apply lookup_tenant_Some. split; [done|].
  destruct (rtc_step_ok _ _ (so_transfer s Hs _ _ Ht) Hst) as (_ & Hid & _).
  apply identity_fields in Hid as (_ & -> & _). done.
Qed.

Lemma view_evolves_outbox s s' :
  store_le s s' -> map o_Event (ms_events s) `prefix_of` map o_Event (ms_events s').
Proof.
  intros Hle. destruct (le_events _ _ Hle) as (old & new & -> & Hf).
  rewrite map_app. exists (map o_Event new). f_equal.
  induction Hf as [|r r' l l' (_ & E & _) Hf IH]; cbn; [done|]. by rewrite E, IH.
Qed.

(** Writing a transfer under its id hides no transfer of another tenant or id. *)
Lemma insert_others s s' t : ms_transfers s' = <[t_ID t := t]> (ms_transfers s) ->
  (forall u, ms_transfers s !! t_ID t = Some u -> t_TenantID u = t_TenantID t) ->
  others_kept s (t_TenantID t) (t_ID t) s'.
Proof.
  intros E Hu tn' id' Hne. cbn. unfold lookup_tenant. rewrite E.
  destruct (decide (id' = t_ID t)) as [->|]; [|by rewrite lookup_insert_ne].
  rewrite lookup_insert_eq. destruct (t_TenantID t ==s tn') eqn:Et; [b2p; congruence|].
  destruct (ms_transfers s !! t_ID t) as [u|]; [|done]. by rewrite (Hu u eq_refl), Et.
Qed.

Lemma commit_writes s tn id t t' cb evs aud :
  store_ok s -> lookup_tenant tn id s = Some t -> transfer_step t t' ->
  store_ok (commit t' cb evs aud s) /\ store_le s (commit t' cb evs aud s) ->
  writes s tn id t' evs aud (commit t' cb evs aud s).
Proof.
  intros Hs [Ht Etn]%lookup_tenant_Some Hst [Hok Hle].
  apply step_identity, identity_fields in Hst as (Eid & Etn' & _).
  split_and!; [done..| | | |].
  - apply lookup_tenant_Some. cbn.
    by rewrite Eid, (so_id s Hs _ _ Ht), lookup_insert_eq, Etn'.
  - cbn. by rewrite map_app, records_from_events, map_id.
  - cbn. by rewrite map_id.
  - replace tn with (t_TenantID t') by congruence.
    replace id with (t_ID t') by (rewrite Eid; by apply (so_id s Hs)).
    apply insert_others; [done|]. intros u. rewrite Eid, (so_id s Hs _ _ Ht). congruence.
Qed.

(** An update by an aggregate operation that never settles. *)
Lemma step_writes s tn id t t' evs aud :
  store_ok s -> lookup_tenant tn id s = Some t -> transfer_step t t' ->
  (transfer_ok t -> ~ settled t') -> evidence s tn id evs aud ->
  writes s tn id t' evs aud (commit t' (ms_callbacks s) evs aud s).
Proof.
  intros Hs Ht Hst Hun Hev. eapply commit_writes; eauto.
  eapply updated_ok; [done|exact Hev|]. right. exists t, t'. auto.
Qed.

Lemma inserted_writes s t evs aud :
  store_ok s -> new_transfer t -> Forall (event_of t) evs -> Forall (audit_of t) aud ->
  ms_transfers s !! t_ID t = None -> ms_idempotency s !! idem_key t = None ->
  writes s (t_TenantID t) (t_ID t) t evs aud (inserted t evs aud s).
Proof.
  intros Hs Hn He Ha Ht Hi. split_and!.
  - by apply inserted_ok.
  - by apply inserted_le.
  - apply lookup_tenant_Some. cbn. by rewrite lookup_insert_eq.
  - cbn. by rewrite map_app, records_from_events, map_id.
  - cbn. by rewrite map_id.
  - apply insert_others; [done|]. congruence.
Qed.

(** Reduce a law to the outcome of the update on the stored transfer. *)
Ltac law_lookup Ht :=
  unfold meets; cbn;
  match goal with
  | |- context [lookup_tenant ?tn ?id ?s] =>
      destruct (lookup_tenant tn id s) as [t|] eqn:Ht; [|done]
  end.

Ltac law_start Ht :=
  cbn; unfold MemoryStore_Health;
  match goal with
  | |- context [obs_ctx ?o] =>
      destruct (obs_ctx o) eqn:?; [right; split; [congruence|by eexists]|left]
  end;
  law_lookup Ht.

Lemma mem_claim_law o tn id tok until s : store_ok s ->
  let r := MemoryStore_ClaimSPISubmission o tn id tok until s in
  meets s tn id (claim_spec tok until (obs_now o)) (fun x => x) [] [] r \/
  (~ st_avail o /\ fails s r).
Proof.
  intros Hs. unfold MemoryStore_ClaimSPISubmission, time_UTC. law_start Ht.
  unfold claim_spec, fresh, already_submitted. destruct (_ && _)%bool; [done|].
  destruct (Transfer_ClaimSPISubmission _ _ _ _) eqn:E; [|done].
  eexists. split; [reflexivity|]. rewrite commit_nil.
  eapply step_writes; eauto using evidence_nil with pix.
Qed.

Lemma mem_release_law o tn id tok err retry s : store_ok s ->
  let r := MemoryStore_ReleaseSPISubmission o tn id tok err retry s in
  meets s tn id (release_spec tok err retry (obs_now o)) (fun _ => tt) [] [] r \/
  (~ st_avail o /\ fails s r).
Proof.
  intros Hs. unfold MemoryStore_ReleaseSPISubmission, time_UTC. law_start Ht.
  unfold release_spec, fresh, already_submitted. destruct (_ && _)%bool; [done|].
  destruct (Transfer_ReleaseSPISubmission _ _ _ _ _) eqn:E; [|done].
  eexists. split; [reflexivity|]. rewrite commit_nil.
  eapply step_writes; eauto using evidence_nil with pix.
Qed.

Lemma mem_record_law o tn id tok msg evs aud s : store_ok s -> evidence s tn id evs [aud] ->
  let r := MemoryStore_RecordSPISubmission o tn id tok msg evs aud s in
  meets s tn id (record_spec tok msg) (fun x => x) evs [aud] r \/
  (~ st_avail o /\ fails s r).
Proof.
  intros Hs Hev. unfold MemoryStore_RecordSPISubmission. law_start Ht.
  unfold record_spec, fresh. destruct (_ && _)%bool; [done|].
  destruct (Transfer_RecordSPISubmission _ _ _) eqn:E; [|done].
  eexists. split; [reflexivity|]. rewrite append_spec.
  eapply step_writes; eauto with pix.
Qed.

Lemma mem_review_law o tn id status reason evs aud s :
  store_ok s -> evidence s tn id evs [aud] ->
  let r := MemoryStore_RecordReviewDecision tn id status reason evs aud s in
  meets s tn id (review_spec status reason (a_CreatedAt aud)) fst evs [aud] r \/
  (~ st_avail o /\ fails s r).
Proof.
  intros Hs Hev r. left. subst r. unfold MemoryStore_RecordReviewDecision. law_lookup Ht.
  unfold review_spec, fresh.
  destruct (Transfer_RecordReviewDecision _ _ _ _) eqn:E; [|done].
  eexists. split; [reflexivity|]. rewrite append_spec.
  eapply step_writes; eauto with pix.
Qed.

Lemma mem_settle_law o tn id cb evs aud s :
  store_ok s -> evidence s tn id evs [aud] -> cb_CallbackHash cb <> "" ->
  let r := MemoryStore_UpdateSettlement tn id cb evs aud s in
  (meets s tn id (settle_spec cb (ms_callbacks s !! tenant_key tn (cb_SPIMessageID cb)))
     (fun x => x) evs [aud] r /\
   forall t s', r = (Ok (t, false), s') ->
     ms_callbacks s' !! tenant_key tn (cb_SPIMessageID cb) = Some (cb_CallbackHash cb)) \/
  (~ st_avail o /\ fails s r).
Proof.
  intros Hs Hev Hne r. left.
  assert (Hh : callback_hash cb = cb_CallbackHash cb).
  { unfold callback_hash. apply String.eqb_neq in Hne. by rewrite Hne. }
  pose proof (settle_ok tn id cb evs aud s Hs Hev) as Hok.
  destruct (settle_result tn id cb evs aud s) as [[Hsn Hf]|(t & t' & Ht & E & Hn & Er)].
  - split; [|intros t s' Er; by destruct (Hf t); fold r; rewrite Er].
    clear Hok. unfold meets, r, MemoryStore_UpdateSettlement in *. cbn.
    destruct (lookup_tenant tn id s) as [t|]; [|done]. unfold settle_spec, fresh.
    destruct (ms_callbacks s !! _) as [h|]; [rewrite Hh; by destruct (h ==s cb_CallbackHash cb)|].
    destruct (Transfer_RecordSettlement t cb) as [u|]; [|done].
    exfalso. by apply (Hf u).
  - fold r in Er, Hok. rewrite Er in *. split.
    + unfold meets. cbn. rewrite Ht, Hn. unfold settle_spec, fresh. rewrite E.
      eexists. split; [reflexivity|]. eapply commit_writes; eauto with pix.
    + intros u s' [= -> <-]. cbn. by rewrite lookup_insert_eq, Hh.
Qed.

Lemma mem_insert_law t evs aud s : store_ok s ->
  new_transfer t -> Forall (event_of t) evs -> Forall (audit_of t) aud ->
  match MemoryStore_InsertTransfer t evs aud s with
  | (Ok _, s') =>
      writes s (t_TenantID t) (t_ID t) t evs aud s' /\
      lookup_tenant (t_TenantID t) (t_ID t) s = None /\
      st_keyed s (t_TenantID t) (t_IdempotencyKey t) = None /\
      st_keyed s' (t_TenantID t) (t_IdempotencyKey t) = Some t
  | (Err _, s') => s' = s
  end.
Proof.
  intros Hs Hn He Ha.
  destruct (insert_result t evs aud s (store_ok_indexed s Hs)) as [(Ht&Hi&->)|(_&e&->&_)]; [|done].
  split; [by apply inserted_writes|]. cbn. fold (idem_key t). unfold lookup_tenant.
  rewrite Hi, Ht. split_and!; [done..|].
  rewrite lookup_insert_eq. cbn. by rewrite lookup_insert_eq.
Qed.

Lemma mem_pending_law o limit s ts : store_ok s ->
  MemoryStore_PendingSPISubmissions o order limit s = Ok ts ->
  Z.of_nat (length ts) <= (if limit <=? 0 then 100 else limit) /\
  Forall (fun t => lookup_tenant (t_TenantID t) (t_ID t) s = Some t /\
                   t_Status t = StatusAccepted) ts.
Proof.
  intros Hs E. destruct o as [[e|] now]; [done|].
  destruct (spi_queue s now order limit Hs order_perm) as (ts' & E' & _ & Hlen & Hin & _).
  rewrite E' in E. injection E as <-. split; [done|].
  apply Forall_forall. intros t Ht. destruct (Hin t Ht) as (Hl & Hp & _).
  unfold spi_pending in Hp. b2p. split; [|done]. by apply lookup_tenant_Some.
Qed.

(** Where no tenant holds a colon, a key is bound to a transfer of its own tenant. *)
Lemma mem_keyed_own s tn k t : store_ok s -> st_plain s -> has_char ":" tn = false ->
  st_keyed s tn k = Some t ->
  t_TenantID t = tn /\ t_IdempotencyKey t = k /\ lookup_tenant tn (t_ID t) s = Some t.
Proof.
  cbn. intros Hs Hp Htn E. destruct (ms_idempotency s !! _) as [id|] eqn:Ei; [|done]. cbn in E.
  destruct (so_idem_inv s Hs _ _ Ei) as (u & Hu & Ek). rewrite Hu in E. injection E as ->.
  assert (Ht : has_char ":" (t_TenantID t) = false)
    by (apply (Hp _ id t), lookup_tenant_Some; by split).
  apply colon_key_inj in Ek as [Et ->]; [|exact Ht|exact Htn].
  split_and!; [done|done|]. apply lookup_tenant_Some. by rewrite (so_id s Hs _ _ Hu).
Qed.

Lemma MemoryStore_Laws : @StoreLaws MemoryStore MemoryStore_Store MemoryStore_View.
Proof.
  split; cbn.
  - intros s. reflexivity.
  - intros a b c. apply transitivity.
  - apply view_evolves_owned.
  - intros s s' tn k t Hs Hle. destruct (ms_idempotency s !! _) as [id|] eqn:E; [|done].
    cbn. intros Ht. destruct (le_transfers _ _ Hle _ _ Ht) as (t' & Ht' & Hst).
    exists t'. rewrite (lookup_weaken _ _ _ _ E (le_idem _ _ Hle)).
    split; [done|by apply rtc_stored].
  - intros s s' tn m h Hle E. exact (lookup_weaken _ _ _ _ E (le_callbacks _ _ Hle)).
  - intros s s'. apply le_audit.
  - apply view_evolves_outbox.
  - intros t. split; [done|]. by destruct (t_SPIClaimedUntil t).
  - done.
  - done.
  - done.
  - intros s tn id t Hs [Ht <-]%lookup_tenant_Some. split_and!; [|done|].
    + by apply (so_id s Hs).
    + by eapply (so_transfer s Hs).
  - intros s tn k t Hs. destruct (ms_idempotency s !! _); [|done]. apply (so_transfer s Hs).
  - apply mem_keyed_own.
  - done.
  - done.
  - intros o tn k s Hs. unfold MemoryStore_FindByIdempotency, MemoryStore_Health.
    destruct (obs_ctx o); [right; eauto|left]. by destruct (ms_idempotency s !! _).
  - intros o tn id s Hs. left. unfold MemoryStore_GetTransfer.
    by destruct (lookup_tenant tn id s).
  - intros o limit s ts. apply mem_pending_law.
  - intros o. apply mem_insert_law.
  - intros o tn id tok until s Hs.
    destruct (mem_claim_law o tn id tok until s Hs) as [?|[? ?]]; auto.
  - intros o tn id tok msg evs aud s Hs Hev.
    destruct (mem_record_law o tn id tok msg evs aud s Hs Hev) as [?|[_ ?]]; auto.
  - apply mem_release_law.
  - intros o tn id status reason evs aud s Hs Hev.
    destruct (mem_review_law o tn id status reason evs aud s Hs Hev) as [?|[_ ?]]; auto.
  - intros o tn id cb evs aud s Hs Hev Hne.
    destruct (mem_settle_law o tn id cb evs aud s Hs Hev Hne) as [?|[_ ?]]; auto.
Qed.

(** C5: the in-memory store implements the store contract the switch is
    proved against: every method either has the outcome its specification gives on
    the abstract view (owned transfers, idempotency keys, callbacks, logs), for the
    transfer it names and no other, or fails without changing the store, and stores
    only evolve along the aggregate's operations. *)
Theorem memory_store_refines_contract :
  @StoreLaws MemoryStore MemoryStore_Store MemoryStore_View.
Proof. apply MemoryStore_Laws. Qed.
End Laws.
