(* ===== verification/Effects.v ===== *)
(** * Calls and their surroundings

    A call of the switch or of the relay runs in a [World]: the store, what the
    component keeps besides it, and a counter of observations. [Env] says what the
    [k]-th observation yields: [ctx.Err()], [time.Now()], [rand.Read], and what
    concurrent calls did to the store since the previous access, so that a call may
    be interleaved with others at every store access. An effectful operation is a
    function of the world to a result and a world: an error keeps the effects made
    before it, as in the code. [wp] is a weakest-precondition reading of these
    effects; its rules carry the proofs about them. *)

From S2P Require Import Prelude GoStrings.

(** ** Surroundings *)

(** [env_rand] is [rand.Read] on 16 bytes, [None] its failure; [env_others] is the
    effect on the store of the calls that run concurrently. *)
Record Env (St : Type) := mkEnv {
  env_ctx : nat -> option error;
  env_now : nat -> Time;
  env_rand : nat -> option (list byte);
  env_others : nat -> St -> St
}.
Arguments mkEnv {_} _ _ _ _.
Arguments env_ctx {_} _ _.
Arguments env_now {_} _ _.
Arguments env_rand {_} _ _.
Arguments env_others {_} _ _ _.

Record World (St X : Type) := mkWorld { w_store : St; w_rest : X; w_tick : nat }.
Arguments mkWorld {_ _} _ _ _.
Arguments w_store {_ _} _.
Arguments w_rest {_ _} _.
Arguments w_tick {_ _} _.

(** ** The effects of an operation *)

Section Effects.
Context {St X : Type}.

Definition M (A : Type) : Type := World St X -> result A * World St X.

Definition ret {A} (a : A) : M A := fun w => (Ok a, w).
Definition fail {A} (e : error) : M A := fun w => (Err e, w).
Definition bind {A B} (m : M A) (k : A -> M B) : M B := fun w =>
  match m w with
  | (Ok a, w') => k a w'
  | (Err e, w') => (Err e, w')
  end.

Definition lift {A} (r : result A) : M A := fun w => (r, w).

(** [x, err := m]: the error as a value. *)
Definition attempt {A} (m : M A) : M (result A) := fun w =>
  let '(r, w') := m w in (Ok r, w').

Definition next_tick (w : World St X) : World St X :=
  mkWorld (w_store w) (w_rest w) (S (w_tick w)).
Definition set_store (s : St) (w : World St X) : World St X :=
  mkWorld s (w_rest w) (w_tick w).

(** A call outside the service that sees the number of the observation. *)
Definition external {A} (f : nat -> result A) : M A := fun w => (f (w_tick w), next_tick w).

Context (env : Env St).

Definition obs_at (k : nat) : Obs := mkObs (env_ctx env k) (env_now env k).

(** [s.now()]. *)
Definition s_now : M Time := external (fun k => Ok (env_now env k)).

Definition newID (prefix : string) : M string := external (fun k =>
  Ok (match env_rand env k with
      | None => prefix +:+ "_" +:+ Itoa (time_UnixNano (env_now env k))
      | Some b => prefix +:+ "_" +:+ hex_EncodeToString b
      end)).

(** A change of what the call's component keeps besides the store. *)
Definition update_rest {A} (f : X -> nat -> A * X) : M A := fun w =>
  let '(a, x) := f (w_rest w) (w_tick w) in (Ok a, mkWorld (w_store w) x (S (w_tick w))).

(** The store as a call finds it at its next access. *)
Definition store_now (w : World St X) : St := env_others env (w_tick w) (w_store w).

Definition store_read {A} (f : Obs -> St -> result A) : M A := fun w =>
  (f (obs_at (w_tick w)) (store_now w), set_store (store_now w) (next_tick w)).

Definition store_write {A} (f : Obs -> St -> result A * St) : M A := fun w =>
  let '(r, s) := f (obs_at (w_tick w)) (store_now w) in (r, set_store s (next_tick w)).

End Effects.

Notation "' p <- m ;; k" := (bind m (fun x => match x with p => k end))
  (at level 20, p pattern, m at level 99, k at level 200, only parsing) : go_scope.
Notation "x <- m ;; k" := (bind m (fun x => k))
  (at level 100, m at next level, right associativity) : go_scope.

(** ** Weakest preconditions *)

Section Wp.
Context {St X : Type}.
Implicit Types w : World St X.

Definition wp {A} (m : @M St X A) (w : World St X)
    (Q : result A -> World St X -> Prop) : Prop := Q (fst (m w)) (snd (m w)).

Lemma wp_run {A} (m : @M St X A) w r w' Q : m w = (r, w') -> wp m w Q -> Q r w'.
Proof. unfold wp. by intros ->. Qed.

Lemma wp_ret {A} (a : A) w Q : Q (Ok a) w -> wp (ret a) w Q.
Proof. done. Qed.

Lemma wp_fail {A} e w (Q : result A -> _ -> Prop) : Q (Err e) w -> wp (fail e) w Q.
Proof. done. Qed.

Lemma wp_lift {A} (r : result A) w (Q : result A -> _ -> Prop) : Q r w -> wp (lift r) w Q.
Proof. done. Qed.

Lemma wp_bind {A B} (m : @M St X A) (k : A -> @M St X B) w Q :
  wp m w (fun r w' => match r with Ok a => wp (k a) w' Q | Err e => Q (Err e) w' end) ->
  wp (bind m k) w Q.
Proof. unfold wp, bind. by destruct (m w) as [[a|e] w']. Qed.

Lemma wp_attempt {A} (m : @M St X A) w Q :
  wp m w (fun r w' => Q (Ok r) w') -> wp (attempt m) w Q.
Proof. unfold wp, attempt. by destruct (m w) as [r w']. Qed.

Lemma wp_external {A} (f : nat -> result A) w Q :
  Q (f (w_tick w)) (next_tick w) -> wp (external f) w Q.
Proof. done. Qed.

Lemma wp_conseq {A} (m : @M St X A) w (P Q : result A -> _ -> Prop) :
  wp m w P -> (forall r w', P r w' -> Q r w') -> wp m w Q.
Proof. unfold wp. auto. Qed.

Context (env : Env St).

Lemma wp_read {A} (f : Obs -> St -> result A) w Q :
  Q (f (obs_at env (w_tick w)) (store_now env w)) (set_store (store_now env w) (next_tick w)) ->
  wp (store_read env f) w Q.
Proof. done. Qed.

Lemma wp_write {A} (f : Obs -> St -> result A * St) w Q :
  (forall r s', f (obs_at env (w_tick w)) (store_now env w) = (r, s') ->
     Q r (set_store s' (next_tick w))) ->
  wp (store_write env f) w Q.
Proof. unfold wp, store_write. intros HQ. by destruct (f _ _) as [r s'] eqn:E; cbn; apply HQ. Qed.

Lemma wp_newID p w Q : (forall id, Q (Ok id) (next_tick w)) -> wp (newID env p) w Q.
Proof. intros HQ. apply wp_external, HQ. Qed.

Lemma newID_visible p w Q : (exists c p', p = String c p' /\ 32 < code c < 128) ->
  (forall id, TrimSpace id <> "" -> Q (Ok id) (next_tick w)) ->
  wp (newID env p) w Q.
Proof.
  intros (c & p' & -> & Hc) HQ. apply wp_external, HQ.
  destruct (env_rand env _); by apply TrimSpace_visible.
Qed.

Lemma wp_update_rest {A} (f : X -> nat -> A * X) w Q :
  (forall a w', w_store w' = w_store w -> Q (Ok a) w') -> wp (update_rest f) w Q.
Proof. intros HQ. unfold wp, update_rest. destruct (f _ _). by apply HQ. Qed.
End Wp.

(** Apply the rule for the operation at the head of the program. *)
Ltac wp_step :=
  lazymatch goal with
  | |- wp (bind _ _) _ _ => apply wp_bind
  | |- wp (ret _) _ _ => apply wp_ret
  | |- wp (fail _) _ _ => apply wp_fail
  | |- wp (lift _) _ _ => apply wp_lift
  | |- wp (attempt _) _ _ => apply wp_attempt
  | |- wp (s_now _) _ _ => apply wp_external
  | |- wp (external _) _ _ => apply wp_external
  | |- wp (newID _ _) _ _ => apply wp_newID; intros ?
  | |- wp (store_read _ _) _ _ => apply wp_read
  | |- wp (store_write _ _) _ _ => apply wp_write; intros ? ? ?
  | |- wp (if ?b then _ else _) _ _ => destruct b eqn:?
  end.
Ltac wp_steps := repeat (cbv beta iota; wp_step).

