(* ===== verification/Switcher.v ===== *)
(** * The payment switch ([internal/switcher/service.go])

    [Service] and its operations over any implementation of the interfaces the
    file declares: a [Store], a participant resolver, a fraud scorer, an SPI
    client and two rate limiters. A call is an effect of [Effects] on the store and
    the two limiters. *)

From S2P Require Import Prelude GoStrings Rail Events RateLimit StoreSpec Effects.

(** ** The service *)

(** The dependencies that keep no state the switch can see. Their answers may
    vary from call to call: they take the number of the observation. *)
Record Service := mkService {
  sv_dict : nat -> string -> string -> DictKeyType -> result DictEntry;
  sv_fraud : nat -> CreateTransferRequest -> DictEntry -> result FraudDecision;
  sv_spi : nat -> Transfer -> result SPIMessage
}.

Record Result := mkResult {
  r_Transfer : Transfer;
  r_IdempotentReplay : bool;
  r_Events : list Event
}.

Record SPIBatchResult := mkSPIBatchResult {
  br_Scanned : Z;
  br_Submitted : Z;
  br_Replayed : Z;
  br_Skipped : Z
}.

#[export] Instance eta_SPIBatchResult : Eta SPIBatchResult := fun r =>
  mkSPIBatchResult (br_Scanned r) (br_Submitted r) (br_Replayed r) (br_Skipped r).

Definition spiClaimTTL : Duration := 30 * Second.

(** The limiters of the service; either field may be [nil]. *)
Record Limits (LT LD : Type) := mkLimits { tenantLimit : option LT; dictLimit : option LD }.
Arguments mkLimits {_ _} _ _.
Arguments tenantLimit {_ _} _.
Arguments dictLimit {_ _} _.

Section Limiters.
Context {St LT LD : Type} `{Strategy LT} `{Strategy LD} (env : Env St).

(** [s.tenantLimit == nil || s.tenantLimit.Allow(key)]. *)
Definition allow_tenant (key : string) : @M St (Limits LT LD) bool :=
  update_rest (fun x k =>
    match tenantLimit x with
    | None => (true, x)
    | Some l =>
        let '(ok, l) := Allow (env_now env k) key l in (ok, mkLimits (Some l) (dictLimit x))
    end).

Definition allow_dict (key : string) : @M St (Limits LT LD) bool :=
  update_rest (fun x k =>
    match dictLimit x with
    | None => (true, x)
    | Some l =>
        let '(ok, l) := Allow (env_now env k) key l in (ok, mkLimits (tenantLimit x) (Some l))
    end).
End Limiters.

(** ** Operations *)

Section Operations.
Context `{Store St} `{Strategy LT} `{Strategy LD}.
Context (env : Env St) (sv : Service).

Local Abbreviation M := (@M St (Limits LT LD)).

(** The request after the trims and the defaults of [CreateTransfer]; [at_] is the
    clock reading used when it carries no time. *)
Definition normalize_request (req : CreateTransferRequest) (at_ : Time) : CreateTransferRequest :=
  let req := req <| cr_TenantID := TrimSpace (cr_TenantID req) |> in
  let req := req <| cr_AccountID := TrimSpace (cr_AccountID req) |> in
  let req := req <| cr_IdempotencyKey := TrimSpace (cr_IdempotencyKey req) |> in
  let req := req <| cr_CorrelationID := TrimSpace (cr_CorrelationID req) |> in
  let req := req <| cr_ReceiverKey := TrimSpace (cr_ReceiverKey req) |> in
  let req := if cr_Currency req ==s "" then req <| cr_Currency := "BRL" |> else req in
  if time_IsZero (cr_RequestedAt req) then req <| cr_RequestedAt := time_UTC at_ |> else req.

Definition normalized (req : CreateTransferRequest) : M CreateTransferRequest :=
  if time_IsZero (cr_RequestedAt req) then
    at_ <- s_now env;; ret (normalize_request req at_)
  else ret (normalize_request req 0).

(** The answer when the idempotency key is already bound. *)
Definition replay_transfer (transfer : Transfer) (requestHash : string) : M Result :=
  if negb (t_RequestHash transfer ==s "") && negb (t_RequestHash transfer ==s requestHash) then
    fail (Errorf ErrConflict "idempotency key reused with different request payload")
  else ret (mkResult transfer true []).

(** [s.dict.Resolve] with its timeout mapped to a dependency failure. *)
Definition resolve_receiver (req : CreateTransferRequest) : M DictEntry :=
  r <- attempt (external (fun k =>
         sv_dict sv k (cr_TenantID req) (cr_ReceiverKey req) (cr_ReceiverKeyType req)));;
  match r with
  | Ok entry => ret entry
  | Err err =>
      if errors_Is err DeadlineExceeded || errors_Is err Canceled then
        fail (Errorf ErrDependencyFailed "dict lookup timeout")
      else fail err
  end.

Definition build_transfer (id : string) (req : CreateTransferRequest) (requestHash : string)
    (entry : DictEntry) (decision : FraudDecision) (now : Time) : Transfer := {|
  t_ID := id; t_TenantID := cr_TenantID req; t_AccountID := cr_AccountID req;
  t_IdempotencyKey := cr_IdempotencyKey req; t_RequestHash := requestHash;
  t_CorrelationID := cr_CorrelationID req; t_EndToEndID := "";
  t_AmountCents := cr_AmountCents req; t_Currency := cr_Currency req;
  t_ReceiverKey := cr_ReceiverKey req; t_ReceiverKeyType := cr_ReceiverKeyType req;
  t_ReceiverName := d_Name entry; t_ReceiverBank := d_BankISPB entry;
  t_ReceiverRisk := d_RiskSignal entry; t_FraudScore := f_Score decision;
  t_FraudRules := f_Rules decision; t_Status := f_Status decision;
  t_DecisionReason := f_Reason decision; t_SPIMessageID := ""; t_SPIClaimToken := "";
  t_SPIClaimedUntil := None; t_SPISubmissionAttempts := 0; t_SPILastError := "";
  t_SettlementCode := ""; t_CreatedAt := now; t_UpdatedAt := now |}.

(** [events.New(newID("evt"), ..., s.now(), payload)] for a transfer. *)
Definition new_event (t : Transfer) (correlationID eventType : string) (at_ : M Time)
    (payload : json) : M Event :=
  id <- newID env "evt";;
  now <- at_;;
  lift (events_New id eventType (t_TenantID t) (t_AccountID t) (t_ID t)
          correlationID now payload).

(** The closure [addEvent] of [CreateTransfer], which drops an event that cannot
    be marshalled. *)
Definition addEvent (t : Transfer) (outbox : list Event) (ev : string * json) : M (list Event) :=
  r <- attempt (new_event t (t_CorrelationID t) (fst ev) (s_now env) (snd ev));;
  ret (match r with Ok event => outbox ++ [event] | Err _ => outbox end).

Fixpoint addEvents (t : Transfer) (outbox : list Event) (evs : list (string * json))
    : M (list Event) :=
  match evs with
  | [] => ret outbox
  | ev :: rest => outbox <- addEvent t outbox ev;; addEvents t outbox rest
  end.

(** The events [CreateTransfer] adds, in order, with their payloads. *)
Definition creation_events (t : Transfer) (entry : DictEntry) (decision : FraudDecision)
    : list (string * json) :=
  [("pix_transfer_requested",
    JObject [("amount_cents", JInt (t_AmountCents t)); ("currency", JString (t_Currency t));
             ("receiver_key_type", JString (t_ReceiverKeyType t))]);
   ("dict_key_resolved",
    JObject [("receiver_id", JString (d_ReceiverID entry));
             ("receiver_bank", JString (d_BankISPB entry));
             ("risk_signal", JInt (d_RiskSignal entry))]);
   ("fraud_score_calculated",
    JObject [("score", JInt (f_Score decision)); ("status", JString (f_Status decision));
             ("rules", JStrings (f_Rules decision))])] ++
  (let verdict := JObject [("score", JInt (f_Score decision)); ("rules", JStrings (f_Rules decision));
                           ("decision_reason", JString (f_Reason decision))] in
   if f_Status decision ==s StatusAccepted then
     [("pix_transfer_accepted", JObject [("decision_reason", JString (t_DecisionReason t))]);
      ("spi_submission_requested", JObject [("request_hash", JString (t_RequestHash t))])]
   else if f_Status decision ==s StatusReview then [("pix_transfer_review_requested", verdict)]
   else if f_Status decision ==s StatusBlocked then [("pix_transfer_blocked", verdict)]
   else []).

Definition creation_audit (t : Transfer) (now : Time) : AuditRecord := {|
  a_TenantID := t_TenantID t; a_AccountID := t_AccountID t; a_TransferID := t_ID t;
  a_Action := "pix_transfer_decided"; a_CorrelationID := t_CorrelationID t;
  a_Metadata := <["status" := t_Status t]> (<["score" := Itoa (t_FraudScore t)]> ∅);
  a_CreatedAt := now |}.

(** [InsertTransfer] and the fallback when a concurrent call bound the key first. *)
Definition insert_or_replay (t : Transfer) (outbox : list Event) (audit : list AuditRecord)
    : M Result :=
  r <- attempt (store_write env (fun o => InsertTransfer o t outbox audit));;
  match r with
  | Ok _ => ret (mkResult t false outbox)
  | Err err =>
      if errors_Is err ErrConflict then
        found <- store_read env (fun o =>
          FindByIdempotency o (t_TenantID t) (t_IdempotencyKey t));;
        match found with
        | Some existing => replay_transfer existing (t_RequestHash t)
        | None => fail err
        end
      else fail err
  end.

(** From the resolved receiver on: score, decide, write. *)
Definition decide_transfer (req : CreateTransferRequest) (requestHash : string)
    (entry : DictEntry) : M Result :=
  decision <- external (fun k => sv_fraud sv k req entry);;
  if negb ((f_Status decision ==s StatusAccepted) || (f_Status decision ==s StatusReview) ||
           (f_Status decision ==s StatusBlocked)) then
    fail (Errorf ErrDependencyFailed "fraud decision status is invalid")
  else
    now <- s_now env;;
    id <- newID env "pxt";;
    let transfer := build_transfer id req requestHash entry decision (time_UTC now) in
    outbox <- addEvents transfer [] (creation_events transfer entry decision);;
    insert_or_replay transfer outbox [creation_audit transfer (time_UTC now)].

Definition Service_CreateTransfer (req : CreateTransferRequest) : M Result :=
  req <- normalized req;;
  match CreateTransferRequest_Validate req with
  | Some err => fail err
  | None =>
      let requestHash := CreateTransferRequest_Fingerprint req in
      found <- store_read env (fun o =>
        FindByIdempotency o (cr_TenantID req) (cr_IdempotencyKey req));;
      match found with
      | Some transfer => replay_transfer transfer requestHash
      | None =>
          ok <- allow_tenant env (cr_TenantID req +:+ ":" +:+ cr_AccountID req);;
          if negb ok then fail (Errorf ErrRateLimited "tenant/account bucket exhausted")
          else
            ok <- allow_dict env (cr_TenantID req +:+ ":" +:+ cr_ReceiverKey req);;
            if negb ok then fail (Errorf ErrRateLimited "dict lookup bucket exhausted")
            else
              entry <- resolve_receiver req;;
              decide_transfer req requestHash entry
      end
  end.

Definition Service_GetTransfer (tenantID transferID : string) : M Transfer :=
  store_read env (fun o => GetTransfer o tenantID transferID).

Definition Service_Health : M unit :=
  store_read env (fun o s => match Health o s with Some err => Err err | None => Ok tt end).

(** [_ = s.store.ReleaseSPISubmission(..., err.Error(), s.now().UTC().Add(time.Second))]
    and the return of the error. *)
Definition release_and_fail {A} (tenantID transferID claimToken : string) (err : error) : M A :=
  now <- s_now env;;
  _ <- attempt (store_write env (fun o =>
         ReleaseSPISubmission o tenantID transferID claimToken (Error err)
           (time_Add (time_UTC now) Second)));;
  fail err.

Definition submission_events (current : Transfer) (message : SPIMessage) : list (string * json) :=
  [("spi_message_created",
    JObject [("spi_message_id", JString (m_MessageID message));
             ("end_to_end_id", JString (m_EndToEndID message))]);
   ("pix_transfer_approved",
    JObject [("end_to_end_id", JString (m_EndToEndID message));
             ("spi_message_id", JString (m_MessageID message));
             ("decision_reason", JString (t_DecisionReason current))])].

(** The closure [addEvent] of [SubmitToSPI], [RecordReview] and [RecordSettlement],
    run over a list of events; the first failure stops it. *)
Fixpoint try_events (t : Transfer) (correlationID : string) (at_ : M Time)
    (eventsToWrite : list Event) (evs : list (string * json)) : M (list Event) :=
  match evs with
  | [] => ret eventsToWrite
  | (eventType, payload) :: rest =>
      event <- new_event t correlationID eventType at_ payload;;
      try_events t correlationID at_ (eventsToWrite ++ [event]) rest
  end.

Definition submission_audit (current : Transfer) (correlationID : string) (message : SPIMessage)
    : AuditRecord := {|
  a_TenantID := t_TenantID current; a_AccountID := t_AccountID current;
  a_TransferID := t_ID current; a_Action := "spi_submission_recorded";
  a_CorrelationID := correlationID;
  a_Metadata := <["spi_message_id" := m_MessageID message]>
                  (<["end_to_end_id" := m_EndToEndID message]> ∅);
  a_CreatedAt := m_SubmittedAt message |}.

(** From a won claim on: submit, then record or release. *)
Definition submit_claimed (tenantID transferID claimToken correlationID : string)
    (current : Transfer) : M Result :=
  r <- attempt (external (fun k => sv_spi sv k current));;
  match r with
  | Err err => release_and_fail tenantID transferID claimToken err
  | Ok message =>
      r <- attempt (try_events current correlationID (s_now env) []
                      (submission_events current message));;
      match r with
      | Err err => release_and_fail tenantID transferID claimToken err
      | Ok eventsToWrite =>
          let audit := submission_audit current correlationID message in
          '(updated, replay) <- store_write env (fun o =>
            RecordSPISubmission o tenantID transferID claimToken message eventsToWrite audit);;
          if replay : bool then ret (mkResult updated true [])
          else ret (mkResult updated false eventsToWrite)
      end
  end.

Definition Service_SubmitToSPI (tenantID transferID correlationID : string) : M Result :=
  let tenantID := TrimSpace tenantID in
  let transferID := TrimSpace transferID in
  let correlationID := TrimSpace correlationID in
  if (tenantID ==s "") || (transferID ==s "") then
    fail (Errorf ErrValidation "tenant_id and transfer_id are required")
  else
    claimToken <- newID env "spiclaim";;
    now <- s_now env;;
    let claimUntil := time_Add (time_UTC now) spiClaimTTL in
    '(current, replay) <- store_write env (fun o =>
      ClaimSPISubmission o tenantID transferID claimToken claimUntil);;
    if replay : bool then ret (mkResult current true [])
    else
      let correlationID := if correlationID ==s "" then t_CorrelationID current
                           else correlationID in
      submit_claimed tenantID transferID claimToken correlationID current.

(** The loop of [SubmitPendingSPI]. The code returns the partial counters along
    with an error; the result of the loop is the counters and that error. *)
Fixpoint submit_loop (pending : list Transfer) (result : SPIBatchResult)
    : M (SPIBatchResult * option error) :=
  match pending with
  | [] => ret (result, None)
  | transfer :: rest =>
      r <- attempt (Service_SubmitToSPI (t_TenantID transfer) (t_ID transfer)
                      (t_CorrelationID transfer));;
      match r with
      | Err err =>
          if errors_Is err ErrConflict then
            submit_loop rest (result <| br_Skipped := int64 (br_Skipped result + 1) |>)
          else ret (result, Some err)
      | Ok submitted =>
          if r_IdempotentReplay submitted then
            submit_loop rest (result <| br_Replayed := int64 (br_Replayed result + 1) |>)
          else submit_loop rest (result <| br_Submitted := int64 (br_Submitted result + 1) |>)
      end
  end.

Definition Service_SubmitPendingSPI (limit : Z) : M (SPIBatchResult * option error) :=
  pending <- store_read env (fun o => PendingSPISubmissions o limit);;
  submit_loop pending (mkSPIBatchResult (Z.of_nat (length pending)) 0 0 0).

(** The request after the trims and the time default of [RecordReview]. *)
Definition normalize_review (req : ReviewDecisionRequest) (at_ : Time) : ReviewDecisionRequest :=
  let req := req <| rv_TenantID := TrimSpace (rv_TenantID req) |> in
  let req := req <| rv_TransferID := TrimSpace (rv_TransferID req) |> in
  let req := req <| rv_CorrelationID := TrimSpace (rv_CorrelationID req) |> in
  let req := req <| rv_Reason := TrimSpace (rv_Reason req) |> in
  if time_IsZero (rv_ReviewedAt req) then req <| rv_ReviewedAt := time_UTC at_ |> else req.

Definition review_events (current : Transfer) (req : ReviewDecisionRequest)
    (nextStatus : TransferStatus) (eventType reason : string) : list (string * json) :=
  (eventType, JObject [("decision", JString (rv_Decision req)); ("reason", JString reason)]) ::
  (if nextStatus ==s StatusAccepted then
     [("spi_submission_requested", JObject [("request_hash", JString (t_RequestHash current))])]
   else if nextStatus ==s StatusBlocked then
     [("pix_transfer_blocked",
       JObject [("score", JInt (t_FraudScore current)); ("rules", JStrings (t_FraudRules current));
                ("decision_reason", JString reason)])]
   else []).

Definition review_audit (current : Transfer) (req : ReviewDecisionRequest)
    (nextStatus : TransferStatus) : AuditRecord := {|
  a_TenantID := t_TenantID current; a_AccountID := t_AccountID current;
  a_TransferID := t_ID current; a_Action := "manual_review_recorded";
  a_CorrelationID := rv_CorrelationID req;
  a_Metadata := <["decision" := rv_Decision req]> (<["status" := nextStatus]> ∅);
  a_CreatedAt := rv_ReviewedAt req |}.

(** [nextStatus] and [eventType] of a decision. *)
Definition review_outcome (d : ReviewDecision) : result (TransferStatus * string) :=
  if d ==s ReviewBlock then Ok (StatusBlocked, "pix_transfer_review_blocked")
  else if negb (d ==s ReviewApprove) then
    Err (Errorf ErrValidation "review decision must be approve or block")
  else Ok (StatusAccepted, "pix_transfer_review_approved").

Definition review_reason (req : ReviewDecisionRequest) (nextStatus : TransferStatus) : string :=
  if rv_Reason req ==s "" then
    if nextStatus ==s StatusBlocked then "manual review blocked" else "manual review approved"
  else rv_Reason req.

Definition Service_RecordReview (req : ReviewDecisionRequest) : M Result :=
  req <- (if time_IsZero (rv_ReviewedAt req) then
            at_ <- s_now env;; ret (normalize_review req at_)
          else ret (normalize_review req 0));;
  if (rv_TenantID req ==s "") || (rv_TransferID req ==s "") then
    fail (Errorf ErrValidation "tenant_id and transfer_id are required")
  else
    current <- store_read env (fun o => GetTransfer o (rv_TenantID req) (rv_TransferID req));;
    if negb (t_Status current ==s StatusReview) then
      fail (Errorf ErrConflict "transfer is not waiting for review")
    else
      let req := if rv_CorrelationID req ==s ""
                 then req <| rv_CorrelationID := t_CorrelationID current |> else req in
      '(nextStatus, eventType) <- lift (review_outcome (rv_Decision req));;
      let reason := review_reason req nextStatus in
      eventsToWrite <- try_events current (rv_CorrelationID req) (ret (rv_ReviewedAt req)) []
                         (review_events current req nextStatus eventType reason);;
      let audit := review_audit current req nextStatus in
      updated <- store_write env (fun o =>
        RecordReviewDecision o (rv_TenantID req) (rv_TransferID req) nextStatus reason
          eventsToWrite audit);;
      ret (mkResult updated false eventsToWrite).

Definition settlement_event_type (status : SettlementStatus) : result string :=
  if status ==s SettlementAccepted then Ok "pix_transfer_settled"
  else if status ==s SettlementRejected then Ok "pix_transfer_rejected"
  else Err (Errorf ErrValidation "unsupported settlement status").

Definition settlement_payload (callback : SettlementCallback) : json :=
  JObject [("spi_message_id", JString (cb_SPIMessageID callback));
           ("status", JString (cb_Status callback)); ("code", JString (cb_Code callback))].

Definition settlement_audit (current : Transfer) (callback : SettlementCallback) : AuditRecord := {|
  a_TenantID := t_TenantID current; a_AccountID := t_AccountID current;
  a_TransferID := t_ID current; a_Action := "spi_settlement_callback_recorded";
  a_CorrelationID := cb_CorrelationID callback;
  a_Metadata := <["status" := cb_Status callback]> (<["code" := cb_Code callback]> ∅);
  a_CreatedAt := cb_ReceivedAt callback |}.

Definition hashed_callback (callback : SettlementCallback) : SettlementCallback :=
  if cb_CallbackHash callback ==s ""
  then callback <| cb_CallbackHash := SettlementCallback_Fingerprint callback |> else callback.

(** The time and correlation id a callback without them gets. *)
Definition callback_defaults (callback : SettlementCallback) : M SettlementCallback :=
  callback <- (if time_IsZero (cb_ReceivedAt callback) then
                 at_ <- s_now env;; ret (callback <| cb_ReceivedAt := time_UTC at_ |>)
               else ret callback);;
  if cb_CorrelationID callback ==s "" then
    id <- newID env "corr";; ret (callback <| cb_CorrelationID := id |>)
  else ret callback.

Definition Service_RecordSettlement (callback : SettlementCallback) : M Result :=
  callback <- callback_defaults callback;;
  if (cb_TenantID callback ==s "") || (cb_TransferID callback ==s "") ||
     (cb_SPIMessageID callback ==s "") then
    fail (Errorf ErrValidation "tenant_id, transfer_id, and spi_message_id are required")
  else
    let callback := hashed_callback callback in
    current <- store_read env (fun o =>
      GetTransfer o (cb_TenantID callback) (cb_TransferID callback));;
    if (t_SPIMessageID current ==s "") ||
       negb (t_SPIMessageID current ==s cb_SPIMessageID callback) then
      fail (Errorf ErrConflict "spi_message_id mismatch")
    else
      eventType <- lift (settlement_event_type (cb_Status callback));;
      event <- new_event current (cb_CorrelationID callback) eventType
                 (ret (cb_ReceivedAt callback)) (settlement_payload callback);;
      let audit := settlement_audit current callback in
      '(updated, replay) <- store_write env (fun o =>
        UpdateSettlement o (cb_TenantID callback) (cb_TransferID callback) callback [event] audit);;
      if replay : bool then ret (mkResult updated true [])
      else ret (mkResult updated false [event]).

Definition Service_Outbox : M (list OutboxRecord) := store_read env (fun o => Outbox o).
Definition Service_Audit : M (list AuditRecord) := store_read env (fun o => Audit o).
End Operations.
