(* ===== verification/SwitcherProps.v ===== *)
(** * Correctness of the payment switch

    The operations of [Switcher] against the store contract, with other calls
    interleaved at every store access. *)

From S2P Require Import Prelude GoStrings Sha256 Rail Events RateLimit StoreSpec Effects Switcher.

(** ** Events and identifiers *)

Section Events.
Context {St LT LD : Type} `{Strategy LT} `{Strategy LD} (env : Env St).
Implicit Types w : World St (Limits LT LD).

(** A clock of the service: a reading, or the time already in the request. *)
Definition clock (at_ : @M St (Limits LT LD) Time) : Prop := forall w Q,
  (forall x w', w_store w' = w_store w -> Q (Ok x) w') -> wp at_ w Q.

Lemma clock_now : clock (s_now env).
Proof. intros w Q HQ. apply wp_external. by apply HQ. Qed.

Lemma clock_ret x : clock (ret x).
Proof. intros w Q HQ. apply wp_ret. by apply HQ. Qed.

Lemma wp_new_event t c ty at_ pl w Q : clock at_ ->
  (forall e w', w_store w' = w_store w -> event_of t e -> e_EventType e = ty ->
     e_CorrelationID e = c -> Q (Ok e) w') ->
  wp (new_event env t c ty at_ pl) w Q.
Proof.
  intros Hat HQ. unfold new_event. wp_steps. apply Hat. intros now w' Hw. wp_steps.
  by apply HQ.
Qed.

Lemma wp_addEvents t evs outbox w Q :
  (forall new w', w_store w' = w_store w -> Forall (event_of t) new ->
     map e_EventType new = map fst evs -> Q (Ok (outbox ++ new)) w') ->
  wp (addEvents env t outbox evs) w Q.
Proof.
  revert outbox w. induction evs as [|ev evs IH]; intros outbox w HQ; cbn [addEvents].
  - wp_steps. rewrite <- (app_nil_r outbox). by apply HQ.
  - wp_step. unfold addEvent. do 2 wp_step.
    apply wp_new_event; [apply clock_now|]. intros e w' Hw He Hty _. wp_steps.
    apply IH. intros new w'' Hw' Hn Hm. rewrite <- app_assoc.
    apply HQ; [congruence|by constructor|]. cbn. by rewrite Hty, Hm.
Qed.

Lemma wp_try_events t c at_ evs outbox w Q : clock at_ ->
  (forall new w', w_store w' = w_store w -> Forall (event_of t) new ->
     map e_EventType new = map fst evs -> Q (Ok (outbox ++ new)) w') ->
  wp (try_events env t c at_ outbox evs) w Q.
Proof.
  intros Hat. revert outbox w. induction evs as [|[ty pl] evs IH]; intros outbox w HQ; cbn [try_events].
  - wp_steps. rewrite <- (app_nil_r outbox). by apply HQ.
  - wp_step. apply wp_new_event; [done|]. intros e w' Hw He Hty _.
    apply IH. intros new w'' Hw' Hn Hm. rewrite <- app_assoc.
    apply HQ; [congruence|by constructor|]. cbn. by rewrite Hty, Hm.
Qed.

Lemma wp_normalized req w Q :
  (forall at_ w', w_store w' = w_store w -> w_rest w' = w_rest w ->
     Q (Ok (normalize_request req at_)) w') ->
  wp (normalized env req) w Q.
Proof. intros HQ. unfold normalized. wp_steps; by apply HQ. Qed.
End Events.

(** The clock reading does not matter to what identifies a request. *)
Lemma normalize_request_at req at_ :
  cr_TenantID (normalize_request req at_) = TrimSpace (cr_TenantID req) /\
  cr_IdempotencyKey (normalize_request req at_) = TrimSpace (cr_IdempotencyKey req) /\
  CreateTransferRequest_Validate (normalize_request req at_) =
    CreateTransferRequest_Validate (normalize_request req 0) /\
  CreateTransferRequest_Fingerprint (normalize_request req at_) =
    CreateTransferRequest_Fingerprint (normalize_request req 0).
Proof.
  unfold normalize_request. cbn.
  destruct (cr_Currency req ==s ""); cbn; destruct (time_IsZero (cr_RequestedAt req)); done.
Qed.

Lemma Fingerprint_nonempty req : CreateTransferRequest_Fingerprint req <> "".
Proof.
  unfold CreateTransferRequest_Fingerprint, hashParts. 
  pose proof (length_sha256 (bytes_of_string (Join nul (request_parts req)))) as Hl.
  destruct (sha256_Sum256 _) as [|b l]; [done|]. cbn. done.
Qed.

(** ** The switch over a store that keeps its contract *)

Section Switch.
Context `{StoreLaws St} `{Strategy LT} `{Strategy LD}.
Context (env : Env St) (sv : Service).
Implicit Types (s : St) (w : World St (Limits LT LD)).

(** Concurrent calls keep the contract; the theorems below show that the switch's
    own calls do. *)
Definition rely : Prop := forall k s, st_inv s -> preserves s (env_others env k s).

(** The call itself wrote nothing. *)
Definition untouched : relation St := rtc (fun s s' => exists k, s' = env_others env k s).

Lemma untouched_preserves s s' : rely -> st_inv s -> untouched s s' -> preserves s s'.
Proof.
  intros Hr Hs Hu. induction Hu as [s|s s1 s2 [k ->] _ IH]; [by apply preserves_refl|].
  destruct (Hr k s Hs). eapply preserves_trans; [by split|auto].
Qed.

Lemma untouched_now w : untouched (w_store w) (store_now env w).
Proof. apply rtc_once. by exists (w_tick w). Qed.

Lemma preserves_owned s s' tn id t :
  st_inv s -> preserves s s' -> st_owned s tn id = Some t ->
  exists t', st_owned s' tn id = Some t' /\ rtc stored_step t t'.
Proof. intros Hs [_ He] Ht. by eapply evolves_owned. Qed.

(** Evidence written for [t0], read or written earlier, is still about the stored
    transfer. *)
Lemma evidence_stable s s' tn id t t0 evs aud :
  st_inv s -> preserves s s' -> st_owned s tn id = Some t ->
  stored_identity t = stored_identity t0 ->
  Forall (event_of t0) evs -> Forall (audit_of t0) aud -> st_evidence s' tn id evs aud.
Proof.
  intros Hs Hp Ht Hid0 He Ha t' Ht'.
  destruct (preserves_owned _ _ _ _ _ Hs Hp Ht) as (u & Hu & Hst).
  rewrite Ht' in Hu. injection Hu as <-.
  destruct (owned_ok _ _ _ _ Hs Ht) as (_ & _ & Hok).
  destruct (stored_rtc _ _ Hok Hst) as (_ & Hid & _). rewrite Hid0 in Hid.
  unfold stored_identity in Hid. injection Hid as E1 E2 E3 _ _ _ _ _ _ _ _ _ _ _.
  split; (eapply Forall_impl; [eassumption|]); intros x (?&?&?); split_and!; congruence.
Qed.

(** Evidence about the transfer, under the action of its audit record. *)
Definition recorded (t : Transfer) (evs : list Event) (a : AuditRecord) (action : string) : Prop :=
  Forall (event_of t) evs /\ audit_of t a /\ a_Action a = action.

Lemma recorded_owned s s' tn id t t0 u evs a action :
  st_inv s -> preserves s s' -> st_owned s tn id = Some t -> stored_identity t = stored_identity t0 ->
  st_owned s' tn id = Some (st_read u) -> recorded t0 evs a action -> recorded u evs a action.
Proof.
  intros Hs Hp Ht Hid0 Hu (He & Ha & Hact).
  destruct (evidence_stable _ _ _ _ _ _ evs [a] Hs Hp Ht Hid0 He
    (Forall_cons_2 _ _ _ Ha (Forall_nil_2 _)) _ Hu) as [He' HF].
  inversion HF as [|? ? (E1 & E2 & E3) _]. pose proof (read_identity u) as Hr.
  unfold stored_identity in Hr. injection Hr as Er1 Er2 Er3 _ _ _ _ _ _ _ _ _ _ _.
  split_and!; [|by unfold audit_of; rewrite <- Er1, <- Er2, <- Er3|done].
  eapply Forall_impl; [exact He'|]. intros e. unfold event_of. by rewrite Er1, Er2, Er3.
Qed.

(** *** Creating a transfer *)

(** The event types of a creation, by decision. *)
Definition creation_types (status : TransferStatus) : list string :=
  ["pix_transfer_requested"; "dict_key_resolved"; "fraud_score_calculated"] ++
  (if status ==s StatusAccepted then ["pix_transfer_accepted"; "spi_submission_requested"]
   else if status ==s StatusReview then ["pix_transfer_review_requested"]
   else if status ==s StatusBlocked then ["pix_transfer_blocked"] else []).

(** The transfer is the request as normalised, with the receiver the resolver
    found and the scorer's decision on it. *)
Definition from_request (req : CreateTransferRequest) (t : Transfer) : Prop :=
  exists at_ entry d now k1 k2,
    let q := normalize_request req at_ in
    sv_dict sv k1 (cr_TenantID q) (cr_ReceiverKey q) (cr_ReceiverKeyType q) = Ok entry /\
    sv_fraud sv k2 q entry = Ok d /\
    t = build_transfer (t_ID t) q (CreateTransferRequest_Fingerprint q) entry d now.

(** What [CreateTransfer] promises about its result [r] on the world [w]. *)
Definition create_post (req : CreateTransferRequest) (w : World St (Limits LT LD))
    (r : result Result) (w' : World St (Limits LT LD)) : Prop :=
  let tn := TrimSpace (cr_TenantID req) in
  let key := TrimSpace (cr_IdempotencyKey req) in
  let hash := CreateTransferRequest_Fingerprint (normalize_request req 0) in
  match r with
  | Err _ => untouched (w_store w) (w_store w')
  | Ok res =>
      let t := r_Transfer res in
      st_keyed (w_store w') tn key = Some (st_read t) /\
      (t_RequestHash t = "" \/ t_RequestHash t = hash) /\
      if r_IdempotentReplay res
      then untouched (w_store w) (w_store w') /\ st_read t = t /\ r_Events res = []
      else exists s audit, untouched (w_store w) s /\ st_keyed s tn key = None /\
             writes s tn (t_ID t) t (r_Events res) [audit] (w_store w') /\
             new_transfer t /\ from_request req t /\ t_RequestHash t = hash /\
             map e_EventType (r_Events res) = creation_types (t_Status t) /\
             recorded t (r_Events res) audit "pix_transfer_decided" /\
             st_owned s tn (t_ID t) = None
  end.

Lemma build_transfer_new id req hash entry d now :
  f_Status d = StatusAccepted \/ f_Status d = StatusReview \/ f_Status d = StatusBlocked ->
  new_transfer (build_transfer id req hash entry d now).
Proof.
  intros Hst. split_and!; [|exact Hst|done]. split; cbn; try done.
  - by left.
  - status_solve.
Qed.

Lemma creation_events_types t entry d :
  map fst (creation_events t entry d) = creation_types (f_Status d).
Proof.
  unfold creation_events, creation_types. rewrite map_app. cbn [map fst]. f_equal.
  by repeat case_match.
Qed.

Lemma wp_replay t hash w Q :
  (forall e, Q (Err e) w) ->
  (t_RequestHash t = "" \/ t_RequestHash t = hash -> Q (Ok (mkResult t true [])) w) ->
  wp (replay_transfer t hash) w Q.
Proof.
  intros He Hok. unfold replay_transfer. wp_steps; [apply He|]. apply Hok.
  destruct (t_RequestHash t ==s "") eqn:E1; [b2p; by left|].
  destruct (t_RequestHash t ==s hash) eqn:E2; [b2p; by right|done].
Qed.

Lemma insert_post req w0 t outbox aud w :
  rely -> st_inv (w_store w0) -> untouched (w_store w0) (w_store w) ->
  t_TenantID t = TrimSpace (cr_TenantID req) ->
  t_IdempotencyKey t = TrimSpace (cr_IdempotencyKey req) ->
  t_RequestHash t = CreateTransferRequest_Fingerprint (normalize_request req 0) ->
  new_transfer t -> from_request req t -> recorded t outbox aud "pix_transfer_decided" ->
  map e_EventType outbox = creation_types (t_Status t) ->
  wp (insert_or_replay env t outbox [aud]) w (create_post req w0).
Proof.
  intros Hr Hs0 Hu Etn Ek Eh Hn Hfr Hrec Hty. pose proof Hrec as (He & Ha & _).
  unfold insert_or_replay. do 3 wp_step.
  assert (Hu1 : untouched (w_store w0) (store_now env w))
    by (etrans; [exact Hu|apply untouched_now]).
  destruct (untouched_preserves _ _ Hr Hs0 Hu1) as [Hs1 _].
  pose proof (insert_law (obs_at env (w_tick w)) t outbox [aud] _ Hs1 Hn He
                (Forall_cons_2 _ _ _ Ha (Forall_nil_2 _))) as Hi.
  match goal with E : InsertTransfer _ _ _ _ _ = _ |- _ => rewrite E in Hi end.
  cbv beta iota. destruct r as [[]|err].
  - destruct Hi as (Hw & Hno & Hk & Hk'). wp_steps. unfold create_post. cbn.
    rewrite <- Etn, <- Ek, <- Eh. split_and!; [done|by right|].
    by exists (store_now env w), aud.
  - subst s'. wp_step; [|wp_steps; exact Hu1].
    do 2 wp_step. cbn. unfold store_now at 1 2 3. cbn.
    set (s2 := env_others _ _ _).
    assert (Hu2 : untouched (w_store w0) s2) by (etrans; [exact Hu1|apply rtc_once; eauto]).
    destruct (untouched_preserves _ _ Hr Hs0 Hu2) as [Hs2 _].
    destruct (find_law (obs_at env (S (w_tick w))) (t_TenantID t) (t_IdempotencyKey t) s2 Hs2)
      as [Ef|(_ & e & Ef)]; rewrite Ef; [|exact Hu2].
    destruct (st_keyed s2 _ _) as [x|] eqn:Ex; [|wp_steps; exact Hu2].
    apply wp_replay; [intros e; exact Hu2|]. intros Hh. unfold create_post. cbn.
    rewrite <- Etn, <- Ek, <- Eh, (keyed_read _ _ _ _ Hs2 Ex). done.
Qed.

Lemma decide_post req at_ entry w0 w :
  rely -> st_inv (w_store w0) -> untouched (w_store w0) (w_store w) ->
  let q := normalize_request req at_ in
  (exists k, sv_dict sv k (cr_TenantID q) (cr_ReceiverKey q) (cr_ReceiverKeyType q) = Ok entry) ->
  wp (decide_transfer env sv q (CreateTransferRequest_Fingerprint q) entry) w (create_post req w0).
Proof.
  intros Hr Hs0 Hu q [k Hd]. destruct (normalize_request_at req at_) as (Etn & Ek & _ & Eh).
  fold q in Etn, Ek, Eh. unfold decide_transfer. do 2 wp_step.
  destruct (sv_fraud sv (w_tick w) q entry) as [d|e] eqn:Hf; [|exact Hu].
  wp_step; [wp_steps; exact Hu|]. b2p.
  do 4 wp_step. set (t := build_transfer _ _ _ _ _ _).
  wp_step. apply wp_addEvents. intros new w1 Hw1 Hev Hty. cbn [app].
  apply insert_post;
    [exact Hr|exact Hs0|by rewrite Hw1|exact Etn|exact Ek|exact Eh| | |by split|].
  - apply build_transfer_new.
    destruct (f_Status d ==s StatusAccepted) eqn:E1, (f_Status d ==s StatusReview) eqn:E2,
      (f_Status d ==s StatusBlocked) eqn:E3; b2p; auto; discriminate.
  - exists at_, entry, d, (time_UTC (env_now env (w_tick (next_tick w)))), k, (w_tick w).
    split; [exact Hd|split; [exact Hf|reflexivity]].
  - by rewrite Hty, creation_events_types.
Qed.

Lemma create_transfer_post req w :
  rely -> st_inv (w_store w) -> wp (Service_CreateTransfer env sv req) w (create_post req w).
Proof.
  intros Hr Hs. unfold Service_CreateTransfer. wp_step. apply wp_normalized.
  intros at_ w1 Hw1 _. cbv beta iota.
  destruct (normalize_request_at req at_) as (Etn & Ek & _ & Eh).
  destruct (CreateTransferRequest_Validate _) as [e|].
  { wp_steps. unfold create_post. rewrite Hw1. reflexivity. }
  do 2 wp_step. rewrite Etn, Ek. set (s1 := store_now env w1).
  assert (Hu1 : untouched (w_store w) s1) by (rewrite <- Hw1; apply untouched_now).
  destruct (untouched_preserves _ _ Hr Hs Hu1) as [Hs1 _].
  destruct (find_law (obs_at env (w_tick w1)) (TrimSpace (cr_TenantID req))
    (TrimSpace (cr_IdempotencyKey req)) s1 Hs1) as [Ef|(_ & e & Ef)]; rewrite Ef; [|exact Hu1].
  destruct (st_keyed s1 _ _) as [x|] eqn:Ex.
  { apply wp_replay; [intros e; exact Hu1|]. intros Hh. rewrite Eh in Hh.
    unfold create_post. cbn. rewrite (keyed_read _ _ _ _ Hs1 Ex).
    split; [exact Ex|split; [exact Hh|by split]]. }
  wp_step. apply wp_update_rest. intros b w2 Hw2. wp_step; [wp_steps; unfold create_post; by rewrite Hw2|].
  wp_step. apply wp_update_rest. intros b2 w3 Hw3.
  assert (Hu3 : untouched (w_store w) (w_store w3)) by (by rewrite Hw3, Hw2).
  wp_step; [wp_steps; exact Hu3|]. wp_step. unfold resolve_receiver. do 3 wp_step.
  cbv beta iota. destruct (sv_dict _ _ _ _ _) as [entry|e] eqn:Hd; [|wp_steps; exact Hu3].
  wp_steps. apply decide_post; eauto.
Qed.

(** C1: whatever other calls run in between, a failed [CreateTransfer]
    writes nothing. A successful one leaves the tenant's idempotency key bound to
    the transfer it returns, created from a request with the same fingerprint. If
    it created the transfer, one transaction added exactly the transfer, the
    events of its decision in order and one audit record, and the key and the id were
    free just before; if it is a replay, it wrote nothing. *)
Theorem create_transfer_correct req w r w' :
  rely -> st_inv (w_store w) -> Service_CreateTransfer env sv req w = (r, w') ->
  create_post req w r w'.
Proof. intros Hr Hs E. exact (wp_run _ _ _ _ _ E (create_transfer_post req w Hr Hs)). Qed.

Lemma create_post_preserves req w r w' :
  rely -> st_inv (w_store w) -> create_post req w r w' -> preserves (w_store w) (w_store w').
Proof.
  intros Hr Hs. unfold create_post. destruct r as [res|e]; [|by apply untouched_preserves].
  intros (_ & _ & Hc). destruct (r_IdempotentReplay res).
  - destruct Hc as [Hu _]. by apply untouched_preserves.
  - destruct Hc as (s & a & Hu & _ & (Hi & He & _) & _).
    eapply preserves_trans; [by apply untouched_preserves|by split].
Qed.

Lemma keyed_stable s s' tn k t :
  st_inv s -> preserves s s' -> st_keyed s tn k = Some t ->
  exists t', st_keyed s' tn k = Some t' /\ rtc stored_step t t' /\
    stored_identity t' = stored_identity t.
Proof.
  intros Hs [_ He] Ht. destruct (evolves_keyed _ _ _ _ _ Hs He Ht) as (t' & Ht' & Hst).
  exists t'. split_and!; [done..|]. eapply stored_rtc; [|done]. by eapply keyed_ok.
Qed.

Lemma create_post_once req1 req2 w1 w1' w2 w2' r1 r2 :
  rely -> st_inv (w_store w1) ->
  TrimSpace (cr_TenantID req1) = TrimSpace (cr_TenantID req2) ->
  TrimSpace (cr_IdempotencyKey req1) = TrimSpace (cr_IdempotencyKey req2) ->
  create_post req1 w1 (Ok r1) w1' -> r_IdempotentReplay r1 = false ->
  preserves (w_store w1') (w_store w2) -> create_post req2 w2 (Ok r2) w2' ->
  r_IdempotentReplay r2 = true /\
  rtc stored_step (st_read (r_Transfer r1)) (r_Transfer r2) /\
  t_ID (r_Transfer r2) = t_ID (r_Transfer r1) /\
  CreateTransferRequest_Fingerprint (normalize_request req2 0) =
    CreateTransferRequest_Fingerprint (normalize_request req1 0).
Proof.
  intros Hr Hs1 Etn Ek P1 Hf Hp P2.
  destruct (create_post_preserves _ _ _ _ Hr Hs1 P1) as [Hs1' _].
  pose proof Hp as [Hs2 _].
  pose proof (create_post_preserves _ _ _ _ Hr Hs2 P2) as Hp2.
  destruct P1 as (Hk1 & Hh1 & P1). rewrite Hf in P1.
  destruct P2 as (Hk2 & Hh2 & P2). rewrite <- Etn, <- Ek in Hk2, P2.
  destruct (keyed_stable _ _ _ _ _ Hs1' (preserves_trans _ _ _ Hp Hp2) Hk1)
    as (t & Ht & Hst & Hid). rewrite Ht in Hk2. injection Hk2 as ->.
  assert (F2 : r_IdempotentReplay r2 = true).
  { destruct (r_IdempotentReplay r2); [done|].
    destruct P2 as (s & a & Hu & Hn & _).
    destruct (keyed_stable _ _ _ _ _ Hs1'
      (preserves_trans _ _ _ Hp (untouched_preserves _ _ Hr Hs2 Hu)) Hk1) as (t & Ht' & _).
    congruence. }
  rewrite F2 in P2. destruct P2 as (_ & Er & _). rewrite Er in Hst.
  rewrite !read_identity in Hid. unfold stored_identity in Hid.
  split_and!; [done|done|by simplify_eq|].
  - destruct P1 as (_ & _ & _ & _ & _ & _ & _ & Hh & _).
    assert (Eh : t_RequestHash (r_Transfer r2) = t_RequestHash (r_Transfer r1))
      by congruence.
    rewrite Eh, Hh in Hh2. destruct Hh2 as [Hh2|Hh2]; [|done].
    by apply Fingerprint_nonempty in Hh2.
Qed.

(** C2: two successful creations under one idempotency key, with
    anything in between, return the same transfer, at a later point of its life
    for the second, which is a replay; and their requests have the same
    fingerprint. *)
Theorem create_transfer_once req1 req2 w1 w1' w2 w2' r1 r2 :
  rely -> st_inv (w_store w1) ->
  TrimSpace (cr_TenantID req1) = TrimSpace (cr_TenantID req2) ->
  TrimSpace (cr_IdempotencyKey req1) = TrimSpace (cr_IdempotencyKey req2) ->
  Service_CreateTransfer env sv req1 w1 = (Ok r1, w1') ->
  r_IdempotentReplay r1 = false ->
  preserves (w_store w1') (w_store w2) ->
  Service_CreateTransfer env sv req2 w2 = (Ok r2, w2') ->
  r_IdempotentReplay r2 = true /\
  rtc stored_step (st_read (r_Transfer r1)) (r_Transfer r2) /\
  t_ID (r_Transfer r2) = t_ID (r_Transfer r1) /\
  CreateTransferRequest_Fingerprint (normalize_request req2 0) =
    CreateTransferRequest_Fingerprint (normalize_request req1 0).
Proof.
  intros Hr Hs1 Etn Ek E1 Hf Hp E2. pose proof Hp as [Hs2 _].
  pose proof (wp_run _ _ _ _ _ E1 (create_transfer_post req1 w1 Hr Hs1)) as P1.
  pose proof (wp_run _ _ _ _ _ E2 (create_transfer_post req2 w2 Hr Hs2)) as P2.
  exact (create_post_once _ _ _ _ _ _ _ _ Hr Hs1 Etn Ek P1 Hf Hp P2).
Qed.

(** The answer to a request whose key is bound to [t]. *)
Definition replay_post (req : CreateTransferRequest) (t : Transfer) (w : World St (Limits LT LD))
    (r : result Result) (w' : World St (Limits LT LD)) : Prop :=
  untouched (w_store w) (w_store w') /\ w_rest w' = w_rest w /\
  if t_RequestHash t ==s CreateTransferRequest_Fingerprint (normalize_request req 0)
  then exists t', rtc stored_step t t' /\ r = Ok (mkResult t' true [])
  else exists e, r = Err e /\ errors_Is e ErrConflict = true.

(** C19: when the tenant's key is already bound to a transfer made
    from a request, and the store answers, a valid request under that key gets the
    transfer back as a replay if it has the same fingerprint and a conflict
    otherwise; neither writes to the store nor takes from a rate limit. *)
Theorem create_transfer_replay req w t :
  rely -> st_inv (w_store w) -> (forall k, st_avail (obs_at env k)) ->
  CreateTransferRequest_Validate (normalize_request req 0) = None ->
  st_keyed (w_store w) (TrimSpace (cr_TenantID req)) (TrimSpace (cr_IdempotencyKey req)) = Some t ->
  t_RequestHash t <> "" ->
  wp (Service_CreateTransfer env sv req) w (replay_post req t w).
Proof.
  intros Hr Hs Hav Hval Hk Hh. unfold Service_CreateTransfer. wp_step. apply wp_normalized.
  intros at_ w1 Hw1 Hl1. cbv beta iota.
  destruct (normalize_request_at req at_) as (Etn & Ek & Ev & Eh).
  rewrite Ev, Hval. do 2 wp_step. rewrite Etn, Ek. set (s1 := store_now env w1).
  assert (Hu1 : untouched (w_store w) s1) by (rewrite <- Hw1; apply untouched_now).
  pose proof (untouched_preserves _ _ Hr Hs Hu1) as Hp. pose proof Hp as [Hs1 _].
  destruct (keyed_stable _ _ _ _ _ Hs Hp Hk) as (t' & Ht' & Hst & Hid).
  assert (Ehash : t_RequestHash t' = t_RequestHash t)
    by (unfold stored_identity in Hid; congruence).
  destruct (find_law (obs_at env (w_tick w1)) (TrimSpace (cr_TenantID req))
    (TrimSpace (cr_IdempotencyKey req)) s1 Hs1) as [Ef|(Hn & _)];
    [|by destruct (Hn (Hav _))].
  rewrite Ef, Ht'. unfold replay_transfer. rewrite Ehash, Eh.
  apply String.eqb_neq in Hh. rewrite Hh. unfold replay_post. cbn [negb andb].
  destruct (t_RequestHash t ==s CreateTransferRequest_Fingerprint (normalize_request req 0));
    cbn [negb]; wp_steps; (split; [exact Hu1|split; [exact Hl1|]]).
  - exists t'. split; [exact Hst|reflexivity].
  - eexists. split; reflexivity.
Qed.

(** *** Updates *)

(** The rule for a store update: the store it finds is an evolution of the last
    one seen, and then either nothing is written or exactly the update is. *)
Lemma wp_update {A} (f : Obs -> St -> result A * St) w tn id spec out evs aud
    (extra : result A * St -> Prop) Q :
  rely -> st_inv (w_store w) ->
  (forall s, let o := obs_at env (w_tick w) in untouched (w_store w) s -> preserves (w_store w) s ->
     (meets s tn id spec out evs aud (f o s) /\ extra (f o s)) \/ fails s (f o s)) ->
  (forall s e, untouched (w_store w) s -> preserves (w_store w) s -> Q (Err e) (set_store s (next_tick w))) ->
  (forall s t u, untouched (w_store w) s -> preserves (w_store w) s -> st_owned s tn id = Some t ->
     spec t = Ok (u, true) -> Q (Ok (out (u, true))) (set_store s (next_tick w))) ->
  (forall s s' t u, untouched (w_store w) s -> preserves (w_store w) s -> st_owned s tn id = Some t ->
     spec t = Ok (u, false) -> writes s tn id u evs aud s' ->
     extra (Ok (out (u, false)), s') ->
     Q (Ok (out (u, false))) (set_store s' (next_tick w))) ->
  wp (store_write env f) w Q.
Proof.
  intros Hr Hs Hlaw Qerr Qrep Qwr. apply wp_write. intros r s' E.
  assert (Hp : preserves (w_store w) (store_now env w)) by by apply Hr.
  pose proof (untouched_now w) as Hu.
  destruct (Hlaw _ Hu Hp) as [[L X]|[e L]]; rewrite E in *.
  - unfold meets in L. destruct (st_owned _ tn id) as [t|] eqn:Ht; [|simplify_eq; eauto].
    destruct (spec t) as [[u []]|e] eqn:Es; [simplify_eq; eauto| |simplify_eq; eauto].
    destruct L as (s1 & L & Hw). simplify_eq. eauto.
  - simplify_eq. eauto.
Qed.

Lemma writes_preserves s0 s s' tn id t evs aud :
  preserves s0 s -> writes s tn id t evs aud s' -> preserves s0 s'.
Proof. intros Hp (Hi & He & _). eapply preserves_trans; [exact Hp|by split]. Qed.

(** *** Submitting to SPI *)

(** A claim or a release of a lease. *)
Definition lease_step (s s' : St) : Prop := exists tn id t u,
  st_owned s tn id = Some t /\ transfer_step t u /\ t_Status u = t_Status t /\
  writes s tn id u [] [] s'.

(** The call itself wrote nothing but leases: no status, no evidence. *)
Definition leased : relation St :=
  rtc (fun s s' => (exists k, s' = env_others env k s) \/ lease_step s s').

Lemma untouched_leased s s' : untouched s s' -> leased s s'.
Proof. apply rtc_subrel. by left. Qed.

Lemma leased_trans s1 s2 s3 : leased s1 s2 -> leased s2 s3 -> leased s1 s3.
Proof. intros H12 H23. by etrans. Qed.

Lemma lease_leased s s' tn id t u : st_owned s tn id = Some t -> transfer_step t u ->
  t_Status u = t_Status t -> writes s tn id u [] [] s' -> leased s s'.
Proof. intros. apply rtc_once. right. by exists tn, id, t, u. Qed.

Lemma leased_preserves s s' : rely -> st_inv s -> leased s s' -> preserves s s'.
Proof.
  intros Hr Hs Hu. induction Hu as [s|s s1 s2 Hst _ IH]; [by apply preserves_refl|].
  assert (Hp : preserves s s1).
  { destruct Hst as [[k ->]|(tn & id & t & u & _ & _ & _ & Hw)]; [by apply Hr|].
    eapply writes_preserves; [by apply preserves_refl|exact Hw]. }
  pose proof Hp as [Hs1 _]. eapply preserves_trans; [exact Hp|auto].
Qed.

Lemma claim_spec_fresh tok until now t u : claim_spec tok until now t = Ok (u, false) ->
  transfer_step t u /\ t_Status u = t_Status t.
Proof.
  unfold claim_spec, fresh. intros E. cases_in E; simplify_eq.
  split; [eauto with pix|]. apply claim_inv in Heqr. naive_solver.
Qed.

Lemma release_spec_fresh tok err retry now t u : release_spec tok err retry now t = Ok (u, false) ->
  transfer_step t u /\ t_Status u = t_Status t.
Proof.
  unfold release_spec, fresh. intros E. cases_in E; simplify_eq.
  split; [eauto with pix|]. apply release_inv in Heqr. naive_solver.
Qed.

Lemma wp_release {A} tn id tok err w (Q : result A -> _ -> Prop) :
  rely -> st_inv (w_store w) ->
  (forall w', leased (w_store w) (w_store w') -> Q (Err err) w') ->
  wp (release_and_fail env tn id tok err) w Q.
Proof.
  intros Hr Hs HQ. unfold release_and_fail. do 4 wp_step.
  eapply wp_update with (extra := fun _ => True); [done|done|..].
  - intros s o _ [Hs' _]. destruct (release_law o tn id tok (Error err)
      (time_Add (time_UTC (env_now env (w_tick w))) Second) s Hs') as [L|[_ L]];
      [left; split; [exact L|done]|by right].
  - intros s e Hu _. wp_steps. by apply HQ, untouched_leased.
  - intros s t u Hu _ _ _. wp_steps. by apply HQ, untouched_leased.
  - intros s s' t u Hu _ Ht [Hst Es]%release_spec_fresh Hw _. wp_steps. apply HQ.
    eapply leased_trans; [by apply untouched_leased|by eapply lease_leased].
Qed.

Definition submit_post (tn id : string) (w : World St (Limits LT LD)) (r : result Result)
    (w' : World St (Limits LT LD)) : Prop :=
  preserves (w_store w) (w_store w') /\
  match r with
  | Err _ => leased (w_store w) (w_store w')
  | Ok res =>
      let t := r_Transfer res in
      st_owned (w_store w') tn id = Some (st_read t) /\ t_Status t = StatusApproved /\
      if r_IdempotentReplay res
      then leased (w_store w) (w_store w') /\ st_read t = t /\ r_Events res = []
      else map e_EventType (r_Events res) = ["spi_message_created"; "pix_transfer_approved"] /\
           exists s u audit, leased (w_store w) s /\ st_owned s tn id = Some u /\
             t_Status u = StatusAccepted /\ transfer_step u t /\
             writes s tn id t (r_Events res) [audit] (w_store w') /\
             recorded t (r_Events res) audit "spi_submission_recorded"
  end.

Lemma record_spec_fresh tok msg t u :
  record_spec tok msg t = Ok (u, false) -> Transfer_RecordSPISubmission t tok msg = Ok u.
Proof.
  unfold record_spec, fresh. intros E. cases_in E; by simplify_eq.
Qed.

Lemma record_spec_replay tok msg t u :
  record_spec tok msg t = Ok (u, true) -> u = t /\ t_Status t = StatusApproved.
Proof. unfold record_spec, fresh. intros E. cases_in E; simplify_eq; b2p; done. Qed.

Lemma claim_spec_replay tok until now t u :
  claim_spec tok until now t = Ok (u, true) -> u = t /\ t_Status t = StatusApproved.
Proof.
  unfold claim_spec, already_submitted, fresh. intros E. cases_in E; simplify_eq; b2p; done.
Qed.

Lemma submit_claimed_post tn id tok c t w0 w :
  rely -> st_inv (w_store w0) -> leased (w_store w0) (w_store w) ->
  st_owned (w_store w) tn id = Some (st_read t) ->
  wp (submit_claimed env sv tn id tok c t) w (submit_post tn id w0).
Proof.
  intros Hr Hs0 Hl Ht. pose proof (read_identity t) as Hid.
  pose proof (leased_preserves _ _ Hr Hs0 Hl) as [Hs _].
  assert (Hfail : forall e w1, leased (w_store w0) (w_store w1) -> submit_post tn id w0 (Err e) w1)
    by (intros; split; [by apply leased_preserves|done]).
  assert (Hrel : forall e w1, leased (w_store w0) (w_store w1) ->
    wp (release_and_fail env tn id tok e) w1 (submit_post tn id w0)).
  { intros e w1 Hl1. apply wp_release; [done|exact (proj1 (leased_preserves _ _ Hr Hs0 Hl1))|].
    intros w2 Hl2. apply Hfail. by eapply leased_trans. }
  unfold submit_claimed. do 3 wp_step. cbv beta iota.
  destruct (sv_spi sv (w_tick w) t) as [msg|e]; [|by apply Hrel].
  do 2 wp_step. apply wp_try_events; [apply clock_now|]. intros evs w1 Hw1 Hev Hty.
  cbv beta iota. cbn [app]. wp_step.
  assert (Hrec : recorded t evs (submission_audit t c msg) "spi_submission_recorded") by done.
  eapply wp_update with (extra := fun _ => True); [done|by rewrite Hw1|rewrite Hw1..].
  - intros s o _ Hp1. pose proof Hp1 as [Hs1 _].
    assert (Hevi : st_evidence s tn id evs [submission_audit t c msg])
      by (eapply evidence_stable; [exact Hs|exact Hp1|exact Ht|done|done|by apply Forall_singleton]).
    destruct (record_law o tn id tok msg evs (submission_audit t c msg) s Hs1 Hevi) as [L|L];
      [left; split; [exact L|done]|by right].
  - intros s e Hu1 _. apply Hfail. cbn. eauto using leased_trans, untouched_leased.
  - intros s u v Hu1 [Hs1 _] Hu [-> Hst]%record_spec_replay. cbv beta iota. wp_steps.
    assert (Hl1 : leased (w_store w0) s) by eauto using leased_trans, untouched_leased.
    split; [by apply leased_preserves|]. cbn. rewrite (owned_read _ _ _ _ Hs1 Hu). done.
  - intros s s' u v Hu1 Hp1 Hu E Hw _. cbv beta iota. wp_steps. apply record_spec_fresh in E.
    assert (Hl1 : leased (w_store w0) s) by eauto using leased_trans, untouched_leased.
    assert (Hp2 : preserves (w_store w) s') by by eapply writes_preserves.
    split; [eapply writes_preserves; [by apply leased_preserves|exact Hw]|].
    pose proof Hw as (_ & _ & Ho & _). pose proof E as (Est & _ & _ & _ & _ & Ev)%record_inv. cbn.
    split_and!; [done|by rewrite Ev|done|].
    exists s, u, (submission_audit t c msg).
    split_and!; [done..|eauto with pix|done|].
    exact (recorded_owned _ _ _ _ _ _ _ _ _ _ Hs Hp2 Ht Hid Ho Hrec).
Qed.

Lemma submit_to_spi_post tn id c w :
  rely -> st_inv (w_store w) ->
  wp (Service_SubmitToSPI env sv tn id c) w (submit_post (TrimSpace tn) (TrimSpace id) w).
Proof.
  intros Hr Hs. unfold Service_SubmitToSPI.
  wp_step; [wp_steps; split; [by apply preserves_refl|reflexivity]|].
  wp_step. apply wp_newID. intros tok. do 3 wp_step. set (until := time_Add _ _).
  eapply wp_update with (extra := fun _ => True); [done|done|..].
  - intros s o _ [Hs1 _].
    destruct (claim_law o (TrimSpace tn) (TrimSpace id) tok until s Hs1) as [L|[L _]];
      [left; split; [exact L|done]|by right].
  - intros s e Hu Hp. split; [done|by apply untouched_leased].
  - intros s t u Hu Hp Ht [-> Hst]%claim_spec_replay. cbv beta iota. wp_steps.
    split; [done|]. cbn. rewrite (owned_read _ _ _ _ (proj1 Hp) Ht).
    split_and!; [done..|by apply untouched_leased|done|done].
  - intros s s' t u Hu Hp Ht [Hst Es]%claim_spec_fresh Hw _. cbv beta iota.
    pose proof Hw as (_ & _ & Ho & _). apply submit_claimed_post; [done|done| |done].
    cbn. eapply leased_trans; [by apply untouched_leased|by eapply lease_leased].
Qed.

(** C16: whatever runs in between, [SubmitToSPI] keeps the store's invariant,
    and a success returns the stored transfer, approved. If the call is no replay,
    the transfer was still accepted when the submission was recorded, and one
    transaction wrote the approved transfer, its two events and one audit record.
    Besides, and when it fails, the call writes nothing but the lease of a claim. *)
Theorem submit_to_spi_correct tn id c w r w' :
  rely -> st_inv (w_store w) -> Service_SubmitToSPI env sv tn id c w = (r, w') ->
  submit_post (TrimSpace tn) (TrimSpace id) w r w'.
Proof. intros Hr Hs E. exact (wp_run _ _ _ _ _ E (submit_to_spi_post tn id c w Hr Hs)). Qed.

(** C3: after a successful submission, with anything in between, every
    later successful submission of the same transfer is a replay and reports the
    same SPI message and end-to-end id: a transfer is recorded as submitted once. *)
Theorem submit_to_spi_once tn id c1 c2 w1 w1' w2 w2' r1 r2 :
  rely -> st_inv (w_store w1) ->
  Service_SubmitToSPI env sv tn id c1 w1 = (Ok r1, w1') ->
  preserves (w_store w1') (w_store w2) ->
  Service_SubmitToSPI env sv tn id c2 w2 = (Ok r2, w2') ->
  r_IdempotentReplay r2 = true /\
  t_SPIMessageID (r_Transfer r2) = t_SPIMessageID (r_Transfer r1) /\
  t_EndToEndID (r_Transfer r2) = t_EndToEndID (r_Transfer r1).
Proof.
  intros Hr Hs1 E1 Hp E2.
  destruct (wp_run _ _ _ _ _ E1 (submit_to_spi_post tn id c1 w1 Hr Hs1)) as ([Hs1' _] & Ho1 & St1 & _).
  pose proof Hp as [Hs2 _].
  destruct (wp_run _ _ _ _ _ E2 (submit_to_spi_post tn id c2 w2 Hr Hs2)) as (Hp2 & Ho2 & St2 & R2).
  assert (Hlater : forall s u, preserves (w_store w2) s ->
    st_owned s (TrimSpace tn) (TrimSpace id) = Some u ->
    post_spi (t_Status u) /\ t_SPIMessageID u = t_SPIMessageID (r_Transfer r1) /\
    t_EndToEndID u = t_EndToEndID (r_Transfer r1)).
  { intros s u Hps Hu.
    destruct (preserves_owned _ _ _ _ _ Hs1' (preserves_trans _ _ _ Hp Hps) Ho1) as (v & Hv & Hst).
    rewrite Hu in Hv. injection Hv as <-.
    destruct (owned_ok _ _ _ _ Hs1' Ho1) as (_ & _ & Hok).
    destruct (content_status _ _ (read_content (r_Transfer r1))) as (Es & Em & Ee & _).
    rewrite <- Em, <- Ee. apply post_spi_stored; [done..|]. rewrite Es, St1. by left. }
  destruct (Hlater _ _ Hp2 Ho2) as (_ & Em & Ee).
  destruct (content_status _ _ (read_content (r_Transfer r2))) as (_ & Em2 & Ee2 & _).
  rewrite Em2 in Em. rewrite Ee2 in Ee. split_and!; [|done..].
  destruct (r_IdempotentReplay r2); [done|].
  destruct R2 as (_ & s & u & a & Hps & Hu & Hacc & _).
  destruct (Hlater s u (leased_preserves _ _ Hr Hs2 Hps) Hu) as (Hpost & _). exfalso. status_solve.
Qed.

(** *** Reviews *)

Definition review_post (req : ReviewDecisionRequest) (w : World St (Limits LT LD)) (r : result Result)
    (w' : World St (Limits LT LD)) : Prop :=
  let tn := TrimSpace (rv_TenantID req) in
  let id := TrimSpace (rv_TransferID req) in
  match r with
  | Err _ => untouched (w_store w) (w_store w')
  | Ok res =>
      let t := r_Transfer res in
      r_IdempotentReplay res = false /\
      exists s u audit, untouched (w_store w) s /\ st_owned s tn id = Some u /\
        t_Status u = StatusReview /\ transfer_step u t /\
        writes s tn id t (r_Events res) [audit] (w_store w') /\
        recorded t (r_Events res) audit "manual_review_recorded" /\
        ((rv_Decision req = ReviewApprove /\ t_Status t = StatusAccepted /\
          map e_EventType (r_Events res) =
            ["pix_transfer_review_approved"; "spi_submission_requested"]) \/
         (rv_Decision req = ReviewBlock /\ t_Status t = StatusBlocked /\
          map e_EventType (r_Events res) =
            ["pix_transfer_review_blocked"; "pix_transfer_blocked"]))
  end.

Lemma review_spec_inv st reason at_ t u b :
  review_spec st reason at_ t = Ok (u, b) ->
  b = false /\ t_Status t = StatusReview /\ t_Status u = st /\ transfer_step t u.
Proof.
  unfold review_spec, fresh. intros E. cases_in E; simplify_eq.
  pose proof Heqr as (Hst & _ & ->)%review_inv. split_and!; [done..|eauto with pix].
Qed.

Lemma untouched_trans s1 s2 s3 : untouched s1 s2 -> untouched s2 s3 -> untouched s1 s3.
Proof. intros H12 H23. by etrans. Qed.

Lemma get_owned o tn id s t : st_inv s ->
  GetTransfer o tn id s = Ok t -> st_owned s tn id = Some t.
Proof.
  intros Hs E. destruct (get_law o tn id s Hs) as [Eg|(_ & e & Eg)]; rewrite Eg in E; [|done].
  by destruct (st_owned s tn id); simplify_eq.
Qed.

Lemma review_outcome_inv d st ty :
  review_outcome d = Ok (st, ty) ->
  d = ReviewBlock /\ st = StatusBlocked /\ ty = "pix_transfer_review_blocked" \/
  d = ReviewApprove /\ st = StatusAccepted /\ ty = "pix_transfer_review_approved".
Proof. unfold review_outcome. intros E. cases_in E; simplify_eq; b2p; auto. Qed.

(** From the read of a transfer in review on. *)
Lemma review_write_post req w0 w q t st ty reason :
  rely -> st_inv (w_store w0) -> untouched (w_store w0) (w_store w) ->
  st_owned (w_store w) (rv_TenantID q) (rv_TransferID q) = Some t ->
  rv_TenantID q = TrimSpace (rv_TenantID req) ->
  rv_TransferID q = TrimSpace (rv_TransferID req) -> rv_Decision q = rv_Decision req ->
  review_outcome (rv_Decision q) = Ok (st, ty) ->
  wp (eventsToWrite <- try_events env t (rv_CorrelationID q) (ret (rv_ReviewedAt q)) []
                         (review_events t q st ty reason);;
      updated <- store_write env (fun o =>
        RecordReviewDecision o (rv_TenantID q) (rv_TransferID q) st reason eventsToWrite
          (review_audit t q st));;
      ret (mkResult updated false eventsToWrite)) w (review_post req w0).
Proof.
  intros Hr Hs0 Hu Ht Etn Eid Ed Eo.
  destruct (untouched_preserves _ _ Hr Hs0 Hu) as [Hs _].
  wp_step. apply wp_try_events; [apply clock_ret|]. intros evs w1 Hw1 Hev Hty. cbn [app].
  wp_step.
  assert (Hrec : recorded t evs (review_audit t q st) "manual_review_recorded") by done.
  eapply wp_update with (extra := fun _ => True); [done|by rewrite Hw1|rewrite Hw1..].
  - intros s o _ Hp1. pose proof Hp1 as [Hs1 _].
    assert (Hevi : st_evidence s (rv_TenantID q) (rv_TransferID q) evs [review_audit t q st])
      by (eapply evidence_stable; [exact Hs|exact Hp1|exact Ht|done|done|by apply Forall_singleton]).
    destruct (review_law o _ _ st reason evs (review_audit t q st) s Hs1 Hevi) as [L|L];
      [left; split; [exact L|done]|by right].
  - intros s e Hu1 _. cbn. by eapply untouched_trans.
  - intros s u v _ _ _ E. by apply review_spec_inv in E as [? _].
  - intros s s' u v Hu1 Hp1 Hu' E Hw _. cbv beta iota. wp_steps.
    apply review_spec_inv in E as (_ & Hur & Hvs & Hst). cbn. split; [done|].
    exists s, u, (review_audit t q st). rewrite <- Etn, <- Eid, <- Ed.
    assert (Hp2 : preserves (w_store w) s') by by eapply writes_preserves.
    pose proof Hw as (_ & _ & Ho & _).
    split_and!; [by eapply untouched_trans|done..|exact (recorded_owned _ _ _ _ _ _ _ _ _ _ Hs Hp2 Ht eq_refl Ho Hrec)|].
    rewrite Hvs, Hty. apply review_outcome_inv in Eo as [(?&?&?)|(?&?&?)]; subst;
      [right|left]; done.
Qed.

Lemma normalize_review_at req at_ :
  rv_TenantID (normalize_review req at_) = TrimSpace (rv_TenantID req) /\
  rv_TransferID (normalize_review req at_) = TrimSpace (rv_TransferID req) /\
  rv_Decision (normalize_review req at_) = rv_Decision req.
Proof. unfold normalize_review. cbn. by destruct (time_IsZero _). Qed.

Lemma record_review_post req w :
  rely -> st_inv (w_store w) -> wp (Service_RecordReview env req) w (review_post req w).
Proof.
  intros Hr Hs. unfold Service_RecordReview. wp_step.
  apply wp_conseq with (P := fun r w1 =>
    exists at_, r = Ok (normalize_review req at_) /\ w_store w1 = w_store w);
    [wp_steps; by eexists|].
  intros r w1 (at_ & -> & Hw1). destruct (normalize_review_at req at_) as (Etn & Eid & Ed).
  set (q := normalize_review req at_) in *.
  wp_step; [wp_steps; cbn; rewrite Hw1; reflexivity|]. do 2 wp_step.
  set (s1 := store_now env w1).
  assert (Hu1 : untouched (w_store w) s1) by (rewrite <- Hw1; apply untouched_now).
  destruct (untouched_preserves _ _ Hr Hs Hu1) as [Hs1 _].
  destruct (GetTransfer _ _ _ _) as [t|e] eqn:Eg; [|exact Hu1].
  apply get_owned in Eg; [|done].
  wp_step; [wp_steps; exact Hu1|]. cbv zeta.
  set (q' := if rv_CorrelationID q ==s "" then _ else q).
  assert (Eq' : rv_TenantID q' = rv_TenantID q /\ rv_TransferID q' = rv_TransferID q /\
                rv_Decision q' = rv_Decision q)
    by (unfold q'; by destruct (rv_CorrelationID q ==s "")).
  destruct Eq' as (E1 & E2 & E3).
  do 2 wp_step. destruct (review_outcome (rv_Decision q')) as [[st ty]|e] eqn:Eo; [|exact Hu1].
  apply review_write_post; try done; [|congruence..]. cbn. by rewrite E1, E2.
Qed.

(** C18: a manual review decision succeeds only on a stored transfer that was
    in review at that moment; it moves it to accepted (approve) or blocked (block)
    in one transaction with exactly the two events of the decision and one audit
    record, and a failed call writes nothing. *)
Theorem record_review_correct req w r w' :
  rely -> st_inv (w_store w) -> Service_RecordReview env req w = (r, w') ->
  review_post req w r w'.
Proof. intros Hr Hs E. exact (wp_run _ _ _ _ _ E (record_review_post req w Hr Hs)). Qed.

(** *** Settlement callbacks *)

Definition settle_post (cb : SettlementCallback) (w : World St (Limits LT LD)) (r : result Result)
    (w' : World St (Limits LT LD)) : Prop :=
  let tn := cb_TenantID cb in
  let id := cb_TransferID cb in
  let msg := cb_SPIMessageID cb in
  match r with
  | Err _ => untouched (w_store w) (w_store w')
  | Ok res =>
      let t := r_Transfer res in
      st_owned (w_store w') tn id = Some (st_read t) /\
      st_callback (w_store w') tn msg = Some (cb_CallbackHash (hashed_callback cb)) /\
      if r_IdempotentReplay res
      then untouched (w_store w) (w_store w') /\ st_read t = t /\ r_Events res = []
      else settled t /\ t_SPIMessageID t = msg /\
           exists s u audit, untouched (w_store w) s /\ st_owned s tn id = Some u /\
             t_Status u = StatusApproved /\ st_callback s tn msg = None /\
             writes s tn id t (r_Events res) [audit] (w_store w') /\
             recorded t (r_Events res) audit "spi_settlement_callback_recorded" /\
             map e_EventType (r_Events res) =
               [if t_Status t ==s StatusSettled then "pix_transfer_settled"
                else "pix_transfer_rejected"]
  end.

Lemma hashParts_nonempty ps : hashParts ps <> "".
Proof.
  unfold hashParts. pose proof (length_sha256 (bytes_of_string (Join nul ps))) as Hl.
  by destruct (sha256_Sum256 _) as [|b l].
Qed.

Lemma hashed_callback_nonempty cb : cb_CallbackHash (hashed_callback cb) <> "".
Proof.
  unfold hashed_callback. destruct (cb_CallbackHash cb ==s "") eqn:E; b2p; [|done].
  apply hashParts_nonempty.
Qed.

Lemma settle_spec_fresh cb k t u :
  settle_spec cb k t = Ok (u, false) ->
  k = None /\ Transfer_RecordSettlement t cb = Ok u.
Proof. unfold settle_spec, fresh. intros E. cases_in E; by simplify_eq. Qed.

Lemma settle_spec_replay cb k t u :
  settle_spec cb k t = Ok (u, true) -> u = t /\ k = Some (cb_CallbackHash cb).
Proof.
  unfold settle_spec, fresh. intros E. destruct k as [h|]; [|by cases_in E].
  destruct (h ==s _) eqn:Eh; b2p; by simplify_eq.
Qed.

Lemma settlement_type_status cb t u ty :
  settlement_event_type (cb_Status cb) = Ok ty -> Transfer_RecordSettlement t cb = Ok u ->
  ty = if t_Status u ==s StatusSettled then "pix_transfer_settled" else "pix_transfer_rejected".
Proof.
  intros Ety (_ & _ & _ & st & Hst & ->)%settle_inv. cbn. unfold settlement_event_type in Ety.
  destruct Hst as [[-> Hs]|[-> Hs]]; rewrite Hs in Ety; simpl in Ety;
    by injection Ety as <-.
Qed.

(** From the read of the transfer on; [q] is the callback with its defaults. *)
Lemma settle_write_post cb q w0 w t ty c :
  rely -> st_inv (w_store w0) -> untouched (w_store w0) (w_store w) ->
  cb_TenantID q = cb_TenantID cb -> cb_TransferID q = cb_TransferID cb ->
  cb_SPIMessageID q = cb_SPIMessageID cb ->
  cb_CallbackHash q = cb_CallbackHash (hashed_callback cb) ->
  st_owned (w_store w) (cb_TenantID q) (cb_TransferID q) = Some t ->
  settlement_event_type (cb_Status q) = Ok ty ->
  wp (event <- new_event env t c ty (ret (cb_ReceivedAt q)) (settlement_payload q);;
      '(updated, replay) <- store_write env (fun o =>
        UpdateSettlement o (cb_TenantID q) (cb_TransferID q) q [event] (settlement_audit t q));;
      if replay : bool then ret (mkResult updated true [])
      else ret (mkResult updated false [event])) w (settle_post cb w0).
Proof.
  intros Hr Hs0 Hu Etn Eid Em Eh Ht Ety.
  destruct (untouched_preserves _ _ Hr Hs0 Hu) as [Hs _].
  wp_step. apply wp_new_event; [apply clock_ret|]. intros e w1 Hw1 He Hety _. wp_step.
  assert (Hrec : recorded t [e] (settlement_audit t q) "spi_settlement_callback_recorded")
    by (split_and!; [by apply Forall_singleton|done..]).
  assert (Hne : cb_CallbackHash q <> "") by (rewrite Eh; apply hashed_callback_nonempty).
  set (known := st_callback (store_now env w1) (cb_TenantID q) (cb_SPIMessageID q)).
  apply wp_write. intros r s' E.
  assert (Hu1 : untouched (w_store w) (store_now env w1)) by (rewrite <- Hw1; apply untouched_now).
  pose proof (untouched_preserves _ _ Hr Hs Hu1) as Hp1. pose proof Hp1 as [Hs1 _].
  assert (Hu2 : untouched (w_store w0) (store_now env w1)) by by eapply untouched_trans.
  assert (Hevi : st_evidence (store_now env w1) (cb_TenantID q) (cb_TransferID q) [e]
                   [settlement_audit t q])
    by (eapply evidence_stable; [exact Hs|exact Hp1|exact Ht|done|by apply Forall_singleton..]).
  destruct (settle_law (obs_at env (w_tick w1)) _ _ q [e] _ _ Hs1 Hevi Hne) as [[L X]|(x & L)];
    rewrite E in *; [|simplify_eq; exact Hu2].
  unfold meets in L. destruct (st_owned (store_now env w1) _ _) as [u|] eqn:Hou;
    [|simplify_eq; exact Hu2].
  fold known in L. destruct (settle_spec q known u) as [[v []]|x] eqn:Es;
    [simplify_eq| |simplify_eq; exact Hu2].
  - apply settle_spec_replay in Es as [-> Hk]. cbv beta iota. wp_steps.
    unfold settle_post. cbn. rewrite <- Etn, <- Eid, <- Em, <- Eh.
    rewrite (owned_read _ _ _ _ Hs1 Hou). done.
  - destruct L as (s2 & L & Hw). simplify_eq. cbv beta iota. wp_steps.
    apply settle_spec_fresh in Es as [Hk Er].
    pose proof Er as (Em' & Hm & Happ & st & Hst & Ev)%settle_inv.
    assert (Hp2 : preserves (w_store w) s2) by by eapply writes_preserves.
    pose proof Hw as (_ & _ & Ho & _).
    unfold settle_post. cbn. rewrite <- Etn, <- Eid, <- Em, <- Eh.
    split_and!; [done|by eapply X| | |].
    + rewrite Ev. unfold settled. cbn. naive_solver.
    + by rewrite Ev.
    + exists (store_now env w1), u, (settlement_audit t q).
      split_and!; [done|done|done|exact Hk|done|exact (recorded_owned _ _ _ _ _ _ _ _ _ _ Hs Hp2 Ht eq_refl Ho Hrec)|].
      f_equal. by eapply settlement_type_status.
Qed.

(** The callback with its defaulted time and correlation id. *)
Definition same_callback (cb q : SettlementCallback) : Prop :=
  cb_TenantID q = cb_TenantID cb /\ cb_TransferID q = cb_TransferID cb /\
  cb_SPIMessageID q = cb_SPIMessageID cb /\
  cb_CallbackHash (hashed_callback q) = cb_CallbackHash (hashed_callback cb).

Lemma wp_callback_defaults cb w Q :
  (forall q w', same_callback cb q -> w_store w' = w_store w -> Q (Ok q) w') ->
  wp (callback_defaults env cb) w Q.
Proof.
  intros HQ.
  assert (Hh : forall c : SettlementCallback, cb_CallbackHash (hashed_callback c) =
    if cb_CallbackHash c ==s "" then SettlementCallback_Fingerprint c else cb_CallbackHash c)
    by (intros c; unfold hashed_callback; by destruct (cb_CallbackHash c ==s "")).
  unfold callback_defaults.
  wp_steps; apply HQ; try done; unfold same_callback; rewrite !Hh; done.
Qed.

Lemma hashed_callback_fields q :
  cb_TenantID (hashed_callback q) = cb_TenantID q /\
  cb_TransferID (hashed_callback q) = cb_TransferID q /\
  cb_SPIMessageID (hashed_callback q) = cb_SPIMessageID q.
Proof. unfold hashed_callback. by destruct (cb_CallbackHash q ==s ""). Qed.

Lemma record_settlement_post cb w :
  rely -> st_inv (w_store w) -> wp (Service_RecordSettlement env cb) w (settle_post cb w).
Proof.
  intros Hr Hs. unfold Service_RecordSettlement.
  wp_step. apply wp_callback_defaults. intros q w1 (Etn & Eid & Em & Eh) Hw1.
  wp_step; [wp_steps; cbn; rewrite Hw1; reflexivity|]. cbv zeta.
  destruct (hashed_callback_fields q) as (F1 & F2 & F3).
  do 2 wp_step. set (s1 := store_now env w1).
  assert (Hu1 : untouched (w_store w) s1) by (rewrite <- Hw1; apply untouched_now).
  destruct (untouched_preserves _ _ Hr Hs Hu1) as [Hs1 _].
  destruct (GetTransfer _ _ _ _) as [t|e] eqn:Eg; [|exact Hu1].
  apply get_owned in Eg; [|done].
  wp_step; [wp_steps; exact Hu1|]. do 2 wp_step.
  destruct (settlement_event_type _) as [ty|e] eqn:Ety; [|exact Hu1].
  apply settle_write_post; try done; congruence.
Qed.

(** C17: a settlement callback succeeds only for the tenant's own transfer
    and under the payload hash remembered for its SPI message. The first one finds
    the transfer approved and no callback recorded, and in one transaction
    settles or rejects it, records the callback, one event and one audit record;
    a replay and a failure write nothing. *)
Theorem record_settlement_correct cb w r w' :
  rely -> st_inv (w_store w) -> Service_RecordSettlement env cb w = (r, w') ->
  settle_post cb w r w'.
Proof. intros Hr Hs E. exact (wp_run _ _ _ _ _ E (record_settlement_post cb w Hr Hs)). Qed.

Lemma settle_post_preserves cb w r w' :
  rely -> st_inv (w_store w) -> settle_post cb w r w' -> preserves (w_store w) (w_store w').
Proof.
  intros Hr Hs. unfold settle_post. destruct r as [res|e]; [|by apply untouched_preserves].
  intros (_ & _ & Hc). destruct (r_IdempotentReplay res).
  - destruct Hc as [Hu _]. by apply untouched_preserves.
  - destruct Hc as (_ & _ & s & u & a & Hu & _ & _ & _ & Hw & _).
    eapply writes_preserves; [by apply untouched_preserves|exact Hw].
Qed.

(** C4: after a callback has settled a transfer, with anything in
    between, a callback for the same transfer and SPI message succeeds only if it
    carries the same payload hash, and then it is a replay that returns the very
    transfer the first one returned, as it reads back. *)
Theorem record_settlement_once cb1 cb2 w1 w1' w2 w2' r1 r2 :
  rely -> st_inv (w_store w1) ->
  cb_TenantID cb2 = cb_TenantID cb1 -> cb_TransferID cb2 = cb_TransferID cb1 ->
  cb_SPIMessageID cb2 = cb_SPIMessageID cb1 ->
  Service_RecordSettlement env cb1 w1 = (Ok r1, w1') -> r_IdempotentReplay r1 = false ->
  preserves (w_store w1') (w_store w2) ->
  Service_RecordSettlement env cb2 w2 = (Ok r2, w2') ->
  r_IdempotentReplay r2 = true /\ r_Transfer r2 = st_read (r_Transfer r1) /\
  cb_CallbackHash (hashed_callback cb2) = cb_CallbackHash (hashed_callback cb1).
Proof.
  intros Hr Hs1 Etn Eid Em E1 Hf Hp E2.
  pose proof (wp_run _ _ _ _ _ E1 (record_settlement_post cb1 w1 Hr Hs1)) as P1.
  destruct (settle_post_preserves _ _ _ _ Hr Hs1 P1) as [Hs1' _]. pose proof Hp as [Hs2 Hev].
  pose proof (wp_run _ _ _ _ _ E2 (record_settlement_post cb2 w2 Hr Hs2)) as P2.
  pose proof (settle_post_preserves _ _ _ _ Hr Hs2 P2) as Hp2.
  destruct P1 as (Ho1 & Hc1 & P1). rewrite Hf in P1. destruct P1 as (Hset & _).
  destruct P2 as (Ho2 & Hc2 & P2). rewrite Etn, Eid, Em in *.
  assert (Hkeep : forall s, st_evolves (w_store w1') s ->
    st_callback s (cb_TenantID cb1) (cb_SPIMessageID cb1) =
      Some (cb_CallbackHash (hashed_callback cb1)))
    by (intros s He; by eapply evolves_callback).
  pose proof (preserves_trans _ _ _ Hp Hp2) as [Hs2' Hev2].
  rewrite (Hkeep _ Hev2) in Hc2. injection Hc2 as Hc2.
  destruct (evolves_owned _ _ _ _ _ Hs1' Hev2 Ho1) as (t & Ht & Hst).
  rewrite Ho2 in Ht. injection Ht as <-.
  destruct (owned_ok _ _ _ _ Hs1' Ho1) as (_ & _ & Hok).
  assert (Hset' : settled (st_read (r_Transfer r1)))
    by (unfold settled; by rewrite read_status).
  apply settled_stored in Hst; [|done..].
  destruct (r_IdempotentReplay r2).
  { destruct P2 as (_ & Er & _). split_and!; [done|congruence|done]. }
  destruct P2 as (_ & _ & s & u & a & Hu & _ & _ & Hn & _).
  destruct (preserves_trans _ _ _ Hp (untouched_preserves _ _ Hr Hs2 Hu)) as [_ He].
  by rewrite (Hkeep _ He) in Hn.
Qed.

(** *** The SPI batch *)

Definition batch_total (r : SPIBatchResult) : Z := br_Submitted r + br_Replayed r + br_Skipped r.

Definition batch_counts (r : SPIBatchResult) : Prop :=
  0 <= br_Submitted r /\ 0 <= br_Replayed r /\ 0 <= br_Skipped r.

(** What the loop over [n] pending transfers makes of the counters [res]. *)
Definition loop_post (n : nat) (res : SPIBatchResult) (s : St)
    (r : result (SPIBatchResult * option error)) (w' : World St (Limits LT LD)) : Prop :=
  preserves s (w_store w') /\
  exists res' oerr, r = Ok (res', oerr) /\ br_Scanned res' = br_Scanned res /\
    batch_counts res' /\
    match oerr with
    | None => batch_total res' = batch_total res + Z.of_nat n
    | Some e => errors_Is e ErrConflict = false /\
        batch_total res' < batch_total res + Z.of_nat n
    end.

Lemma submit_loop_post pending res w :
  rely -> st_inv (w_store w) -> batch_counts res ->
  batch_total res + Z.of_nat (length pending) <= max_int64 ->
  wp (submit_loop env sv pending res) w (loop_post (length pending) res (w_store w)).
Proof.
  intros Hr. revert res w. induction pending as [|t rest IH]; intros res w Hs Hc Hb;
    cbn [submit_loop length] in *.
  { wp_steps. split; [by apply preserves_refl|]. exists res, None. split_and!; try done; lia. }
  do 2 wp_step. eapply wp_conseq; [by apply submit_to_spi_post|].
  intros r w1 [Hp Hpost]. pose proof Hp as [Hs1 _]. cbv beta iota.
  assert (Hnext : forall res1, br_Scanned res1 = br_Scanned res -> batch_counts res1 ->
    batch_total res1 = batch_total res + 1 ->
    wp (submit_loop env sv rest res1) w1 (loop_post (S (length rest)) res (w_store w))).
  { intros res1 Hsc Hc1 Ht. eapply wp_conseq; [apply IH; [done|done|lia]|].
    intros r2 w2 (Hp2 & res' & oe & -> & Hsc' & Hc' & Hm).
    split; [by eapply preserves_trans|]. exists res', oe. split_and!; try done; [congruence|].
    destruct oe; [|lia]. destruct Hm. split; [done|lia]. }
  unfold batch_counts, batch_total in *. destruct r as [sub|e].
  - wp_step; apply Hnext; cbn; try done; rewrite !int64_id by int_lia; lia.
  - wp_step; [apply Hnext; cbn; try done; rewrite !int64_id by int_lia; lia|].
    wp_steps. split; [done|]. exists res, (Some e).
    unfold batch_counts, batch_total. split_and!; try done; lia.
Qed.

Definition batch_post (limit : Z) (s : St) (r : result (SPIBatchResult * option error))
    (w' : World St (Limits LT LD)) : Prop :=
  preserves s (w_store w') /\
  match r with
  | Err _ => True
  | Ok (res, oerr) =>
      0 <= br_Scanned res <= (if limit <=? 0 then 100 else limit) /\ batch_counts res /\
      match oerr with
      | None => br_Scanned res = batch_total res
      | Some e => errors_Is e ErrConflict = false /\ batch_total res < br_Scanned res
      end
  end.

Lemma submit_pending_post limit w :
  rely -> st_inv (w_store w) -> in_int64 limit ->
  wp (Service_SubmitPendingSPI env sv limit) w (batch_post limit (w_store w)).
Proof.
  intros Hr Hs Hl. unfold Service_SubmitPendingSPI. do 2 wp_step.
  assert (Hp : preserves (w_store w) (store_now env w)) by by apply Hr.
  pose proof Hp as [Hs1 _].
  destruct (PendingSPISubmissions _ limit _) as [ts|e] eqn:E; [|by split].
  destruct (pending_law _ _ _ _ Hs1 E) as [Hlen _].
  assert (Hmax : Z.of_nat (length ts) <= max_int64)
    by (destruct (limit <=? 0); int_lia).
  eapply wp_conseq; [apply submit_loop_post; [done|done|by split_and!|exact Hmax]|].
  intros r w' (Hp1 & res & oerr & -> & Hsc & Hc & Hm). cbn in *.
  split; [by eapply preserves_trans|]. rewrite Hsc. unfold batch_total in *. cbn in *.
  split_and!; [lia|done|done|]. destruct oerr as [e|]; [|lia]. destruct Hm. split; [done|lia].
Qed.

(** A batch scans at most [limit] transfers (100 by default) and accounts
    for each: submitted, replayed or skipped on a conflict; it stops early only
    on another error, which it returns with the counts so far. *)
Theorem submit_pending_accounts limit w r w' :
  rely -> st_inv (w_store w) -> in_int64 limit ->
  Service_SubmitPendingSPI env sv limit w = (r, w') -> batch_post limit (w_store w) r w'.
Proof. intros Hr Hs Hl E. exact (wp_run _ _ _ _ _ E (submit_pending_post limit w Hr Hs Hl)). Qed.

(** *** Every call keeps the contract *)

Inductive Call :=
  | CallCreate (req : CreateTransferRequest)
  | CallGet (tenantID transferID : string)
  | CallHealth
  | CallSubmit (tenantID transferID correlationID : string)
  | CallBatch (limit : Z)
  | CallReview (req : ReviewDecisionRequest)
  | CallSettle (callback : SettlementCallback)
  | CallOutbox
  | CallAudit.

(** The world after a call. *)
Definition run_call (c : Call) (w : World St (Limits LT LD)) : World St (Limits LT LD) :=
  match c with
  | CallCreate req => snd (Service_CreateTransfer env sv req w)
  | CallGet tn id => snd (Service_GetTransfer env tn id w)
  | CallHealth => snd (Service_Health env w)
  | CallSubmit tn id c => snd (Service_SubmitToSPI env sv tn id c w)
  | CallBatch limit => snd (Service_SubmitPendingSPI env sv limit w)
  | CallReview req => snd (Service_RecordReview env req w)
  | CallSettle cb => snd (Service_RecordSettlement env cb w)
  | CallOutbox => snd (Service_Outbox env w)
  | CallAudit => snd (Service_Audit env w)
  end.

Lemma read_preserves {A} (f : Obs -> St -> result A) w :
  rely -> st_inv (w_store w) -> preserves (w_store w) (w_store (snd (store_read env f w))).
Proof. intros Hr Hs. by apply Hr. Qed.

Lemma review_post_preserves req w r w' :
  rely -> st_inv (w_store w) -> review_post req w r w' -> preserves (w_store w) (w_store w').
Proof.
  intros Hr Hs. unfold review_post. destruct r as [res|e]; [|by apply untouched_preserves].
  intros (_ & s & u & a & Hu & _ & _ & _ & Hw & _).
  eapply writes_preserves; [by apply untouched_preserves|exact Hw].
Qed.

Lemma run_call_preserves c w :
  rely -> st_inv (w_store w) -> (forall l, c = CallBatch l -> in_int64 l) ->
  preserves (w_store w) (w_store (run_call c w)).
Proof.
  intros Hr Hs Hl.
  destruct c as [req| | |tn id c|limit|req|cb| |]; cbn [run_call]; try exact (read_preserves _ w Hr Hs).
  - exact (create_post_preserves _ _ _ _ Hr Hs (create_transfer_post req w Hr Hs)).
  - exact (proj1 (submit_to_spi_post tn id c w Hr Hs)).
  - exact (proj1 (submit_pending_post limit w Hr Hs (Hl limit eq_refl))).
  - exact (review_post_preserves _ _ _ _ Hr Hs (record_review_post req w Hr Hs)).
  - exact (settle_post_preserves _ _ _ _ Hr Hs (record_settlement_post cb w Hr Hs)).
Qed.

(** C15: any sequence of calls of the switch, each interleaved with
    concurrent calls that keep the store contract, keeps it too: the invariant
    holds after it and the store has only evolved. So the assumption the other
    theorems make of concurrent calls is one the switch's own calls satisfy. *)
Theorem switch_keeps_contract calls w :
  rely -> st_inv (w_store w) -> Forall (fun c => forall l, c = CallBatch l -> in_int64 l) calls ->
  preserves (w_store w) (w_store (fold_left (fun w c => run_call c w) calls w)).
Proof.
  intros Hr Hs Hc. revert w Hs. induction Hc as [|c cs Hc _ IH]; intros w Hs; cbn.
  - by apply preserves_refl.
  - pose proof (run_call_preserves c w Hr Hs Hc) as Hp. pose proof Hp as [Hs1 _].
    eapply preserves_trans; [exact Hp|by apply IH].
Qed.

(** *** When SPI fails *)

(** No concurrent calls, a store that answers, and a clock that advances by less
    than a claim's lifetime between two observations. *)
Record undisturbed : Prop := mkUndisturbed {
  un_alone : forall k s, env_others env k s = s;
  un_avail : forall k, st_avail (obs_at env k);
  un_clock : forall k, env_now env k <= env_now env (S k) < env_now env k + spiClaimTTL
}.

Lemma store_alone w : undisturbed -> store_now env w = w_store w.
Proof. intros Hu. apply (un_alone Hu). Qed.

(** The transfer as a failed submission leaves it, to be retried from [retry]. *)
Definition released (t : Transfer) (err : string) (retry : Time) (t' : Transfer) : Prop :=
  t_Status t' = StatusAccepted /\ t_SPIMessageID t' = t_SPIMessageID t /\
  t_SPIClaimToken t' = "" /\ t_SPILastError t' = err /\
  (exists until, t_SPIClaimedUntil t' = Some until /\ until <= retry) /\
  t_SPISubmissionAttempts t' = int64 (t_SPISubmissionAttempts t + 1) /\
  forall tok until now, TrimSpace tok <> "" -> retry <= now < until ->
    is_Ok (Transfer_ClaimSPISubmission t' tok until now) = true.

Definition failure_post (tn id : string) (t : Transfer) (e : error) (s : St)
    (r : result Result) (w' : World St (Limits LT LD)) : Prop :=
  r = Err e /\ st_inv (w_store w') /\ st_outbox (w_store w') = st_outbox s /\
  st_audit (w_store w') = st_audit s /\ others_kept s tn id (w_store w') /\
  exists t' k, st_owned (w_store w') tn id = Some t' /\
    released t (Error e) (env_now env k + Second) t'.

(** [u'] and [v'] are the claimed and the released transfer as they read back. *)
Lemma claim_then_release t tok until now err retry now' :
  t_Status t = StatusAccepted -> ptr_After (t_SPIClaimedUntil t) now = false ->
  TrimSpace tok <> "" -> now < until ->
  exists u, claim_spec tok until now t = Ok (u, false) /\
    forall u', same_content u' u -> exists v, release_spec tok err retry now' u' = Ok (v, false) /\
    forall v', same_content v' v -> released t err retry v'.
Proof.
  intros Hst Hcl Htok Hu. pose proof (TrimSpace_nonempty _ Htok) as Hne.
  apply String.eqb_neq in Htok, Hne.
  eexists. unfold claim_spec, release_spec, already_submitted, fresh.
  unfold Transfer_ClaimSPISubmission, Transfer_ReleaseSPISubmission, time_After, time_UTC.
  rewrite Hst, Htok, Hcl, (proj2 (Z.ltb_lt _ _) Hu). cbn. split; [reflexivity|].
  intros u' [Hf _]. cbn in Hf.
  assert (Es : t_Status u' = StatusAccepted /\ t_SPIClaimToken u' = tok /\
    t_SPIMessageID u' = t_SPIMessageID t /\
    t_SPISubmissionAttempts u' = int64 (t_SPISubmissionAttempts t + 1)) by (clear - Hf Hst; simplify_eq; split_and!; congruence).
  destruct Es as (Es & Et & Em & Ea). rewrite Es, Et, Hne, String.eqb_refl.
  eexists. split; [reflexivity|]. intros v' [Hf' Hc']. cbn in Hf', Hc'.
  destruct (t_SPIClaimedUntil v') as [until'|] eqn:Eu; [|done].
  assert (Ev : t_Status v' = StatusAccepted /\ t_SPIClaimToken v' = "" /\ t_SPILastError v' = err /\
    t_SPIMessageID v' = t_SPIMessageID t /\
    t_SPISubmissionAttempts v' = int64 (t_SPISubmissionAttempts t + 1))
    by (clear - Hf' Es Em Ea; simplify_eq; split_and!; congruence).
  destruct Ev as (Vs & Vt & Ve & Vm & Va). unfold released. rewrite Eu.
  split_and!; [done..|by exists until'|done|]. intros tok2 until2 now2 Ht2 Hn.
  unfold Transfer_ClaimSPISubmission, time_After, time_UTC. cbn. rewrite Eu. unfold time_After.
  apply String.eqb_neq in Ht2. rewrite Ht2, Vs, (proj2 (Z.ltb_lt now2 until2)) by lia. cbn.
  unfold time_After. by rewrite (proj2 (Z.ltb_ge now2 until')) by lia.
Qed.

End Switch.
