(* ===== verification/Evidence.v ===== *)
(** * The logs tell the transfers

    A transaction of the switch writes a transfer together with its events and audit
    record, so the outbox and the audit log of a transfer are its history: [history]
    gives the event types and audit actions a transfer in a given status has, and
    [evidenced] says that every stored transfer has exactly such logs. The calls of the
    switch keep it over any store that meets the contract, whatever concurrent calls that
    keep it too do in between. *)

From S2P Require Import Prelude GoStrings Rail Events RateLimit StoreSpec Effects Switcher SwitcherProps.

(** ** The history of a transfer *)

(** The types of the events and the actions of the audit records of a transfer in status
    [st], oldest first. *)
Inductive history : TransferStatus -> list string -> list string -> Prop :=
  | history_created st : pre_spi st ->
      history st (creation_types st) ["pix_transfer_decided"]
  | history_review_approved tys acts : history StatusReview tys acts ->
      history StatusAccepted (tys ++ ["pix_transfer_review_approved"; "spi_submission_requested"])
        (acts ++ ["manual_review_recorded"])
  | history_review_blocked tys acts : history StatusReview tys acts ->
      history StatusBlocked (tys ++ ["pix_transfer_review_blocked"; "pix_transfer_blocked"])
        (acts ++ ["manual_review_recorded"])
  | history_submitted tys acts : history StatusAccepted tys acts ->
      history StatusApproved (tys ++ ["spi_message_created"; "pix_transfer_approved"])
        (acts ++ ["spi_submission_recorded"])
  | history_settled tys acts : history StatusApproved tys acts ->
      history StatusSettled (tys ++ ["pix_transfer_settled"])
        (acts ++ ["spi_settlement_callback_recorded"])
  | history_rejected tys acts : history StatusApproved tys acts ->
      history StatusRejected (tys ++ ["pix_transfer_rejected"])
        (acts ++ ["spi_settlement_callback_recorded"]).

(** What a consumer of the events makes of them: the status after the last event that
    announces one. *)
Definition announced (ty : string) : option TransferStatus :=
  if ty ==s "pix_transfer_accepted" then Some StatusAccepted
  else if ty ==s "pix_transfer_review_requested" then Some StatusReview
  else if ty ==s "pix_transfer_review_approved" then Some StatusAccepted
  else if ty ==s "pix_transfer_blocked" then Some StatusBlocked
  else if ty ==s "pix_transfer_approved" then Some StatusApproved
  else if ty ==s "pix_transfer_settled" then Some StatusSettled
  else if ty ==s "pix_transfer_rejected" then Some StatusRejected
  else None.

Definition projected (tys : list string) : option TransferStatus :=
  fold_left (fun st ty => match announced ty with Some st' => Some st' | None => st end) tys None.

(** The events alone tell the status. *)
Lemma history_projected st tys acts : history st tys acts -> projected tys = Some st.
Proof.
  intros Hh. destruct Hh as [st [->|[->| ->]]| | | | |]; [done..| | | | |];
    unfold projected; by rewrite fold_left_app.
Qed.

(** One audit record for each call that changed the transfer. *)
Lemma history_decided st tys acts : history st tys acts -> head acts = Some "pix_transfer_decided".
Proof.
  induction 1; [done|..];
    match goal with Hd : head ?l = _ |- _ => by destruct l end.
Qed.

(** ** Logs *)

(** The labels of a log's entries for one transfer. *)
Section Log.
Context {A : Type} (tenant transfer label : A -> string).

Definition log (tn id : string) (l : list A) : list string :=
  map label (filter (fun x => tenant x = tn /\ transfer x = id) l).

Lemma log_app tn id l1 l2 : log tn id (l1 ++ l2) = log tn id l1 ++ log tn id l2.
Proof. unfold log. by rewrite filter_app, map_app. Qed.

Lemma log_read f tn id l :
  (forall x, tenant (f x) = tenant x /\ transfer (f x) = transfer x /\ label (f x) = label x) ->
  log tn id (map f l) = log tn id l.
Proof.
  intros Hf. induction l as [|x l IH]; [done|]. unfold log in *. cbn [map].
  destruct (Hf x) as (E1 & E2 & E3). rewrite !filter_cons, E1, E2.
  case_decide; cbn; by rewrite ?E3, IH.
Qed.

Lemma log_all tn id l : Forall (fun x => tenant x = tn /\ transfer x = id) l ->
  log tn id l = map label l.
Proof.
  intros Hl. unfold log. induction Hl as [|x l Hx _ IH]; [done|].
  rewrite filter_cons, decide_True by done. cbn. by rewrite IH.
Qed.

Lemma log_none tn id l : Forall (fun x => ~ (tenant x = tn /\ transfer x = id)) l ->
  log tn id l = [].
Proof.
  intros Hl. unfold log. induction Hl as [|x l Hx _ IH]; [done|].
  by rewrite filter_cons, decide_False.
Qed.
End Log.

Definition event_log : string -> string -> list Event -> list string :=
  log e_TenantID e_TransferID e_EventType.
Definition audit_log : string -> string -> list AuditRecord -> list string :=
  log a_TenantID a_TransferID a_Action.

(** ** Stores whose logs are the histories of their transfers *)

Section Evidence.
Context `{StoreLaws St}.
Implicit Types (s : St).

Record evidenced s : Prop := mkEvidenced {
  ev_events : forall e, e ∈ st_outbox s ->
    exists t, st_owned s (e_TenantID e) (e_TransferID e) = Some t /\ event_of t e;
  ev_audit : forall a, a ∈ st_audit s ->
    exists t, st_owned s (a_TenantID a) (a_TransferID a) = Some t /\ audit_of t a;
  ev_history : forall tn id t, st_owned s tn id = Some t ->
    history (t_Status t) (event_log tn id (st_outbox s)) (audit_log tn id (st_audit s))
}.

(** The logs of a transfer that is not stored are empty. *)
Lemma evidenced_none s tn id : evidenced s -> st_owned s tn id = None ->
  event_log tn id (st_outbox s) = [] /\ audit_log tn id (st_audit s) = [].
Proof.
  intros He Hno. split; apply log_none, Forall_forall; intros x Hx [<- <-].
  - destruct (ev_events s He x Hx) as (t & Ht & _). congruence.
  - destruct (ev_audit s He x Hx) as (t & Ht & _). congruence.
Qed.

(** What a transaction adds to the logs. *)
Lemma written_logs s tn id u evs aud s' tn' id' : writes s tn id u evs aud s' ->
  Forall (event_of u) evs -> Forall (audit_of u) aud -> t_TenantID u = tn -> t_ID u = id ->
  event_log tn' id' (st_outbox s') = event_log tn' id' (st_outbox s) ++
    (if decide ((tn', id') = (tn, id)) then map e_EventType evs else []) /\
  audit_log tn' id' (st_audit s') = audit_log tn' id' (st_audit s) ++
    (if decide ((tn', id') = (tn, id)) then map a_Action aud else []).
Proof.
  intros (_ & _ & _ & Eo & Ea & _) He Ha Etn Eid. unfold event_log, audit_log.
  rewrite Eo, Ea, !log_app, !log_read.
  - split; f_equal; (case_decide as Hd; [apply log_all|apply log_none]);
      (eapply Forall_impl; [eassumption|]); intros x (E1 & E2 & _); naive_solver congruence.
  - intros a. pose proof (read_audit_content a) as E. unfold audit_content in E. by simplify_eq.
  - intros e. pose proof (read_event_content e) as E. unfold event_content in E. by simplify_eq.
Qed.

(** Whom a transfer belongs to never changes. *)
Lemma evolves_identity s s' tn id t : st_inv s -> st_evolves s s' -> st_owned s tn id = Some t ->
  exists t', st_owned s' tn id = Some t' /\ t_ID t' = t_ID t /\ t_TenantID t' = t_TenantID t /\
    t_AccountID t' = t_AccountID t.
Proof.
  intros Hs Hle Ht. destruct (evolves_owned _ _ _ _ _ Hs Hle Ht) as (t' & Ht' & Hst).
  destruct (owned_ok _ _ _ _ Hs Ht) as (_ & _ & Hok).
  destruct (stored_rtc _ _ Hok Hst) as (_ & Hid & _). unfold stored_identity in Hid.
  exists t'. split_and!; [done|congruence..].
Qed.

(** A transaction that continues the history of its transfer, or begins it, keeps the
    logs. *)
Lemma writes_evidenced s tn id u evs aud s' : st_inv s -> evidenced s ->
  writes s tn id u evs aud s' -> Forall (event_of u) evs -> Forall (audit_of u) aud ->
  match st_owned s tn id with
  | Some t => forall tys acts, history (t_Status t) tys acts ->
      history (t_Status u) (tys ++ map e_EventType evs) (acts ++ map a_Action aud)
  | None => history (t_Status u) (map e_EventType evs) (map a_Action aud)
  end -> evidenced s'.
Proof.
  intros Hs He Hw Hev Hau Hh. pose proof Hw as (Hs' & Hle & Ho & Eo & Ea & Hk).
  pose proof Hev as Hev0. pose proof Hau as Hau0.
  destruct (owned_ok _ _ _ _ Hs' Ho) as (Eid & Etn & _).
  pose proof (read_identity u) as Er. unfold stored_identity in Er.
  assert (Eid' : t_ID u = id) by congruence. assert (Etn' : t_TenantID u = tn) by congruence.
  assert (Hacc : t_AccountID (st_read u) = t_AccountID u) by congruence.
  rewrite Forall_forall in Hev. rewrite Forall_forall in Hau. split.
  - intros e. rewrite Eo. intros [Hin|(x & -> & Hin)%list_elem_of_fmap]%elem_of_app.
    + destruct (ev_events s He e Hin) as (t & Ht & F1 & F2 & F3).
      destruct (evolves_identity _ _ _ _ _ Hs Hle Ht) as (t' & Ht' & E1 & E2 & E3).
      exists t'. split; [done|split_and!; congruence].
    + pose proof (read_event_content x) as E. unfold event_content in E.
      destruct (Hev x Hin) as (E1 & E2 & E3). exists (st_read u).
      split; [rewrite <- Ho; f_equal; congruence|split_and!; congruence].
  - intros a. rewrite Ea. intros [Hin|(x & -> & Hin)%list_elem_of_fmap]%elem_of_app.
    + destruct (ev_audit s He a Hin) as (t & Ht & F1 & F2 & F3).
      destruct (evolves_identity _ _ _ _ _ Hs Hle Ht) as (t' & Ht' & E1 & E2 & E3).
      exists t'. split; [done|split_and!; congruence].
    + pose proof (read_audit_content x) as E. unfold audit_content in E.
      destruct (Hau x Hin) as (E1 & E2 & E3). exists (st_read u).
      split; [rewrite <- Ho; f_equal; congruence|split_and!; congruence].
  - intros tn' id' t Ht.
    destruct (written_logs _ _ _ _ _ _ _ tn' id' Hw Hev0 Hau0 Etn' Eid') as [-> ->].
    case_decide as Hd.
    + injection Hd as -> ->. rewrite Ho in Ht. injection Ht as <-. rewrite read_status.
      destruct (st_owned s tn id) as [t|] eqn:Et; [by apply Hh, (ev_history s He)|].
      by destruct (evidenced_none s tn id He Et) as [-> ->].
    + rewrite !app_nil_r. rewrite Hk in Ht by done. by apply (ev_history s He).
Qed.

(** A step of a stored transfer with its evidence. *)
Lemma recorded_evidenced s tn id t u evs a action s' : st_inv s -> evidenced s ->
  st_owned s tn id = Some t -> writes s tn id u evs [a] s' -> recorded u evs a action ->
  (forall tys acts, history (t_Status t) tys acts ->
     history (t_Status u) (tys ++ map e_EventType evs) (acts ++ [action])) -> evidenced s'.
Proof.
  intros Hs He Ht Hw (Hev & Ha & <-) Hh.
  eapply (writes_evidenced _ _ _ _ _ _ _ Hs He Hw Hev); [by apply Forall_singleton|].
  by rewrite Ht.
Qed.

(** ** The calls of the switch *)

Section Calls.
Context `{Strategy LT} `{Strategy LD} (env : Env St) (sv : Service).
Implicit Types (w : World St (Limits LT LD)).

(** Concurrent calls keep the contract and the logs. *)
Definition rely_evidenced : Prop := rely env /\
  forall k s, st_inv s -> evidenced s -> evidenced (env_others env k s).

Context (Hrely : rely_evidenced).

Lemma leased_evidenced s s' : st_inv s -> evidenced s -> leased env s s' -> evidenced s'.
Proof.
  destruct Hrely as [Hr Ho]. intros Hs He Hl.
  induction Hl as [s|s s1 s2 Hst _ IH]; [done|].
  assert (Hl1 : leased env s s1) by by apply rtc_once.
  destruct (leased_preserves _ _ _ Hr Hs Hl1) as [Hs1 _]. apply IH; [done|].
  destruct Hst as [[k ->]|(tn & id & t & u & Ht & _ & Es & Hw)]; [by apply Ho|].
  eapply (writes_evidenced _ _ _ _ _ _ _ Hs He Hw); [done..|]. rewrite Ht, Es. intros tys acts.
  by rewrite !app_nil_r.
Qed.

Lemma untouched_evidenced s s' : st_inv s -> evidenced s -> untouched env s s' ->
  st_inv s' /\ evidenced s'.
Proof.
  intros Hs He Hu. split; [by eapply untouched_preserves; [apply Hrely|..]|].
  by eapply leased_evidenced; [..|apply untouched_leased].
Qed.

Lemma create_evidenced req w r w' : st_inv (w_store w) -> evidenced (w_store w) ->
  create_post env sv req w r w' -> evidenced (w_store w').
Proof.
  intros Hs He Hp. destruct r as [res|e]; cbn in Hp; [|by eapply untouched_evidenced].
  destruct Hp as (_ & _ & Hp). destruct (r_IdempotentReplay res).
  { destruct Hp as [Hu _]. by eapply untouched_evidenced. }
  destruct Hp as (s & a & Hu & _ & Hw & (_ & Hpre & _) & _ & _ & Hty & (Hev & Ha & Hact) & Hno).
  destruct (untouched_evidenced _ _ Hs He Hu) as [Hs1 He1].
  eapply (writes_evidenced _ _ _ _ _ _ _ Hs1 He1 Hw Hev); [by apply Forall_singleton|].
  rewrite Hno, Hty. cbn [map]. rewrite Hact. by constructor.
Qed.

Lemma submit_evidenced tn id w r w' : st_inv (w_store w) -> evidenced (w_store w) ->
  submit_post env tn id w r w' -> evidenced (w_store w').
Proof.
  intros Hs He [_ Hp]. destruct r as [res|e]; [|by eapply leased_evidenced].
  destruct Hp as (_ & Hst & Hp). destruct (r_IdempotentReplay res).
  { destruct Hp as [Hl _]. by eapply leased_evidenced. }
  destruct Hp as (Hty & s & u & a & Hl & Hu & Hacc & _ & Hw & Hrec).
  destruct (leased_preserves _ _ _ (proj1 Hrely) Hs Hl) as [Hs1 _].
  pose proof (leased_evidenced _ _ Hs He Hl) as He1.
  eapply (recorded_evidenced _ _ _ _ _ _ _ _ _ Hs1 He1 Hu Hw Hrec).
  intros tys acts. rewrite Hacc, Hst, Hty. by constructor.
Qed.

Lemma review_evidenced req w r w' : st_inv (w_store w) -> evidenced (w_store w) ->
  review_post env req w r w' -> evidenced (w_store w').
Proof.
  intros Hs He Hp. destruct r as [res|e]; cbn in Hp; [|by eapply untouched_evidenced].
  destruct Hp as (_ & s & u & a & Hu & Ht & Hst & _ & Hw & Hrec & Hd).
  destruct (untouched_evidenced _ _ Hs He Hu) as [Hs1 He1].
  eapply (recorded_evidenced _ _ _ _ _ _ _ _ _ Hs1 He1 Ht Hw Hrec).
  intros tys acts. rewrite Hst.
  destruct Hd as [(_ & -> & ->)|(_ & -> & ->)]; by constructor.
Qed.

Lemma settle_evidenced cb w r w' : st_inv (w_store w) -> evidenced (w_store w) ->
  settle_post env cb w r w' -> evidenced (w_store w').
Proof.
  intros Hs He Hp. destruct r as [res|e]; cbn in Hp; [|by eapply untouched_evidenced].
  destruct Hp as (_ & _ & Hp). destruct (r_IdempotentReplay res).
  { destruct Hp as [Hu _]. by eapply untouched_evidenced. }
  destruct Hp as (Hset & _ & s & u & a & Hu & Ht & Hst & _ & Hw & Hrec & Hty).
  destruct (untouched_evidenced _ _ Hs He Hu) as [Hs1 He1].
  eapply (recorded_evidenced _ _ _ _ _ _ _ _ _ Hs1 He1 Ht Hw Hrec).
  intros tys acts. rewrite Hst, Hty. destruct Hset as [-> | ->]; by constructor.
Qed.

Lemma submit_loop_evidenced pending res w : st_inv (w_store w) -> evidenced (w_store w) ->
  wp (submit_loop env sv pending res) w (fun _ w' => evidenced (w_store w')).
Proof.
  revert res w. induction pending as [|t rest IH]; intros res w Hs He; cbn [submit_loop];
    [by wp_steps|].
  do 2 wp_step. eapply wp_conseq; [by apply submit_to_spi_post; [apply Hrely|]|].
  intros r w1 Hp. pose proof (submit_evidenced _ _ _ _ _ Hs He Hp) as He1.
  destruct Hp as [[Hs1 _] _]. cbv beta iota.
  destruct r as [sub|e]; wp_steps; by try apply IH.
Qed.

Lemma run_call_evidenced c w : st_inv (w_store w) -> evidenced (w_store w) ->
  evidenced (w_store (run_call env sv c w)).
Proof.
  intros Hs He. pose proof Hrely as [Hr Ho].
  destruct c as [req|tn id| |tn id c|limit|req|cb| |]; cbn [run_call];
    try exact (Ho (w_tick w) _ Hs He).
  - eapply create_evidenced; [done..|]. by apply create_transfer_post.
  - eapply submit_evidenced; [done..|]. by apply submit_to_spi_post.
  - change (wp (Service_SubmitPendingSPI env sv limit) w (fun _ w' => evidenced (w_store w'))).
    unfold Service_SubmitPendingSPI. do 2 wp_step.
    pose proof (Ho (w_tick w) _ Hs He). destruct (Hr (w_tick w) _ Hs) as [Hs1 _].
    destruct (PendingSPISubmissions _ limit _); [|done]. by apply submit_loop_evidenced.
  - eapply review_evidenced; [done..|]. by apply record_review_post.
  - eapply settle_evidenced; [done..|]. by apply record_settlement_post.
Qed.

(** C9: the outbox and the audit log tell the life of every transfer: after any
    sequence of switch calls over a store that meets the contract, interleaved with
    concurrent calls that keep the logs true, a transfer in a given status has exactly
    the events and audit records of a way to that status, in order, no event or audit record
    misnames its transfer, tenant or account, and the last event that announces a status
    announces the transfer's. *)
Theorem logs_tell_transfers calls w : st_inv (w_store w) -> evidenced (w_store w) ->
  Forall (fun c => forall l, c = CallBatch l -> in_int64 l) calls ->
  let s := w_store (fold_left (fun w c => run_call env sv c w) calls w) in
  evidenced s /\
  forall tn id t, st_owned s tn id = Some t ->
    projected (event_log tn id (st_outbox s)) = Some (t_Status t).
Proof.
  intros Hs He Hc s.
  assert (Hev : evidenced s).
  { subst s. revert w Hs He. induction Hc as [|c cs Hc _ IH]; intros w Hs He; cbn; [done|].
    apply IH; [|by apply run_call_evidenced].
    exact (proj1 (run_call_preserves env sv c w (proj1 Hrely) Hs Hc)). }
  split; [exact Hev|]. intros tn id t Ht. by eapply history_projected, (ev_history s Hev).
Qed.
End Calls.

(** ** Calls that leave transfers and logs alone *)

(** What [evidenced] looks at. *)
Definition same_view s s' : Prop :=
  (forall tn id, st_owned s' tn id = st_owned s tn id) /\
  st_outbox s' = st_outbox s /\ st_audit s' = st_audit s.

Lemma same_view_evidenced s s' : same_view s s' -> evidenced s -> evidenced s'.
Proof.
  intros (Ho & Ee & Ea) [He Ha Hh].
  split; rewrite ?Ee, ?Ea; intros *; rewrite Ho; auto.
Qed.

(** A store without transfers and logs. *)
Lemma empty_evidenced s : (forall tn id, st_owned s tn id = None) ->
  st_outbox s = [] -> st_audit s = [] -> evidenced s.
Proof.
  intros Ho Ee Ea. split; rewrite ?Ee, ?Ea; intros *; rewrite ?Ho; try done; by intros ?%elem_of_nil.
Qed.
End Evidence.
