(* ===== verification/Relay.v ===== *)
(** * The outbox relay ([internal/messaging])

    [Drain] claims a batch of pending outbox records, publishes each event, and
    marks the record published or schedules a retry with exponential backoff. The
    relay runs over any [OutboxStore]; a [Publisher] is seen through the outcome of
    each call and the log of the events it accepted. *)

From S2P Require Import Prelude GoStrings Rail Events StoreSpec MemStore MemStoreProps OutboxProps Effects.

(** ** Data *)

Class OutboxStore (St : Type) := mkOutboxStore {
  ClaimPendingOutbox : Time -> Obs -> Z -> string -> Time -> St -> result (list OutboxRecord) * St;
  MarkOutboxPublished : Obs -> Z -> string -> Time -> St -> result unit * St;
  MarkOutboxFailed : Obs -> Z -> string -> string -> Time -> St -> result unit * St
}.

(** The in-memory store reads the clock twice in [ClaimPendingOutbox]. *)
#[export] Instance MemoryStore_OutboxStore : OutboxStore MemoryStore := {|
  ClaimPendingOutbox now1 o := MemoryStore_ClaimPendingOutbox o now1;
  MarkOutboxPublished := MemoryStore_MarkOutboxPublished;
  MarkOutboxFailed := MemoryStore_MarkOutboxFailed
|}.

Record RetryPolicy := mkRetryPolicy {
  rp_InitialBackoff : Duration;
  rp_MaxBackoff : Duration;
  rp_ClaimTTL : Duration
}.

Record RelayStats := mkRelayStats { rs_Scanned : Z; rs_Published : Z; rs_Retried : Z }.

#[export] Instance eta_RelayStats : Eta RelayStats := fun r =>
  mkRelayStats (rs_Scanned r) (rs_Published r) (rs_Retried r).

(** The policy [NewRelay] keeps: unset durations get their defaults. *)
Definition NewRelay (policy : RetryPolicy) : RetryPolicy :=
  mkRetryPolicy
    (if rp_InitialBackoff policy <=? 0 then Second else rp_InitialBackoff policy)
    (if rp_MaxBackoff policy <=? 0 then Minute else rp_MaxBackoff policy)
    (if rp_ClaimTTL policy <=? 0 then 30 * Second else rp_ClaimTTL policy).

(** ** Backoff *)

(** The loop of [backoff] with [n] rounds left. *)
Fixpoint backoff_loop (policy : RetryPolicy) (n : nat) (backoff : Duration) : Duration :=
  match n with
  | O => backoff
  | S m =>
      let backoff := int64 (backoff * 2) in
      if rp_MaxBackoff policy <=? backoff then rp_MaxBackoff policy
      else backoff_loop policy m backoff
  end.

Definition Relay_backoff (policy : RetryPolicy) (attempt : Z) : Duration :=
  let attempt := if attempt <=? 0 then 1 else attempt in
  backoff_loop policy (Z.to_nat (attempt - 1)) (rp_InitialBackoff policy).

(** ** Draining *)

Section Drain.
Context `{OutboxStore St} (env : Env St) (policy : RetryPolicy).
(** The outcome of the publisher's call, by observation. *)
Context (pub : nat -> Event -> option error).

Local Abbreviation M := (@M St (list Event)).

(** The publisher's log: the events it accepted. *)
Definition publish (event : Event) : M (option error) :=
  update_rest (fun log k =>
    match pub k event with
    | Some err => (Some err, log)
    | None => (None, log ++ [event])
    end).

(** [InMemoryPublisher.Publish] accepts everything. *)
Definition InMemoryPublisher_Publish : nat -> Event -> option error := fun _ _ => None.

Definition newClaimToken (prefix : string) : M string := newID env prefix.

Definition wrap_error (msg : string) (err : error) : error :=
  mkError (err_is err) (msg +:+ ": " +:+ Error err).

(** The loop of [Drain]: the counters, and the error that stopped it, if any. *)
Fixpoint drain_loop (claimToken : string) (records : list OutboxRecord) (stats : RelayStats)
    : M (RelayStats * option error) :=
  match records with
  | [] => ret (stats, None)
  | record :: rest =>
      perr <- publish (o_Event record);;
      match perr with
      | Some err =>
          let stats := stats <| rs_Retried := int64 (rs_Retried stats + 1) |> in
          now <- s_now env;;
          let retryAt := time_Add (time_UTC now)
                           (Relay_backoff policy (int64 (o_Attempts record + 1))) in
          r <- attempt (store_write env (fun o =>
                 MarkOutboxFailed o (o_Sequence record) claimToken (Error err) retryAt));;
          match r with
          | Err markErr => ret (stats, Some (wrap_error "mark outbox failed" markErr))
          | Ok _ => drain_loop claimToken rest stats
          end
      | None =>
          now <- s_now env;;
          r <- attempt (store_write env (fun o =>
                 MarkOutboxPublished o (o_Sequence record) claimToken (time_UTC now)));;
          match r with
          | Err err => ret (stats, Some (wrap_error "mark outbox published" err))
          | Ok _ =>
              drain_loop claimToken rest (stats <| rs_Published := int64 (rs_Published stats + 1) |>)
          end
      end
  end.

Definition Relay_Drain (limit : Z) : M (RelayStats * option error) :=
  claimToken <- newClaimToken "outbox";;
  now <- s_now env;;
  now1 <- s_now env;;
  records <- store_write env (fun o =>
    ClaimPendingOutbox now1 o limit claimToken
      (time_Add (time_UTC now) (rp_ClaimTTL policy)));;
  drain_loop claimToken records (mkRelayStats (Z.of_nat (length records)) 0 0).
End Drain.

(** ** Topology *)

Record Topology := mkTopology {
  tp_Exchange : string;
  tp_RoutingKey : string;
  tp_Queue : string;
  tp_RetryQueue : string;
  tp_DeadLetterExchange : string;
  tp_DeadLetterQueue : string;
  tp_ConsumerGroup : string;
  tp_IdempotencyHeader : string;
  tp_CorrelationHeader : string;
  tp_AckMode : string
}.

Definition PaymentRailTopology : Topology := {|
  tp_Exchange := "pixrail.payment_rail.events";
  tp_RoutingKey := "pixrail.payment.#";
  tp_Queue := "pixrail.payment_rail.projector";
  tp_RetryQueue := "pixrail.payment_rail.projector.retry";
  tp_DeadLetterExchange := "pixrail.payment_rail.dlx";
  tp_DeadLetterQueue := "pixrail.payment_rail.projector.dlq";
  tp_ConsumerGroup := "pixrail-payment-projector-v1";
  tp_IdempotencyHeader := "event_id";
  tp_CorrelationHeader := "correlation_id";
  tp_AckMode := "ack_after_idempotent_commit"
|}.

(** ** Backoff is capped exponential *)

(** A policy whose doublings cannot overflow before the cap is reached. *)
Definition policy_ok (p : RetryPolicy) : Prop :=
  0 < rp_InitialBackoff p <= rp_MaxBackoff p /\ rp_MaxBackoff p < 2^62.

Lemma backoff_loop_spec p n b :
  0 < b <= rp_MaxBackoff p -> rp_MaxBackoff p < 2^62 ->
  backoff_loop p n b = Z.min (b * 2 ^ Z.of_nat n) (rp_MaxBackoff p).
Proof.
  intros Hb Hm. revert b Hb. induction n as [|n IH]; intros b Hb; cbn [backoff_loop].
  - rewrite Z.pow_0_r. lia.
  - change (2^62) with 4611686018427387904 in Hm.
    rewrite int64_id by int_lia.
    rewrite Nat2Z.inj_succ, Z.pow_succ_r by lia.
    pose proof (Z.pow_pos_nonneg 2 (Z.of_nat n) eq_refl ltac:(lia)) as Hp.
    destruct (rp_MaxBackoff p <=? b * 2) eqn:E; b2p.
    + nia.
    + rewrite IH by (change (2^62) with 4611686018427387904; lia). f_equal. ring.
Qed.

(** For a policy below 2^62 ns (146 years), the delay before attempt
    [n] is the initial backoff doubled [n-1] times, capped: always between the
    initial and the maximal backoff, and never shorter for a later attempt. *)
Theorem backoff_capped_exponential p n m :
  policy_ok p -> n <= m ->
  Relay_backoff p n =
    Z.min (rp_InitialBackoff p * 2 ^ (Z.max n 1 - 1)) (rp_MaxBackoff p) /\
  rp_InitialBackoff p <= Relay_backoff p n <= rp_MaxBackoff p /\
  Relay_backoff p n <= Relay_backoff p m.
Proof.
  intros [Hb Hm] Hnm.
  assert (Hs : forall k, Relay_backoff p k =
    Z.min (rp_InitialBackoff p * 2 ^ (Z.max k 1 - 1)) (rp_MaxBackoff p)).
  { intros k. unfold Relay_backoff. rewrite backoff_loop_spec by done. do 3 f_equal.
    destruct (k <=? 0) eqn:E; b2p; lia. }
  rewrite !Hs. split; [done|].
  pose proof (Z.pow_le_mono_r 2 (Z.max n 1 - 1) (Z.max m 1 - 1) eq_refl ltac:(lia)).
  pose proof (Z.pow_pos_nonneg 2 (Z.max n 1 - 1) eq_refl ltac:(lia)). nia.
Qed.
