(* ===== verification/RelayProps.v ===== *)
(** * What a drain of the in-memory outbox does

    One [Drain] by a relay that is not disturbed: every record it claimed ends up
    published, exactly when the publisher accepted its event, or scheduled for a
    retry; nothing else in the outbox changes. *)

From S2P Require Import Prelude GoStrings Rail Events StoreSpec MemStore MemStoreProps OutboxProps Effects Relay.

Section Drain.
Context (env : Env MemoryStore) (policy : RetryPolicy) (pub : nat -> Event -> option error).

(** No concurrent calls, no cancelled context. *)
Record quiet : Prop := mkQuiet {
  q_alone : forall k s, env_others env k s = s;
  q_ctx : forall k, env_ctx env k = None;
  q_clock : forall k, env_now env k <= env_now env (S k) < env_now env k + rp_ClaimTTL policy
}.

(** What becomes of an outbox record [r] when the drain claimed [recs] and the
    publisher accepted the events of [pubs]. *)
Definition drained (pubs recs : list OutboxRecord) (r r' : OutboxRecord) : Prop :=
  (r ∈ pubs /\ exists at_, r' = published_record at_ r) \/
  (r ∈ recs /\ r ∉ pubs /\ exists err k,
     r' = failed_record err (env_now env k + Relay_backoff policy (int64 (o_Attempts r + 1))) r) \/
  (r ∉ recs /\ r' = r).

(** The publisher decides which records are published. *)
Definition as_published (pubs recs : list OutboxRecord) : Prop :=
  pubs `sublist_of` recs /\
  (forall r, r ∈ recs -> (forall k, pub k (o_Event r) = None) -> r ∈ pubs) /\
  (forall r, r ∈ pubs -> exists k, pub k (o_Event r) = None).

Lemma same_seq_sorted l l' :
  Forall2 (fun r r' => o_Sequence r' = o_Sequence r) l l' ->
  StronglySorted seq_lt l -> StronglySorted seq_lt l'.
Proof.
  intros Hf. induction Hf as [|r r' l l' E Hf IH]; intros Hs; [done|].
  apply StronglySorted_inv in Hs as [Hs Hr]. constructor; [auto|].
  clear -Hf Hr E. induction Hf as [|a a' l l' Ea Hf IH]; [done|].
  inversion Hr; subst. constructor; [|auto]. unfold seq_lt in *. lia.
Qed.

Lemma insert_sorted i r r' evs :
  evs !! i = Some r -> o_Sequence r' = o_Sequence r ->
  StronglySorted seq_lt evs -> StronglySorted seq_lt (<[i := r']> evs).
Proof.
  intros Hi Er. apply same_seq_sorted. apply Forall2_same_length_lookup.
  rewrite length_insert. split; [done|]. intros j x y Hx Hy.
  destruct (decide (i = j)) as [<-|N].
  - rewrite list_lookup_insert_eq in Hy by (by eapply lookup_lt_Some). by simplify_eq.
  - rewrite list_lookup_insert_ne in Hy by done. by simplify_eq.
Qed.

(** The head of a batch is done; the rest of the batch does the others. *)
Lemma drained_cons evs evs' i r0 rest pubs pubs' fr :
  StronglySorted seq_lt evs -> StronglySorted seq_lt (r0 :: rest) ->
  evs !! i = Some r0 -> o_Sequence fr = o_Sequence r0 ->
  (forall r, r ∈ pubs -> r ∈ rest) ->
  (pubs' = r0 :: pubs /\ (exists at_, fr = published_record at_ r0) \/
   pubs' = pubs /\ (exists err k, fr =
     failed_record err (env_now env k + Relay_backoff policy (int64 (o_Attempts r0 + 1))) r0)) ->
  Forall2 (drained pubs rest) (<[i := fr]> evs) evs' ->
  Forall2 (drained pubs' (r0 :: rest)) evs evs'.
Proof.
  intros Hs Hr Hi Hfr Hpub Hcase Hf. apply Forall2_same_length_lookup.
  pose proof (Forall2_length _ _ _ Hf) as Hlen. rewrite length_insert in Hlen.
  split; [done|]. intros j r r' Hj Hj'.
  apply StronglySorted_inv in Hr as [_ Hr]. rewrite Forall_forall in Hr.
  assert (Hnin : forall x, o_Sequence x = o_Sequence r0 -> x ∉ rest).
  { intros x Hx Hin. apply Hr in Hin. unfold seq_lt in Hin. lia. }
  destruct (decide (i = j)) as [<-|N].
  - rewrite Hi in Hj. injection Hj as <-.
    assert (Hl : <[i := fr]> evs !! i = Some fr)
      by (apply list_lookup_insert_eq; by eapply lookup_lt_Some).
    destruct (Forall2_lookup_lr _ _ _ _ _ _ Hf Hl Hj') as [[Hin _]|[[Hin _]|[_ ->]]].
    + by apply Hpub, (Hnin _ Hfr) in Hin.
    + by apply (Hnin _ Hfr) in Hin.
    + destruct Hcase as [[-> Hp]|[-> Hp]]; [left|right; left].
      * split; [apply list_elem_of_here|done].
      * split_and!; [apply list_elem_of_here| |done]. intros Hin.
        by apply Hpub, (Hnin _ eq_refl) in Hin.
  - assert (Hl : <[i := fr]> evs !! j = Some r) by by rewrite list_lookup_insert_ne.
    assert (Hne : r <> r0).
    { intros ->. by apply N, (seq_lt_index evs _ _ r0). }
    destruct (Forall2_lookup_lr _ _ _ _ _ _ Hf Hl Hj') as [[Hin Hp]|[(Hin & Hout & Hp)|[Hin ->]]].
    + left. split; [|done]. destruct Hcase as [[-> _]|[-> _]]; [by apply list_elem_of_further|done].
    + right; left. split_and!; [by apply list_elem_of_further| |done].
      destruct Hcase as [[-> _]|[-> _]]; [|done]. rewrite elem_of_cons. tauto.
    + right; right. rewrite elem_of_cons. tauto.
Qed.

Definition stats_ok (st : RelayStats) (n : nat) : Prop :=
  0 <= rs_Published st /\ 0 <= rs_Retried st /\
  rs_Published st + rs_Retried st + Z.of_nat n <= max_int64.

Definition loop_post (recs : list OutboxRecord) (st : RelayStats)
    (w : World MemoryStore (list Event)) (r : result (RelayStats * option error))
    (w' : World MemoryStore (list Event)) : Prop :=
  exists pubs evs',
    r = Ok (mkRelayStats (rs_Scanned st) (rs_Published st + Z.of_nat (length pubs))
              (rs_Retried st + Z.of_nat (length recs) - Z.of_nat (length pubs)), None) /\
    as_published pubs recs /\ w_rest w' = w_rest w ++ map o_Event pubs /\
    w_store w' = (w_store w) <| ms_events := evs' |> /\
    Forall2 (drained pubs recs) (ms_events (w_store w)) evs'.

Lemma wp_mark w k tok f i r Q :
  quiet -> StronglySorted seq_lt (ms_events (w_store w)) ->
  ms_events (w_store w) !! i = Some r -> holds_claim tok r = true ->
  k = o_Sequence r ->
  Q (Ok tt) (set_store ((w_store w) <| ms_events := <[i := f r]> (ms_events (w_store w)) |>)
    (next_tick w)) ->
  wp (X := list Event) (store_write env (fun o => mark_with o k tok f)) w Q.
Proof.
  intros Hq Hs Hi Hh -> HQ. apply wp_write. intros x s' E.
  unfold store_now in E. rewrite (q_alone Hq) in E. unfold mark_with in E.
  cbn in E. unfold MemoryStore_Health in E. cbn in E. rewrite (q_ctx Hq) in E.
  rewrite (mark_loop_spec tok f _ i r), Hh in E by done. by injection E as <- <-.
Qed.

Lemma stats_eq a b c b' c' :
  b = b' -> c = c' ->
  Ok (mkRelayStats a b c, @None error) = Ok (mkRelayStats a b' c', None).
Proof. congruence. Qed.

Lemma as_published_nil : as_published [] [].
Proof. split_and!; [done|..]; by intros r ?%elem_of_nil. Qed.

Lemma as_published_cons (b : bool) k r pubs recs :
  pub k (o_Event r) = (if b then None else pub k (o_Event r)) ->
  (b = false -> pub k (o_Event r) <> None) ->
  as_published pubs recs -> as_published (if b then r :: pubs else pubs) (r :: recs).
Proof.
  intros Hb Hn (Hsub & Hall & Hpub). split_and!.
  - by destruct b; constructor.
  - intros x [->|Hx]%elem_of_cons Hk.
    + destruct b; [apply list_elem_of_here|]. by destruct (Hn eq_refl).
    + destruct b; [apply list_elem_of_further|]; auto.
  - intros x Hx. destruct b; [|auto]. apply elem_of_cons in Hx as [->|Hx]; eauto.
Qed.

(** What marking the head [r0] does: [b] says whether the publisher took it. *)
Definition head_marked (b : bool) (i : nat) (fr r0 : OutboxRecord) (st st1 : RelayStats)
    (w w1 : World MemoryStore (list Event)) : Prop :=
  o_Sequence fr = o_Sequence r0 /\
  (if b then exists at_, fr = published_record at_ r0
   else exists err k, fr = failed_record err
     (env_now env k + Relay_backoff policy (int64 (o_Attempts r0 + 1))) r0) /\
  (exists k, if b then pub k (o_Event r0) = None else pub k (o_Event r0) <> None) /\
  w_store w1 = (w_store w) <| ms_events := <[i := fr]> (ms_events (w_store w)) |> /\
  w_rest w1 = (if b then w_rest w ++ [o_Event r0] else w_rest w) /\
  st1 = if b then st <| rs_Published := rs_Published st + 1 |>
        else st <| rs_Retried := rs_Retried st + 1 |>.

Lemma loop_post_cons b i fr r0 rest st st1 w w1 r w' :
  StronglySorted seq_lt (ms_events (w_store w)) -> StronglySorted seq_lt (r0 :: rest) ->
  ms_events (w_store w) !! i = Some r0 -> head_marked b i fr r0 st st1 w w1 ->
  loop_post rest st1 w1 r w' -> loop_post (r0 :: rest) st w r w'.
Proof.
  intros Hs Hr Hi (Efr & Hfr & [k Hk] & Ew & El & ->) (pubs & evs' & -> & Hp & Elog & Ew' & Hf).
  pose proof Hp as (Hsub & _).
  exists (if b then r0 :: pubs else pubs), evs'. split_and!.
  - destruct b; apply stats_eq; cbn [length rs_Published rs_Retried upd_field]; cbn; lia.
  - apply (as_published_cons b k); [by destruct b|by destruct b|done].
  - rewrite Elog, El. destruct b; cbn; by rewrite <- ?app_assoc.
  - rewrite Ew', Ew. done.
  - rewrite Ew in Hf. cbn in Hf. eapply drained_cons; [done|done|exact Hi|exact Efr| |..|exact Hf].
    + intros x Hx. by eapply elem_of_sublist.
    + destruct b; [left|right]; done.
Qed.

Lemma still_claimed tok r0 rest (i : nat) fr (evs : list OutboxRecord) :
  StronglySorted seq_lt (r0 :: rest) -> evs !! i = Some r0 ->
  (forall r, r ∈ r0 :: rest -> r ∈ evs /\ holds_claim tok r = true) ->
  forall r, r ∈ rest -> r ∈ <[i := fr]> evs /\ holds_claim tok r = true.
Proof.
  intros [_ Hr]%StronglySorted_inv Hi Hin r Hx. rewrite Forall_forall in Hr.
  destruct (Hin r (list_elem_of_further _ _ _ Hx)) as [[j Hj]%list_elem_of_lookup Hh].
  split; [|done]. apply list_elem_of_lookup. exists j. rewrite list_lookup_insert_ne; [done|].
  intros ->. rewrite Hi in Hj. injection Hj as ->.
  apply Hr in Hx. unfold seq_lt in Hx. lia.
Qed.

Lemma drain_loop_post tok recs st w :
  quiet -> StronglySorted seq_lt (ms_events (w_store w)) -> StronglySorted seq_lt recs ->
  (forall r, r ∈ recs -> r ∈ ms_events (w_store w) /\ holds_claim tok r = true) ->
  stats_ok st (length recs) ->
  wp (drain_loop env policy pub tok recs st) w (loop_post recs st w).
Proof.
  intros Hq. revert st w. induction recs as [|r0 rest IH]; intros st w Hs Hr Hin Hst;
    cbn [drain_loop].
  { wp_steps. exists [], (ms_events (w_store w)). split_and!.
    - destruct st. apply stats_eq; cbn; lia.
    - apply as_published_nil.
    - by rewrite app_nil_r.
    - by destruct (w_store w).
    - apply Forall2_same_length_lookup. split; [done|]. intros i x y Hx Hy. simplify_eq.
      right; right. split; [by intros ?%elem_of_nil|done]. }
  pose proof Hr as [Hr' _]%StronglySorted_inv.
  destruct (Hin r0 (list_elem_of_here _ _)) as [[i Hi]%list_elem_of_lookup Hh].
  unfold stats_ok in Hst. cbn [length] in Hst.
  assert (Hrest : forall b fr st1 w1, head_marked b i fr r0 st st1 w w1 ->
    wp (drain_loop env policy pub tok rest st1) w1 (loop_post (r0 :: rest) st w)).
  { intros b fr st1 w1 Hm. pose proof Hm as (Efr & _ & _ & Ew & _ & Est).
    eapply wp_conseq; [apply IH|intros r w' HP; by eapply loop_post_cons].
    - rewrite Ew. by eapply insert_sorted.
    - done.
    - rewrite Ew. by eapply still_claimed.
    - unfold stats_ok. subst st1. destruct b; cbn; lia. }
  wp_step. unfold publish, update_rest, wp. cbn.
  destruct (pub (w_tick w) (o_Event r0)) as [err|] eqn:Hp; cbn.
  - change (wp (X := list Event) (now <- s_now env;;
      r <- attempt (store_write env (fun o => mark_with o (o_Sequence r0) tok
             (failed_record (Error err) (time_Add (time_UTC now)
                (Relay_backoff policy (int64 (o_Attempts r0 + 1))))))) ;;
      match r with
      | Ok _ => drain_loop env policy pub tok rest (st <| rs_Retried := int64 (rs_Retried st + 1) |>)
      | Err markErr => ret (st <| rs_Retried := int64 (rs_Retried st + 1) |>,
                            Some (wrap_error "mark outbox failed" markErr))
      end) (mkWorld (w_store w) (w_rest w) (S (w_tick w))) (loop_post (r0 :: rest) st w)).
    do 4 wp_step. eapply wp_mark; [done|exact Hs|exact Hi|done|done|]. cbv beta iota.
    apply (Hrest false (failed_record (Error err) (time_Add (time_UTC (env_now env (S (w_tick w))))
      (Relay_backoff policy (int64 (o_Attempts r0 + 1)))) r0)).
    split_and!; try done; [by eexists _, (S (w_tick w))|exists (w_tick w); by rewrite Hp|].
    rewrite int64_id by int_lia. done.
  - change (wp (X := list Event) (now <- s_now env;;
      r <- attempt (store_write env (fun o => mark_with o (o_Sequence r0) tok
             (published_record (time_UTC now)))) ;;
      match r with
      | Ok _ => drain_loop env policy pub tok rest (st <| rs_Published := int64 (rs_Published st + 1) |>)
      | Err err => ret (st, Some (wrap_error "mark outbox published" err))
      end) (mkWorld (w_store w) (w_rest w ++ [o_Event r0]) (S (w_tick w))) (loop_post (r0 :: rest) st w)).
    do 4 wp_step. eapply wp_mark; [done|exact Hs|exact Hi|done|done|]. cbv beta iota.
    apply (Hrest true (published_record (time_UTC (env_now env (S (w_tick w)))) r0)).
    split_and!; try done; [by eexists|by exists (w_tick w)|].
    rewrite int64_id by int_lia. done.
Qed.

(** *** The claim *)

Lemma claim_pointwise now tok until n evs :
  StronglySorted seq_lt evs ->
  let recs := take n (List.filter (outbox_pending now) evs) in
  Forall2 (fun r r1 => (r ∈ recs /\ r1 = claim_record tok until r) \/ (r ∉ recs /\ r1 = r))
    evs (fst (scan_claim now tok until n evs)).
Proof.
  intros Hs. revert n. induction Hs as [|r rest Hs IH Hr]; intros n; [by destruct n|].
  rewrite Forall_forall in Hr.
  assert (Hne : forall x, x ∈ rest -> x <> r).
  { intros x Hx ->. apply Hr in Hx. unfold seq_lt in Hx. lia. }
  destruct n as [|n].
  { cbn. apply Forall2_same_length_lookup. split; [done|]. intros i x y Hx Hy. simplify_eq.
    right. split; [by intros ?%elem_of_nil|done]. }
  cbn [scan_claim List.filter]. destruct (outbox_pending now r).
  - specialize (IH n). destruct (scan_claim now tok until n rest). cbn [take fst] in *.
    constructor; [left; split; [apply list_elem_of_here|done]|].
    apply Forall2_same_length_lookup. split; [by eapply Forall2_length|].
    intros i x y Hx Hy. pose proof (Hne x (list_elem_of_lookup_2 _ _ _ Hx)) as Hxr.
    destruct (Forall2_lookup_lr _ _ _ _ _ _ IH Hx Hy) as [[? ?]|[? ?]]; rewrite elem_of_cons;
      [left|right]; tauto.
  - specialize (IH (S n)). destruct (scan_claim now tok until (S n) rest). cbn [fst] in *.
    constructor; [|done]. right. split; [|done]. intros Hin.
    apply (fun H => elem_of_sublist _ _ _ H (sublist_take _ _)) in Hin.
    apply list_elem_of_In, filter_In in Hin as [Hin _].
    apply list_elem_of_In in Hin. by destruct (Hne r Hin).
Qed.

Lemma sublist_map_inv {A B} (f : A -> B) l k :
  l `sublist_of` map f k -> exists k', l = map f k' /\ k' `sublist_of` k.
Proof.
  revert l. induction k as [|x k IH]; intros l Hl; cbn in Hl.
  - exists []. apply sublist_nil_r in Hl as ->. done.
  - inversion Hl as [|? l1 ? Hl1|? l1 ? Hl1]; subst.
    + destruct (IH _ Hl1) as (k' & -> & Hk). exists (x :: k'). by split; [|constructor].
    + destruct (IH _ Hl1) as (k' & -> & Hk). exists k'. by split; [|constructor].
Qed.

(** Marking erases the claim, so the outcome does not show it. *)
Lemma drained_claimed tok until pubs recs r r' :
  StronglySorted seq_lt recs -> pubs `sublist_of` recs ->
  drained (map (claim_record tok until) pubs) (map (claim_record tok until) recs)
    (claim_record tok until r) r' -> r ∈ recs -> drained pubs recs r r'.
Proof.
  intros Hs Hsub Hd Hr.
  assert (Hinj : forall l, l `sublist_of` recs -> claim_record tok until r ∈ map (claim_record tok until) l -> r ∈ l).
  { intros l Hl Hin. apply list_elem_of_fmap in Hin as (x & Ex & Hx).
    assert (r = x) as ->; [|done]. apply (seq_lt_inj recs); [done|done| |].
    - by eapply elem_of_sublist.
    - by apply (f_equal o_Sequence) in Ex. }
  destruct Hd as [[Hin (a & ->)]|[(Hin & Hout & (e & k & ->))|[Hin _]]].
  - left. split; [by apply Hinj|]. by exists a.
  - right; left. split_and!; [done| |by exists e, k].
    intros Hx. by apply Hout, list_elem_of_fmap_2.
  - by destruct Hin; apply list_elem_of_fmap_2.
Qed.

Lemma drained_through_claim now limit tok until s pubs evs' :
  store_ok s -> small_outbox s -> pubs `sublist_of` picked now limit s ->
  Forall2 (drained (map (claim_record tok until) pubs)
                   (map (claim_record tok until) (picked now limit s)))
    (ms_events (claimed_store now limit tok until s)) evs' ->
  Forall2 (drained pubs (picked now limit s)) (ms_events s) evs'.
Proof.
  intros Hs Hn Hsub Hf. pose proof (events_sorted s Hs Hn) as Hsort.
  pose proof (claim_pointwise now tok until (Z.to_nat (default_limit limit)) _ Hsort) as Hc.
  cbv zeta in Hc. fold (picked now limit s) in Hc. cbn in Hf.
  pose proof (sublist_picked now limit s) as Hps.
  apply Forall2_same_length_lookup. split.
  { by rewrite (Forall2_length _ _ _ Hc), (Forall2_length _ _ _ Hf). }
  intros i r r' Hr Hr'.
  destruct (Forall2_lookup_l _ _ _ _ _ Hc Hr) as (r1 & Hr1 & Hcase).
  pose proof (Forall2_lookup_lr _ _ _ _ _ _ Hf Hr1 Hr') as Hd.
  destruct Hcase as [[Hin ->]|[Hin ->]].
  - eapply drained_claimed; [|done|exact Hd|done]. by eapply ssorted_sublist.
  - assert (Hno : forall l, l `sublist_of` picked now limit s -> r ∉ map (claim_record tok until) l).
    { intros l Hl Hx. apply list_elem_of_fmap in Hx as (x & Ex & Hx). apply Hin.
      assert (x ∈ picked now limit s) by by eapply elem_of_sublist.
      replace r with x; [done|]. apply (seq_lt_inj (ms_events s)); [done|..].
      - by eapply elem_of_sublist.
      - by eapply list_elem_of_lookup_2.
      - by rewrite Ex. }
    destruct Hd as [[Hx _]|[(Hx & _)|[_ ->]]]; [by apply Hno in Hx|by apply Hno in Hx|].
    by right; right.
Qed.

(** What an undisturbed drain leaves: the records in [pubs] were accepted by the
    publisher, in outbox order, and are published; the other pending records the
    drain took are to be retried after a backoff; the rest is as before. *)
Definition drain_post (limit : Z) (w : World MemoryStore (list Event))
    (r : result (RelayStats * option error)) (w' : World MemoryStore (list Event)) : Prop :=
  exists k pubs evs',
    let recs := picked (env_now env k) limit (w_store w) in
    let published := Z.of_nat (length pubs) in
    r = Ok (mkRelayStats (Z.of_nat (length recs)) published
              (Z.of_nat (length recs) - published), None) /\
    as_published pubs recs /\ w_rest w' = w_rest w ++ map o_Event pubs /\
    w_store w' = (w_store w) <| ms_events := evs' |> /\
    Forall2 (drained pubs recs) (ms_events (w_store w)) evs'.

Lemma as_published_claimed tok until pubs recs :
  as_published (map (claim_record tok until) pubs) (map (claim_record tok until) recs) ->
  StronglySorted seq_lt recs -> pubs `sublist_of` recs -> as_published pubs recs.
Proof.
  intros (_ & Hall & Hpub) Hs Hsub. split_and!; [done|..].
  - intros r Hr Hk. specialize (Hall _ (list_elem_of_fmap_2 _ _ _ Hr) Hk).
    apply list_elem_of_fmap in Hall as (x & Ex & Hx).
    replace r with x; [done|]. apply (seq_lt_inj recs); [done| |done|].
    + by eapply elem_of_sublist.
    + symmetry. by apply (f_equal o_Sequence) in Ex.
  - intros r Hr. by apply (Hpub _ (list_elem_of_fmap_2 (claim_record tok until) _ _ Hr)).
Qed.

Lemma drain_run limit w :
  quiet -> store_ok (w_store w) -> small_outbox (w_store w) ->
  wp (Relay_Drain env policy pub limit) w (drain_post limit w).
Proof.
  intros Hq Hs Hn. unfold Relay_Drain, newClaimToken. wp_step.
  apply newID_visible; [by eexists _, _|]. intros tok Htok%TrimSpace_nonempty. do 5 wp_step.
  apply wp_write. intros r s' E. unfold store_now in E. rewrite (q_alone Hq) in E. cbn in E.
  unfold obs_at in E. rewrite (q_ctx Hq) in E.
  rewrite claim_outbox_eq in E; [|by apply store_ok_indexed|done..|].
  2: { unfold time_Add, time_UTC. destruct (q_clock Hq (S (w_tick w))). lia. }
  injection E as <- <-. set (k := S (S (S (w_tick w)))). set (s := w_store w) in *.
  set (recs := picked (env_now env k) limit s). set (until := time_Add _ _).
  assert (Hrs : StronglySorted seq_lt recs)
    by (eapply ssorted_sublist; [apply sublist_picked|by apply events_sorted]).
  eapply wp_conseq; [apply drain_loop_post; [done|..]|].
  - cbn. eapply same_seq_sorted; [|by apply (events_sorted s)].
    eapply Forall2_impl; [apply scan_claim_le|]. by intros x y (?&_).
  - by apply claimed_sorted.
  - intros r Hr. split.
    + apply list_elem_of_fmap in Hr as (x & -> & Hx). by apply claimed_in_store.
    + apply list_elem_of_fmap in Hr as (x & -> & Hx). unfold holds_claim. cbn.
      apply String.eqb_neq in Htok. by rewrite Htok, String.eqb_refl.
  - unfold stats_ok. cbn. rewrite length_map. pose proof (sublist_length _ _ (sublist_picked (env_now env k) limit s)).
    unfold small_outbox in Hn. fold s in Hn. subst recs. lia.
  - intros r w' (pubs1 & evs' & -> & Hp & Hl & Hst & Hf). pose proof Hp as (Hsub & _).
    apply sublist_map_inv in Hsub as (pubs & -> & Hsub).
    exists k, pubs, evs'. fold s recs. rewrite !length_map. cbn in *. split_and!.
    + done.
    + eapply as_published_claimed; [exact Hp|exact Hrs|exact Hsub].
    + rewrite Hl. f_equal. rewrite List.map_map. done.
    + by rewrite Hst.
    + eapply drained_through_claim; [exact Hs|exact Hn|exact Hsub|exact Hf].
Qed.
(** C25: an undisturbed drain scans the pending records and accounts for each:
    it is published exactly when the publisher accepted its event, or it is
    scheduled for a retry with its attempt counted and its backoff; the publisher
    gets the events in sequence order; no other record changes, and no record is
    left claimed. *)
Theorem drain_publishes_or_retries limit w :
  quiet -> store_ok (w_store w) -> small_outbox (w_store w) ->
  wp (Relay_Drain env policy pub limit) w (drain_post limit w).
Proof. apply drain_run. Qed.
End Drain.
