(* ===== verification/RelayProgress.v ===== *)
(** * Repeated drains empty the outbox

    A relay that is not disturbed and whose publisher accepts every event publishes the
    pending records batch by batch, in outbox order, until none is left. *)

From S2P Require Import Prelude GoStrings Rail Events StoreSpec MemStore MemStoreProps OutboxProps.
From S2P Require Import Effects Relay RelayProps.

Section Drains.
Context (env : Env MemoryStore) (policy : RetryPolicy).

Local Abbreviation W := (World MemoryStore (list Event)).

(** [n] drains in a row, each with its counters. *)
Fixpoint drain_rounds (limit : Z) (n : nat) : @M MemoryStore (list Event) (list RelayStats) :=
  match n with
  | O => ret []
  | S n =>
      '(stats, err) <- Relay_Drain env policy InMemoryPublisher_Publish limit;;
      match err with
      | Some e => fail e
      | None => rest <- drain_rounds limit n;; ret (stats :: rest)
      end
  end.

(** The records still to publish, in outbox order. *)
Definition unpublished (s : MemoryStore) : list OutboxRecord :=
  List.filter (fun r => negb (o_Published r)) (ms_events s).

(** Every record still to publish is available and unclaimed. *)
Definition relay_ready (s : MemoryStore) : Prop := forall r, r ∈ unpublished s ->
  forall k, outbox_pending (env_now env k) r = true.

Lemma filter_ext_elem {A} (p q : A -> bool) l : (forall x, x ∈ l -> p x = q x) ->
  List.filter p l = List.filter q l.
Proof. intros H. apply filter_ext_in. intros x Hx%list_elem_of_In. auto. Qed.

Lemma picked_unpublished k limit s : relay_ready s ->
  picked (env_now env k) limit s = take (Z.to_nat (default_limit limit)) (unpublished s).
Proof.
  intros Hr. unfold picked, unpublished. f_equal. apply filter_ext_elem. intros r Hin.
  destruct (o_Published r) eqn:E; cbn; [by unfold outbox_pending; rewrite E|].
  apply Hr. apply list_elem_of_In, filter_In. split; [by apply list_elem_of_In|by rewrite E].
Qed.

(** A publisher that accepts everything leaves no record of the batch unpublished. *)
Lemma all_published pubs recs : StronglySorted seq_lt recs ->
  as_published InMemoryPublisher_Publish pubs recs -> pubs = recs.
Proof.
  intros Hs (Hsub & Hall & _). induction Hsub as [|x l1 l2 Hsub IH|x l1 l2 Hsub IH]; [done|..];
    apply StronglySorted_inv in Hs as [Hs Hf]; rewrite Forall_forall in Hf.
  - f_equal. apply IH; [done|]. intros r Hr _.
    assert (Hin : r ∈ x :: l1) by (apply Hall; [by right|done]).
    apply elem_of_cons in Hin as [->|Hin]; [|done]. specialize (Hf _ Hr). unfold seq_lt in Hf. lia.
  - exfalso. assert (Hin : x ∈ l1) by (apply Hall; [by left|done]).
    pose proof (elem_of_sublist _ _ _ Hin Hsub) as Hx. specialize (Hf _ Hx). unfold seq_lt in Hf. lia.
Qed.

(** What is left to publish after a batch of the first [m] records. *)
Lemma drained_rest recs m evs evs' :
  Forall2 (drained env policy recs recs) evs evs' -> StronglySorted seq_lt evs ->
  (forall r, r ∈ evs -> r ∈ recs <-> r ∈ take m (List.filter (fun r => negb (o_Published r)) evs)) ->
  List.filter (fun r => negb (o_Published r)) evs' =
  drop m (List.filter (fun r => negb (o_Published r)) evs).
Proof.
  intros Hf. revert m. induction Hf as [|r r' evs evs' Hd Hf IH]; intros m Hs Hin; [by destruct m|].
  apply StronglySorted_inv in Hs as [Hs Hr]. rewrite Forall_forall in Hr.
  assert (Hne : forall x, x ∈ evs -> x <> r)
    by (intros x Hx ->; specialize (Hr _ Hx); unfold seq_lt in Hr; lia).
  assert (Htk : forall x n, x ∈ take n (List.filter (fun r => negb (o_Published r)) evs) -> x ∈ evs).
  { intros x n Hx. apply (fun H => elem_of_sublist _ _ _ H (sublist_take _ _)) in Hx.
    apply list_elem_of_In, filter_In in Hx as [Hx _]. by apply list_elem_of_In. }
  pose proof (Hin r ltac:(by left)) as Hr0. cbn [List.filter] in *.
  destruct (o_Published r) eqn:E; cbn [negb] in *.
  - destruct Hd as [[Hx _]|[(Hx & Hn & _)|[_ ->]]]; [|done|].
    + exfalso. apply Hr0, Htk in Hx. by apply (Hne r Hx).
    + rewrite E. cbn. apply IH; [done|]. intros x Hx. apply Hin. by right.
  - destruct m as [|m].
    + rewrite take_0 in Hr0. destruct Hd as [[Hx _]|[(Hx & Hn & _)|[_ ->]]]; [|done|].
      { apply Hr0, elem_of_nil in Hx. done. }
      rewrite E. cbn. f_equal. rewrite <- (drop_0 (List.filter _ evs)). apply IH; [done|].
      intros x Hx. apply Hin. by right.
    + destruct Hd as [[Hx [at_ ->]]|[(Hx & Hn & _)|[Hn _]]]; [|done|].
      * cbn. apply IH; [done|]. intros x Hx'. rewrite (Hin x ltac:(by right)). cbn.
        rewrite elem_of_cons. specialize (Hne x Hx'). naive_solver.
      * exfalso. apply Hn, Hr0. cbn. by left.
Qed.
Lemma drained_le recs pubs r r' : drained env policy pubs recs r r' -> record_le r r'.
Proof. intros [[_ [at_ ->]]|[(_ & _ & e & k & ->)|[_ ->]]]; done. Qed.

(** One round. *)
Lemma drain_round limit w : quiet env policy -> store_ok (w_store w) -> small_outbox (w_store w) ->
  relay_ready (w_store w) ->
  wp (Relay_Drain env policy InMemoryPublisher_Publish limit) w (fun r w' =>
    let m := Z.to_nat (default_limit limit) in
    let batch := take m (unpublished (w_store w)) in
    let n := Z.of_nat (length batch) in
    r = Ok (mkRelayStats n n 0, None) /\ w_rest w' = w_rest w ++ map o_Event batch /\
    store_ok (w_store w') /\ small_outbox (w_store w') /\ relay_ready (w_store w') /\
    unpublished (w_store w') = drop m (unpublished (w_store w)) /\
    Forall2 record_le (ms_events (w_store w)) (ms_events (w_store w'))).
Proof.
  intros Hq Hs Hn Hr. pose proof (events_sorted _ Hs Hn) as Hsort.
  eapply wp_conseq; [by apply drain_run|].
  intros r w' (k & pubs & evs' & -> & Hp & Hl & Hst & Hf). cbv zeta.
  set (m := Z.to_nat (default_limit limit)).
  assert (Epick : picked (env_now env k) limit (w_store w) = take m (unpublished (w_store w)))
    by by apply picked_unpublished.
  apply all_published in Hp; [|eapply ssorted_sublist; [apply sublist_picked|done]].
  subst pubs. rewrite Epick in *. rewrite Z.sub_diag.
  assert (Hle : Forall2 record_le (ms_events (w_store w)) evs')
    by (eapply Forall2_impl; [exact Hf|apply drained_le]).
  assert (Hun : unpublished (w_store w') = drop m (unpublished (w_store w))).
  { rewrite Hst. unfold unpublished. cbn. by eapply drained_rest. }
  split_and!; [done|done| | | |done|by rewrite Hst].
  - rewrite Hst. by apply events_update_ok.
  - unfold small_outbox in *. rewrite Hst. cbn. by rewrite <- (Forall2_length _ _ _ Hle).
  - intros x Hx. apply Hr. rewrite Hun in Hx. eapply elem_of_sublist; [exact Hx|apply sublist_drop].
Qed.

Lemma drain_rounds_run limit n w : quiet env policy -> store_ok (w_store w) ->
  small_outbox (w_store w) -> relay_ready (w_store w) ->
  wp (drain_rounds limit n) w (fun r w' =>
    let m := (n * Z.to_nat (default_limit limit))%nat in
    (exists stats, r = Ok stats /\ length stats = n) /\
    w_rest w' = w_rest w ++ map o_Event (take m (unpublished (w_store w))) /\
    unpublished (w_store w') = drop m (unpublished (w_store w)) /\ store_ok (w_store w') /\
    Forall2 record_le (ms_events (w_store w)) (ms_events (w_store w'))).
Proof.
  intros Hq. revert w. induction n as [|n IH]; intros w Hs Hn Hr; cbn [drain_rounds].
  { wp_steps. cbn. rewrite take_0, drop_0, app_nil_r. split_and!; try done. by exists []. }
  wp_step. eapply wp_conseq; [by apply drain_round|].
  intros r w1 (-> & Hl1 & Hs1 & Hn1 & Hr1 & Hu1 & Hf1). cbv beta iota zeta. wp_step.
  eapply wp_conseq; [by apply IH|]. intros r w2 ((stats & -> & Hlen) & Hl2 & Hu2 & Hs2 & Hf2). wp_steps.
  set (m := Z.to_nat (default_limit limit)) in *. rewrite Hu1, drop_drop in Hu2. rewrite Hu1 in Hl2.
  cbv zeta. cbn [Nat.mul]. split_and!; [eexists; split; [done|by cbn; f_equal]| |done|done|by etrans].
  rewrite Hl2, Hl1, <- app_assoc, <- map_app. do 2 f_equal.
  apply take_take_drop.
Qed.

(** C29: undisturbed drains with a publisher that accepts every event empty the outbox: when
    every record still to publish is available and unclaimed, and the drains may take at
    least as many records as there are, each drain returns, the publisher receives the
    events of exactly these records, in outbox order and once each, and every record is
    published with its event and its sequence unchanged. *)
Theorem relay_drains_outbox limit n w : quiet env policy -> store_ok (w_store w) ->
  small_outbox (w_store w) -> relay_ready (w_store w) ->
  Z.of_nat (length (unpublished (w_store w))) <= Z.of_nat n * default_limit limit ->
  wp (drain_rounds limit n) w (fun r w' =>
    (exists stats, r = Ok stats /\ length stats = n) /\
    w_rest w' = w_rest w ++ map o_Event (unpublished (w_store w)) /\
    Forall (fun r => o_Published r = true) (ms_events (w_store w')) /\
    Forall2 record_le (ms_events (w_store w)) (ms_events (w_store w'))).
Proof.
  intros Hq Hs Hn Hr Hlen. eapply wp_conseq; [by apply drain_rounds_run|].
  intros r w' (Hst & Hl & Hu & _ & Hf). cbv zeta in *.
  assert (Hm : (length (unpublished (w_store w)) <= n * Z.to_nat (default_limit limit))%nat)
    by (unfold default_limit in *; destruct (limit <=? 0) eqn:E; b2p; lia).
  rewrite take_ge in Hl by done. rewrite drop_ge in Hu by done. split_and!; [done|done| |done].
  apply Forall_forall. intros x Hx. destruct (o_Published x) eqn:E; [done|].
  assert (Hin : x ∈ unpublished (w_store w'))
    by (apply list_elem_of_In, filter_In; split; [by apply list_elem_of_In|by rewrite E]).
  rewrite Hu in Hin. by apply elem_of_nil in Hin.
Qed.
End Drains.
