(* ===== verification/Delivery.v ===== *)
(** * Acknowledged means delivered

    What a relay guarantees over any outbox, with other relays at work and whatever
    fails: a record is marked published only after the publisher accepted its event.
    [OutboxLaws] is what the relay relies on of an [OutboxStore]; both stores keep it
    ([OutboxLawsStores]). *)

From S2P Require Import Prelude GoStrings Rail Events StoreSpec Effects Relay.

(** ** The contract of an outbox *)

Class OutboxView (St : Type) := mkOutboxView { ob_records : St -> list OutboxRecord }.

(** The same record, whatever became of it. *)
Definition same_record (r r' : OutboxRecord) : Prop :=
  o_Sequence r' = o_Sequence r /\ o_Event r' = o_Event r.

Definition same_flag (r r' : OutboxRecord) : Prop := o_Published r' = o_Published r.

Section Records.
Context `{OutboxView St}.
Implicit Types s : St.

(** Sequence numbers identify records. *)
Definition numbered s : Prop := NoDup (map o_Sequence (ob_records s)).

(** The same records in the same order, related by [R]. *)
Definition rows_kept (R : OutboxRecord -> OutboxRecord -> Prop) s s' : Prop :=
  Forall2 (fun r r' => same_record r r' /\ R r r') (ob_records s) (ob_records s').

Lemma rows_kept_weaken (R R' : OutboxRecord -> OutboxRecord -> Prop) s s' :
  (forall r r', R r r' -> R' r r') -> rows_kept R s s' -> rows_kept R' s s'.
Proof. intros HR Hk. eapply Forall2_impl; [exact Hk|]. intros r r' [? ?]. auto. Qed.

Lemma rows_kept_numbered R s s' : rows_kept R s s' -> numbered s -> numbered s'.
Proof.
  unfold numbered, rows_kept. intros Hk.
  replace (map o_Sequence (ob_records s')) with (map o_Sequence (ob_records s)); [done|].
  induction Hk as [|r r' l l' [[E _] _] _ IH]; cbn; [done|]. by rewrite E, IH.
Qed.

Lemma rows_kept_r R s s' r' : rows_kept R s s' -> r' ∈ ob_records s' ->
  exists r, r ∈ ob_records s /\ same_record r r' /\ R r r'.
Proof.
  intros Hk [i Hi]%list_elem_of_lookup. destruct (Forall2_lookup_r _ _ _ _ _ Hk Hi) as (r & Hr & Hrr).
  exists r. split; [by eapply list_elem_of_lookup_2|done].
Qed.

Lemma rows_kept_l R s s' r : rows_kept R s s' -> r ∈ ob_records s ->
  exists r', r' ∈ ob_records s' /\ same_record r r' /\ R r r'.
Proof.
  intros Hk [i Hi]%list_elem_of_lookup. destruct (Forall2_lookup_l _ _ _ _ _ Hk Hi) as (r' & Hr & Hrr).
  exists r'. split; [by eapply list_elem_of_lookup_2|done].
Qed.

Lemma numbered_inj s r r' : numbered s -> r ∈ ob_records s -> r' ∈ ob_records s ->
  o_Sequence r = o_Sequence r' -> r = r'.
Proof.
  intros Hs [i Hi]%list_elem_of_lookup [j Hj]%list_elem_of_lookup E.
  assert (i = j) as ->; [|congruence].
  eapply (NoDup_lookup (map o_Sequence (ob_records s))); [exact Hs|..];
    rewrite list_lookup_fmap, ?Hi, ?Hj; cbn; [reflexivity|by rewrite E].
Qed.
End Records.

Class OutboxLaws (St : Type) `{OutboxStore St} `{OutboxView St} := mkOutboxLaws {
  claim_outbox_law : forall now1 o limit tok until s, numbered s ->
    match ClaimPendingOutbox now1 o limit tok until s with
    | (Ok recs, s') =>
        rows_kept same_flag s s' /\
        Z.of_nat (length recs) <= (if limit <=? 0 then 100 else limit) /\
        NoDup (map o_Sequence recs) /\
        Forall (fun r => r ∈ ob_records s' /\ o_Published r = false) recs
    | (Err _, s') => s' = s
    end;
  published_law : forall o sequence tok at_ s, numbered s ->
    match MarkOutboxPublished o sequence tok at_ s with
    | (Ok _, s') =>
        rows_kept (fun r r' => o_Published r' = o_Published r || (o_Sequence r =? sequence)) s s'
    | (Err _, s') => s' = s
    end;
  failed_law : forall o sequence tok e retry s, numbered s ->
    match MarkOutboxFailed o sequence tok e retry s with
    | (Ok _, s') => rows_kept same_flag s s'
    | (Err _, s') => s' = s
    end
}.

(** ** A drain *)

Section Delivery.
Context `{OutboxLaws St} (env : Env St) (policy : RetryPolicy) (pub : nat -> Event -> option error).
(** The events other relays acknowledge. *)
Context (others : Event -> Prop).
Implicit Types (s : St) (w : World St (list Event)).

(** Records stay, with their event; published ones stay so, and the newly published are
    those of the other relays. *)
Record outbox_evolves s s' : Prop := mkOutboxEvolves {
  oe_numbered : numbered s';
  oe_kept : forall r, r ∈ ob_records s -> exists r', r' ∈ ob_records s' /\ same_record r r' /\
    (o_Published r = true -> o_Published r' = true);
  oe_published : forall r', r' ∈ ob_records s' -> o_Published r' = true ->
    others (o_Event r') \/ exists r, r ∈ ob_records s /\ o_Event r = o_Event r' /\ o_Published r = true
}.

(** What concurrent calls do to the outbox. *)
Definition outbox_rely : Prop := forall k s, numbered s -> outbox_evolves s (env_others env k s).

Context (Hrely : outbox_rely).

(** Every published record was accepted by this publisher or is another relay's. *)
Definition acknowledged s (log : list Event) : Prop := forall r, r ∈ ob_records s ->
  o_Published r = true -> others (o_Event r) \/ o_Event r ∈ log.

(** The events of [log] have published records. *)
Definition confirmed s (log : list Event) : Prop := Forall (fun e =>
  exists r, r ∈ ob_records s /\ o_Event r = e /\ o_Published r = true) log.

(** The records of a batch are still in the outbox. *)
Definition present s (records : list OutboxRecord) : Prop := Forall (fun x =>
  exists r, r ∈ ob_records s /\ same_record x r) records.

(** What a relay knows of the outbox while it drains. *)
Record draining s (log done : list Event) (records : list OutboxRecord) : Prop := mkDraining {
  dg_numbered : numbered s;
  dg_acknowledged : acknowledged s log;
  dg_confirmed : confirmed s done;
  dg_present : present s records
}.

Lemma draining_evolves s s' log done records :
  outbox_evolves s s' -> draining s log done records -> draining s' log done records.
Proof.
  intros [Hn Hk Hp] [_ Ha Hc Hr]. split; [exact Hn| | |].
  - intros r' Hr' Hp'. destruct (Hp _ Hr' Hp') as [?|(r & Hin & E & Hpr)]; [by left|].
    rewrite <- E. by apply Ha.
  - eapply Forall_impl; [exact Hc|]. intros e (r & Hin & E & Hpr).
    destruct (Hk _ Hin) as (r' & Hin' & [_ E'] & Hpr'). exists r'. split_and!; [done|congruence|auto].
  - eapply Forall_impl; [exact Hr|]. intros x (r & Hin & [E1 E2]).
    destruct (Hk _ Hin) as (r' & Hin' & [E1' E2'] & _). exists r'.
    split; [done|split; congruence].
Qed.

(** A change that leaves the flags. *)
Lemma kept_evolves s s' : rows_kept same_flag s s' -> numbered s -> outbox_evolves s s'.
Proof.
  intros Hk Hn. split.
  - by eapply rows_kept_numbered.
  - intros r Hr. destruct (rows_kept_l _ _ _ _ Hk Hr) as (r' & ? & ? & E).
    exists r'. split_and!; [done..|by rewrite E].
  - intros r' Hr' Hp. destruct (rows_kept_r _ _ _ _ Hk Hr') as (r & Hr & [_ Ee] & E).
    right. exists r. split_and!; [done..|by rewrite <- E].
Qed.

Lemma draining_kept s s' log done records :
  rows_kept same_flag s s' -> draining s log done records -> draining s' log done records.
Proof.
  intros Hk Hd. eapply draining_evolves; [|exact Hd]. apply kept_evolves; [done|by destruct Hd].
Qed.

Lemma draining_rest s log done x records :
  draining s log done (x :: records) -> draining s log done records.
Proof. intros [? ? ? Hp%Forall_inv_tail]. by split. Qed.

(** The publisher accepted the event of the next record. *)
Lemma draining_accept s log done x records : draining s log done (x :: records) ->
  draining s (log ++ [o_Event x]) done (x :: records).
Proof.
  intros [? Ha ? ?]. split; [done| |done..]. intros r Hr Hp.
  destruct (Ha r Hr Hp); [by left|right]. apply elem_of_app. by left.
Qed.

(** It is marked published. *)
Lemma draining_mark s s' log done x records :
  rows_kept (fun r r' => o_Published r' = o_Published r || (o_Sequence r =? o_Sequence x)) s s' ->
  o_Event x ∈ log -> draining s log done (x :: records) ->
  draining s' log (done ++ [o_Event x]) records.
Proof.
  intros Hk Hlog [Hn Ha Hc Hr]. apply Forall_cons in Hr as [(y & Hy & [Ey Ee]) Hr].
  assert (Hkeep : forall r, r ∈ ob_records s -> exists r', r' ∈ ob_records s' /\ same_record r r' /\
    (o_Published r = true -> o_Published r' = true)).
  { intros r Hin. destruct (rows_kept_l _ _ _ _ Hk Hin) as (r' & ? & ? & E).
    exists r'. split_and!; [done..|]. intros Ep. by rewrite E, Ep. }
  split.
  - by eapply rows_kept_numbered.
  - intros r' Hr' Hp. destruct (rows_kept_r _ _ _ _ Hk Hr') as (r & Hin & [_ E] & Ep).
    rewrite E. rewrite Hp in Ep. symmetry in Ep. apply orb_true_iff in Ep as [Ep|Ep%Z.eqb_eq]; [by apply Ha|].
    right. assert (r = y) as -> by (eapply numbered_inj; [exact Hn|done..|congruence]).
    by rewrite Ee.
  - apply Forall_app. split.
    + eapply Forall_impl; [exact Hc|]. intros e (r & Hin & E & Hpr).
      destruct (Hkeep _ Hin) as (r' & ? & [_ E'] & ?). exists r'. split_and!; [done|congruence|auto].
    + apply Forall_singleton. destruct (rows_kept_l _ _ _ _ Hk Hy) as (r' & Hin & [_ E] & Ep).
      exists r'. split_and!; [done|congruence|]. rewrite Ep. apply orb_true_iff. right.
      by apply Z.eqb_eq.
  - eapply Forall_impl; [exact Hr|]. intros z (r & Hin & [E1 E2]).
    destruct (Hkeep _ Hin) as (r' & ? & [E1' E2'] & _). exists r'. split; [done|split; congruence].
Qed.

Lemma draining_now w log done records : draining (w_store w) log done records ->
  draining (store_now env w) log done records.
Proof. intros Hd. eapply draining_evolves; [|exact Hd]. apply Hrely. by destruct Hd. Qed.

(** The outcome of the loop over [records]: [new] is what the publisher accepted, [ack]
    what was acknowledged of it. *)
Definition loop_done (log done : list Event) (records : list OutboxRecord) (stats : RelayStats)
    (r : result (RelayStats * option error)) (w' : World St (list Event)) : Prop :=
  exists new ack stats' oerr, r = Ok (stats', oerr) /\ w_rest w' = log ++ new /\
    new `sublist_of` map o_Event records /\ ack `prefix_of` new /\
    (length new <= S (length ack))%nat /\
    draining (w_store w') (log ++ new) (done ++ ack) [] /\
    rs_Scanned stats' = rs_Scanned stats /\
    rs_Published stats' = rs_Published stats + Z.of_nat (length ack) /\
    (oerr = None -> ack = new /\
       rs_Retried stats' + Z.of_nat (length new) = rs_Retried stats + Z.of_nat (length records)).

(** The loop stops with an error. *)
Lemma loop_stopped log done records stats new stats' e w' :
  w_rest w' = log ++ new -> new `sublist_of` map o_Event records -> (length new <= 1)%nat ->
  draining (w_store w') (log ++ new) done records ->
  rs_Scanned stats' = rs_Scanned stats -> rs_Published stats' = rs_Published stats ->
  loop_done log done records stats (Ok (stats', Some e)) w'.
Proof.
  intros Hl Hsub Hlen [? ? ? ?] Hsc Hpub. exists new, [], stats', (Some e). rewrite app_nil_r.
  split_and!; try done; [by apply prefix_nil|split; [done..|constructor]|cbn; lia].
Qed.

(** A record is done, with [n1] acknowledged, and the loop goes on with the rest. *)
Definition one_done (x : OutboxRecord) (stats : RelayStats) (n1 : list Event) (stats1 : RelayStats)
    : Prop := rs_Scanned stats1 = rs_Scanned stats /\
  (n1 = [] /\ rs_Published stats1 = rs_Published stats /\ rs_Retried stats1 = rs_Retried stats + 1 \/
   n1 = [o_Event x] /\ rs_Published stats1 = rs_Published stats + 1 /\
     rs_Retried stats1 = rs_Retried stats).

Lemma loop_done_cons log done x records stats r w' n1 stats1 : one_done x stats n1 stats1 ->
  loop_done (log ++ n1) (done ++ n1) records stats1 r w' ->
  loop_done log done (x :: records) stats r w'.
Proof.
  intros [Hsc Hn] (new & ack & stats' & oerr & -> & Hl & Hsub & Hpre & Hlen & Hd & Hsc' & Hpub & Hok).
  exists (n1 ++ new), (n1 ++ ack), stats', oerr. rewrite <- !app_assoc in *.
  split_and!; [done|done| |by apply prefix_app|rewrite !length_app; lia|done|congruence| |].
  - destruct Hn as [(-> & _)|(-> & _)]; [by apply sublist_cons|by apply sublist_skip].
  - rewrite Hpub, length_app. destruct Hn as [(-> & -> & _)|(-> & -> & _)]; cbn; lia.
  - intros E. destruct (Hok E) as [-> Hr]. split; [done|]. rewrite length_app.
    destruct Hn as [(-> & _ & E2)|(-> & _ & E2)]; cbn; lia.
Qed.

Lemma wp_publish e w Q :
  (forall a, Q (Ok a) (mkWorld (w_store w)
     (w_rest w ++ match a with Some _ => [] | None => [e] end) (S (w_tick w)))) ->
  wp (publish pub e) w Q.
Proof.
  intros HQ. unfold wp, publish, update_rest. specialize (HQ (pub (w_tick w) e)).
  destruct (pub _ e); cbn; [by rewrite app_nil_r in HQ|done].
Qed.

Lemma drain_loop_done tok records stats done w :
  draining (w_store w) (w_rest w) done records ->
  0 <= rs_Published stats -> 0 <= rs_Retried stats ->
  rs_Published stats + rs_Retried stats + Z.of_nat (length records) <= max_int64 ->
  wp (drain_loop env policy pub tok records stats) w (loop_done (w_rest w) done records stats).
Proof.
  revert stats done w. induction records as [|x records IH]; intros stats done w Hd Hp Hr Hb;
    cbn [drain_loop length] in *.
  { wp_steps. exists [], [], stats, None. rewrite !app_nil_r. split_and!; try done; cbn; lia. }
  assert (Hnext : forall n1 stats1 w1, one_done x stats n1 stats1 ->
    w_rest w1 = w_rest w ++ n1 -> draining (w_store w1) (w_rest w1) (done ++ n1) records ->
    wp (drain_loop env policy pub tok records stats1) w1 (loop_done (w_rest w) done (x :: records) stats)).
  { intros n1 stats1 w1 Hn Hl Hd1. eapply wp_conseq; [apply (IH stats1 (done ++ n1)); [done|..]|].
    1-3: destruct Hn as [_ [(_ & ? & ?)|(_ & ? & ?)]]; lia.
    intros r w'. rewrite Hl. by apply loop_done_cons. }
  wp_step. apply wp_publish. intros [e|]; do 5 wp_step; rewrite ?app_nil_r in *; rename H2 into E.
  - match type of E with MarkOutboxFailed ?o ?q ?t ?m ?rt ?s = _ =>
      assert (Hd1 : draining s (w_rest w) done (x :: records))
        by (by apply (draining_now (mkWorld (w_store w) (w_rest w) _)));
      pose proof (failed_law o q t m rt s (dg_numbered _ _ _ _ Hd1)) as L; rewrite E in L end.
    destruct r as [[]|err]; cbv beta iota.
    + apply Hnext with (n1 := []); cbn; rewrite ?app_nil_r; [|done|].
      * split; [done|left]. cbn. rewrite int64_id by int_lia. done.
      * eapply draining_rest, draining_kept; [exact L|exact Hd1].
    + subst s'. wp_steps. eapply loop_stopped with (new := []); cbn; rewrite ?app_nil_r; try done; try lia.
      apply sublist_nil_l.
  - match type of E with MarkOutboxPublished ?o ?q ?t ?a ?s = _ =>
      assert (Hd1 : draining s (w_rest w ++ [o_Event x]) done (x :: records))
        by (by apply (draining_now (mkWorld (w_store w) (w_rest w ++ [o_Event x]) _)),
               draining_accept);
      pose proof (published_law o q t a s (dg_numbered _ _ _ _ Hd1)) as L; rewrite E in L end.
    destruct r as [[]|err]; cbv beta iota.
    + apply Hnext with (n1 := [o_Event x]); cbn; [|done|].
      * split; [done|right]. cbn. rewrite int64_id by int_lia. done.
      * eapply draining_mark; [exact L| |exact Hd1]. apply elem_of_app. right. apply list_elem_of_here.
    + subst s'. wp_steps. eapply loop_stopped with (new := [o_Event x]); cbn; try done; try lia.
      apply sublist_skip, sublist_nil_l.
Qed.

(** The outcome of [Drain]. *)
Definition drain_delivers (limit : Z) (log : list Event)
    (r : result (RelayStats * option error)) (w' : World St (list Event)) : Prop :=
  numbered (w_store w') /\ acknowledged (w_store w') (w_rest w') /\
  match r with
  | Err _ => w_rest w' = log
  | Ok (stats, oerr) => exists claimed new ack,
      w_rest w' = log ++ new /\ NoDup (map o_Sequence claimed) /\
      Forall (fun r => o_Published r = false) claimed /\
      new `sublist_of` map o_Event claimed /\ ack `prefix_of` new /\
      (length new <= S (length ack))%nat /\ confirmed (w_store w') ack /\
      rs_Scanned stats = Z.of_nat (length claimed) /\
      rs_Scanned stats <= (if limit <=? 0 then 100 else limit) /\
      rs_Published stats = Z.of_nat (length ack) /\
      (oerr = None -> ack = new /\ rs_Published stats + rs_Retried stats = rs_Scanned stats)
  end.

(** C26: over any outbox that keeps its contract, with other relays at work and whatever
    call fails, a drain marks a record published only after the publisher accepted its
    event: every published record was accepted or is another relay's. The publisher
    receives events of the claimed records only, in order and once each; what the drain
    counts as published is a record published under that event, and at most the last
    accepted event is left unacknowledged, to be delivered again; a drain that returns
    no error accounts for every claimed record. *)
Theorem relay_acknowledges_delivered limit w :
  numbered (w_store w) -> acknowledged (w_store w) (w_rest w) -> in_int64 limit ->
  wp (Relay_Drain env policy pub limit) w (drain_delivers limit (w_rest w)).
Proof.
  intros Hn Ha Hl. unfold Relay_Drain. wp_step. apply wp_newID. intros tok. do 6 wp_step.
  rename H2 into E. set (w1 := next_tick (next_tick (next_tick w))) in *.
  assert (Hd : draining (store_now env w1) (w_rest w) [] [])
    by (apply draining_now; split; [exact Hn|exact Ha|constructor..]).
  match type of E with ClaimPendingOutbox ?n ?o ?l ?t ?u ?s = _ =>
    pose proof (claim_outbox_law n o l t u s (dg_numbered _ _ _ _ Hd)) as L; rewrite E in L end.
  destruct r as [claimed|e]; [|subst s'; by destruct Hd].
  destruct L as (Hk & Hlen & Hnd & Hin). apply (draining_kept _ _ _ _ _ Hk) in Hd.
  assert (Hd1 : draining s' (w_rest w) [] claimed).
  { destruct Hd. split; try done. eapply Forall_impl; [exact Hin|]. intros x [Hx _]. by exists x. }
  assert (Hmax : Z.of_nat (length claimed) <= max_int64)
    by (destruct (limit <=? 0); int_lia).
  eapply wp_conseq; [apply (drain_loop_done tok claimed _ []); [exact Hd1|cbn; lia..]|].
  intros r w' (new & ack & stats & oerr & -> & Hr & Hsub & Hpre & Hl1 & [Hn' Ha' Hc' _] & Hsc & Hp & Hok).
  cbn in Hr, Ha', Hsc, Hp. split; [done|]. rewrite Hr. split; [done|].
  exists claimed, new, ack. rewrite Hsc. split_and!; try done; try lia.
  { eapply Forall_impl; [exact Hin|]. by intros x [_ ?]. }
  intros Eo. destruct (Hok Eo) as [-> Ho]. cbn in Ho. split; [done|lia].
Qed.
End Delivery.
