(* ===== verification/Wire.v ===== *)
(** * Reading and writing bytes ([internal/codec], shared part)

    What the binary codecs share: the outcome of a Go call that may return, fail
    or panic, big-endian integers ([encoding/binary]), and readers that consume a
    prefix of a byte slice, as the [msgPackReader] and [cborReader] structs do with
    their [raw] field. Slicing out of range panics, as in Go, so that the absence
    of panics is a theorem. [parses] says that a reader decodes an encoding
    whatever follows it; [reader_ok] bounds what a reader can do on any input. *)

From S2P Require Import Prelude GoStrings.

(** ** Outcomes *)

(** A call that returns [(a, nil)], returns an error, or panics. *)
Inductive outcome (A : Type) : Type :=
  | Ret (a : A)
  | Fails (e : error)
  | Panics (msg : string).
Arguments Ret {_} _.
Arguments Fails {_} _.
Arguments Panics {_} _.

Definition obind {A B} (m : outcome A) (k : A -> outcome B) : outcome B :=
  match m with Ret a => k a | Fails e => Fails e | Panics msg => Panics msg end.

(** [io.ErrUnexpectedEOF] and the error of [fmt.Errorf] or [errors.New] without a wrapped one. *)
Definition io_ErrUnexpectedEOF : error := mkError None "unexpected EOF".
Definition plain_error (msg : string) : error := mkError None msg.

(** [fmt.Sprintf("0x%x", b)] of a byte. *)
Definition hex_byte (b : byte) : string :=
  "0x" +:+ (if b2z b <? 16 then String (hex_digit (b2z b)) ""
            else hex_EncodeToString [b]).

Definition bytes_len (raw : list byte) : Z := Z.of_nat (length raw).

(** [raw[n:]]. *)
Definition slice_from (raw : list byte) (n : Z) : outcome (list byte) :=
  if (0 <=? n) && (n <=? bytes_len raw) then Ret (drop (Z.to_nat n) raw)
  else Panics "slice bounds out of range".

(** [raw[:n]]. *)
Definition slice_to (raw : list byte) (n : Z) : outcome (list byte) :=
  if (0 <=? n) && (n <=? bytes_len raw) then Ret (take (Z.to_nat n) raw)
  else Panics "slice bounds out of range".

(** [make([]string, 0, cap)] panics on a capacity that is negative or beyond the
    address space (2^48 bytes of 16-byte string headers). *)
Definition make_strings (cap : Z) : outcome (list string) :=
  if (0 <=? cap) && (cap <=? 2^44) then Ret []
  else Panics "makeslice: cap out of range".

(** ** Big-endian integers *)

(** [binary.BigEndian.AppendUint32] and [AppendUint64] append [be_bytes 4 v] and
    [be_bytes 8 v]. *)
Fixpoint be_bytes (n : nat) (v : Z) : list byte :=
  match n with
  | O => []
  | S m => z2b (Z.shiftr v (8 * Z.of_nat m)) :: be_bytes m v
  end.

(** [binary.BigEndian.Uint16], [Uint32] and [Uint64]. *)
Definition be_value (l : list byte) : Z :=
  fold_left (fun acc b => Z.lor (Z.shiftl acc 8) (b2z b)) l 0.

(** ** Readers *)

(** A method on a reader struct: it consumes a prefix of [r.raw]. *)
Definition Reader (A : Type) : Type := list byte -> outcome (A * list byte).

Definition rret {A} (a : A) : Reader A := fun raw => Ret (a, raw).
Definition rfail {A} (e : error) : Reader A := fun _ => Fails e.
Definition rbind {A B} (m : Reader A) (k : A -> Reader B) : Reader B := fun raw =>
  match m raw with
  | Ret (a, raw) => k a raw
  | Fails e => Fails e
  | Panics msg => Panics msg
  end.

Declare Scope wire_scope.
Delimit Scope wire_scope with wire.
Notation "' p <- m ;; k" := (rbind m (fun x => match x with p => k end))
  (at level 20, p pattern, m at level 99, k at level 200, only parsing) : wire_scope.
Notation "x <- m ;; k" := (rbind m (fun x => k))
  (at level 100, m at next level, right associativity) : wire_scope.

(** [len(r.raw)]. *)
Definition rlen : Reader Z := fun raw => Ret (bytes_len raw, raw).

(** [prefix := r.raw[0]; r.raw = r.raw[1:]]. *)
Definition rpop : Reader byte := fun raw =>
  match raw with
  | [] => Panics "index out of range"
  | b :: raw => Ret (b, raw)
  end.

(** [value := r.raw[:n]; r.raw = r.raw[n:]]. *)
Definition rtake (n : Z) : Reader (list byte) := fun raw =>
  match slice_to raw n with
  | Ret value =>
      match slice_from raw n with
      | Ret raw => Ret (value, raw)
      | Fails e => Fails e
      | Panics msg => Panics msg
      end
  | Fails e => Fails e
  | Panics msg => Panics msg
  end.

(** An outcome that does not touch the reader. *)
Definition rlift {A} (m : outcome A) : Reader A := fun raw =>
  match m with Ret a => Ret (a, raw) | Fails e => Fails e | Panics msg => Panics msg end.

(** The checks [if len(r.raw) == 0] and [if len(r.raw) < n] before a read. *)
Definition need_any {A} (k : Reader A) : Reader A := fun raw =>
  if bytes_len raw =? 0 then Fails io_ErrUnexpectedEOF else k raw.
Definition need {A} (n : Z) (k : Reader A) : Reader A := fun raw =>
  if bytes_len raw <? n then Fails io_ErrUnexpectedEOF else k raw.

(** The loop [for i := 0; i < length; i++ { value, err := read(); ...; values =
    append(values, value) }]. *)
Fixpoint read_loop (read : Reader string) (n : nat) (values : list string)
    : Reader (list string) :=
  match n with
  | O => rret values
  | S m => (value <- read;; read_loop read m (values ++ [value]))%wire
  end.

(** A decoder: run the reader, then refuse trailing bytes. *)
Definition decode_all {A} (m : Reader A) (trailing : string) (raw : list byte) : outcome A :=
  match m raw with
  | Ret (a, rest) =>
      if negb (bytes_len rest =? 0) then
        Fails (plain_error (trailing +:+ Itoa (bytes_len rest)))
      else Ret a
  | Fails e => Fails e
  | Panics msg => Panics msg
  end.

Arguments rlen _ /.

(** ** Lengths and big-endian values *)

Lemma bytes_len_app a b : bytes_len (a ++ b) = bytes_len a + bytes_len b.
Proof. unfold bytes_len. rewrite length_app. lia. Qed.

Lemma bytes_len_nonneg l : 0 <= bytes_len l.
Proof. unfold bytes_len. lia. Qed.
#[export] Hint Resolve bytes_len_nonneg : pix.

Lemma bytes_len_string s : bytes_len (bytes_of_string s) = str_len s.
Proof. unfold bytes_len. by rewrite length_bytes_of_string. Qed.

Lemma str_len_nonneg s : 0 <= str_len s.
Proof. unfold str_len. lia. Qed.

Lemma str_len_bytes l : str_len (string_of_bytes l) = bytes_len l.
Proof.
  rewrite <- bytes_len_string. unfold bytes_of_string, string_of_bytes.
  by rewrite list_byte_of_string_of_list_byte.
Qed.

Lemma be_bytes_2 v : [z2b (Z.shiftr v 8); z2b v] = be_bytes 2 v.
Proof. cbn. by rewrite Z.shiftr_0_r. Qed.

Lemma length_be_word n v : length (be_bytes n v) = n.
Proof. induction n as [|n IH]; cbn; auto. Qed.

Lemma bytes_len_be n v : bytes_len (be_bytes n v) = Z.of_nat n.
Proof. unfold bytes_len. by rewrite length_be_word. Qed.

(** Bits at and above a bound on the value are clear. *)
Lemma testbit_small b k n : 0 <= b < 2^k -> 0 <= k <= n -> Z.testbit b n = false.
Proof.
  intros Hb Hk. rewrite <- (Z.mod_small b (2^k) Hb).
  by apply Z.mod_pow2_bits_high.
Qed.

(** A shift leaves room for a value below the power of two. *)
Lemma lor_shiftl_add a b k :
  0 <= k -> 0 <= b < 2^k -> Z.lor (Z.shiftl a k) b = a * 2^k + b.
Proof.
  intros Hk Hb.
  assert (Hland : Z.land (Z.shiftl a k) b = 0).
  { apply Z.bits_inj'. intros n Hn. rewrite Z.land_spec, Z.bits_0.
    destruct (Z.ltb_spec n k).
    - by rewrite Z.shiftl_spec_low.
    - rewrite (testbit_small b k n) by lia. apply andb_false_r. }
  rewrite <- Z.lxor_lor, <- Z.add_nocarry_lxor by done.
  by rewrite Z.shiftl_mul_pow2.
Qed.

Lemma be_value_from acc l :
  fold_left (fun acc b => Z.lor (Z.shiftl acc 8) (b2z b)) l acc =
  acc * 2 ^ (8 * bytes_len l) + be_value l.
Proof.
  unfold be_value. revert acc. induction l as [|b l IH]; intros acc; cbn [fold_left].
  { unfold bytes_len. cbn. lia. }
  rewrite IH, (IH (Z.lor _ _)).
  rewrite !lor_shiftl_add by (first [lia | apply b2z_range]).
  replace (bytes_len (b :: l)) with (1 + bytes_len l) by (unfold bytes_len; cbn; lia).
  rewrite Z.mul_add_distr_l, Z.pow_add_r by (pose proof (bytes_len_nonneg l); lia).
  change (8 * 1) with 8. ring.
Qed.

Lemma be_value_cons b l : be_value (b :: l) = b2z b * 2 ^ (8 * bytes_len l) + be_value l.
Proof.
  unfold be_value at 1. cbn [fold_left]. rewrite be_value_from.
  by rewrite lor_shiftl_add by (first [lia | apply b2z_range]).
Qed.

Lemma be_value_bytes n v : be_value (be_bytes n v) = v mod 2 ^ (8 * Z.of_nat n).
Proof.
  induction n as [|n IH]; [by rewrite Z.mod_1_r|].
  cbn [be_bytes]. rewrite be_value_cons, bytes_len_be, IH, b2z_z2b.
  rewrite Z.shiftr_div_pow2 by lia.
  replace (8 * Z.of_nat (S n)) with (8 * Z.of_nat n + 8) by lia.
  rewrite Z.pow_add_r by lia. change (2^8) with 256.
  rewrite Z.rem_mul_r by lia. ring.
Qed.

Lemma be_value_range l : 0 <= be_value l < 2 ^ (8 * bytes_len l).
Proof.
  induction l as [|b l IH]; [by vm_compute|].
  rewrite be_value_cons. pose proof (b2z_range b). pose proof (bytes_len_nonneg l).
  replace (bytes_len (b :: l)) with (bytes_len l + 1) by (unfold bytes_len; cbn; lia).
  rewrite Z.mul_add_distr_l, Z.pow_add_r by lia. change (2 ^ (8 * 1)) with 256.
  pose proof (Z.pow_pos_nonneg 2 (8 * bytes_len l)). nia.
Qed.

(** ** Slices *)

Lemma slice_app a b :
  slice_to (a ++ b) (bytes_len a) = Ret a /\ slice_from (a ++ b) (bytes_len a) = Ret b.
Proof.
  unfold slice_to, slice_from. rewrite bytes_len_app.
  pose proof (bytes_len_nonneg a). pose proof (bytes_len_nonneg b).
  rewrite (proj2 (Z.leb_le 0 _)), (proj2 (Z.leb_le _ _)) by lia. cbn.
  unfold bytes_len. rewrite Nat2Z.id, take_app_length, drop_app_length. done.
Qed.

Lemma slice_from_ok raw n : 0 <= n <= bytes_len raw ->
  slice_from raw n = Ret (drop (Z.to_nat n) raw).
Proof.
  intros [H1 H2]. apply Z.leb_le in H1, H2. unfold slice_from. by rewrite H1, H2.
Qed.

Lemma slice_to_ok raw n : 0 <= n <= bytes_len raw ->
  slice_to raw n = Ret (take (Z.to_nat n) raw).
Proof.
  intros [H1 H2]. apply Z.leb_le in H1, H2. unfold slice_to. by rewrite H1, H2.
Qed.

(** ** Decoding an encoding *)

(** [m] reads exactly [enc] off the front of any input, as [a]. *)
Definition parses {A} (m : Reader A) (enc : list byte) (a : A) : Prop :=
  forall rest, m (enc ++ rest) = Ret (a, rest).

Lemma parses_ret {A} (a : A) : parses (rret a) [] a.
Proof. done. Qed.

Lemma parses_bind {A B} (m : Reader A) (k : A -> Reader B) e1 e2 a b :
  parses m e1 a -> parses (k a) e2 b -> parses (rbind m k) (e1 ++ e2) b.
Proof. intros H1 H2 rest. unfold rbind. rewrite <- app_assoc, H1. apply H2. Qed.

(** The last read of a record, followed by the record itself. *)
Lemma parses_bind_ret {A B} (m : Reader A) (f : A -> B) e a :
  parses m e a -> parses (rbind m (fun x => rret (f x))) e (f a).
Proof. intros H rest. unfold rbind. by rewrite H. Qed.

Lemma parses_eq {A} (m : Reader A) e e' a : e = e' -> parses m e' a -> parses m e a.
Proof. by intros ->. Qed.

Lemma parses_value {A} (m : Reader A) e a a' : a = a' -> parses m e a -> parses m e a'.
Proof. by intros ->. Qed.

Lemma parses_pop b : parses rpop [b] b.
Proof. done. Qed.

Lemma parses_take s : parses (rtake (bytes_len s)) s s.
Proof. intros rest. unfold rtake. by destruct (slice_app s rest) as [-> ->]. Qed.

Lemma parses_need_any {A} (m : Reader A) b e a :
  parses m (b :: e) a -> parses (need_any m) (b :: e) a.
Proof.
  intros H rest. unfold need_any.
  rewrite (proj2 (Z.eqb_neq _ _)); [apply H|].
  rewrite bytes_len_app. pose proof (bytes_len_nonneg rest).
  unfold bytes_len at 1. cbn. lia.
Qed.

Lemma parses_need {A} (m : Reader A) n e a :
  n <= bytes_len e -> parses m e a -> parses (need n m) e a.
Proof.
  intros Hn H rest. unfold need.
  rewrite (proj2 (Z.ltb_ge _ _)); [apply H|].
  rewrite bytes_len_app. pose proof (bytes_len_nonneg rest). lia.
Qed.

(** A string array is its strings, one after another. *)
Lemma parses_loop (read : Reader string) (enc : string -> list byte) vs acc :
  Forall (fun v => parses read (enc v) v) vs ->
  parses (read_loop read (length vs) acc) (concat (map enc vs)) (acc ++ vs).
Proof.
  revert acc. induction vs as [|v vs IH]; intros acc H; cbn.
  { rewrite app_nil_r. apply parses_ret. }
  inversion_clear H as [|? ? Hv Hvs].
  eapply parses_bind; [exact Hv|]. rewrite (cons_middle v acc vs), app_assoc.
  by apply IH.
Qed.

Lemma decode_all_parses {A} (m : Reader A) enc a msg :
  parses m enc a -> decode_all m msg enc = Ret a.
Proof. intros H. unfold decode_all. specialize (H []). rewrite app_nil_r in H. by rewrite H. Qed.

(** Name the hypotheses of a [Forall] over an explicit list. *)
Ltac split_forall H :=
  repeat lazymatch type of H with
  | Forall _ (_ :: _) =>
      let x := fresh "Hs" in let r := fresh "Hr" in
      inversion_clear H as [|? ? x r]; rename r into H
  end.

(** A prefix byte that carries a small length. *)
Lemma b2z_lor_prefix p n k :
  0 <= k -> 0 <= p -> 0 <= n < 2^k -> p * 2^k + n < 256 ->
  b2z (z2b (Z.lor (Z.shiftl p k) n)) = p * 2^k + n.
Proof.
  intros Hk Hp Hn Hb. rewrite b2z_z2b, lor_shiftl_add by done.
  rewrite Z.mod_small; [done|]. nia.
Qed.

Lemma read_take_string v :
  parses (need (str_len v) (rbind (rtake (str_len v)) (fun value => rret (string_of_bytes value))))
    (bytes_of_string v) v.
Proof.
  rewrite <- bytes_len_string. apply parses_need; [lia|].
  eapply parses_eq; [symmetry; apply app_nil_r|].
  eapply parses_bind; [apply parses_take|].
  rewrite string_of_bytes_of_string. apply parses_ret.
Qed.

Create HintDb wire discriminated.

(** Read the fields of a record one after another with the lemmas of [wire]. *)
Ltac parse_fields :=
  rewrite <- ?app_assoc;
  repeat (eapply parses_bind; [solve [eauto with wire]|]; cbv beta);
  try (eapply parses_bind_ret; solve [eauto with wire]).

(** ** Reading any input *)

(** On any Go slice (its length is an [int]), [m] panics only as [pan] allows, what
    it returns satisfies [P], and it leaves no more bytes than it found. *)
Definition reader_ok {A} (pan : string -> Prop) (m : Reader A) (P : A -> Prop) : Prop :=
  forall raw, bytes_len raw <= max_int64 -> match m raw with
  | Ret (a, rest) => P a /\ bytes_len rest <= bytes_len raw
  | Fails _ => True
  | Panics msg => pan msg
  end.

Section ReaderOk.
Context (pan : string -> Prop).
Abbreviation ok := (reader_ok pan).

Lemma ok_ret {A} (a : A) (P : A -> Prop) : P a -> ok (rret a) P.
Proof. by intros H raw. Qed.

Lemma ok_fail {A} e (P : A -> Prop) : ok (rfail e) P.
Proof. done. Qed.

Lemma ok_bind {A B} (m : Reader A) (k : A -> Reader B) P Q :
  ok m P -> (forall a, P a -> ok (k a) Q) -> ok (rbind m k) Q.
Proof.
  intros Hm Hk raw Hraw. unfold rbind. specialize (Hm raw Hraw).
  destruct (m raw) as [[a rest]| |]; [|done|done]. destruct Hm as [Ha Hrest].
  specialize (Hk a Ha rest ltac:(lia)).
  destruct (k a rest) as [[b r]| |]; [|done|done]. destruct Hk. split; [done|lia].
Qed.

Lemma ok_weaken {A} (m : Reader A) (P Q : A -> Prop) :
  ok m P -> (forall a, P a -> Q a) -> ok m Q.
Proof.
  intros H HPQ raw Hraw. specialize (H raw Hraw).
  destruct (m raw) as [[]| |]; [|done|done]. destruct H. auto.
Qed.

Lemma ok_need_any_pop {A} (k : byte -> Reader A) P :
  (forall b, ok (k b) P) -> ok (need_any (rbind rpop k)) P.
Proof.
  intros H raw Hraw. unfold need_any, rbind. destruct raw as [|b raw]; [done|].
  assert (Hb : bytes_len (b :: raw) = 1 + bytes_len raw) by (unfold bytes_len; cbn; lia).
  pose proof (bytes_len_nonneg raw).
  rewrite (proj2 (Z.eqb_neq (bytes_len (b :: raw)) 0)) by lia. cbn [rpop].
  specialize (H b raw ltac:(lia)).
  destruct (k b raw) as [[a r]| |]; [|done|done]. destruct H. split; [done|lia].
Qed.

Lemma ok_need_take {A} n (k : list byte -> Reader A) P :
  0 <= n ->
  (forall l, bytes_len l = n /\ bytes_len l <= max_int64 -> ok (k l) P) ->
  ok (need n (rbind (rtake n) k)) P.
Proof.
  intros Hn H raw Hraw. unfold need, rbind. destruct (bytes_len raw <? n) eqn:E; [done|]. b2p.
  unfold rtake. rewrite slice_to_ok, slice_from_ok by lia.
  assert (Ht : bytes_len (take (Z.to_nat n) raw) = n)
    by (unfold bytes_len in *; rewrite length_take; lia).
  assert (Hd : bytes_len (drop (Z.to_nat n) raw) = bytes_len raw - n)
    by (unfold bytes_len in *; rewrite length_drop; lia).
  specialize (H _ ltac:(split; [exact Ht|lia]) (drop (Z.to_nat n) raw) ltac:(lia)).
  destruct (k _ _) as [[a r]| |]; [|done|done]. destruct H. split; [done|lia].
Qed.

Lemma ok_loop (read : Reader string) n acc (P : string -> Prop) :
  ok read P -> Forall P acc ->
  ok (read_loop read n acc) (fun vs => length vs = (length acc + n)%nat /\ Forall P vs).
Proof.
  intros Hr. revert acc. induction n as [|n IH]; intros acc Hacc; cbn.
  { apply ok_ret. by rewrite Nat.add_0_r. }
  eapply ok_bind; [exact Hr|]. intros v Hv.
  eapply ok_weaken; [apply IH, Forall_app; auto|].
  intros vs [Hl Hvs]. rewrite length_app in Hl. cbn in Hl. split; [lia|done].
Qed.

(** The capacity of a string array: [make] panics on it or accepts it. *)
Lemma ok_make n :
  (n < 0 \/ 2^44 < n -> pan "makeslice: cap out of range") ->
  ok (rlift (make_strings n)) (fun vs => vs = [] /\ 0 <= n <= 2^44).
Proof.
  intros Hp raw _. unfold rlift, make_strings.
  destruct (_ && _) eqn:E; b2p; [done|]. apply Hp.
  apply andb_false_iff in E as [E|E]; b2p; auto.
Qed.

Lemma ok_decode {A} (m : Reader A) P msg raw :
  ok m P -> bytes_len raw <= max_int64 ->
  match decode_all m msg raw with
  | Ret a => P a | Fails _ => True | Panics msg => pan msg end.
Proof.
  intros H Hraw. unfold decode_all. specialize (H raw Hraw).
  destruct (m raw) as [[a rest]| |]; [|done..]. destruct H. by destruct (negb _).
Qed.
End ReaderOk.

Ltac ok_step :=
  lazymatch goal with
  | |- reader_ok _ (rret _) _ => apply ok_ret
  | |- reader_ok _ (rfail _) _ => apply ok_fail
  | |- reader_ok _ (need_any _) _ => apply ok_need_any_pop; intros ?
  | |- reader_ok _ (need _ _) _ => apply ok_need_take; [|intros ? ?]
  | |- reader_ok _ (rbind _ _) _ => eapply ok_bind; [|intros ? ?]
  | |- reader_ok _ (if ?b then _ else _) _ => destruct b eqn:?
  end.
