(* ===== verification/PaymentEvent.v ===== *)
(** * The payment event and the codec interface ([internal/codec/events.go],
      [json.go])

    The event that the codecs encode, the samples of the tests, and the interface
    [Codec] as a class. A codec has a domain of events and a normal form that
    decoding gives back; [CodecLaws] is what a codec promises to its callers. *)

From S2P Require Import Prelude GoStrings Wire.

Abbreviation EventType := string (only parsing).
Definition EventPixTransferRequested : EventType := "pix_transfer_requested".
Definition EventPixTransferApproved : EventType := "pix_transfer_approved".
Definition EventPixTransferBlocked : EventType := "pix_transfer_blocked".
Definition EventSettlementAccepted : EventType := "pix_transfer_settled".

(** [FraudRules] is a slice: the nil one and an empty one are the same list. *)
Record PaymentEvent := mkPaymentEvent {
  pe_EventID : string;
  pe_EventType : EventType;
  pe_TenantID : string;
  pe_AccountID : string;
  pe_TransferID : string;
  pe_CorrelationID : string;
  pe_OccurredAtUnixNano : Z;
  pe_AmountCents : Z;
  pe_Currency : string;
  pe_ReceiverKeyType : string;
  pe_DecisionReason : string;
  pe_SPIMessageID : string;
  pe_EndToEndID : string;
  pe_FraudScore : Z;
  pe_FraudRules : list string
}.

#[export] Instance eta_PaymentEvent : Eta PaymentEvent := fun e =>
  mkPaymentEvent (pe_EventID e) (pe_EventType e) (pe_TenantID e) (pe_AccountID e)
    (pe_TransferID e) (pe_CorrelationID e) (pe_OccurredAtUnixNano e) (pe_AmountCents e)
    (pe_Currency e) (pe_ReceiverKeyType e) (pe_DecisionReason e) (pe_SPIMessageID e)
    (pe_EndToEndID e) (pe_FraudScore e) (pe_FraudRules e).

(** The constant of [cbor.go] that both array codecs write. *)
Definition paymentEventFieldCount : Z := 15.

(** [PaymentEvent{}]. *)
Definition empty_event : PaymentEvent :=
  mkPaymentEvent "" "" "" "" "" "" 0 0 "" "" "" "" "" 0 [].

(** [time.Date(2026, 5, 31, 12, 0, 0, 0, time.UTC).UnixNano()]. *)
Definition sample_time : Z := 1780228800 * Second.

Definition SamplePixTransferRequested : PaymentEvent := {|
  pe_EventID := "evt_20260531_requested_001";
  pe_EventType := EventPixTransferRequested;
  pe_TenantID := "tenant_demo";
  pe_AccountID := "acct_123";
  pe_TransferID := "pxt_20260531_001";
  pe_CorrelationID := "corr_20260531_001";
  pe_OccurredAtUnixNano := sample_time;
  pe_AmountCents := 12345;
  pe_Currency := "BRL";
  pe_ReceiverKeyType := "EMAIL";
  pe_DecisionReason := "";
  pe_SPIMessageID := "";
  pe_EndToEndID := "";
  pe_FraudScore := 0;
  pe_FraudRules := [] |}.

Definition SamplePixTransferApproved : PaymentEvent :=
  let event := SamplePixTransferRequested in
  let event := event <| pe_EventID := "evt_20260531_approved_001" |> in
  let event := event <| pe_EventType := EventPixTransferApproved |> in
  let event := event <| pe_DecisionReason := "risk within payment-rail policy" |> in
  let event := event <| pe_SPIMessageID := "spi_6f0b1abf6b8c2f71" |> in
  event <| pe_EndToEndID := "E202605311200006f0b1abf6b8c2f71" |>.

Definition SamplePixTransferBlocked : PaymentEvent :=
  let event := SamplePixTransferRequested in
  let event := event <| pe_EventID := "evt_20260531_blocked_001" |> in
  let event := event <| pe_EventType := EventPixTransferBlocked |> in
  let event := event <| pe_DecisionReason := "receiver risk over payment-rail policy" |> in
  let event := event <| pe_FraudScore := 96 |> in
  event <| pe_FraudRules := ["receiver_risk_high"; "velocity_threshold"] |>.

(** The strings of an event, in field order. *)
Definition event_strings (e : PaymentEvent) : list string :=
  [pe_EventID e; pe_EventType e; pe_TenantID e; pe_AccountID e; pe_TransferID e;
   pe_CorrelationID e; pe_Currency e; pe_ReceiverKeyType e; pe_DecisionReason e;
   pe_SPIMessageID e; pe_EndToEndID e] ++ pe_FraudRules e.

(** The Go types of the integer fields, and the bound of every Go length. *)
Record event_typed (e : PaymentEvent) : Prop := mkEventTyped {
  et_occurred : in_int64 (pe_OccurredAtUnixNano e);
  et_amount : in_int64 (pe_AmountCents e);
  et_score : in_int64 (pe_FraudScore e);
  et_strings : Forall (fun s => str_len s <= max_int64) (event_strings e);
  et_rules : Z.of_nat (length (pe_FraudRules e)) <= max_int64
}.

#[export] Instance event_typed_dec e : Decision (event_typed e).
Proof.
  destruct (decide (in_int64 (pe_OccurredAtUnixNano e) /\ in_int64 (pe_AmountCents e) /\
    in_int64 (pe_FraudScore e) /\
    Forall (fun s => str_len s <= max_int64) (event_strings e) /\
    Z.of_nat (length (pe_FraudRules e)) <= max_int64)) as [H|H].
  - left. by destruct H as (?&?&?&?&?).
  - right. intros []. by apply H.
Defined.

(** ** The interface *)

(** [type Codec interface]; the type [C] names the implementation. *)
Class Codec (C : Type) := {
  codec_Name : string;
  codec_Marshal : PaymentEvent -> outcome (list byte);
  codec_Unmarshal : list byte -> outcome PaymentEvent
}.
Arguments codec_Name C {_}.
Arguments codec_Marshal C {_} _.
Arguments codec_Unmarshal C {_} _.

(** What a codec promises: an event of its domain is encoded and decodes to its
    normal form, which is in the domain and is its own normal form. *)
Class CodecLaws (C : Type) `{Codec C} (domain : PaymentEvent -> Prop)
    (norm : PaymentEvent -> PaymentEvent) : Prop := {
  codec_roundtrip e : domain e ->
    exists raw, codec_Marshal C e = Ret raw /\ codec_Unmarshal C raw = Ret (norm e);
  codec_norm e : domain e -> domain (norm e) /\ norm (norm e) = norm e
}.

(** Two events that a codec encodes alike have the same normal form. *)
Lemma codec_marshal_inj `{CodecLaws C domain norm} e e' raw :
  domain e -> domain e' ->
  codec_Marshal C e = Ret raw -> codec_Marshal C e' = Ret raw -> norm e = norm e'.
Proof.
  intros He He' E E'.
  destruct (codec_roundtrip e He) as (r & Em & Eu).
  destruct (codec_roundtrip e' He') as (r' & Em' & Eu'). congruence.
Qed.

(** Decoding and encoding again is stable. *)
Lemma codec_stable `{CodecLaws C domain norm} e :
  domain e -> exists raw, codec_Marshal C (norm e) = Ret raw /\
    codec_Unmarshal C raw = Ret (norm e).
Proof.
  intros He. destruct (codec_norm e He) as [Hd Hn].
  destruct (codec_roundtrip _ Hd) as (raw & Em & Eu). rewrite Hn in Eu. eauto.
Qed.

(** An event that is its own normal form comes back exactly. *)
Lemma codec_exact `{CodecLaws C domain norm} e : domain e -> norm e = e ->
  obind (codec_Marshal C e) (codec_Unmarshal C) = Ret e.
Proof.
  intros He En. destruct (codec_roundtrip e He) as (raw & -> & Eu). cbn. by rewrite Eu, En.
Qed.
