(* ===== verification/MsgPack.v ===== *)
(** * The MessagePack codec ([internal/codec/msgpack.go])

    Fixed strings up to 31 bytes and 16-bit string lengths, positive fixed
    integers and 64-bit ones, fixed and 16-bit arrays. The codec is exact: it
    gives an event back precisely when every string and the rule list are shorter
    than 2^16; it never panics, whatever the input. *)

From S2P Require Import Prelude GoStrings Wire PaymentEvent.
Local Open Scope wire_scope.

(** ** Encoder *)

Definition appendMsgPackString (out : list byte) (value : string) : list byte :=
  if str_len value <=? 31 then
    let out := out ++ [z2b (Z.lor 0xa0 (str_len value))] in
    out ++ bytes_of_string value
  else
    let out := out ++ [z2b 0xda; z2b (Z.shiftr (str_len value) 8); z2b (str_len value)] in
    out ++ bytes_of_string value.

Definition appendMsgPackInt64 (out : list byte) (value : Z) : list byte :=
  if (0 <=? value) && (value <=? 127) then out ++ [z2b value]
  else
    let out := out ++ [z2b 0xd3] in
    out ++ be_bytes 8 (uint64 value).

Fixpoint appendMsgPackStrings (out : list byte) (values : list string) : list byte :=
  match values with
  | [] => out
  | value :: rest => appendMsgPackStrings (appendMsgPackString out value) rest
  end.

Definition appendMsgPackStringArray (out : list byte) (values : list string) : list byte :=
  let n := Z.of_nat (length values) in
  let out := if n <=? 15 then out ++ [z2b (Z.lor 0x90 n)]
             else out ++ [z2b 0xdc; z2b (Z.shiftr n 8); z2b n] in
  appendMsgPackStrings out values.

Definition MsgPackCodec_Marshal (event : PaymentEvent) : outcome (list byte) :=
  let out := [z2b 0xdc; z2b 0x00; z2b paymentEventFieldCount] in
  let out := appendMsgPackString out (pe_EventID event) in
  let out := appendMsgPackString out (pe_EventType event) in
  let out := appendMsgPackString out (pe_TenantID event) in
  let out := appendMsgPackString out (pe_AccountID event) in
  let out := appendMsgPackString out (pe_TransferID event) in
  let out := appendMsgPackString out (pe_CorrelationID event) in
  let out := appendMsgPackInt64 out (pe_OccurredAtUnixNano event) in
  let out := appendMsgPackInt64 out (pe_AmountCents event) in
  let out := appendMsgPackString out (pe_Currency event) in
  let out := appendMsgPackString out (pe_ReceiverKeyType event) in
  let out := appendMsgPackString out (pe_DecisionReason event) in
  let out := appendMsgPackString out (pe_SPIMessageID event) in
  let out := appendMsgPackString out (pe_EndToEndID event) in
  let out := appendMsgPackInt64 out (pe_FraudScore event) in
  let out := appendMsgPackStringArray out (pe_FraudRules event) in
  Ret out.

(** ** Decoder *)

Definition msgPackReader_readArrayLen : Reader Z :=
  need_any (
    prefix <- rpop;;
    if (0x90 <=? b2z prefix) && (b2z prefix <=? 0x9f) then rret (Z.land (b2z prefix) 0x0f)
    else if b2z prefix =? 0xdc then
      need 2 (head <- rtake 2;; rret (be_value head))
    else rfail (plain_error ("unsupported msgpack array prefix " +:+ hex_byte prefix))).

Definition msgPackReader_readString : Reader string :=
  need_any (
    prefix <- rpop;;
    length <- (if (0xa0 <=? b2z prefix) && (b2z prefix <=? 0xbf) then
                 rret (Z.land (b2z prefix) 0x1f)
               else if b2z prefix =? 0xda then
                 need 2 (head <- rtake 2;; rret (be_value head))
               else rfail (plain_error ("unsupported msgpack string prefix " +:+ hex_byte prefix)));;
    need length (
      value <- rtake length;;
      rret (string_of_bytes value))).

Definition msgPackReader_readInt64 : Reader Z :=
  need_any (
    prefix <- rpop;;
    if b2z prefix <=? 0x7f then rret (b2z prefix)
    else if negb (b2z prefix =? 0xd3) then
      rfail (plain_error ("unsupported msgpack int prefix " +:+ hex_byte prefix))
    else need 8 (value <- rtake 8;; rret (int64 (be_value value)))).

Definition msgPackReader_readStringArray : Reader (list string) :=
  length <- msgPackReader_readArrayLen;;
  values <- rlift (make_strings length);;
  read_loop msgPackReader_readString (Z.to_nat length) values.

(** The fields of [Unmarshal], in order. *)
Definition msgpack_event : Reader PaymentEvent :=
  count <- msgPackReader_readArrayLen;;
  if negb (count =? paymentEventFieldCount) then
    rfail (plain_error ("msgpack field count " +:+ Itoa count))
  else
    eventID <- msgPackReader_readString;;
    eventType <- msgPackReader_readString;;
    tenantID <- msgPackReader_readString;;
    accountID <- msgPackReader_readString;;
    transferID <- msgPackReader_readString;;
    correlationID <- msgPackReader_readString;;
    occurredAt <- msgPackReader_readInt64;;
    amount <- msgPackReader_readInt64;;
    currency <- msgPackReader_readString;;
    receiverKeyType <- msgPackReader_readString;;
    decisionReason <- msgPackReader_readString;;
    spiMessageID <- msgPackReader_readString;;
    endToEndID <- msgPackReader_readString;;
    score <- msgPackReader_readInt64;;
    fraudRules <- msgPackReader_readStringArray;;
    rret (mkPaymentEvent eventID eventType tenantID accountID transferID correlationID
            occurredAt amount currency receiverKeyType decisionReason spiMessageID
            endToEndID (int64 score) fraudRules).

Definition MsgPackCodec_Unmarshal (raw : list byte) : outcome PaymentEvent :=
  decode_all msgpack_event "msgpack trailing bytes " raw.

Inductive MsgPackCodec : Set := mkMsgPackCodec.
#[export] Instance MsgPackCodec_Codec : Codec MsgPackCodec := {|
  codec_Name := "msgpack-array";
  codec_Marshal := MsgPackCodec_Marshal;
  codec_Unmarshal := MsgPackCodec_Unmarshal
|}.

Example msgpack_sample :
  obind (MsgPackCodec_Marshal SamplePixTransferBlocked) MsgPackCodec_Unmarshal
  = Ret SamplePixTransferBlocked.
Proof. vm_compute. reflexivity. Qed.

(** ** The encoder appends *)

Lemma msgpack_string_app out v :
  appendMsgPackString out v = out ++ appendMsgPackString [] v.
Proof. unfold appendMsgPackString. case_match; cbn; by rewrite <- app_assoc. Qed.

Lemma append_int64_app out v :
  appendMsgPackInt64 out v = out ++ appendMsgPackInt64 [] v.
Proof. unfold appendMsgPackInt64. case_match; [done|]. by rewrite <- app_assoc. Qed.

Lemma append_strings_app out vs :
  appendMsgPackStrings out vs = out ++ concat (map (appendMsgPackString []) vs).
Proof.
  revert out. induction vs as [|v vs IH]; intros out; cbn; [by rewrite app_nil_r|].
  by rewrite IH, msgpack_string_app, <- app_assoc.
Qed.

Lemma append_array_app out vs :
  appendMsgPackStringArray out vs = out ++ appendMsgPackStringArray [] vs.
Proof.
  unfold appendMsgPackStringArray. rewrite !append_strings_app.
  case_match; cbn [app]; by rewrite <- app_assoc.
Qed.

Ltac msgpack_apps :=
  rewrite ?msgpack_string_app, ?append_int64_app, ?append_array_app;
  repeat match goal with
  | |- context [appendMsgPackString (?a ++ ?b) _] => rewrite (msgpack_string_app (a ++ b))
  | |- context [appendMsgPackString (?a :: ?b) _] => rewrite (msgpack_string_app (a :: b))
  | |- context [appendMsgPackInt64 (?a ++ ?b) _] => rewrite (append_int64_app (a ++ b))
  | |- context [appendMsgPackInt64 (?a :: ?b) _] => rewrite (append_int64_app (a :: b))
  | |- context [appendMsgPackStringArray (?a ++ ?b) _] => rewrite (append_array_app (a ++ b))
  end.

(** ** Every encoded part reads back *)

Lemma read_uint16 v : 0 <= v < 2^16 ->
  parses (need 2 (head <- rtake 2;; rret (be_value head))) (be_bytes 2 v) v.
Proof.
  intros Hv. apply parses_need; [by rewrite bytes_len_be|].
  rewrite <- (app_nil_r (be_bytes 2 v)).
  eapply parses_bind; [exact (parses_take (be_bytes 2 v))|].
  rewrite be_value_bytes, Z.mod_small by done. apply parses_ret.
Qed.

Lemma read_string v : str_len v < 2^16 ->
  parses msgPackReader_readString (appendMsgPackString [] v) v.
Proof.
  intros Hv. pose proof (str_len_nonneg v) as H0. unfold appendMsgPackString.
  destruct (str_len v <=? 31) eqn:E; b2p; cbn [app]; apply parses_need_any.
  - change 0xa0 with (Z.shiftl 5 5).
    eapply (parses_bind _ _ [_]); [apply parses_pop|].
    rewrite b2z_lor_prefix by lia. change (5 * 2^5) with 160.
    rewrite (proj2 (Z.leb_le 160 _)), (proj2 (Z.leb_le _ 191)) by lia. cbn [andb].
    eapply (parses_bind _ _ []); [apply parses_ret|].
    replace (Z.land (160 + str_len v) 31) with (str_len v); [apply read_take_string|].
    change 31 with (Z.ones 5). rewrite Z.land_ones by lia.
    change 160 with (5 * 2^5). rewrite Z.add_comm, Z_mod_plus_full, Z.mod_small; lia.
  - eapply (parses_bind _ _ [_]); [apply parses_pop|].
    rewrite b2z_z2b. change (0xda mod 256) with 218. cbn [andb Z.leb Z.eqb Z.compare].
    eapply (parses_bind _ _ [_; _]); [rewrite be_bytes_2; by apply read_uint16|].
    apply read_take_string.
Qed.

Lemma read_int64 v : in_int64 v ->
  parses msgPackReader_readInt64 (appendMsgPackInt64 [] v) v.
Proof.
  intros Hv. unfold appendMsgPackInt64.
  destruct ((0 <=? v) && (v <=? 127)) eqn:E; b2p; cbn [app]; apply parses_need_any.
  - eapply (parses_bind _ _ [_] []); [apply parses_pop|].
    rewrite b2z_z2b, Z.mod_small by lia. rewrite (proj2 (Z.leb_le v 127)) by lia.
    apply parses_ret.
  - eapply (parses_bind _ _ [_]); [apply parses_pop|].
    rewrite b2z_z2b. change (0xd3 mod 256) with 211. cbn [negb Z.leb Z.eqb Z.compare].
    apply parses_need; [by rewrite bytes_len_be|].
    eapply parses_eq; [symmetry; apply app_nil_r|].
    eapply parses_bind; [exact (parses_take (be_bytes 8 (uint64 v)))|].
    rewrite be_value_bytes. change (_ mod 2 ^ _) with (uint64 (uint64 v)).
    rewrite (uint64_id (uint64 v)) by apply uint64_range.
    rewrite int64_uint64 by done. apply parses_ret.
Qed.

Lemma read_string_array vs :
  Forall (fun v => str_len v < 2^16) vs -> Z.of_nat (length vs) < 2^16 ->
  parses msgPackReader_readStringArray (appendMsgPackStringArray [] vs) vs.
Proof.
  intros Hvs Hn. unfold appendMsgPackStringArray, msgPackReader_readStringArray.
  rewrite append_strings_app.
  assert (Hlen : parses msgPackReader_readArrayLen
    (if Z.of_nat (length vs) <=? 15
     then [] ++ [z2b (Z.lor 144 (Z.of_nat (length vs)))]
     else [] ++ [z2b 220; z2b (Z.shiftr (Z.of_nat (length vs)) 8); z2b (Z.of_nat (length vs))])
    (Z.of_nat (length vs))).
  { destruct (_ <=? 15) eqn:E; b2p; cbn [app]; apply parses_need_any.
    - change 144 with (Z.shiftl 9 4).
      eapply (parses_bind _ _ [_] []); [apply parses_pop|].
      rewrite b2z_lor_prefix by lia. change (9 * 2^4) with 144.
      rewrite (proj2 (Z.leb_le 144 _)), (proj2 (Z.leb_le _ 159)) by lia. cbn [andb].
      replace (Z.land (144 + Z.of_nat (length vs)) 15) with (Z.of_nat (length vs));
        [apply parses_ret|].
      change 15 with (Z.ones 4). rewrite Z.land_ones by lia.
      change 144 with (9 * 2^4). rewrite Z.add_comm, Z_mod_plus_full, Z.mod_small; lia.
    - eapply (parses_bind _ _ [_]); [apply parses_pop|].
      rewrite b2z_z2b. change (220 mod 256) with 220. cbn [andb Z.leb Z.eqb Z.compare].
      rewrite be_bytes_2. apply read_uint16. lia. }
  eapply parses_bind; [exact Hlen|].
  eapply (parses_bind _ _ []).
  { intros rest. unfold rlift, make_strings.
    rewrite (proj2 (Z.leb_le 0 _)), (proj2 (Z.leb_le _ (2^44))) by lia. reflexivity. }
  rewrite Nat2Z.id. apply (parses_loop _ _ vs []).
  eapply Forall_impl; [exact Hvs|]. apply read_string.
Qed.

(** ** The domain of the codec *)

(** Every string and the rule list fit a 16-bit length. *)
Record msgpack_fits (e : PaymentEvent) : Prop := mkMsgpackFits {
  mf_strings : Forall (fun s => str_len s < 2^16) (event_strings e);
  mf_rules : Z.of_nat (length (pe_FraudRules e)) < 2^16
}.

#[export] Hint Resolve read_string read_int64 read_string_array : wire.

Lemma read_count n : 0 <= n < 256 ->
  parses msgPackReader_readArrayLen [z2b 0xdc; z2b 0; z2b n] n.
Proof.
  intros Hn. apply parses_need_any. eapply (parses_bind _ _ [_]); [apply parses_pop|].
  rewrite b2z_z2b. change (0xdc mod 256) with 220. cbn [andb Z.leb Z.eqb Z.compare].
  eapply parses_eq; [|apply read_uint16; lia].
  cbn. rewrite Z.shiftr_0_r, Z.shiftr_div_pow2, Z.div_small by lia. done.
Qed.

Lemma marshal_parses e : event_typed e -> msgpack_fits e ->
  exists raw, MsgPackCodec_Marshal e = Ret raw /\ parses msgpack_event raw e.
Proof.
  intros [Ho Ha Hs _ _] [Hstr Hn].
  destruct e as [e1 e2 e3 e4 e5 e6 z1 z2 e7 e8 e9 e10 e11 z3 rs].
  unfold event_strings in Hstr. cbn in *. split_forall Hstr.
  eexists. split; [unfold MsgPackCodec_Marshal; cbn -[appendMsgPackString appendMsgPackInt64
    appendMsgPackStringArray paymentEventFieldCount]; reflexivity|].
  rewrite append_array_app, append_int64_app.
  do 5 rewrite msgpack_string_app. do 2 rewrite append_int64_app.
  do 6 rewrite msgpack_string_app. rewrite <- ?app_assoc. unfold msgpack_event.
  eapply parses_bind; [apply (read_count 15); lia|].
  change (negb (15 =? paymentEventFieldCount)) with false. cbv iota.
  rewrite <- (int64_id z3) at 2 by done. parse_fields.
Qed.

(** ** Any input *)

Lemma ok_uint16 pan :
  reader_ok pan (need 2 (head <- rtake 2;; rret (be_value head))) (fun n => 0 <= n < 2^16).
Proof.
  ok_step; [done|]. ok_step.
  match goal with H : bytes_len ?l = 2 /\ _ |- _ =>
    pose proof (be_value_range l) as Hr; destruct H as [H _]; rewrite H in Hr end. done.
Qed.

Lemma msgpack_array_len_ok pan :
  reader_ok pan msgPackReader_readArrayLen (fun n => 0 <= n < 2^16).
Proof.
  unfold msgPackReader_readArrayLen. repeat (apply ok_uint16 || ok_step).
  pose proof (b2z_range b).
  change 15 with (Z.ones 4). rewrite Z.land_ones by lia.
  pose proof (Z.mod_pos_bound (b2z b) (2^4) eq_refl). lia.
Qed.

Lemma ok_string pan :
  reader_ok pan msgPackReader_readString (fun s => str_len s < 2^16).
Proof.
  unfold msgPackReader_readString. ok_step.
  eapply (ok_bind _ _ _ (fun n => 0 <= n < 2^16)).
  - repeat (apply ok_uint16 || ok_step). change 31 with (Z.ones 5).
    rewrite Z.land_ones by lia.
    pose proof (Z.mod_pos_bound (b2z b) (2^5) eq_refl). lia.
  - intros n Hn. ok_step; [lia|]. ok_step. rewrite str_len_bytes. lia.
Qed.

Lemma ok_int64 pan : reader_ok pan msgPackReader_readInt64 in_int64.
Proof.
  unfold msgPackReader_readInt64. repeat ok_step; auto using int64_range; [|done].
  pose proof (b2z_range b). int_lia.
Qed.

(** The capacity read from the wire is one [make] accepts. *)
Lemma ok_string_array pan :
  reader_ok pan msgPackReader_readStringArray (fun vs =>
    Forall (fun s => str_len s < 2^16) vs /\ Z.of_nat (length vs) < 2^16).
Proof.
  unfold msgPackReader_readStringArray. eapply ok_bind; [apply msgpack_array_len_ok|].
  intros n Hn. cbv beta in Hn. eapply ok_bind; [apply ok_make; lia|].
  intros vs [-> _]. eapply ok_weaken; [apply ok_loop; [apply ok_string|constructor]|].
  cbn. intros vs [Hl Hvs]. split; [done|]. lia.
Qed.

Lemma msgpack_event_ok pan : reader_ok pan msgpack_event (fun e => event_typed e /\ msgpack_fits e).
Proof.
  unfold msgpack_event. eapply ok_bind; [apply msgpack_array_len_ok|]. intros n _. ok_step; [ok_step|].
  do 6 (eapply ok_bind; [apply ok_string|]; intros ? ?).
  do 2 (eapply ok_bind; [apply ok_int64|]; intros ? ?).
  do 5 (eapply ok_bind; [apply ok_string|]; intros ? ?).
  eapply ok_bind; [apply ok_int64|]; intros ? ?.
  eapply ok_bind; [apply ok_string_array|]; intros ? [? ?]. ok_step.
  assert (Hf : forall e : PaymentEvent, Forall (fun s => str_len s < 2^16) (event_strings e) ->
    Forall (fun s => str_len s <= max_int64) (event_strings e)).
  { intros e He. eapply Forall_impl; [exact He|]. cbn. intros. int_lia. }
  assert (Hs : Forall (fun s => str_len s < 2^16)
    (event_strings (mkPaymentEvent a a0 a1 a2 a3 a4 a5 a6 a7 a8 a9 a10 a11 (int64 a12) a13)))
    by (unfold event_strings; cbn; repeat (constructor; [done|]); done).
  split; split; cbn [pe_OccurredAtUnixNano pe_AmountCents pe_FraudScore pe_FraudRules];
    auto using int64_range. int_lia.
Qed.

(** ** The codec *)

Lemma msgpack_unmarshal_ok raw : bytes_len raw <= max_int64 ->
  match MsgPackCodec_Unmarshal raw with
  | Ret e => event_typed e /\ msgpack_fits e
  | Fails _ => True
  | Panics _ => False
  end.
Proof. apply (ok_decode (fun _ => False)), msgpack_event_ok. Qed.

Lemma msgpack_roundtrip e : event_typed e -> msgpack_fits e ->
  exists raw, MsgPackCodec_Marshal e = Ret raw /\ MsgPackCodec_Unmarshal raw = Ret e.
Proof.
  intros Ht Hf. destruct (marshal_parses e Ht Hf) as (raw & Em & Hp).
  exists raw. split; [done|]. by apply decode_all_parses.
Qed.

(** C36: the MessagePack codec gives an event back when its strings and its
    rule list fit 16-bit lengths. Whatever bytes arrive, decoding returns or fails
    and never panics, and what it returns is such an event, which encodes and decodes
    to itself; so an event with a longer string, which is encoded without an error,
    never comes back. *)
Theorem msgpack_exact e raw :
  event_typed e -> bytes_len raw <= max_int64 ->
  (msgpack_fits e ->
     obind (MsgPackCodec_Marshal e) MsgPackCodec_Unmarshal = Ret e) /\
  (forall msg, MsgPackCodec_Unmarshal raw <> Panics msg) /\
  (forall e', MsgPackCodec_Unmarshal raw = Ret e' ->
     event_typed e' /\ msgpack_fits e' /\
     obind (MsgPackCodec_Marshal e') MsgPackCodec_Unmarshal = Ret e').
Proof.
  intros Ht Hraw. pose proof (msgpack_unmarshal_ok raw Hraw) as H.
  assert (Hrt : forall e, event_typed e -> msgpack_fits e ->
    obind (MsgPackCodec_Marshal e) MsgPackCodec_Unmarshal = Ret e).
  { intros e0 Ht0 Hf0. destruct (msgpack_roundtrip e0 Ht0 Hf0) as (r & -> & E). exact E. }
  split_and!; [by apply Hrt| |].
  - intros msg E. by rewrite E in H.
  - intros e' E. rewrite E in H. destruct H as [Ht' Hf']. auto.
Qed.

#[export] Instance MsgPackCodec_Laws :
  CodecLaws MsgPackCodec (fun e => event_typed e /\ msgpack_fits e) id.
Proof. split; [|done]. intros e [Ht Hf]. by apply msgpack_roundtrip. Qed.
