(* ===== verification/ProtoWire.v ===== *)
(** * The protobuf wire codec ([internal/codec/proto_wire.go])

    Varints, tagged fields of wire types 0 and 2, and the payment event as a
    message. Empty strings and zeros are not written; a decoder skips the fields it
    does not know, and the last of several values of a field wins. The two loops
    without a structural argument run on a bound: ten groups of seven bits for a
    64-bit varint, the length of the input for the fields of a message; that the
    bounds are enough is proved ([append_varint_eq], [message_loop_eq]). *)

From S2P Require Import Prelude GoStrings Wire PaymentEvent.

(** ** Encoder *)

(** The loop of [appendProtoVarintRaw], at most [n] rounds. *)
Fixpoint append_varint_loop (n : nat) (out : list byte) (value : Z) : list byte :=
  match n with
  | S m =>
      if 0x80 <=? value then
        let out := out ++ [z2b (Z.lor value 0x80)] in
        append_varint_loop m out (Z.shiftr value 7)
      else out ++ [z2b value]
  | O => out ++ [z2b value]
  end.

Definition appendProtoVarintRaw (out : list byte) (value : Z) : list byte :=
  append_varint_loop 9 out value.

Definition appendProtoString (out : list byte) (field : Z) (value : string) : list byte :=
  if value ==s "" then out
  else
    let out := appendProtoVarintRaw out (uint64 (Z.lor (Z.shiftl field 3) 2)) in
    let out := appendProtoVarintRaw out (uint64 (str_len value)) in
    out ++ bytes_of_string value.

Definition appendProtoVarint (out : list byte) (field value : Z) : list byte :=
  if value =? 0 then out
  else
    let out := appendProtoVarintRaw out (uint64 (Z.shiftl field 3)) in
    appendProtoVarintRaw out value.

Fixpoint append_rules (out : list byte) (rules : list string) : list byte :=
  match rules with
  | [] => out
  | rule :: rest => append_rules (appendProtoString out 15 rule) rest
  end.

Definition ProtoWireCodec_Marshal (event : PaymentEvent) : outcome (list byte) :=
  let out := appendProtoString [] 1 (pe_EventID event) in
  let out := appendProtoString out 2 (pe_EventType event) in
  let out := appendProtoString out 3 (pe_TenantID event) in
  let out := appendProtoString out 4 (pe_AccountID event) in
  let out := appendProtoString out 5 (pe_TransferID event) in
  let out := appendProtoString out 6 (pe_CorrelationID event) in
  let out := appendProtoVarint out 7 (uint64 (pe_OccurredAtUnixNano event)) in
  let out := appendProtoVarint out 8 (uint64 (pe_AmountCents event)) in
  let out := appendProtoString out 9 (pe_Currency event) in
  let out := appendProtoString out 10 (pe_ReceiverKeyType event) in
  let out := appendProtoString out 11 (pe_DecisionReason event) in
  let out := appendProtoString out 12 (pe_SPIMessageID event) in
  let out := appendProtoString out 13 (pe_EndToEndID event) in
  let out := appendProtoVarint out 14 (uint64 (pe_FraudScore event)) in
  Ret (append_rules out (pe_FraudRules event)).

(** ** Decoder *)

(** The loop of [readProtoVarint]: [i] is the index of the first byte of [raw]. *)
Fixpoint read_varint_loop (i value : Z) (raw : list byte) : Z * Z :=
  match raw with
  | [] => (0, -1)
  | b :: rest =>
      if i =? 10 then (0, -1)
      else
        let value := Z.lor value (uint64 (Z.shiftl (Z.land (b2z b) 0x7f) (7 * i))) in
        if b2z b <? 0x80 then (value, i + 1)
        else read_varint_loop (i + 1) value rest
  end.

(** The value and the number of bytes read, -1 when the input is cut or too long. *)
Definition readProtoVarint (raw : list byte) : Z * Z := read_varint_loop 0 0 raw.

Definition readProtoString (raw : list byte) : outcome (string * list byte) :=
  let '(length, n) := readProtoVarint raw in
  if n <=? 0 then Fails io_ErrUnexpectedEOF
  else
    obind (slice_from raw n) (fun raw =>
    if bytes_len raw <? length then Fails io_ErrUnexpectedEOF
    else if max_int64 <? length then Fails (plain_error "protobuf string too large")
    else
      obind (slice_to raw length) (fun value =>
      obind (slice_from raw length) (fun rest =>
      Ret (string_of_bytes value, rest)))).

(** The [switch field] of wire type 0. *)
Definition set_varint_field (field value : Z) (event : PaymentEvent) : PaymentEvent :=
  if field =? 7 then event <| pe_OccurredAtUnixNano := int64 value |>
  else if field =? 8 then event <| pe_AmountCents := int64 value |>
  else if field =? 14 then event <| pe_FraudScore := int64 value |>
  else event.

(** The [switch field] of wire type 2. *)
Definition set_string_field (field : Z) (value : string) (event : PaymentEvent) : PaymentEvent :=
  if field =? 1 then event <| pe_EventID := value |>
  else if field =? 2 then event <| pe_EventType := value |>
  else if field =? 3 then event <| pe_TenantID := value |>
  else if field =? 4 then event <| pe_AccountID := value |>
  else if field =? 5 then event <| pe_TransferID := value |>
  else if field =? 6 then event <| pe_CorrelationID := value |>
  else if field =? 9 then event <| pe_Currency := value |>
  else if field =? 10 then event <| pe_ReceiverKeyType := value |>
  else if field =? 11 then event <| pe_DecisionReason := value |>
  else if field =? 12 then event <| pe_SPIMessageID := value |>
  else if field =? 13 then event <| pe_EndToEndID := value |>
  else if field =? 15 then event <| pe_FraudRules := pe_FraudRules event ++ [value] |>
  else event.

(** One round of the loop of [Unmarshal]: the bytes left and the event so far. *)
Definition read_field (raw : list byte) (event : PaymentEvent)
    : outcome (list byte * PaymentEvent) :=
  let '(key, n) := readProtoVarint raw in
  if n <=? 0 then Fails io_ErrUnexpectedEOF
  else
    obind (slice_from raw n) (fun raw =>
    let field := int64 (Z.shiftr key 3) in
    let wireType := Z.land key 0x7 in
    if wireType =? 0 then
      let '(value, n) := readProtoVarint raw in
      if n <=? 0 then Fails io_ErrUnexpectedEOF
      else obind (slice_from raw n) (fun raw => Ret (raw, set_varint_field field value event))
    else if wireType =? 2 then
      obind (readProtoString raw) (fun '(value, rest) =>
      Ret (rest, set_string_field field value event))
    else Fails (plain_error ("unsupported protobuf wire type " +:+ Itoa wireType))).

(** The loop [for len(raw) > 0], at most [n] rounds. *)
Fixpoint message_loop (n : nat) (raw : list byte) (event : PaymentEvent)
    : outcome PaymentEvent :=
  match n with
  | O => Ret event
  | S m =>
      if bytes_len raw =? 0 then Ret event
      else obind (read_field raw event) (fun '(raw, event) => message_loop m raw event)
  end.

Definition ProtoWireCodec_Unmarshal (raw : list byte) : outcome PaymentEvent :=
  message_loop (length raw) raw empty_event.

Inductive ProtoWireCodec : Set := mkProtoWireCodec.
#[export] Instance ProtoWireCodec_Codec : Codec ProtoWireCodec := {|
  codec_Name := "protobuf-wire";
  codec_Marshal := ProtoWireCodec_Marshal;
  codec_Unmarshal := ProtoWireCodec_Unmarshal
|}.

Example proto_sample :
  obind (ProtoWireCodec_Marshal SamplePixTransferBlocked) ProtoWireCodec_Unmarshal
  = Ret SamplePixTransferBlocked.
Proof. vm_compute. reflexivity. Qed.

(** ** Varints *)

Lemma land_127 z : Z.land z 0x7f = z mod 128.
Proof. change 0x7f with (Z.ones 7). by rewrite Z.land_ones. Qed.

(** The byte of a group that is not the last one. *)
Lemma group_byte v :
  Z.land (b2z (z2b (Z.lor v 0x80))) 0x7f = v mod 128 /\ 0x80 <= b2z (z2b (Z.lor v 0x80)).
Proof.
  rewrite b2z_z2b. pose proof (Z.mod_pos_bound (Z.lor v 0x80) 256 eq_refl) as Hr. split.
  - change 256 with (2^8). rewrite <- Z.land_ones, <- Z.land_assoc by lia.
    change (Z.land (Z.ones 8) 0x7f) with (Z.ones 7).
    rewrite Z.land_lor_distr_l. change (Z.land 0x80 (Z.ones 7)) with 0.
    by rewrite Z.lor_0_r, Z.land_ones.
  - destruct (Z.le_gt_cases 0x80 (Z.lor v 0x80 mod 256)) as [|Hlt]; [done|exfalso].
    assert (Ht : Z.testbit (Z.lor v 0x80 mod 2^8) 7 = true).
    { rewrite Z.mod_pow2_bits_low, Z.lor_spec by lia.
      change (Z.testbit 0x80 7) with true. apply orb_true_r. }
    rewrite (testbit_small _ 7 7) in Ht; [done| |lia]. change (2^8) with 256.
    change (2^7) with 128. lia.
Qed.

Lemma append_varint_app n out v :
  append_varint_loop n out v = out ++ append_varint_loop n [] v.
Proof.
  revert out v. induction n as [|n IH]; intros out v; cbn; [done|].
  destruct (_ <=? _); [|done].
  rewrite (IH (out ++ _)), (IH [_]). by rewrite <- app_assoc.
Qed.

Lemma append_varint_fuel n out v :
  0 <= v < 2 ^ (7 * (Z.of_nat n + 1)) ->
  append_varint_loop (S n) out v = append_varint_loop n out v.
Proof.
  revert out v. induction n as [|n IH]; intros out v Hv.
  { cbn. change (2 ^ (7 * (Z.of_nat 0 + 1))) with 128 in Hv.
    by rewrite (proj2 (Z.leb_gt 128 v)) by lia. }
  change (append_varint_loop (S (S n)) out v) with
    (if 0x80 <=? v then append_varint_loop (S n) (out ++ [z2b (Z.lor v 0x80)]) (Z.shiftr v 7)
     else out ++ [z2b v]).
  rewrite IH; [done|]. rewrite Z.shiftr_div_pow2 by lia. split; [apply Z.div_pos; lia|].
  apply Z.div_lt_upper_bound; [lia|]. rewrite <- Z.pow_add_r by lia.
  replace (7 + 7 * (Z.of_nat n + 1)) with (7 * (Z.of_nat (S n) + 1)) by lia. apply Hv.
Qed.

(** Nine further rounds are enough for a 64-bit value: the bounded loop satisfies
    the equation of the code's loop. *)
Lemma append_varint_eq out v : in_uint64 v ->
  appendProtoVarintRaw out v =
    if 0x80 <=? v then appendProtoVarintRaw (out ++ [z2b (Z.lor v 0x80)]) (Z.shiftr v 7)
    else out ++ [z2b v].
Proof.
  intros Hv. unfold appendProtoVarintRaw.
  rewrite <- (append_varint_fuel 9 out v); [done|].
  change (2 ^ (7 * (Z.of_nat 9 + 1))) with (2^70). unfold in_uint64 in Hv.
  change (2^64) with 18446744073709551616 in Hv.
  change (2^70) with 1180591620717411303424. lia.
Qed.

(** One group read at index [i]. *)
Lemma read_group acc x i :
  0 <= i -> 0 <= acc < 2 ^ (7 * i) -> 0 <= x -> acc + x * 2 ^ (7 * i) < 2^64 ->
  Z.lor acc (uint64 (Z.shiftl x (7 * i))) = acc + x * 2 ^ (7 * i).
Proof.
  intros Hi Hacc Hx Hb. rewrite Z.shiftl_mul_pow2 by lia.
  rewrite uint64_id by (unfold in_uint64; nia).
  rewrite <- (Z.shiftl_mul_pow2 x) at 1 by lia.
  rewrite Z.lor_comm, lor_shiftl_add by lia. ring.
Qed.

Lemma read_varint_spec n v acc i rest :
  0 <= i -> i + Z.of_nat n <= 9 -> 0 <= v < 2 ^ (7 * (Z.of_nat n + 1)) ->
  0 <= acc < 2 ^ (7 * i) -> acc + v * 2 ^ (7 * i) < 2^64 ->
  read_varint_loop i acc (append_varint_loop n [] v ++ rest) =
    (acc + v * 2 ^ (7 * i), i + bytes_len (append_varint_loop n [] v)).
Proof.
  revert v acc i. induction n as [|n IH]; intros v acc i Hi Hn Hv Hacc Hb.
  - change (2 ^ (7 * (Z.of_nat 0 + 1))) with 128 in Hv. cbn [append_varint_loop app read_varint_loop].
    rewrite (proj2 (Z.eqb_neq i 10)) by lia.
    rewrite b2z_z2b, (Z.mod_small v 256), land_127, Z.mod_small by lia.
    rewrite (proj2 (Z.ltb_lt v 128)) by lia. by rewrite read_group by lia.
  - cbn [append_varint_loop]. destruct (0x80 <=? v) eqn:E; b2p.
    + rewrite append_varint_app. cbn [app]. cbn [read_varint_loop].
      rewrite (proj2 (Z.eqb_neq i 10)) by lia.
      destruct (group_byte v) as [-> Hge]. rewrite (proj2 (Z.ltb_ge _ 0x80)) by done.
      pose proof (Z.div_mod v 128 ltac:(lia)) as Hdm.
      pose proof (Z.mod_pos_bound v 128 eq_refl) as Hm.
      pose proof (Z.pow_pos_nonneg 2 (7 * i) eq_refl ltac:(lia)) as Hp.
      assert (Hq : 0 <= v / 128) by (apply Z.div_pos; lia).
      rewrite Z.shiftr_div_pow2 by lia. change (2^7) with 128.
      rewrite read_group by nia.
      assert (Hpi : 2 ^ (7 * (i + 1)) = 2 ^ (7 * i) * 128).
      { rewrite Z.mul_add_distr_l, Z.pow_add_r by lia. done. }
      rewrite IH; rewrite ?Hpi; [|lia|lia| |nia|nia].
      * unfold bytes_len. cbn [length]. f_equal; [|lia]. rewrite Hdm at 3. ring.
      * split; [done|]. apply Z.div_lt_upper_bound; [lia|]. change 128 with (2^7).
        rewrite <- Z.pow_add_r by lia.
        replace (7 + 7 * (Z.of_nat n + 1)) with (7 * (Z.of_nat (S n) + 1)) by lia. apply Hv.
    + cbn [app read_varint_loop]. rewrite (proj2 (Z.eqb_neq i 10)) by lia.
      rewrite b2z_z2b, (Z.mod_small v 256), land_127, Z.mod_small by lia.
      rewrite (proj2 (Z.ltb_lt v 128)) by lia. by rewrite read_group by lia.
Qed.

Lemma varint_pos n v : 0 < bytes_len (append_varint_loop n [] v).
Proof.
  destruct n as [|n]; cbn; [done|]. destruct (_ <=? _); [|done].
  rewrite append_varint_app. unfold bytes_len. cbn. lia.
Qed.

(** A varint reads back, in front of any input. *)
Lemma read_varint v rest : in_uint64 v ->
  readProtoVarint (appendProtoVarintRaw [] v ++ rest) =
    (v, bytes_len (appendProtoVarintRaw [] v)).
Proof.
  intros Hv. unfold readProtoVarint, appendProtoVarintRaw, in_uint64 in *.
  rewrite read_varint_spec; change (2 ^ (7 * (Z.of_nat 9 + 1))) with (2^70);
    change (2 ^ (7 * 0)) with 1; change (2^64) with 18446744073709551616 in *;
    change (2^70) with 1180591620717411303424; try lia.
  f_equal; lia.
Qed.

(** What a varint read can return. *)
Lemma read_varint_bounds i acc raw v n :
  0 <= i -> in_uint64 acc -> read_varint_loop i acc raw = (v, n) ->
  in_uint64 v /\ (n = -1 \/ i < n <= i + bytes_len raw).
Proof.
  revert i acc. induction raw as [|b raw IH]; intros i acc Hi Hacc E; cbn in E.
  { simplify_eq. split; [done|by left]. }
  destruct (i =? 10); [simplify_eq; split; [done|by left]|].
  assert (Hacc' : in_uint64 (Z.lor acc (uint64 (Z.shiftl (Z.land (b2z b) 127) (7 * i))))).
  { pose proof (uint64_range (Z.shiftl (Z.land (b2z b) 127) (7 * i))) as Hu.
    unfold in_uint64 in *. split; [apply Z.lor_nonneg; lia|].
    set (u := uint64 _) in *.
    destruct (Z.lt_ge_cases (Z.lor acc u) (2^64)) as [|Hge]; [done|exfalso].
    assert (Hl : 64 <= Z.log2 (Z.lor acc u)) by (apply Z.log2_le_pow2; lia).
    rewrite Z.log2_lor in Hl by lia.
    destruct (Z.le_gt_cases (Z.log2 acc) (Z.log2 u));
      [destruct (decide (u = 0)) as [->|]|destruct (decide (acc = 0)) as [->|]];
      try (cbn in *; lia).
    - pose proof (proj1 (Z.log2_lt_pow2 u 64 ltac:(lia)) ltac:(lia)). lia.
    - pose proof (proj1 (Z.log2_lt_pow2 acc 64 ltac:(lia)) ltac:(lia)). lia. }
  assert (Hb : bytes_len (b :: raw) = 1 + bytes_len raw) by (unfold bytes_len; cbn; lia).
  pose proof (bytes_len_nonneg raw). destruct (b2z b <? 128).
  - simplify_eq. split; [done|]. right. lia.
  - destruct (IH (i + 1) _ ltac:(lia) Hacc' E) as [Hv [->|Hn]];
      (split; [done|]); [by left|right; lia].
Qed.

Lemma readProtoVarint_bounds raw v n :
  readProtoVarint raw = (v, n) -> in_uint64 v /\ (n = -1 \/ 0 < n <= bytes_len raw).
Proof. intros E. by apply read_varint_bounds in E. Qed.

(** More input after a varint does not change it. *)
Lemma read_varint_more i acc raw b v n :
  read_varint_loop i acc raw = (v, n) -> 0 < n -> read_varint_loop i acc (raw ++ b) = (v, n).
Proof.
  revert i acc. induction raw as [|x raw IH]; intros i acc E Hn; cbn in *; [simplify_eq; lia|].
  destruct (i =? 10); [simplify_eq; lia|]. destruct (_ <? 128); [done|]. by apply IH.
Qed.

Lemma slice_from_more raw b n r :
  slice_from raw n = Ret r -> slice_from (raw ++ b) n = Ret (r ++ b).
Proof.
  unfold slice_from. destruct (_ && _) eqn:E; [|done]. intros [= <-]. b2p.
  rewrite bytes_len_app. pose proof (bytes_len_nonneg b).
  rewrite (proj2 (Z.leb_le 0 n)), (proj2 (Z.leb_le n _)) by lia. cbn.
  rewrite drop_app_le; [done|]. unfold bytes_len in *. lia.
Qed.

Lemma slice_to_more raw b n r :
  slice_to raw n = Ret r -> slice_to (raw ++ b) n = Ret r.
Proof.
  unfold slice_to. destruct (_ && _) eqn:E; [|done]. intros [= <-]. b2p.
  rewrite bytes_len_app. pose proof (bytes_len_nonneg b).
  rewrite (proj2 (Z.leb_le 0 n)), (proj2 (Z.leb_le n _)) by lia. cbn.
  rewrite take_app_le; [done|]. unfold bytes_len in *. lia.
Qed.

(** ** Fields *)

(** The prefix of the input that a varint read consumes. *)
Lemma slice_varint raw v n : readProtoVarint raw = (v, n) -> (n <=? 0) = false ->
  exists r, slice_from raw n = Ret r /\ bytes_len r = bytes_len raw - n /\ 0 < n.
Proof.
  intros E Hn. b2p. apply readProtoVarint_bounds in E as [_ [->|Hb]]; [lia|].
  rewrite slice_from_ok by lia. eexists; split_and!; [done| |lia].
  unfold bytes_len in *. rewrite length_drop. lia.
Qed.

(** What reading a string does on any input: it never panics, it consumes a
    non-empty prefix, and it does not look further. *)
Lemma readProtoString_any raw :
  match readProtoString raw with
  | Ret (s, rest) => bytes_len rest < bytes_len raw /\ str_len s <= max_int64 /\
      forall b, readProtoString (raw ++ b) = Ret (s, rest ++ b)
  | Fails _ => True
  | Panics _ => False
  end.
Proof.
  unfold readProtoString. destruct (readProtoVarint raw) as [len n] eqn:E.
  destruct (n <=? 0) eqn:Hn; [done|].
  destruct (slice_varint _ _ _ E Hn) as (r & Er & Hr & Hpos). rewrite Er. cbn [obind].
  destruct (_ <? len) eqn:Hl; [done|]. destruct (max_int64 <? len) eqn:Hm; [done|].
  apply readProtoVarint_bounds in E as Hb. destruct Hb as [[Hlen _] _]. b2p.
  rewrite slice_to_ok, slice_from_ok by lia. cbn [obind]. split_and!.
  - unfold bytes_len in *. rewrite length_drop. lia.
  - rewrite str_len_bytes. unfold bytes_len in *. rewrite length_take. lia.
  - intros b. unfold readProtoVarint in *. rewrite (read_varint_more _ _ _ _ _ _ E) by lia.
    cbv beta iota. rewrite (proj2 (Z.leb_gt n 0)) by lia.
    rewrite (slice_from_more _ _ _ _ Er). cbn [obind].
    rewrite bytes_len_app. pose proof (bytes_len_nonneg b).
    rewrite (proj2 (Z.ltb_ge _ len)), (proj2 (Z.ltb_ge _ len)) by lia.
    rewrite (slice_to_more r b len (take (Z.to_nat len) r)), (slice_from_more r b len
      (drop (Z.to_nat len) r)) by (first [apply slice_to_ok|apply slice_from_ok]; lia).
    done.
Qed.

(** The same for a field. *)
Lemma read_field_any raw ev :
  match read_field raw ev with
  | Ret (rest, ev') => bytes_len rest < bytes_len raw /\
      forall b, read_field (raw ++ b) ev = Ret (rest ++ b, ev')
  | Fails _ => True
  | Panics _ => False
  end.
Proof.
  unfold read_field. destruct (readProtoVarint raw) as [key n] eqn:E.
  destruct (n <=? 0) eqn:Hn; [done|].
  destruct (slice_varint _ _ _ E Hn) as (r & Er & Hr & Hpos). rewrite Er. cbn [obind].
  assert (Emore : forall b, readProtoVarint (raw ++ b) = (key, n))
    by (intros b; apply read_varint_more; [done|lia]).
  destruct (Z.land key 7 =? 0) eqn:Hw0.
  - destruct (readProtoVarint r) as [value n2] eqn:E2. destruct (n2 <=? 0) eqn:Hn2; [done|].
    destruct (slice_varint _ _ _ E2 Hn2) as (r2 & Er2 & Hr2 & Hpos2). rewrite Er2. cbn [obind].
    split; [lia|]. intros b. rewrite Emore, Hn, (slice_from_more _ _ _ _ Er). cbn [obind].
    unfold readProtoVarint in E2 |- *.
    rewrite (read_varint_more _ _ _ _ _ _ E2) by lia.
    by rewrite Hw0, Hn2, (slice_from_more _ _ _ _ Er2).
  - destruct (Z.land key 7 =? 2) eqn:Hw2; [|done].
    pose proof (readProtoString_any r) as Hs.
    destruct (readProtoString r) as [[s rest]| |]; [|done..]. cbn [obind].
    destruct Hs as (Hlt & _ & Hmore). split; [lia|]. intros b.
    rewrite Emore, Hn, (slice_from_more _ _ _ _ Er). cbn [obind].
    by rewrite Hw0, Hw2, Hmore.
Qed.

(** ** Messages *)

(** The loop of [Unmarshal] from [ev]. *)
Definition run (raw : list byte) (ev : PaymentEvent) : outcome PaymentEvent :=
  message_loop (length raw) raw ev.

Lemma message_loop_fuel n raw ev :
  (length raw <= n)%nat -> message_loop n raw ev = run raw ev.
Proof.
  unfold run. remember (length raw) as k eqn:Hk. revert n raw ev Hk.
  induction k as [k IH] using lt_wf_ind. intros n raw ev -> Hn.
  destruct raw as [|b raw]; [by destruct n|].
  destruct n as [|n]; [cbn in Hn; lia|].
  change (length (b :: raw)) with (S (length raw)). cbn [message_loop].
  destruct (_ =? 0); [done|]. pose proof (read_field_any (b :: raw) ev) as Hf.
  destruct (read_field (b :: raw) ev) as [[r ev']| |]; [|done..]. cbn [obind].
  destruct Hf as [Hlt _]. unfold bytes_len in Hlt. cbn [length] in Hn, Hlt.
  rewrite (IH (length r)) by (cbn; lia). symmetry. apply (IH (length r)); cbn; lia.
Qed.

(** As many rounds as bytes are enough: the bounded loop satisfies the equation of
    the code's loop. *)
Lemma message_loop_eq raw ev :
  run raw ev =
    if bytes_len raw =? 0 then Ret ev
    else obind (read_field raw ev) (fun '(raw, event) => run raw event).
Proof.
  destruct raw as [|b raw]; [done|]. unfold run at 1.
  change (length (b :: raw)) with (S (length raw)). cbn [message_loop].
  destruct (_ =? 0); [done|]. pose proof (read_field_any (b :: raw) ev) as Hf.
  destruct (read_field (b :: raw) ev) as [[r ev']| |]; [|done..]. cbn [obind].
  destruct Hf as [Hlt _]. unfold bytes_len in Hlt. cbn [length] in Hlt.
  apply message_loop_fuel. lia.
Qed.

Lemma run_field raw ev rest ev' :
  read_field raw ev = Ret (rest, ev') -> run raw ev = run rest ev'.
Proof.
  intros E. rewrite message_loop_eq, E. cbn [obind].
  destruct raw as [|b raw]; [done|]. by unfold bytes_len.
Qed.

(** Decoding never panics. *)
Lemma run_no_panic raw ev msg : run raw ev <> Panics msg.
Proof.
  remember (length raw) as k eqn:Hk. revert raw ev Hk.
  induction k as [k IH] using lt_wf_ind. intros raw ev ->. rewrite message_loop_eq.
  destruct (_ =? 0); [done|]. pose proof (read_field_any raw ev) as Hf.
  destruct (read_field raw ev) as [[r ev']| |]; [|done..]. cbn [obind].
  destruct Hf as [Hlt _]. apply (IH (length r)); [|done]. unfold bytes_len in Hlt. lia.
Qed.

(** Decoding a concatenation continues with the event of the first part. *)
Lemma run_app a b ev ev' : run a ev = Ret ev' -> run (a ++ b) ev = run b ev'.
Proof.
  remember (length a) as k eqn:Hk. revert a ev Hk.
  induction k as [k IH] using lt_wf_ind. intros a ev -> E. rewrite message_loop_eq in E.
  destruct a as [|x a]; [injection E as ->; done|].
  replace (bytes_len (x :: a) =? 0) with false in E by (unfold bytes_len; by cbn).
  pose proof (read_field_any (x :: a) ev) as Hf.
  destruct (read_field (x :: a) ev) as [[r ev2]| |] eqn:Er; [|done..]. cbn [obind] in E.
  destruct Hf as [Hlt Hmore]. rewrite (run_field _ _ _ _ (Hmore b)).
  apply (IH (length r)); [|done|done]. unfold bytes_len in Hlt. lia.
Qed.

(** ** Encoded fields *)

(** The field number of a key, and its wire type. *)
Lemma key_parts f w : 0 <= f < 2^29 -> 0 <= w < 8 ->
  in_uint64 (f * 8 + w) /\ int64 (Z.shiftr (f * 8 + w) 3) = f /\ Z.land (f * 8 + w) 7 = w.
Proof.
  intros Hf Hw. change (2^29) with 536870912 in Hf.
  assert (Hd : (f * 8 + w) / 8 = f) by (rewrite Z.div_add_l, Z.div_small; lia).
  split_and!; [int_lia| |].
  - rewrite Z.shiftr_div_pow2 by lia. change (2^3) with 8. rewrite Hd.
    apply int64_id. int_lia.
  - change 7 with (Z.ones 3). rewrite Z.land_ones by lia. change (2^3) with 8.
    rewrite Z.add_comm, Z_mod_plus_full, Z.mod_small; lia.
Qed.

Lemma append_raw_app out v :
  appendProtoVarintRaw out v = out ++ appendProtoVarintRaw [] v.
Proof. apply append_varint_app. Qed.

Lemma proto_string_app out f s :
  appendProtoString out f s = out ++ appendProtoString [] f s.
Proof.
  unfold appendProtoString. destruct (s ==s ""); [by rewrite app_nil_r|].
  rewrite append_raw_app, (append_raw_app out), (append_raw_app (appendProtoVarintRaw [] _)).
  by rewrite <- !app_assoc.
Qed.

Lemma append_int_app out f v :
  appendProtoVarint out f v = out ++ appendProtoVarint [] f v.
Proof.
  unfold appendProtoVarint. destruct (v =? 0); [by rewrite app_nil_r|].
  rewrite append_raw_app, (append_raw_app out), (append_raw_app (appendProtoVarintRaw [] _)).
  by rewrite <- app_assoc.
Qed.

Lemma append_rules_app out rules : append_rules out rules = out ++ append_rules [] rules.
Proof.
  revert out. induction rules as [|r rules IH]; intros out; cbn; [by rewrite app_nil_r|].
  rewrite IH, (IH (appendProtoString [] 15 r)), proto_string_app. by rewrite <- app_assoc.
Qed.

Lemma slice_from_varint v rest :
  slice_from (appendProtoVarintRaw [] v ++ rest) (bytes_len (appendProtoVarintRaw [] v))
  = Ret rest.
Proof. apply slice_app. Qed.

(** A written string field is read as that field. *)
Lemma run_string f s rest ev :
  0 <= f < 2^29 -> str_len s <= max_int64 ->
  run (appendProtoString [] f s ++ rest) ev =
  run rest (if s ==s "" then ev else set_string_field f s ev).
Proof.
  intros Hf Hs. unfold appendProtoString. destruct (s ==s ""); [done|]. apply run_field.
  change (Z.lor (Z.shiftl f 3) 2) with (Z.lor (Z.shiftl f 3) 2).
  rewrite lor_shiftl_add by lia. change (2^3) with 8.
  destruct (key_parts f 2 Hf ltac:(lia)) as (Hk & Hfield & Hw).
  rewrite (uint64_id (f * 8 + 2)) by done.
  pose proof (str_len_nonneg s).
  assert (Hl : in_uint64 (str_len s)) by int_lia.
  rewrite (uint64_id (str_len s)) by done.
  rewrite append_raw_app, <- !app_assoc. unfold read_field.
  rewrite (read_varint _ _ Hk). cbv beta iota.
  rewrite (proj2 (Z.leb_gt _ 0)) by apply varint_pos.
  rewrite slice_from_varint. cbn [obind]. rewrite Hw, Hfield. cbn [Z.eqb].
  unfold readProtoString. rewrite (read_varint _ _ Hl). cbv beta iota.
  rewrite (proj2 (Z.leb_gt _ 0)) by apply varint_pos.
  rewrite slice_from_varint. cbn [obind].
  rewrite bytes_len_app, bytes_len_string. pose proof (bytes_len_nonneg rest).
  rewrite (proj2 (Z.ltb_ge _ (str_len s))), (proj2 (Z.ltb_ge max_int64 _)) by lia.
  rewrite <- bytes_len_string. destruct (slice_app (bytes_of_string s) rest) as [-> ->].
  cbn [obind]. by rewrite string_of_bytes_of_string.
Qed.

Lemma run_varint f v rest ev :
  0 <= f < 2^29 -> in_uint64 v ->
  run (appendProtoVarint [] f v ++ rest) ev =
  run rest (if v =? 0 then ev else set_varint_field f v ev).
Proof.
  intros Hf Hv. unfold appendProtoVarint. destruct (v =? 0); [done|]. apply run_field.
  rewrite Z.shiftl_mul_pow2 by lia. change (2^3) with 8.
  destruct (key_parts f 0 Hf ltac:(lia)) as (Hk & Hfield & Hw). rewrite Z.add_0_r in *.
  rewrite (uint64_id (f * 8)) by done.
  rewrite append_raw_app, <- app_assoc. unfold read_field.
  rewrite (read_varint _ _ Hk). cbv beta iota.
  rewrite (proj2 (Z.leb_gt _ 0)) by apply varint_pos.
  rewrite slice_from_varint. cbn [obind]. rewrite Hw, Hfield. cbn [Z.eqb].
  rewrite (read_varint _ _ Hv). cbv beta iota.
  rewrite (proj2 (Z.leb_gt _ 0)) by apply varint_pos.
  by rewrite slice_from_varint.
Qed.

(** ** Round trip *)

(** What survives the codec: the rules that are not empty. *)
Definition nonempty_rules (rules : list string) : list string :=
  List.filter (fun r => negb (r ==s "")) rules.
Definition proto_norm (e : PaymentEvent) : PaymentEvent :=
  e <| pe_FraudRules := nonempty_rules (pe_FraudRules e) |>.

Lemma run_rules rules rest ev :
  Forall (fun s => str_len s <= max_int64) rules ->
  run (append_rules [] rules ++ rest) ev =
  run rest (ev <| pe_FraudRules := pe_FraudRules ev ++ nonempty_rules rules |>).
Proof.
  revert ev. induction rules as [|r rules IH]; intros ev H; cbn [append_rules].
  { cbn. rewrite app_nil_r. by destruct ev. }
  inversion_clear H as [|? ? Hr Hrs].
  rewrite append_rules_app, <- app_assoc, run_string by (done || lia).
  rewrite IH by done. cbn [nonempty_rules List.filter].
  destruct (r ==s ""); cbn [negb]; [done|]. cbn. by rewrite <- app_assoc.
Qed.

(** Setting a blank field of an event does what skipping an empty value leaves out. *)
Lemma set_string_blank f s ev :
  set_string_field f "" ev = ev ->
  (if s ==s "" then ev else set_string_field f s ev) = set_string_field f s ev.
Proof. intros E. destruct (s ==s "") eqn:Es; b2p; [by subst|done]. Qed.

Lemma set_varint_blank f v ev :
  set_varint_field f 0 ev = ev ->
  (if uint64 v =? 0 then ev else set_varint_field f (uint64 v) ev) =
  set_varint_field f (uint64 v) ev.
Proof. intros E. destruct (_ =? 0) eqn:Es; b2p; [by rewrite Es|done]. Qed.

Lemma proto_marshal_eq e :
  ProtoWireCodec_Marshal e = Ret (
    appendProtoString [] 1 (pe_EventID e) ++ appendProtoString [] 2 (pe_EventType e) ++
    appendProtoString [] 3 (pe_TenantID e) ++ appendProtoString [] 4 (pe_AccountID e) ++
    appendProtoString [] 5 (pe_TransferID e) ++ appendProtoString [] 6 (pe_CorrelationID e) ++
    appendProtoVarint [] 7 (uint64 (pe_OccurredAtUnixNano e)) ++
    appendProtoVarint [] 8 (uint64 (pe_AmountCents e)) ++
    appendProtoString [] 9 (pe_Currency e) ++ appendProtoString [] 10 (pe_ReceiverKeyType e) ++
    appendProtoString [] 11 (pe_DecisionReason e) ++ appendProtoString [] 12 (pe_SPIMessageID e) ++
    appendProtoString [] 13 (pe_EndToEndID e) ++
    appendProtoVarint [] 14 (uint64 (pe_FraudScore e)) ++
    append_rules [] (pe_FraudRules e)).
Proof.
  unfold ProtoWireCodec_Marshal. f_equal.
  rewrite append_rules_app, append_int_app. do 5 rewrite proto_string_app.
  do 2 rewrite append_int_app. do 5 rewrite proto_string_app. by rewrite <- !app_assoc.
Qed.

(** Decode the written fields one by one, keeping the event a record. *)
Ltac norm_event :=
  match goal with
  | |- context [set_string_field ?f ?s ?ev] =>
      let v := eval lazy -[int64 uint64] in (set_string_field f s ev) in
      change (set_string_field f s ev) with v
  | |- context [set_varint_field ?f ?z ?ev] =>
      let v := eval lazy -[int64 uint64] in (set_varint_field f z ev) in
      change (set_varint_field f z ev) with v
  end.
Ltac run_fields :=
  repeat (first
    [ rewrite run_string by (first [done | lia]); rewrite set_string_blank by reflexivity
    | rewrite run_varint by (first [apply uint64_range | lia]);
      rewrite set_varint_blank by reflexivity ];
    norm_event).

Lemma proto_roundtrip_norm e : event_typed e ->
  exists raw, ProtoWireCodec_Marshal e = Ret raw /\
    ProtoWireCodec_Unmarshal raw = Ret (proto_norm e).
Proof.
  intros [Ho Ha Hs Hstr _]. rewrite proto_marshal_eq. eexists. split; [reflexivity|].
  destruct e as [e1 e2 e3 e4 e5 e6 z1 z2 e7 e8 e9 e10 e11 z3 rs].
  unfold event_strings in Hstr. cbn in Ho, Ha, Hs, Hstr. cbn [pe_EventID pe_EventType
    pe_TenantID pe_AccountID pe_TransferID pe_CorrelationID pe_OccurredAtUnixNano
    pe_AmountCents pe_Currency pe_ReceiverKeyType pe_DecisionReason pe_SPIMessageID
    pe_EndToEndID pe_FraudScore pe_FraudRules].
  split_forall Hstr.
  change (ProtoWireCodec_Unmarshal ?r) with (run r empty_event).
  run_fields.
  rewrite <- (app_nil_r (append_rules [] rs)), run_rules by done. cbn.
  by rewrite !int64_uint64.
Qed.

(** An event without empty rules is its own normal form. *)
Lemma proto_norm_id e : Forall (fun r => r <> "") (pe_FraudRules e) -> proto_norm e = e.
Proof.
  unfold proto_norm, nonempty_rules. intros H.
  replace (List.filter _ _) with (pe_FraudRules e); [by destruct e|].
  induction H as [|x l Hx _ IH]; [done|]. cbn. apply String.eqb_neq in Hx.
  rewrite Hx. cbn. by rewrite <- IH.
Qed.

(** C37: the protobuf codec gives every event back up to rules that are empty
    strings, which it drops; so an event survives exactly when it has none. Whatever
    bytes arrive, decoding returns or fails and never panics. *)
Theorem proto_roundtrip e raw :
  (event_typed e ->
     obind (ProtoWireCodec_Marshal e) ProtoWireCodec_Unmarshal =
       Ret (e <| pe_FraudRules := List.filter (fun r => negb (r ==s "")) (pe_FraudRules e) |>) /\
     (obind (ProtoWireCodec_Marshal e) ProtoWireCodec_Unmarshal = Ret e <->
        Forall (fun r => r <> "") (pe_FraudRules e))) /\
  (forall msg, ProtoWireCodec_Unmarshal raw <> Panics msg).
Proof.
  split; [|apply run_no_panic]. intros He.
  destruct (proto_roundtrip_norm e He) as (r & Em & Eu). rewrite Em. cbn [obind].
  rewrite Eu. split; [done|]. unfold proto_norm, nonempty_rules. split.
  - intros [= E]. apply (f_equal pe_FraudRules) in E. cbn in E. rewrite <- E.
    apply Forall_forall. intros x Hx.
    apply list_elem_of_In, filter_In in Hx as [_ Hx]. by b2p.
  - intros H. f_equal. by apply proto_norm_id.
Qed.

(** The fields the decoder assigns. *)
Definition known_string_field (f : Z) : bool :=
  ((1 <=? f) && (f <=? 6)) || ((9 <=? f) && (f <=? 13)) || (f =? 15).
Definition known_varint_field (f : Z) : bool := (f =? 7) || (f =? 8) || (f =? 14).

Lemma set_string_unknown f s ev : known_string_field f = false -> set_string_field f s ev = ev.
Proof.
  intros H. unfold known_string_field in H. unfold set_string_field.
  repeat (destruct (f =? _) eqn:E in |- *;
    [apply Z.eqb_eq in E; subst f; discriminate H|clear E]). done.
Qed.

Lemma set_varint_unknown f v ev : known_varint_field f = false -> set_varint_field f v ev = ev.
Proof.
  intros H. unfold known_varint_field in H. unfold set_varint_field.
  repeat (destruct (f =? _) eqn:E in |- *;
    [apply Z.eqb_eq in E; subst f; discriminate H|clear E]). done.
Qed.

(** A message extended by a later version decodes as before: a field
    whose number this version does not know, of either wire type, is skipped wherever
    it stands between fields, and a message appended to another one overrides its
    fields and extends its rules. *)
Theorem proto_skips_unknown a b ev f s v :
  ProtoWireCodec_Unmarshal a = Ret ev ->
  0 <= f < 2^29 -> str_len s <= max_int64 -> in_uint64 v ->
  (known_string_field f = false ->
     ProtoWireCodec_Unmarshal (a ++ appendProtoString [] f s ++ b) =
     ProtoWireCodec_Unmarshal (a ++ b)) /\
  (known_varint_field f = false ->
     ProtoWireCodec_Unmarshal (a ++ appendProtoVarint [] f v ++ b) =
     ProtoWireCodec_Unmarshal (a ++ b)) /\
  ProtoWireCodec_Unmarshal (a ++ b) = message_loop (length b) b ev.
Proof.
  intros E Hf Hs Hv. change (run a empty_event = Ret ev) in E.
  change (ProtoWireCodec_Unmarshal ?r) with (run r empty_event).
  change (message_loop (length b) b ev) with (run b ev).
  rewrite !(run_app a _ _ _ E). split_and!; [| |done].
  - intros Hk. rewrite run_string by done. rewrite set_string_unknown by done.
    by destruct (s ==s "").
  - intros Hk. rewrite run_varint by done. rewrite set_varint_unknown by done.
    by destruct (v =? 0).
Qed.

Lemma proto_norm_typed e : event_typed e -> event_typed (proto_norm e).
Proof.
  intros [Ho Ha Hs Hstr Hn]. destruct e as [e1 e2 e3 e4 e5 e6 z1 z2 e7 e8 e9 e10 e11 z3 rs].
  cbn in *. split; cbn; try done.
  - unfold event_strings in *. cbn in *. split_forall Hstr.
    repeat (constructor; [done|]). clear Hn. unfold nonempty_rules.
    apply Forall_forall. intros x Hx. apply list_elem_of_In, filter_In in Hx as [Hx _].
    rewrite Forall_forall in Hstr. by apply Hstr, list_elem_of_In.
  - unfold nonempty_rules. pose proof (filter_length_le (fun r => negb (r ==s "")) rs). lia.
Qed.

Lemma nonempty_idem l : nonempty_rules (nonempty_rules l) = nonempty_rules l.
Proof.
  unfold nonempty_rules. induction l as [|x l IH]; [done|]. cbn.
  destruct (x ==s "") eqn:Ex; cbn; rewrite ?Ex; cbn; by rewrite IH.
Qed.

#[export] Instance ProtoWireCodec_Laws : CodecLaws ProtoWireCodec event_typed proto_norm.
Proof.
  split; [apply proto_roundtrip_norm|]. intros e He. split; [by apply proto_norm_typed|].
  unfold proto_norm. cbn. by rewrite nonempty_idem.
Qed.
