(* ===== verification/Cbor.v ===== *)
(** * The CBOR codec ([internal/codec/cbor.go])

    Heads of a major type and an unsigned value in five widths, text strings and
    arrays. Signed fields travel as the unsigned integers they convert to, so every
    event survives. The decoder trusts one length: a rule array that announces more
    elements than [make] accepts panics ([cbor_panics_on_crafted_length]); that is
    its only panic. *)

From S2P Require Import Prelude GoStrings Wire PaymentEvent.
Local Open Scope wire_scope.

(** ** Encoder *)

Definition appendCBORMajor (out : list byte) (major value : Z) : list byte :=
  let prefix := Z.shiftl major 5 in
  if value <? 24 then out ++ [z2b (Z.lor prefix value)]
  else if value <=? 0xff then out ++ [z2b (Z.lor prefix 24); z2b value]
  else if value <=? 0xffff then
    out ++ [z2b (Z.lor prefix 25); z2b (Z.shiftr value 8); z2b value]
  else if value <=? 0xffffffff then
    let out := out ++ [z2b (Z.lor prefix 26)] in out ++ be_bytes 4 value
  else
    let out := out ++ [z2b (Z.lor prefix 27)] in out ++ be_bytes 8 value.

Definition appendCBORArray (out : list byte) (length : Z) : list byte :=
  appendCBORMajor out 4 (uint64 length).

Definition appendCBORText (out : list byte) (value : string) : list byte :=
  let out := appendCBORMajor out 3 (uint64 (str_len value)) in
  out ++ bytes_of_string value.

Definition appendCBORUint (out : list byte) (value : Z) : list byte :=
  appendCBORMajor out 0 value.

Fixpoint append_texts (out : list byte) (rules : list string) : list byte :=
  match rules with
  | [] => out
  | rule :: rest => append_texts (appendCBORText out rule) rest
  end.

Definition CBORCodec_Marshal (event : PaymentEvent) : outcome (list byte) :=
  let out := appendCBORArray [] paymentEventFieldCount in
  let out := appendCBORText out (pe_EventID event) in
  let out := appendCBORText out (pe_EventType event) in
  let out := appendCBORText out (pe_TenantID event) in
  let out := appendCBORText out (pe_AccountID event) in
  let out := appendCBORText out (pe_TransferID event) in
  let out := appendCBORText out (pe_CorrelationID event) in
  let out := appendCBORUint out (uint64 (pe_OccurredAtUnixNano event)) in
  let out := appendCBORUint out (uint64 (pe_AmountCents event)) in
  let out := appendCBORText out (pe_Currency event) in
  let out := appendCBORText out (pe_ReceiverKeyType event) in
  let out := appendCBORText out (pe_DecisionReason event) in
  let out := appendCBORText out (pe_SPIMessageID event) in
  let out := appendCBORText out (pe_EndToEndID event) in
  let out := appendCBORUint out (uint64 (pe_FraudScore event)) in
  let out := appendCBORArray out (Z.of_nat (length (pe_FraudRules event))) in
  let out := append_texts out (pe_FraudRules event) in
  Ret out.

(** ** Decoder *)

(** The major type and the value of a head. *)
Definition cborReader_readHead : Reader (Z * Z) :=
  need_any (
    head <- rpop;;
    let major := Z.shiftr (b2z head) 5 in
    let additional := Z.land (b2z head) 0x1f in
    let sized n := need n (v <- rtake n;; rret (major, be_value v)) in
    if additional =? 24 then sized 1
    else if additional =? 25 then sized 2
    else if additional =? 26 then sized 4
    else if additional =? 27 then sized 8
    else if additional <? 24 then rret (major, additional)
    else rfail (plain_error ("unsupported cbor additional info " +:+ Itoa additional))).

Definition cborReader_readArrayLen : Reader Z :=
  '(major, value) <- cborReader_readHead;;
  if negb (major =? 4) then
    rfail (plain_error ("expected cbor array, got major " +:+ Itoa major))
  else rret (int64 value).

Definition cborReader_readText : Reader string :=
  '(major, value) <- cborReader_readHead;;
  if negb (major =? 3) then
    rfail (plain_error ("expected cbor text, got major " +:+ Itoa major))
  else need value (text <- rtake value;; rret (string_of_bytes text)).

Definition cborReader_readUint : Reader Z :=
  '(major, value) <- cborReader_readHead;;
  if negb (major =? 0) then
    rfail (plain_error ("expected cbor uint, got major " +:+ Itoa major))
  else rret value.

Definition cborReader_readTextArray : Reader (list string) :=
  length <- cborReader_readArrayLen;;
  values <- rlift (make_strings length);;
  read_loop cborReader_readText (Z.to_nat length) values.

(** The fields of [Unmarshal], in order. *)
Definition cbor_event : Reader PaymentEvent :=
  count <- cborReader_readArrayLen;;
  if negb (count =? paymentEventFieldCount) then
    rfail (plain_error ("cbor field count " +:+ Itoa count))
  else
    eventID <- cborReader_readText;;
    eventType <- cborReader_readText;;
    tenantID <- cborReader_readText;;
    accountID <- cborReader_readText;;
    transferID <- cborReader_readText;;
    correlationID <- cborReader_readText;;
    occurredAt <- cborReader_readUint;;
    amount <- cborReader_readUint;;
    currency <- cborReader_readText;;
    receiverKeyType <- cborReader_readText;;
    decisionReason <- cborReader_readText;;
    spiMessageID <- cborReader_readText;;
    endToEndID <- cborReader_readText;;
    score <- cborReader_readUint;;
    fraudRules <- cborReader_readTextArray;;
    rret (mkPaymentEvent eventID eventType tenantID accountID transferID correlationID
            (int64 occurredAt) (int64 amount) currency receiverKeyType decisionReason
            spiMessageID endToEndID (int64 score) fraudRules).

Definition CBORCodec_Unmarshal (raw : list byte) : outcome PaymentEvent :=
  decode_all cbor_event "cbor trailing bytes " raw.

Inductive CBORCodec : Set := mkCBORCodec.
#[export] Instance CBORCodec_Codec : Codec CBORCodec := {|
  codec_Name := "cbor-array";
  codec_Marshal := CBORCodec_Marshal;
  codec_Unmarshal := CBORCodec_Unmarshal
|}.

Example cbor_sample :
  obind (CBORCodec_Marshal SamplePixTransferBlocked) CBORCodec_Unmarshal
  = Ret SamplePixTransferBlocked.
Proof. vm_compute. reflexivity. Qed.

(** ** The encoder appends *)

Lemma append_major_app out major v :
  appendCBORMajor out major v = out ++ appendCBORMajor [] major v.
Proof. unfold appendCBORMajor. repeat case_match; by rewrite <- ?app_assoc. Qed.

Lemma append_text_app out v : appendCBORText out v = out ++ appendCBORText [] v.
Proof. unfold appendCBORText. by rewrite append_major_app, <- app_assoc. Qed.

Lemma append_texts_app out vs :
  append_texts out vs = out ++ concat (map (appendCBORText []) vs).
Proof.
  revert out. induction vs as [|v vs IH]; intros out; cbn; [by rewrite app_nil_r|].
  by rewrite IH, append_text_app, <- app_assoc.
Qed.

(** ** Every encoded part reads back *)

(** The head byte of a major type. *)
Lemma head_byte major x :
  0 <= major < 8 -> 0 <= x < 32 ->
  Z.shiftr (b2z (z2b (Z.lor (Z.shiftl major 5) x))) 5 = major /\
  Z.land (b2z (z2b (Z.lor (Z.shiftl major 5) x))) 0x1f = x.
Proof.
  intros Hm Hx. rewrite b2z_lor_prefix by lia. split.
  - rewrite Z.shiftr_div_pow2, Z.div_add_l, Z.div_small by lia. lia.
  - change 0x1f with (Z.ones 5). rewrite Z.land_ones by lia.
    rewrite Z.add_comm, Z_mod_plus_full, Z.mod_small; lia.
Qed.

Lemma read_sized major n v :
  0 <= v < 2 ^ (8 * Z.of_nat n) ->
  parses (need (Z.of_nat n) (l <- rtake (Z.of_nat n);; rret (major : Z, be_value l)))
    (be_bytes n v) (major, v).
Proof.
  intros Hv. apply parses_need; [by rewrite bytes_len_be|].
  eapply parses_eq; [symmetry; apply app_nil_r|].
  rewrite <- (bytes_len_be n v).
  eapply parses_bind; [apply parses_take|].
  rewrite be_value_bytes, Z.mod_small by done. apply parses_ret.
Qed.

Lemma read_head major v : 0 <= major < 8 -> in_uint64 v ->
  parses cborReader_readHead (appendCBORMajor [] major v) (major, v).
Proof.
  intros Hm Hv. unfold appendCBORMajor. cbn [app].
  assert (Hstep : forall x e, 0 <= x < 32 ->
    parses (let sized n := need n (w <- rtake n;; rret (major, be_value w)) in
      if x =? 24 then sized 1 else if x =? 25 then sized 2 else if x =? 26 then sized 4
      else if x =? 27 then sized 8 else if x <? 24 then rret (major, x)
      else rfail (plain_error ("unsupported cbor additional info " +:+ Itoa x)))
      e (major, v) ->
    parses cborReader_readHead (z2b (Z.lor (Z.shiftl major 5) x) :: e) (major, v)).
  { intros x e Hx H. apply parses_need_any.
    eapply (parses_bind _ _ [_]); [apply parses_pop|].
    destruct (head_byte major x Hm Hx) as [-> ->]. exact H. }
  unfold in_uint64 in Hv. change (2^64) with 18446744073709551616 in Hv.
  destruct (v <? 24) eqn:E1; b2p.
  { apply Hstep; [lia|]. rewrite !(proj2 (Z.eqb_neq v _)), (proj2 (Z.ltb_lt v 24)) by lia.
    apply parses_ret. }
  destruct (v <=? 0xff) eqn:E2; b2p.
  { apply Hstep; [lia|]. cbn. change [z2b v] with ([z2b v] ++ []).
    replace (z2b v) with (z2b (Z.shiftr v (8 * Z.of_nat 0))) by (f_equal; apply Z.shiftr_0_r).
    apply (read_sized major 1). change (2 ^ (8 * Z.of_nat 1)) with 256. lia. }
  destruct (v <=? 0xffff) eqn:E3; b2p.
  { apply Hstep; [lia|]. rewrite be_bytes_2. apply (read_sized major 2).
    change (2 ^ (8 * Z.of_nat 2)) with 65536. lia. }
  destruct (v <=? 0xffffffff) eqn:E4; b2p.
  { apply Hstep; [lia|]. apply (read_sized major 4).
    change (2 ^ (8 * Z.of_nat 4)) with 4294967296. lia. }
  apply Hstep; [lia|]. apply (read_sized major 8).
  change (2 ^ (8 * Z.of_nat 8)) with 18446744073709551616. lia.
Qed.

Lemma read_text v : str_len v <= max_int64 ->
  parses cborReader_readText (appendCBORText [] v) v.
Proof.
  intros Hv. pose proof (str_len_nonneg v). unfold appendCBORText.
  rewrite uint64_id by int_lia.
  eapply parses_bind; [apply read_head; [lia|int_lia]|]. apply read_take_string.
Qed.

Lemma read_uint z : parses cborReader_readUint (appendCBORUint [] (uint64 z)) (uint64 z).
Proof.
  eapply parses_eq; [symmetry; apply app_nil_r|].
  eapply parses_bind; [apply read_head; [lia|apply uint64_range]|]. apply parses_ret.
Qed.

Lemma read_array n : in_int64 n -> parses cborReader_readArrayLen (appendCBORArray [] n) n.
Proof.
  intros Hn. eapply parses_eq; [symmetry; apply app_nil_r|].
  eapply parses_bind; [apply read_head; [lia|apply uint64_range]|].
  cbv beta iota. change (negb (4 =? 4)) with false. cbv iota.
  rewrite <- (int64_uint64 n Hn) at 2. apply parses_ret.
Qed.

(** The largest capacity [make] accepts. *)
Definition max_strings : Z := 2^44.

Lemma read_text_array vs :
  Forall (fun v => str_len v <= max_int64) vs -> Z.of_nat (length vs) <= max_strings ->
  parses cborReader_readTextArray
    (appendCBORArray [] (Z.of_nat (length vs)) ++ concat (map (appendCBORText []) vs)) vs.
Proof.
  intros Hvs Hn. unfold max_strings in Hn.
  eapply parses_bind; [apply read_array; int_lia|].
  eapply (parses_bind _ _ []).
  { intros rest. unfold rlift, make_strings.
    by rewrite (proj2 (Z.leb_le 0 _)), (proj2 (Z.leb_le _ (2^44))) by lia. }
  rewrite Nat2Z.id. apply (parses_loop _ _ vs []).
  eapply Forall_impl; [exact Hvs|]. apply read_text.
Qed.
#[export] Hint Resolve read_text read_uint read_array read_text_array : wire.

Lemma cbor_marshal_parses e : event_typed e ->
  Z.of_nat (length (pe_FraudRules e)) <= max_strings ->
  exists raw, CBORCodec_Marshal e = Ret raw /\ parses cbor_event raw e.
Proof.
  intros [Ho Ha Hs Hstr _] Hn.
  destruct e as [e1 e2 e3 e4 e5 e6 z1 z2 e7 e8 e9 e10 e11 z3 rs].
  unfold event_strings in Hstr. cbn in *. split_forall Hstr.
  eexists. split; [unfold CBORCodec_Marshal; cbn -[appendCBORText appendCBORUint
    appendCBORArray append_texts paymentEventFieldCount uint64 Z.of_nat]; reflexivity|].
  unfold appendCBORArray at 1, appendCBORUint. rewrite append_texts_app, append_major_app.
  rewrite (append_major_app (appendCBORText _ e11)). do 5 rewrite append_text_app.
  do 2 rewrite append_major_app. do 6 rewrite append_text_app.
  repeat change (appendCBORMajor [] 0 ?x) with (appendCBORUint [] x).
  change (appendCBORMajor [] 4 (uint64 ?n)) with (appendCBORArray [] n).
  rewrite <- ?app_assoc. unfold cbor_event.
  eapply parses_bind; [apply read_array; done|].
  change (negb (paymentEventFieldCount =? paymentEventFieldCount)) with false. cbv iota.
  eapply parses_value; swap 1 2; [parse_fields|]. cbv beta. by rewrite !int64_uint64.
Qed.

(** ** Any input *)

(** The only panic: the capacity of the rule array. *)
Definition cap_panic (msg : string) : Prop := msg = "makeslice: cap out of range".

Lemma ok_sized (pan : string -> Prop) (major n : Z) :
  0 <= n -> 8 * n <= 64 ->
  reader_ok pan (need n (v <- rtake n;; rret (major, be_value v)))
    (fun '(_, v) => in_uint64 v).
Proof.
  intros Hn H8. ok_step; [done|]. ok_step.
  match goal with H : bytes_len ?l = n /\ _ |- _ =>
    pose proof (be_value_range l) as Hr; destruct H as [H _]; rewrite H in Hr end.
  split; [apply Hr|]. eapply Z.lt_le_trans; [apply Hr|]. by apply Z.pow_le_mono_r.
Qed.

Lemma ok_head pan : reader_ok pan cborReader_readHead (fun '(_, v) => in_uint64 v).
Proof.
  unfold cborReader_readHead. ok_step. cbv zeta.
  repeat ((apply ok_sized; lia) || ok_step).
  pose proof (b2z_range b). change 0x1f with (Z.ones 5). rewrite Z.land_ones by lia.
  pose proof (Z.mod_pos_bound (b2z b) (2^5) eq_refl). int_lia.
Qed.

Lemma cbor_array_len_ok pan : reader_ok pan cborReader_readArrayLen in_int64.
Proof.
  eapply ok_bind; [apply ok_head|]. intros [major v] Hv.
  repeat ok_step. apply int64_range.
Qed.

Lemma ok_text pan : reader_ok pan cborReader_readText (fun s => str_len s <= max_int64).
Proof.
  eapply ok_bind; [apply ok_head|]. intros [major v] Hv. cbv beta iota in Hv.
  ok_step; [ok_step|]. unfold in_uint64 in Hv.
  ok_step; [lia|]. ok_step. rewrite str_len_bytes. lia.
Qed.

Lemma ok_uint pan : reader_ok pan cborReader_readUint in_uint64.
Proof. eapply ok_bind; [apply ok_head|]. intros [major v] Hv. by repeat ok_step. Qed.

Lemma ok_text_array : reader_ok cap_panic cborReader_readTextArray (fun vs =>
  Forall (fun s => str_len s <= max_int64) vs /\ Z.of_nat (length vs) <= max_strings).
Proof.
  eapply ok_bind; [apply cbor_array_len_ok|]. intros n Hn.
  eapply ok_bind; [by apply ok_make|]. intros vs [-> Hc].
  eapply ok_weaken; [apply ok_loop; [apply ok_text|constructor]|].
  cbn. intros vs [Hl Hvs]. split; [done|]. unfold max_strings. lia.
Qed.

Lemma cbor_event_ok : reader_ok cap_panic cbor_event (fun e =>
  event_typed e /\ Z.of_nat (length (pe_FraudRules e)) <= max_strings).
Proof.
  unfold cbor_event. eapply ok_bind; [apply cbor_array_len_ok|]. intros n _. ok_step; [ok_step|].
  do 6 (eapply ok_bind; [apply ok_text|]; intros ? ?).
  do 2 (eapply ok_bind; [apply ok_uint|]; intros ? ?).
  do 5 (eapply ok_bind; [apply ok_text|]; intros ? ?).
  eapply ok_bind; [apply ok_uint|]; intros ? ?.
  eapply ok_bind; [apply ok_text_array|]; intros ? [? Hn]. ok_step. split; [|done].
  split; cbn [pe_OccurredAtUnixNano pe_AmountCents pe_FraudScore pe_FraudRules];
    try apply int64_range.
  - unfold event_strings. cbn. repeat (constructor; [done|]). done.
  - unfold max_strings in Hn. cbn in Hn. int_lia.
Qed.

(** ** The codec *)

Lemma cbor_roundtrip_fits e : event_typed e ->
  Z.of_nat (length (pe_FraudRules e)) <= max_strings ->
  exists raw, CBORCodec_Marshal e = Ret raw /\ CBORCodec_Unmarshal raw = Ret e.
Proof.
  intros Ht Hn. destruct (cbor_marshal_parses e Ht Hn) as (raw & Em & Hp).
  exists raw. split; [done|]. by apply decode_all_parses.
Qed.

(** C38: the CBOR codec gives every event back, negative integers included. On any
    input, decoding returns, fails, or panics in the [make] of the rule array; what it
    returns encodes and decodes to itself. *)
Theorem cbor_exact e raw :
  event_typed e -> Z.of_nat (length (pe_FraudRules e)) <= max_strings ->
  bytes_len raw <= max_int64 ->
  obind (CBORCodec_Marshal e) CBORCodec_Unmarshal = Ret e /\
  match CBORCodec_Unmarshal raw with
  | Ret e' => event_typed e' /\ obind (CBORCodec_Marshal e') CBORCodec_Unmarshal = Ret e'
  | Fails _ => True
  | Panics msg => msg = "makeslice: cap out of range"
  end.
Proof.
  assert (Hrt : forall e, event_typed e -> Z.of_nat (length (pe_FraudRules e)) <= max_strings ->
    obind (CBORCodec_Marshal e) CBORCodec_Unmarshal = Ret e).
  { intros e0 Ht Hn. destruct (cbor_roundtrip_fits e0 Ht Hn) as (r & -> & E). exact E. }
  intros Ht Hn Hraw. split; [by apply Hrt|].
  pose proof (ok_decode cap_panic _ _ "cbor trailing bytes " raw cbor_event_ok Hraw) as H.
  unfold CBORCodec_Unmarshal at 1. destruct (decode_all _ _ _); [|done|exact H].
  destruct H. auto.
Qed.

(** A message of 24 bytes, an array of 15 whose strings are empty and whose integers
    are zero and whose rule array announces 2^64 - 1 elements, makes the decoder panic
    instead of reporting an error. *)
Definition crafted_message : list byte :=
  appendCBORArray [] paymentEventFieldCount ++ replicate 6 (z2b 0x60) ++
  replicate 2 (z2b 0x00) ++ replicate 5 (z2b 0x60) ++ [z2b 0x00] ++
  appendCBORMajor [] 4 (2^64 - 1).

Theorem cbor_panics_on_crafted_length :
  bytes_len crafted_message = 24 /\
  CBORCodec_Unmarshal crafted_message = Panics "makeslice: cap out of range".
Proof. by split; vm_compute. Qed.

#[export] Instance CBORCodec_Laws :
  CodecLaws CBORCodec (fun e => event_typed e /\
    Z.of_nat (length (pe_FraudRules e)) <= max_strings) id.
Proof. split; [|done]. intros e [Ht Hn]. by apply cbor_roundtrip_fits. Qed.
