(* ===== verification/ProfileCache.v ===== *)
(** * The participant profile cache codecs ([internal/codec/cache.go])

    A cached DICT profile, its validation before it is written, and its
    MessagePack and CBOR encodings. *)

From S2P Require Import Prelude GoStrings Wire PaymentEvent MsgPack Cbor.
Local Open Scope wire_scope.

Definition participantProfileFieldCount : Z := 6.

Record ParticipantProfileCache := mkParticipantProfileCache {
  pp_ReceiverID : string;
  pp_BankISPB : string;
  pp_Name : string;
  pp_RiskSignal : Z;
  pp_ResolvedAtUnixNano : Z;
  pp_ExpiresAtUnixNano : Z
}.

Definition validateParticipantProfileCache (profile : ParticipantProfileCache) : option error :=
  let invalid msg := Some (Errorf ErrInvalidParticipantProfileCache msg) in
  if pp_ReceiverID profile ==s "" then invalid "receiver_id is required"
  else if pp_BankISPB profile ==s "" then invalid "bank_ispb is required"
  else if pp_RiskSignal profile <? 0 then invalid "risk_signal must be non-negative"
  else if pp_ResolvedAtUnixNano profile <? 0 then
    invalid "resolved_at_unix_nano must be non-negative"
  else if pp_ExpiresAtUnixNano profile <=? 0 then
    invalid "expires_at_unix_nano is required"
  else if pp_ExpiresAtUnixNano profile <=? pp_ResolvedAtUnixNano profile then
    invalid "expires_at_unix_nano must be after resolved_at_unix_nano"
  else None.

Definition SampleParticipantProfileCache : ParticipantProfileCache := {|
  pp_ReceiverID := "dict_receiver_123";
  pp_BankISPB := "10000000";
  pp_Name := "Recebedor PixRail";
  pp_RiskSignal := 12;
  pp_ResolvedAtUnixNano := 1780228800000000000;
  pp_ExpiresAtUnixNano := 1780232400000000000 |}.

(** ** MessagePack *)

Definition ParticipantProfileMsgPackCodec_Marshal (profile : ParticipantProfileCache)
    : outcome (list byte) :=
  match validateParticipantProfileCache profile with
  | Some err => Fails err
  | None =>
      let out := [z2b 0xdc; z2b 0x00; z2b participantProfileFieldCount] in
      let out := appendMsgPackString out (pp_ReceiverID profile) in
      let out := appendMsgPackString out (pp_BankISPB profile) in
      let out := appendMsgPackString out (pp_Name profile) in
      let out := appendMsgPackInt64 out (pp_RiskSignal profile) in
      let out := appendMsgPackInt64 out (pp_ResolvedAtUnixNano profile) in
      let out := appendMsgPackInt64 out (pp_ExpiresAtUnixNano profile) in
      Ret out
  end.

Definition msgpack_profile : Reader ParticipantProfileCache :=
  count <- msgPackReader_readArrayLen;;
  if negb (count =? participantProfileFieldCount) then
    rfail (plain_error ("participant profile msgpack field count " +:+ Itoa count))
  else
    receiverID <- msgPackReader_readString;;
    bankISPB <- msgPackReader_readString;;
    name <- msgPackReader_readString;;
    risk <- msgPackReader_readInt64;;
    resolvedAt <- msgPackReader_readInt64;;
    expiresAt <- msgPackReader_readInt64;;
    rret (mkParticipantProfileCache receiverID bankISPB name (int64 risk) resolvedAt expiresAt).

Definition ParticipantProfileMsgPackCodec_Unmarshal (raw : list byte)
    : outcome ParticipantProfileCache :=
  decode_all msgpack_profile "participant profile msgpack trailing bytes " raw.

(** ** CBOR *)

Definition ParticipantProfileCBORCodec_Marshal (profile : ParticipantProfileCache)
    : outcome (list byte) :=
  match validateParticipantProfileCache profile with
  | Some err => Fails err
  | None =>
      let out := appendCBORArray [] participantProfileFieldCount in
      let out := appendCBORText out (pp_ReceiverID profile) in
      let out := appendCBORText out (pp_BankISPB profile) in
      let out := appendCBORText out (pp_Name profile) in
      let out := appendCBORUint out (uint64 (pp_RiskSignal profile)) in
      let out := appendCBORUint out (uint64 (pp_ResolvedAtUnixNano profile)) in
      let out := appendCBORUint out (uint64 (pp_ExpiresAtUnixNano profile)) in
      Ret out
  end.

Definition cbor_profile : Reader ParticipantProfileCache :=
  count <- cborReader_readArrayLen;;
  if negb (count =? participantProfileFieldCount) then
    rfail (plain_error ("participant profile cbor field count " +:+ Itoa count))
  else
    receiverID <- cborReader_readText;;
    bankISPB <- cborReader_readText;;
    name <- cborReader_readText;;
    risk <- cborReader_readUint;;
    resolvedAt <- cborReader_readUint;;
    expiresAt <- cborReader_readUint;;
    rret (mkParticipantProfileCache receiverID bankISPB name (int64 risk)
            (int64 resolvedAt) (int64 expiresAt)).

Definition ParticipantProfileCBORCodec_Unmarshal (raw : list byte)
    : outcome ParticipantProfileCache :=
  decode_all cbor_profile "participant profile cbor trailing bytes " raw.

Example profile_samples :
  obind (ParticipantProfileMsgPackCodec_Marshal SampleParticipantProfileCache)
    ParticipantProfileMsgPackCodec_Unmarshal = Ret SampleParticipantProfileCache /\
  obind (ParticipantProfileCBORCodec_Marshal SampleParticipantProfileCache)
    ParticipantProfileCBORCodec_Unmarshal = Ret SampleParticipantProfileCache.
Proof. split; vm_compute; reflexivity. Qed.

(** ** Validation *)

(** A profile that may be cached. *)
Record profile_valid (p : ParticipantProfileCache) : Prop := mkProfileValid {
  pv_receiver : pp_ReceiverID p <> "";
  pv_bank : pp_BankISPB p <> "";
  pv_risk : 0 <= pp_RiskSignal p;
  pv_times : 0 <= pp_ResolvedAtUnixNano p < pp_ExpiresAtUnixNano p
}.

(** The Go types of the fields. *)
Record profile_typed (p : ParticipantProfileCache) : Prop := mkProfileTyped {
  pt_strings : Forall (fun s => str_len s <= max_int64)
    [pp_ReceiverID p; pp_BankISPB p; pp_Name p];
  pt_ints : Forall in_int64
    [pp_RiskSignal p; pp_ResolvedAtUnixNano p; pp_ExpiresAtUnixNano p]
}.

Lemma validate_profile_spec p :
  (validateParticipantProfileCache p = None <-> profile_valid p) /\
  (forall e, validateParticipantProfileCache p = Some e ->
     errors_Is e ErrInvalidParticipantProfileCache = true).
Proof.
  unfold validateParticipantProfileCache. split.
  - split.
    + intros H. cases_in H; try done. b2p. by split; auto.
    + intros [Hr Hb Hk Ht]. apply String.eqb_neq in Hr, Hb.
      rewrite Hr, Hb, !(proj2 (Z.ltb_ge _ 0)), !(proj2 (Z.leb_gt _ _)) by lia. done.
  - intros e H. cases_in H; by simplify_eq.
Qed.

(** ** Round trips *)

Lemma msgpack_profile_parses p :
  profile_typed p -> profile_valid p ->
  Forall (fun s => str_len s < 2^16) [pp_ReceiverID p; pp_BankISPB p; pp_Name p] ->
  exists raw, ParticipantProfileMsgPackCodec_Marshal p = Ret raw /\
    parses msgpack_profile raw p.
Proof.
  intros [_ Hi] Hv Hs. destruct p as [s1 s2 s3 z1 z2 z3]. cbn in Hs, Hi.
  split_forall Hs. split_forall Hi.
  unfold ParticipantProfileMsgPackCodec_Marshal.
  rewrite (proj2 (proj1 (validate_profile_spec _)) Hv).
  eexists. split; [cbn -[appendMsgPackString appendMsgPackInt64 participantProfileFieldCount];
    reflexivity|].
  do 3 rewrite append_int64_app. do 3 rewrite msgpack_string_app.
  rewrite <- ?app_assoc. unfold msgpack_profile.
  eapply parses_bind; [apply (read_count 6); lia|].
  change (negb (6 =? participantProfileFieldCount)) with false. cbv iota.
  eapply parses_value; swap 1 2; [parse_fields|]. cbv beta. by rewrite int64_id.
Qed.

Lemma cbor_profile_parses p :
  profile_typed p -> profile_valid p ->
  exists raw, ParticipantProfileCBORCodec_Marshal p = Ret raw /\ parses cbor_profile raw p.
Proof.
  intros [Hs Hi] Hv. destruct p as [s1 s2 s3 z1 z2 z3]. cbn in Hs, Hi.
  split_forall Hs. split_forall Hi.
  unfold ParticipantProfileCBORCodec_Marshal.
  rewrite (proj2 (proj1 (validate_profile_spec _)) Hv).
  eexists. split; [cbn -[appendCBORText appendCBORUint appendCBORArray
    participantProfileFieldCount uint64]; reflexivity|].
  unfold appendCBORUint. do 3 rewrite append_major_app. do 3 rewrite append_text_app.
  repeat change (appendCBORMajor [] 0 ?x) with (appendCBORUint [] x).
  rewrite <- ?app_assoc. unfold cbor_profile.
  eapply parses_bind; [apply read_array; done|].
  change (negb (participantProfileFieldCount =? participantProfileFieldCount)) with false.
  cbv iota. eapply parses_value; swap 1 2; [parse_fields|]. cbv beta.
  by rewrite !int64_uint64.
Qed.

(** Neither decoder panics. *)
Lemma ok_msgpack_profile : reader_ok (fun _ => False) msgpack_profile profile_typed.
Proof.
  unfold msgpack_profile. eapply ok_bind; [apply msgpack_array_len_ok|]. intros n _.
  ok_step; [ok_step|].
  do 3 (eapply ok_bind; [apply ok_string|]; intros ? ?).
  do 3 (eapply ok_bind; [apply ok_int64|]; intros ? ?). ok_step.
  split; cbn; repeat (constructor; [first [done|apply int64_range|cbn in *; int_lia]|]);
    constructor.
Qed.

Lemma ok_cbor_profile : reader_ok (fun _ => False) cbor_profile profile_typed.
Proof.
  unfold cbor_profile. eapply ok_bind; [apply cbor_array_len_ok|]. intros n _.
  ok_step; [ok_step|].
  do 3 (eapply ok_bind; [apply ok_text|]; intros ? ?).
  do 3 (eapply ok_bind; [apply ok_uint|]; intros ? ?). ok_step.
  split; cbn; repeat (constructor; [first [done|apply int64_range]|]); constructor.
Qed.

(** Both codecs write exactly the valid profiles and refuse the others
    with the codec's error; CBOR gives every written profile back, MessagePack those
    with strings shorter than 2^16; and no input makes either decoder panic. *)
Theorem profile_codecs_roundtrip p raw :
  profile_typed p -> bytes_len raw <= max_int64 ->
  (profile_valid p ->
     obind (ParticipantProfileCBORCodec_Marshal p) ParticipantProfileCBORCodec_Unmarshal = Ret p /\
     (Forall (fun s => str_len s < 2^16) [pp_ReceiverID p; pp_BankISPB p; pp_Name p] ->
      obind (ParticipantProfileMsgPackCodec_Marshal p) ParticipantProfileMsgPackCodec_Unmarshal
        = Ret p)) /\
  (~ profile_valid p ->
     exists e, ParticipantProfileCBORCodec_Marshal p = Fails e /\
       ParticipantProfileMsgPackCodec_Marshal p = Fails e /\
       errors_Is e ErrInvalidParticipantProfileCache = true) /\
  (forall msg, ParticipantProfileCBORCodec_Unmarshal raw <> Panics msg /\
     ParticipantProfileMsgPackCodec_Unmarshal raw <> Panics msg).
Proof.
  intros Ht Hraw. split_and!.
  - intros Hv. split.
    + destruct (cbor_profile_parses p Ht Hv) as (r & -> & Hp). by apply decode_all_parses.
    + intros Hs. destruct (msgpack_profile_parses p Ht Hv Hs) as (r & -> & Hp).
      by apply decode_all_parses.
  - intros Hv. destruct (validate_profile_spec p) as [Hn He].
    unfold ParticipantProfileCBORCodec_Marshal, ParticipantProfileMsgPackCodec_Marshal.
    destruct (validateParticipantProfileCache p) as [e|]; [eauto|]. by destruct Hv; apply Hn.
  - intros msg. split; intros E.
    + pose proof (ok_decode _ _ _ "participant profile cbor trailing bytes " raw
        ok_cbor_profile Hraw) as H.
      unfold ParticipantProfileCBORCodec_Unmarshal in E. by rewrite E in H.
    + pose proof (ok_decode _ _ _ "participant profile msgpack trailing bytes " raw
        ok_msgpack_profile Hraw) as H.
      unfold ParticipantProfileMsgPackCodec_Unmarshal in E. by rewrite E in H.
Qed.
