(* ===== verification/GoStrconv.v ===== *)
(** * Packages [strings], [strconv] and [time] as the configuration uses them

    [strings.Split], [SplitN] and [HasPrefix] on one-byte separators, the decimal
    integers of [strconv] with their errors, [time.ParseDuration] and
    [Duration.String], executable. The fraction of a duration goes through
    [float64] as in Go, with the binary64 operations of the Standard Library. *)

From Stdlib Require Import Floats.SpecFloat.
From S2P Require Import Prelude GoStrings.

(** ** Strings *)

(** [strings.Split(s, c)]. *)
Fixpoint Split (c : ascii) (s : string) : list string :=
  match s with
  | EmptyString => [""]
  | String d r =>
      if Ascii.eqb d c then "" :: Split c r
      else match Split c r with
      | p :: ps => String d p :: ps
      | [] => [String d ""]
      end
  end.

(** [strings.Cut(s, c)]: what precedes the first [c], and what follows it. *)
Fixpoint Cut (c : ascii) (s : string) : string * option string :=
  match s with
  | EmptyString => ("", None)
  | String d r =>
      if Ascii.eqb d c then ("", Some r)
      else let '(a, b) := Cut c r in (String d a, b)
  end.

(** [strings.SplitN(s, c, S n)]. *)
Fixpoint SplitN (c : ascii) (s : string) (n : nat) : list string :=
  match n with
  | O => [s]
  | S m =>
      match Cut c s with
      | (a, None) => [a]
      | (a, Some r) => a :: SplitN c r m
      end
  end.

Definition HasPrefix (s prefix : string) : bool := String.prefix prefix s.

(** [strings.HasSuffix]. *)
Definition HasSuffix (s suffix : string) : bool :=
  let n := String.length s in
  let k := String.length suffix in
  (k <=? n)%nat && (String.substring (n - k) k s ==s suffix).

(** [strings.TrimPrefix]. *)
Definition TrimPrefix (s prefix : string) : string :=
  if HasPrefix s prefix
  then String.substring (String.length prefix) (String.length s - String.length prefix) s
  else s.

(** [strconv.Quote] on its ASCII path; a string with other bytes goes to
    [unicode_quote], which depends on the tables of package [unicode]. *)
Definition quote_char (c : ascii) : string :=
  let z := code c in
  let esc (d : string) := String "\" d in
  if (z =? 34) || (z =? 92) then esc (String c "")
  else if z =? 7 then esc "a" else if z =? 8 then esc "b" else if z =? 12 then esc "f"
  else if z =? 10 then esc "n" else if z =? 13 then esc "r" else if z =? 9 then esc "t"
  else if z =? 11 then esc "v"
  else if (z <? 32) || (z =? 127) then esc ("x" +:+ hex_EncodeToString [z2b z])
  else String c "".

Definition dquote : string := String (ascii_of_nat 34) "".

Definition quote_ascii (s : string) : string :=
  dquote +:+ String.concat "" (map quote_char (list_ascii_of_string s)) +:+ dquote.

Definition Quote (unicode_quote : string -> string) (s : string) : string :=
  if is_ascii s then quote_ascii s else unicode_quote s.

(** ** Integers *)

Definition is_digit (c : ascii) : bool := (48 <=? code c) && (code c <=? 57).
Definition digit_value (c : ascii) : Z := code c - 48.

(** The two errors of [strconv]. *)
Inductive num_error : Set := ErrSyntax | ErrRange.
Definition num_error_text (e : num_error) : string :=
  match e with ErrSyntax => "invalid syntax" | ErrRange => "value out of range" end.

(** The loop of [strconv.ParseUint(s, 10, 64)]. *)
Fixpoint parse_uint_loop (n : Z) (s : string) : Z + num_error :=
  match s with
  | EmptyString => inl n
  | String c r =>
      if negb (is_digit c) then inr ErrSyntax
      else if 2^64 / 10 + 1 <=? n then inr ErrRange
      else
        let n1 := n * 10 + digit_value c in
        if 2^64 <=? n1 then inr ErrRange else parse_uint_loop n1 r
  end.

Definition parse_uint (s : string) : Z + num_error :=
  match s with EmptyString => inr ErrSyntax | _ => parse_uint_loop 0 s end.

(** [strconv.ParseInt(s, 10, 64)], and [strconv.Atoi] up to the name in its error. *)
Definition parse_int (s : string) : Z + num_error :=
  let '(neg, digits) :=
    match s with
    | String c r =>
        if code c =? 45 then (true, r) else if code c =? 43 then (false, r) else (false, s)
    | EmptyString => (false, s)
    end in
  match parse_uint digits with
  | inr e => inr e
  | inl un =>
      if negb neg && (2^63 <=? un) then inr ErrRange
      else if neg && (2^63 <? un) then inr ErrRange
      else inl (if neg then - un else un)
  end.

(** ** binary64 *)

Definition float64 := spec_float.
Definition fl_mul : float64 -> float64 -> float64 := SFmul 53 1024.
Definition fl_div : float64 -> float64 -> float64 := SFdiv 53 1024.
Definition fl_add : float64 -> float64 -> float64 := SFadd 53 1024.

(** [float64(z)]. *)
Definition fl_of_Z (z : Z) : float64 := binary_normalize 53 1024 z 0 false.

(** The integer part of a non-negative finite value: [int(x)] in its range. *)
Definition fl_trunc (x : float64) : Z :=
  match x with
  | S754_finite s m e =>
      let v := if 0 <=? e then Zpos m * 2 ^ e else Zpos m / 2 ^ (- e) in
      if s then - v else v
  | _ => 0
  end.

(** ** Durations *)

(** The quoting of package [time]: bytes outside printable ASCII as [\xNN]. *)
Definition time_quote_char (c : ascii) : string :=
  let z := code c in
  if (128 <=? z) || (z <? 32) then String "\" ("x" +:+ hex_EncodeToString [z2b z])
  else if (z =? 34) || (z =? 92) then String "\" (String c "")
  else String c "".
Definition time_quote (s : string) : string :=
  dquote +:+ String.concat "" (map time_quote_char (list_ascii_of_string s)) +:+ dquote.

(** [leadingInt]: [None] on overflow. *)
Fixpoint leadingInt (x : Z) (s : string) : option (Z * string) :=
  match s with
  | String c r =>
      if negb (is_digit c) then Some (x, s)
      else if 2^63 / 10 <? x then None
      else
        let x1 := x * 10 + digit_value c in
        if 2^63 <? x1 then None else leadingInt x1 r
  | EmptyString => Some (x, s)
  end.

(** [leadingFraction]: digits, scale and the rest; digits past an overflow are skipped. *)
Fixpoint leadingFraction (x scale : Z) (overflow : bool) (s : string) : Z * Z * string :=
  match s with
  | String c r =>
      if negb (is_digit c) then (x, scale, s)
      else if overflow then leadingFraction x scale true r
      else if (2^63 - 1) / 10 <? x then leadingFraction x scale true r
      else
        let y := x * 10 + digit_value c in
        if 2^63 <? y then leadingFraction x scale true r
        else leadingFraction y (scale * 10) false r
  | EmptyString => (x, scale, s)
  end.

(** The unit in front: everything up to a dot or a digit. *)
Fixpoint leading_unit (s : string) : string * string :=
  match s with
  | String c r =>
      if (code c =? 46) || is_digit c then ("", s)
      else let '(u, rest) := leading_unit r in (String c u, rest)
  | EmptyString => ("", "")
  end.

(** [unitMap], with both Unicode spellings of the micro sign. *)
Definition micro_sign (a b : Z) : string :=
  String (ascii_of_N (Z.to_N a)) (String (ascii_of_N (Z.to_N b)) "s").
Definition unitMap (u : string) : option Z :=
  if u ==s "ns" then Some Nanosecond
  else if u ==s "us" then Some Microsecond
  else if u ==s micro_sign 0xC2 0xB5 then Some Microsecond
  else if u ==s micro_sign 0xCE 0xBC then Some Microsecond
  else if u ==s "ms" then Some Millisecond
  else if u ==s "s" then Some Second
  else if u ==s "m" then Some Minute
  else if u ==s "h" then Some (60 * Minute)
  else None.

(** One term of a duration: its nanoseconds and the rest; [v] and [f] as in Go. *)
Definition duration_term (orig s : string) : result (Z * string) :=
  let invalid := mkError None ("time: invalid duration " +:+ time_quote orig) in
  match s with
  | EmptyString => Err invalid
  | String c0 _ =>
      if negb ((code c0 =? 46) || is_digit c0) then Err invalid
      else match leadingInt 0 s with
      | None => Err invalid
      | Some (v, s1) =>
          let pre := negb (String.length s =? String.length s1)%nat in
          let '(f, scale, s2, post) :=
            match s1 with
            | String c r =>
                if code c =? 46 then
                  let '(f, scale, s2) := leadingFraction 0 1 false r in
                  (f, scale, s2, negb (String.length r =? String.length s2)%nat)
                else (0, 1, s1, false)
            | EmptyString => (0, 1, s1, false)
            end in
          if negb pre && negb post then Err invalid
          else
            let '(u, rest) := leading_unit s2 in
            if u ==s "" then
              Err (mkError None ("time: missing unit in duration " +:+ time_quote orig))
            else match unitMap u with
            | None => Err (mkError None ("time: unknown unit " +:+ time_quote u +:+
                                         " in duration " +:+ time_quote orig))
            | Some unit =>
                if 2^63 / unit <? v then Err invalid
                else
                  let v := v * unit in
                  let v := if 0 <? f then
                             v + fl_trunc (fl_mul (fl_of_Z f)
                                             (fl_div (fl_of_Z unit) (fl_of_Z scale)))
                           else v in
                  if 2^63 <? v then Err invalid else Ok (v, rest)
            end
      end
  end.

(** The loop [for s != ""], at most [n] terms. *)
Fixpoint duration_loop (n : nat) (orig s : string) (d : Z) : result Z :=
  match n with
  | O => Ok d
  | S m =>
      if s ==s "" then Ok d
      else match duration_term orig s with
      | Err e => Err e
      | Ok (v, rest) =>
          let d := uint64 (d + v) in
          if 2^63 <? d then Err (mkError None ("time: invalid duration " +:+ time_quote orig))
          else duration_loop m orig rest d
      end
  end.

(** [time.ParseDuration]. *)
Definition ParseDuration (s : string) : result Duration :=
  let invalid := mkError None ("time: invalid duration " +:+ time_quote s) in
  let '(neg, body) :=
    match s with
    | String c r =>
        if code c =? 45 then (true, r) else if code c =? 43 then (false, r) else (false, s)
    | EmptyString => (false, s)
    end in
  if body ==s "0" then Ok 0
  else if body ==s "" then Err invalid
  else
    d <-? duration_loop (String.length body) s body 0;
    if neg then Ok (- d)
    else if 2^63 - 1 <? d then Err invalid else Ok d.

(** [fmtFrac]: the last [prec] decimal digits of [v] without trailing zeros, after a
    dot, and the digits before them. *)
Fixpoint fmt_frac (prec : nat) (v : Z) (suffix : string) (print : bool) : string * Z :=
  match prec with
  | O => ((if print then "." else "") +:+ suffix, v)
  | S m =>
      let digit := v mod 10 in
      let print := print || negb (digit =? 0) in
      let suffix := if print then String (hex_digit digit) suffix else suffix in
      fmt_frac m (v / 10) suffix print
  end.

(** [Duration.String]. *)
Definition Duration_String (d : Duration) : string :=
  let u := Z.abs d in
  let sign := if d <? 0 then "-" else "" in
  if u =? 0 then "0s"
  else if u <? Second then
    let '(prec, unit) :=
      if u <? Microsecond then (O, "ns")
      else if u <? Millisecond then (3%nat, micro_sign 0xC2 0xB5)
      else (6%nat, "ms") in
    let '(frac, v) := fmt_frac prec u "" false in
    sign +:+ Itoa v +:+ frac +:+ unit
  else
    let '(frac, secs) := fmt_frac 9 u "" false in
    let s := Itoa (secs mod 60) +:+ frac +:+ "s" in
    let m := secs / 60 in
    if m =? 0 then sign +:+ s
    else
      let s := Itoa (m mod 60) +:+ "m" +:+ s in
      let h := m / 60 in
      if h =? 0 then sign +:+ s else sign +:+ Itoa h +:+ "h" +:+ s.

(** ** Examples *)

Example parse_durations :
  map ParseDuration ["300ms"; "5m"; "1.5h"; "1h30m0.25s"; "-2us"; "0"] =
  map Ok [300 * Millisecond; 5 * Minute; 90 * Minute; 90 * Minute + 250 * Millisecond;
          - 2 * Microsecond; 0].
Proof. vm_compute. reflexivity. Qed.

Example parse_duration_errors :
  map (fun s => err_of (ParseDuration s)) ["5"; "1d"; ".s"; ""] =
  map (fun m => Some (mkError None m))
    ["time: missing unit in duration " +:+ dquote +:+ "5" +:+ dquote;
     "time: unknown unit " +:+ dquote +:+ "d" +:+ dquote +:+ " in duration " +:+
       dquote +:+ "1d" +:+ dquote;
     "time: invalid duration " +:+ dquote +:+ ".s" +:+ dquote;
     "time: invalid duration " +:+ dquote +:+ dquote].
Proof. vm_compute. reflexivity. Qed.

Example print_durations :
  map Duration_String [1; 1500; 300 * Millisecond; 90 * Minute; 5 * Second + 250 * Millisecond] =
  ["1ns"; "1.5" +:+ micro_sign 0xC2 0xB5; "300ms"; "1h30m0s"; "5.25s"].
Proof. vm_compute. reflexivity. Qed.

(** ** Splitting *)

Lemma Split_nonempty c s : Split c s <> [].
Proof. destruct s as [|d r]; cbn; [done|]. destruct (Ascii.eqb d c); [done|]. by destruct (Split c r). Qed.

Lemma Split_free c p : has_char c p = false -> Split c p = [p].
Proof.
  induction p as [|d p IH]; intros H; [done|]. rewrite has_char_cons in H. b2p. cbn.
  rewrite Ascii.eqb_sym. match goal with E : Ascii.eqb c d = false |- _ => rewrite E end.
  by rewrite IH.
Qed.

Lemma Split_cons c p r :
  has_char c p = false -> Split c (p +:+ String c r) = p :: Split c r.
Proof.
  induction p as [|d p IH]; intros H.
  { change ("" +:+ ?x) with x. cbn. by rewrite Ascii.eqb_refl. }
  change (String d p +:+ ?x) with (String d (p +:+ x)). cbn.
  rewrite has_char_cons in H. b2p. rewrite Ascii.eqb_sym.
  match goal with E : Ascii.eqb c d = false |- _ => rewrite E end. by rewrite IH.
Qed.

(** Splitting undoes joining. *)
Lemma Split_Join c ps :
  ps <> [] -> Forall (fun p => has_char c p = false) ps ->
  Split c (Join (String c "") ps) = ps.
Proof.
  intros Hne H. induction H as [|p ps Hp Hps IH]; [done|].
  destruct ps as [|p' ps]; [by apply Split_free|].
  change (Join (String c "") (p :: p' :: ps)) with
    (p +:+ String c (Join (String c "") (p' :: ps))).
  rewrite Split_cons by done. by rewrite IH.
Qed.

Lemma Cut_free c p : has_char c p = false -> Cut c p = (p, None).
Proof.
  induction p as [|d p IH]; intros H; [done|]. rewrite has_char_cons in H. b2p. cbn.
  rewrite Ascii.eqb_sym. match goal with E : Ascii.eqb c d = false |- _ => rewrite E end.
  by rewrite IH.
Qed.

Lemma Cut_cons c p r : has_char c p = false -> Cut c (p +:+ String c r) = (p, Some r).
Proof.
  induction p as [|d p IH]; intros H.
  { change ("" +:+ ?x) with x. cbn. by rewrite Ascii.eqb_refl. }
  change (String d p +:+ ?x) with (String d (p +:+ x)). cbn.
  rewrite has_char_cons in H. b2p. rewrite Ascii.eqb_sym.
  match goal with E : Ascii.eqb c d = false |- _ => rewrite E end. by rewrite IH.
Qed.

(** What precedes a cut is free of the separator; without a separator it is all. *)
Lemma Cut_inv c s a o : Cut c s = (a, o) ->
  has_char c a = false /\ (o = None -> a = s).
Proof.
  revert a. induction s as [|d s IH]; intros a E; cbn in E; [by simplify_eq|].
  destruct (Ascii.eqb d c) eqn:Ed; [by simplify_eq|].
  destruct (Cut c s) as [a' o'] eqn:Ec. simplify_eq.
  destruct (IH a' eq_refl) as [Hf Hn]. split.
  - rewrite has_char_cons, Ascii.eqb_sym, Ed. done.
  - intros ->. by rewrite Hn.
Qed.

Lemma SplitN_free c p n : has_char c p = false -> SplitN c p n = [p].
Proof. intros H. destruct n as [|n]; [done|]. cbn. by rewrite Cut_free. Qed.

Lemma SplitN_cons c p r n :
  has_char c p = false -> SplitN c (p +:+ String c r) (S n) = p :: SplitN c r n.
Proof. intros H. cbn. by rewrite Cut_cons. Qed.

(** ** Trimming *)

(** Trimming drops characters only. *)
Lemma TrimSpace_has_char c s : has_char c s = false -> has_char c (TrimSpace s) = false.
Proof.
  assert (Hin : forall l l', (forall x, In x l' -> In x l) ->
    existsb (Ascii.eqb c) l = false -> existsb (Ascii.eqb c) l' = false).
  { intros l l' Hl H. apply not_true_iff_false. rewrite existsb_exists.
    intros (x & Hx & Ex). apply not_true_iff_false in H. apply H. rewrite existsb_exists. eauto. }
  unfold has_char, TrimSpace. rewrite list_ascii_of_string_of_list_ascii.
  apply Hin. intros x Hx. rewrite <- in_rev in Hx.
  destruct (trim_suffix space1 (fun b a => space2 a b) (fun c b a => space3 a b c)
    (rev (trim_left (list_ascii_of_string s)))) as [p Hp].
  fold trim_right_rev in Hp.
  assert (Hx1 : In x (trim_left (list_ascii_of_string s))).
  { rewrite in_rev, Hp. apply in_or_app. by right. }
  destruct (trim_suffix space1 space2 space3 (list_ascii_of_string s)) as [p' Hp'].
  fold trim_left in Hp'. rewrite Hp'. apply in_or_app. by right.
Qed.

(** A string of visible ASCII characters. *)
Definition visible (s : string) : bool :=
  forallb (fun c => (32 <? code c) && (code c <? 128)) (list_ascii_of_string s).

Lemma trim_visible l : forallb (fun c => (32 <? code c) && (code c <? 128)) l = true ->
  trim_left l = l /\ trim_right_rev l = l.
Proof.
  intros H. destruct l as [|a l]; [done|]. cbn in H. b2p.
  assert (N : forall z, 0xC2 <= z -> (code a =? z) = false)
    by (intros z Hz; apply Z.eqb_neq; lia).
  assert (N2 : forall z, 128 <= z -> (code a =? z) = false)
    by (intros z Hz; apply Z.eqb_neq; lia).
  assert (S1 : space1 a = false).
  { unfold space1. rewrite (proj2 (Z.leb_gt (code a) 13)), andb_false_r by lia.
    apply Z.eqb_neq. lia. }
  assert (R2 : forall b, space2 b a = false)
    by (intros b; unfold space2; rewrite !N2 by lia; by rewrite andb_false_r).
  assert (R3 : forall b c, space3 c b a = false).
  { intros b c. unfold space3.
    rewrite !N2, (proj2 (Z.leb_gt 128 (code a))) by lia. cbn.
    by rewrite !andb_false_r. }
  assert (L2 : forall b, space2 a b = false) by (intros; unfold space2; by rewrite N).
  assert (L3 : forall b c, space3 a b c = false) by (intros; unfold space3; by rewrite !N).
  split; unfold trim_left, trim_right_rev; cbn; rewrite S1;
    destruct l as [|b [|c l]]; rewrite ?L2, ?L3, ?R2, ?R3; done.
Qed.

Lemma TrimSpace_visible_id s : visible s = true -> TrimSpace s = s.
Proof.
  unfold visible, TrimSpace. intros H.
  rewrite (proj1 (trim_visible _ H)).
  assert (Hr : forallb (fun c => (32 <? code c) && (code c <? 128))
    (rev (list_ascii_of_string s)) = true).
  { apply forallb_forall. intros x Hx. rewrite <- in_rev in Hx.
    by apply (proj1 (forallb_forall _ _) H). }
  rewrite (proj2 (trim_visible _ Hr)), rev_involutive.
  apply string_of_list_ascii_of_string.
Qed.

Lemma visible_app a b : visible (a +:+ b) = visible a && visible b.
Proof.
  unfold visible. induction a as [|c a IH]; [done|].
  change (String c a +:+ b) with (String c (a +:+ b)).
  cbn [list_ascii_of_string forallb] in *. by rewrite IH, andb_assoc.
Qed.

Lemma visible_Join sep ps :
  visible sep = true -> Forall (fun p => visible p = true) ps ->
  visible (Join sep ps) = true.
Proof.
  intros Hs H. induction H as [|p ps Hp Hps IH]; [done|].
  destruct ps as [|p' ps]; [done|].
  change (Join sep (p :: p' :: ps)) with (p +:+ sep +:+ Join sep (p' :: ps)).
  by rewrite !visible_app, Hp, Hs, IH.
Qed.

Lemma has_char_app c a b : has_char c (a +:+ b) = has_char c a || has_char c b.
Proof.
  induction a as [|d a IH]; [done|].
  change (String d a +:+ b) with (String d (a +:+ b)).
  by rewrite !has_char_cons, IH, orb_assoc.
Qed.

Lemma has_char_Join c sep ps :
  has_char c sep = false -> Forall (fun p => has_char c p = false) ps ->
  has_char c (Join sep ps) = false.
Proof.
  intros Hs H. induction H as [|p ps Hp Hps IH]; [done|]. destruct ps as [|p' ps]; [done|].
  change (Join sep (p :: p' :: ps)) with (p +:+ sep +:+ Join sep (p' :: ps)).
  by rewrite !has_char_app, Hp, Hs, IH.
Qed.

Lemma Join_nonempty sep p ps : p <> "" -> Join sep (p :: ps) <> "".
Proof. intros Hp. destruct p as [|c p]; [done|]. by destruct ps. Qed.

(** ** Decimal integers *)

(** A parsed integer fits an [int64]. *)
Lemma parse_int_range s z : parse_int s = inl z -> in_int64 z.
Proof.
  assert (Hpos : forall n s z, 0 <= n -> parse_uint_loop n s = inl z -> 0 <= z).
  { intros n s0. revert n. induction s0 as [|c r IH]; intros n z0 Hn E; cbn in E; [by simplify_eq|].
    destruct (is_digit c) eqn:Hd; [|done]. destruct (_ <=? n); [done|]. cbn in E.
    unfold is_digit, digit_value in *. b2p. destruct (_ <=? _) in E; [done|].
    eapply IH; [|exact E]. lia. }
  unfold parse_int. destruct (match s with "" => _ | _ => _ end) as [neg d].
  destruct (parse_uint d) as [un|] eqn:Eu; [|done].
  assert (H0 : 0 <= un).
  { unfold parse_uint in Eu. destruct d; [done|]. by eapply (Hpos 0). }
  intros E. destruct neg; cbn [negb andb] in E; cases_in E; simplify_eq; b2p; int_lia.
Qed.
