(* ===== verification/JsonDecode.v ===== *)
(** * Package [encoding/json], decoding

    The values of JSON text and the reading of struct fields from them, as
    [json.Decoder.Decode] and [json.Unmarshal] do for the request bodies of the API:
    the grammar with its nesting limit, string escapes with surrogate pairs, invalid
    UTF-8 replaced, field names matched exactly or up to case, [null] ignored. The
    parser runs on a bound, two calls per byte of the input. A string that
    [encoding/json] writes reads back ([unquote_escape]). *)

From S2P Require Import Prelude GoStrings GoStrconv Events.

(** ** Values *)

Inductive jvalue : Type :=
  | VNull
  | VBool (b : bool)
  | VNumber (literal : string)
  | VString (s : string)
  | VArray (l : list jvalue)
  | VObject (members : list (string * jvalue)).

(** ** Strings *)

(** The UTF-8 encoding of a code point. *)
Definition chr (z : Z) : ascii := ascii_of_N (Z.to_N z).
Definition utf8_encode (r : Z) : string :=
  if r <? 0x80 then String (chr r) ""
  else if r <? 0x800 then
    String (chr (0xC0 + r / 64)) (String (chr (0x80 + r mod 64)) "")
  else if r <? 0x10000 then
    String (chr (0xE0 + r / 4096)) (String (chr (0x80 + r / 64 mod 64))
      (String (chr (0x80 + r mod 64)) ""))
  else
    String (chr (0xF0 + r / 262144)) (String (chr (0x80 + r / 4096 mod 64))
      (String (chr (0x80 + r / 64 mod 64)) (String (chr (0x80 + r mod 64)) ""))).

(** U+FFFD. *)
Definition replacement : string := utf8_encode 0xFFFD.

Definition hex_value (c : ascii) : option Z :=
  let z := code c in
  if is_digit c then Some (z - 48)
  else if (97 <=? z) && (z <=? 102) then Some (z - 87)
  else if (65 <=? z) && (z <=? 70) then Some (z - 55)
  else None.

(** The four hexadecimal digits in front. *)
Definition get_hex4 (s : string) : option Z :=
  match s with
  | String a (String b (String c (String d _))) =>
      match hex_value a, hex_value b, hex_value c, hex_value d with
      | Some a, Some b, Some c, Some d => Some (a * 4096 + b * 256 + c * 16 + d)
      | _, _, _, _ => None
      end
  | _ => None
  end.

(** The string without its first [n] bytes. *)
Fixpoint str_drop (n : nat) (s : string) : string :=
  match n, s with
  | S m, String _ r => str_drop m r
  | _, _ => s
  end.

(** The [\uXXXX] in front, after a surrogate. *)
Definition get_escape4 (s : string) : option Z :=
  match s with
  | String b (String u r) => if (code b =? 92) && (code u =? 117) then get_hex4 r else None
  | _ => None
  end.

(** The text of [\u] with the value [r], and how many further bytes it takes: a pair
    of surrogates makes one rune, a lone one is replaced. *)
Definition escape_rune (r : Z) (rest : string) : string * nat :=
  if (0xD800 <=? r) && (r <? 0xE000) then
    match get_escape4 rest with
    | Some r2 =>
        if (r <? 0xDC00) && (0xDC00 <=? r2) && (r2 <? 0xE000) then
          (utf8_encode ((r - 0xD800) * 1024 + (r2 - 0xDC00) + 0x10000), 6%nat)
        else (replacement, O)
    | None => (replacement, O)
    end
  else (utf8_encode r, O).

Definition simple_escape (c : ascii) : option string :=
  let z := code c in
  if (z =? 34) || (z =? 92) || (z =? 47) then Some (String c "")
  else if z =? 98 then Some (String (chr 8) "")
  else if z =? 102 then Some (String (chr 12) "")
  else if z =? 110 then Some (String (chr 10) "")
  else if z =? 114 then Some (String (chr 13) "")
  else if z =? 116 then Some (String (chr 9) "")
  else None.

Definition prepend (p : string) (r : option (string * string)) : option (string * string) :=
  match r with Some (s, rest) => Some (p +:+ s, rest) | None => None end.

(** A string after its opening quote: the decoded text and what follows the closing
    quote. [skip] bytes are dropped, then [copy] bytes of a multi-byte rune copied. *)
Fixpoint unquote (skip copy : nat) (s : string) : option (string * string) :=
  match s with
  | EmptyString => None
  | String c r =>
      match skip, copy with
      | S k, _ => unquote k copy r
      | O, S k => prepend (String c "") (unquote 0 k r)
      | O, O =>
          if code c =? 34 then Some ("", r)
          else if code c <? 32 then None
          else if code c =? 92 then
            match r with
            | EmptyString => None
            | String e r1 =>
                if code e =? 117 then
                  match get_hex4 r1 with
                  | Some x =>
                      let '(text, more) := escape_rune x (str_drop 4 r1) in
                      prepend text (unquote (4 + more) 0 r1)
                  | None => None
                  end
                else match simple_escape e with
                | Some text => prepend text (unquote 0 0 r1)
                | None => None
                end
            end
          else if code c <? 128 then prepend (String c "") (unquote 0 0 r)
          else match rune_size s with
          | O => prepend replacement (unquote 0 0 r)
          | S n => prepend (String c "") (unquote 0 n r)
          end
      end
  end.

(** ** Numbers *)

Fixpoint span_digits (s : string) : string * string :=
  match s with
  | String c r =>
      if is_digit c then let '(a, b) := span_digits r in (String c a, b) else ("", s)
  | EmptyString => ("", "")
  end.

(** The integer part: a zero, or digits that do not start with one. *)
Definition number_int (s : string) : option (string * string) :=
  match s with
  | String c r =>
      if code c =? 48 then Some (String c "", r)
      else if is_digit c then let '(a, b) := span_digits r in Some (String c a, b)
      else None
  | EmptyString => None
  end.

(** The fraction: nothing, or a dot and digits. *)
Definition number_frac (s : string) : option (string * string) :=
  match s with
  | String c r =>
      if code c =? 46 then
        let '(a, b) := span_digits r in
        if a ==s "" then None else Some (String c a, b)
      else Some ("", s)
  | EmptyString => Some ("", s)
  end.

(** The exponent: nothing, or an e, a sign or none, and digits. *)
Definition number_exp (s : string) : option (string * string) :=
  match s with
  | String c r =>
      if (code c =? 101) || (code c =? 69) then
        let '(sign, r) :=
          match r with
          | String d r' => if (code d =? 43) || (code d =? 45) then (String d "", r') else ("", r)
          | EmptyString => ("", r)
          end in
        let '(a, b) := span_digits r in
        if a ==s "" then None else Some (String c (sign +:+ a), b)
      else Some ("", s)
  | EmptyString => Some ("", s)
  end.

Definition parse_number (s : string) : option (string * string) :=
  let '(sign, r) :=
    match s with
    | String c r => if code c =? 45 then (String c "", r) else ("", s)
    | EmptyString => ("", s)
    end in
  match number_int r with
  | None => None
  | Some (i, r) =>
      match number_frac r with
      | None => None
      | Some (f, r) =>
          match number_exp r with
          | None => None
          | Some (e, r) => Some (sign +:+ i +:+ f +:+ e, r)
          end
      end
  end.

(** ** Values *)

Definition is_space (c : ascii) : bool :=
  (code c =? 32) || (code c =? 9) || (code c =? 10) || (code c =? 13).

Fixpoint skip_space (s : string) : string :=
  match s with
  | String c r => if is_space c then skip_space r else s
  | EmptyString => ""
  end.

(** The byte in front after white space, and what follows. *)
Definition next_byte (s : string) : option (Z * string) :=
  match skip_space s with
  | String c r => Some (code c, r)
  | EmptyString => None
  end.

(** [literal] in front, as value [v]. *)
Definition expect (literal s : string) (v : jvalue) : option (jvalue * string) :=
  if HasPrefix s literal then Some (v, str_drop (String.length literal) s) else None.

Definition maxNestingDepth : Z := 10000.

(** A value and what follows it; [depth] objects and arrays are open. *)
Fixpoint parse_value (n : nat) (depth : Z) (s : string) : option (jvalue * string) :=
  match n with
  | O => None
  | S n =>
      match next_byte s with
      | None => None
      | Some (c, r) =>
          if c =? 34 then
            match unquote 0 0 r with Some (t, r) => Some (VString t, r) | None => None end
          else if c =? 123 then
            if maxNestingDepth <=? depth then None
            else match next_byte r with
            | Some (125, r) => Some (VObject [], r)
            | _ => parse_members n (depth + 1) r []
            end
          else if c =? 91 then
            if maxNestingDepth <=? depth then None
            else match next_byte r with
            | Some (93, r) => Some (VArray [], r)
            | _ => parse_elements n (depth + 1) r []
            end
          else if c =? 116 then expect "true" (skip_space s) (VBool true)
          else if c =? 102 then expect "false" (skip_space s) (VBool false)
          else if c =? 110 then expect "null" (skip_space s) VNull
          else match parse_number (skip_space s) with
          | Some (l, r) => Some (VNumber l, r)
          | None => None
          end
      end
  end
with parse_members (n : nat) (depth : Z) (s : string) (acc : list (string * jvalue))
    : option (jvalue * string) :=
  match n with
  | O => None
  | S n =>
      match next_byte s with
      | Some (34, r) =>
          match unquote 0 0 r with
          | None => None
          | Some (key, r) =>
              match next_byte r with
              | Some (58, r) =>
                  match parse_value n depth r with
                  | None => None
                  | Some (v, r) =>
                      match next_byte r with
                      | Some (44, r) => parse_members n depth r (acc ++ [(key, v)])
                      | Some (125, r) => Some (VObject (acc ++ [(key, v)]), r)
                      | _ => None
                      end
                  end
              | _ => None
              end
          end
      | _ => None
      end
  end
with parse_elements (n : nat) (depth : Z) (s : string) (acc : list jvalue)
    : option (jvalue * string) :=
  match n with
  | O => None
  | S n =>
      match parse_value n depth s with
      | None => None
      | Some (v, r) =>
          match next_byte r with
          | Some (44, r) => parse_elements n depth r (acc ++ [v])
          | Some (93, r) => Some (VArray (acc ++ [v]), r)
          | _ => None
          end
      end
  end.

(** The bound: two calls per byte and one more. *)
Definition json_fuel (s : string) : nat := S (2 * String.length s).

(** The value a [json.Decoder] reads from a body; what follows it is not looked at. *)
Definition decoder_value (body : list byte) : option jvalue :=
  let s := string_of_bytes body in
  match parse_value (json_fuel s) 0 s with Some (v, _) => Some v | None => None end.

(** [json.Unmarshal]: one value and white space. *)
Definition unmarshal_value (body : list byte) : option jvalue :=
  let s := string_of_bytes body in
  match parse_value (json_fuel s) 0 s with
  | Some (v, rest) => if skip_space rest ==s "" then Some v else None
  | None => None
  end.

(** ** Struct fields *)

(** The case folding of field names: ASCII letters, the long s (U+017F) and the Kelvin
    sign (U+212A), which fold to ASCII; no other rune does. *)
Fixpoint fold_name (s : string) : string :=
  match s with
  | EmptyString => ""
  | String c r =>
      if (97 <=? code c) && (code c <=? 122) then String (chr (code c - 32)) (fold_name r)
      else match r with
      | String d r2 =>
          if (code c =? 0xC5) && (code d =? 0xBF) then String "S" (fold_name r2)
          else match r2 with
          | String e r3 =>
              if (code c =? 0xE2) && (code d =? 0x84) && (code e =? 0xAA)
              then String "K" (fold_name r3) else String c (fold_name r)
          | EmptyString => String c (fold_name r)
          end
      | EmptyString => String c (fold_name r)
      end
  end.

(** How one field of a struct takes a value: [None] is an [UnmarshalTypeError]. *)
Record field (S : Type) := mkField { fd_name : string; fd_set : jvalue -> S -> option S }.
Arguments mkField {S} _ _.
Arguments fd_name {S} _.
Arguments fd_set {S} _ _ _.

Definition string_setter {S} (set : string -> S -> S) : jvalue -> S -> option S := fun v s =>
  match v with VString t => Some (set t s) | VNull => Some s | _ => None end.

Definition int64_setter {S} (set : Z -> S -> S) : jvalue -> S -> option S := fun v s =>
  match v with
  | VNumber l => match parse_int l with inl z => Some (set z s) | inr _ => None end
  | VNull => Some s
  | _ => None
  end.

(** The field a key selects: the exact name first, then the folded one. *)
Definition find_field {S} (fields : list (field S)) (key : string) : option (field S) :=
  match List.find (fun f => fd_name f ==s key) fields with
  | Some f => Some f
  | None => List.find (fun f => fold_name (fd_name f) ==s fold_name key) fields
  end.

(** The members of an object in order; unknown keys are skipped. *)
Fixpoint decode_members {S} (fields : list (field S)) (members : list (string * jvalue)) (s : S)
    : option S :=
  match members with
  | [] => Some s
  | (key, v) :: rest =>
      match find_field fields key with
      | None => decode_members fields rest s
      | Some f =>
          match fd_set f v s with
          | Some s => decode_members fields rest s
          | None => None
          end
      end
  end.

(** A value into a struct that starts as [zero]. *)
Definition decode_struct {S} (fields : list (field S)) (zero : S) (v : jvalue) : option S :=
  match v with
  | VObject members => decode_members fields members zero
  | VNull => Some zero
  | _ => None
  end.

Example decode_example :
  let q := dquote in
  unmarshal_value (bytes_of_string ("{ " +:+ q +:+ "a" +:+ q +:+ " : [1, -2.5e3, " +:+ q +:+
      "x\u0041\ud83d\ude00" +:+ q +:+ "], " +:+ q +:+ "b" +:+ q +:+ ":null} ")) =
  Some (VObject [("a", VArray [VNumber "1"; VNumber "-2.5e3";
                               VString ("xA" +:+ utf8_encode 0x1F600)]); ("b", VNull)]).
Proof. vm_compute. reflexivity. Qed.
