(* ===== verification/Config.v ===== *)
(** * Configuration ([internal/config/config.go])

    API keys with their roles, the process configuration and its loading from the
    environment, which is a function from names to values. The main theorem is the
    production gate: what [Load] accepts in production carries only configured
    secrets. The tenants it admits are free of the separator that the in-memory
    store joins keys with. *)

From S2P Require Import Prelude GoStrings GoStrconv.

(** ** Data *)

Abbreviation APIKeyRole := string (only parsing).
Definition RoleTenant : APIKeyRole := "tenant".
Definition RoleWorker : APIKeyRole := "worker".
Definition RoleRisk : APIKeyRole := "risk".
Definition RoleProvider : APIKeyRole := "provider".

Record APIKey := mkAPIKey {
  ak_TenantID : string;
  ak_Secret : string;
  ak_Roles : gmap string bool
}.

Definition APIKey_HasRole (k : APIKey) (role : APIKeyRole) : bool :=
  if decide (ak_Roles k = ∅) then role ==s RoleTenant
  else default false (ak_Roles k !! role).

Record Config := mkConfig {
  cf_Addr : string;
  cf_Environment : string;
  cf_APIKeys : gmap string APIKey;
  cf_StoreDriver : string;
  cf_DatabaseURL : string;
  cf_PostgresMinConns : Z;
  cf_PostgresMaxConns : Z;
  cf_PostgresMaxConnLifetime : Duration;
  cf_TenantBucketSize : Z;
  cf_DictBucketSize : Z;
  cf_DictTimeout : Duration;
  cf_WorkerBatchSize : Z;
  cf_WorkerInterval : Duration;
  cf_ProviderCallbackSecret : string;
  cf_ProviderSignatureTolerance : Duration;
  cf_PprofAddr : string;
  cf_ShutdownTimeout : Duration;
  cf_RequireConfiguredSecrets : bool;
  cf_TracingExporter : string
}.

#[export] Instance eta_Config : Eta Config := fun c =>
  mkConfig (cf_Addr c) (cf_Environment c) (cf_APIKeys c) (cf_StoreDriver c)
    (cf_DatabaseURL c) (cf_PostgresMinConns c) (cf_PostgresMaxConns c)
    (cf_PostgresMaxConnLifetime c) (cf_TenantBucketSize c) (cf_DictBucketSize c)
    (cf_DictTimeout c) (cf_WorkerBatchSize c) (cf_WorkerInterval c)
    (cf_ProviderCallbackSecret c) (cf_ProviderSignatureTolerance c) (cf_PprofAddr c)
    (cf_ShutdownTimeout c) (cf_RequireConfiguredSecrets c) (cf_TracingExporter c).

(** [fmt.Errorf(msg)] without a wrapped sentinel. *)
Definition config_error (msg : string) : error := mkError None msg.

(** ** API keys *)

(** [roleSet]. *)
Definition roleSet (roles : list APIKeyRole) : gmap string bool :=
  list_to_map (map (fun r => (r, true)) roles).

Definition valid_role (r : APIKeyRole) : bool :=
  (r ==s RoleTenant) || (r ==s RoleWorker) || (r ==s RoleRisk) || (r ==s RoleProvider).

Section Parse.
(** [strconv.Quote] on strings with non-ASCII bytes. *)
Context (unicode_quote : string -> string).
Local Abbreviation q := (Quote unicode_quote).

(** The loop of [parseRoles]. *)
Fixpoint parse_roles_loop (parts : list string) (roles : gmap string bool)
    : result (gmap string bool) :=
  match parts with
  | [] => Ok roles
  | role :: rest =>
      let parsed := TrimSpace role in
      if valid_role parsed then parse_roles_loop rest (<[parsed := true]> roles)
      else Err (config_error ("invalid PIXRAIL_API_KEYS role " +:+ q role))
  end.

Definition parseRoles (raw : string) : result (gmap string bool) :=
  roles <-? parse_roles_loop (Split "|" raw) ∅;
  if decide (roles = ∅) then
    Err (config_error "PIXRAIL_API_KEYS role list cannot be empty")
  else Ok roles.

Definition blank (s : string) : bool := TrimSpace s ==s "".

(** One entry [tenant_id:secret[:role|role]]: its tenant, secret and roles. *)
Definition parse_entry (pair : string) : result (string * string * gmap string bool) :=
  match SplitN ":" (TrimSpace pair) 2 with
  | [p0; p1] =>
      if blank p0 || blank p1 then
        Err (config_error ("invalid PIXRAIL_API_KEYS entry " +:+ q pair +:+
                           ", expected tenant_id:secret[:role|role]"))
      else Ok (TrimSpace p0, TrimSpace p1, roleSet [RoleTenant])
  | [p0; p1; p2] =>
      if blank p0 || blank p1 || blank p2 then
        Err (config_error ("invalid PIXRAIL_API_KEYS entry " +:+ q pair +:+
                           ", expected tenant_id:secret[:role|role]"))
      else
        parsedRoles <-? parseRoles p2;
        Ok (TrimSpace p0, TrimSpace p1, parsedRoles)
  | _ => Err (config_error ("invalid PIXRAIL_API_KEYS entry " +:+ q pair +:+
                            ", expected tenant_id:secret[:role|role]"))
  end.

(** The loop of [parseAPIKeys]. *)
Fixpoint parse_keys_loop (pairs : list string) (keys : gmap string APIKey)
    : result (gmap string APIKey) :=
  match pairs with
  | [] => Ok keys
  | entry :: rest =>
      match parse_entry entry with
      | Err err => Err err
      | Ok (tenantID, secret, roles) =>
          match keys !! secret with
          | Some _ =>
              Err (config_error ("duplicate PIXRAIL_API_KEYS secret for tenant " +:+ q tenantID))
          | None => parse_keys_loop rest (<[secret := mkAPIKey tenantID secret roles]> keys)
          end
      end
  end.

Definition parseAPIKeys (raw : string) : result (gmap string APIKey) :=
  let raw := TrimSpace raw in
  if raw ==s "" then Ok ∅ else parse_keys_loop (Split "," raw) ∅.

(** ** The environment *)

(** [os.Getenv]. *)
Context (os_Getenv : string -> string).

Definition getenv (key fallback : string) : string :=
  let value := TrimSpace (os_Getenv key) in
  if negb (value ==s "") then value else fallback.

Definition defaultHTTPAddr : string :=
  let value := TrimSpace (os_Getenv "PIXRAIL_HTTP_ADDR") in
  if negb (value ==s "") then value
  else
    let port := TrimSpace (os_Getenv "PORT") in
    if port ==s "" then ":8080"
    else if HasPrefix port ":" then port
    else ":" +:+ port.

Definition getenvIntAtLeast (key : string) (fallback min : Z) : result Z :=
  let value := TrimSpace (os_Getenv key) in
  if value ==s "" then Ok fallback
  else match parse_int value with
  | inr e =>
      Err (config_error (key +:+ " must be an integer: strconv.Atoi: parsing " +:+ q value +:+
                         ": " +:+ num_error_text e))
  | inl parsed =>
      if parsed <? min then Err (config_error (key +:+ " must be >= " +:+ Itoa min))
      else Ok parsed
  end.

Definition getenvDurationAtLeast (key : string) (fallback min : Duration) : result Duration :=
  let value := TrimSpace (os_Getenv key) in
  if value ==s "" then Ok fallback
  else match ParseDuration value with
  | Err err => Err (config_error (key +:+ " must be a duration: " +:+ Error err))
  | Ok parsed =>
      if parsed <? min then
        Err (config_error (key +:+ " must be >= " +:+ Duration_String min))
      else Ok parsed
  end.

Definition defaultTracingExporter (env : string) : string :=
  if env ==s "production" then "none" else "stdout".

Definition defaultProviderCallbackSecret (env : string) : string :=
  if env ==s "production" then "" else "dev-provider-callback-secret".

(** The keys of a development process without configured ones. *)
Definition dev_keys : gmap string APIKey :=
  let dev secret role := (secret, mkAPIKey "tenant_demo" secret (roleSet [role])) in
  list_to_map [dev "dev-secret" RoleTenant; dev "worker-secret" RoleWorker;
               dev "risk-secret" RoleRisk; dev "provider-secret" RoleProvider].

(** The keys [Load] uses: in production they must be configured. *)
Definition configured_keys (required : bool) (keys : gmap string APIKey)
    : result (gmap string APIKey) :=
  if decide (keys = ∅) then
    if required then Err (config_error "PIXRAIL_API_KEYS is required in production")
    else Ok dev_keys
  else Ok keys.

(** The checks of [Load] after the keys. *)
Definition check_config (env : string) (cfg : Config) : result Config :=
  if cf_RequireConfiguredSecrets cfg && (cf_ProviderCallbackSecret cfg ==s "") then
    Err (config_error "PIXRAIL_PROVIDER_CALLBACK_SECRET is required in production")
  else if negb (cf_StoreDriver cfg ==s "memory") && negb (cf_StoreDriver cfg ==s "postgres") then
    Err (config_error "PIXRAIL_STORE_DRIVER must be memory or postgres")
  else if (cf_StoreDriver cfg ==s "postgres") && (cf_DatabaseURL cfg ==s "") then
    Err (config_error "PIXRAIL_DATABASE_URL is required when PIXRAIL_STORE_DRIVER=postgres")
  else if (env ==s "production") && negb (cf_StoreDriver cfg ==s "postgres") then
    Err (config_error "PIXRAIL_STORE_DRIVER=postgres is required in production")
  else if negb (cf_TracingExporter cfg ==s "none") && negb (cf_TracingExporter cfg ==s "stdout") then
    Err (config_error "PIXRAIL_TRACING_EXPORTER must be none or stdout")
  else Ok cfg.

Definition Load : result Config :=
  let env := getenv "PIXRAIL_ENV" "development" in
  postgresMinConns <-? getenvIntAtLeast "PIXRAIL_POSTGRES_MIN_CONNS" 0 0;
  postgresMaxConns <-? getenvIntAtLeast "PIXRAIL_POSTGRES_MAX_CONNS" 10 1;
  postgresMaxConnLifetime <-?
    getenvDurationAtLeast "PIXRAIL_POSTGRES_MAX_CONN_LIFETIME" (30 * Minute) Nanosecond;
  tenantBucketSize <-? getenvIntAtLeast "PIXRAIL_TENANT_BUCKET_SIZE" 120 1;
  dictBucketSize <-? getenvIntAtLeast "PIXRAIL_DICT_BUCKET_SIZE" 60 1;
  dictTimeout <-? getenvDurationAtLeast "PIXRAIL_DICT_TIMEOUT" (300 * Millisecond) Nanosecond;
  workerBatchSize <-? getenvIntAtLeast "PIXRAIL_WORKER_BATCH_SIZE" 100 1;
  workerInterval <-? getenvDurationAtLeast "PIXRAIL_WORKER_INTERVAL" Second Nanosecond;
  providerSignatureTolerance <-?
    getenvDurationAtLeast "PIXRAIL_PROVIDER_SIGNATURE_TOLERANCE" (5 * Minute) Nanosecond;
  shutdownTimeout <-?
    getenvDurationAtLeast "PIXRAIL_SHUTDOWN_TIMEOUT" (5 * Second) Nanosecond;
  let cfg := {|
    cf_Addr := defaultHTTPAddr;
    cf_Environment := env;
    cf_APIKeys := ∅;
    cf_StoreDriver := getenv "PIXRAIL_STORE_DRIVER" "memory";
    cf_DatabaseURL := getenv "PIXRAIL_DATABASE_URL" "";
    cf_PostgresMinConns := postgresMinConns;
    cf_PostgresMaxConns := postgresMaxConns;
    cf_PostgresMaxConnLifetime := postgresMaxConnLifetime;
    cf_TenantBucketSize := tenantBucketSize;
    cf_DictBucketSize := dictBucketSize;
    cf_DictTimeout := dictTimeout;
    cf_WorkerBatchSize := workerBatchSize;
    cf_WorkerInterval := workerInterval;
    cf_ProviderCallbackSecret :=
      getenv "PIXRAIL_PROVIDER_CALLBACK_SECRET" (defaultProviderCallbackSecret env);
    cf_ProviderSignatureTolerance := providerSignatureTolerance;
    cf_PprofAddr := getenv "PIXRAIL_PPROF_ADDR" "";
    cf_ShutdownTimeout := shutdownTimeout;
    cf_RequireConfiguredSecrets := env ==s "production";
    cf_TracingExporter := getenv "PIXRAIL_TRACING_EXPORTER" (defaultTracingExporter env) |} in
  parsed <-? parseAPIKeys (os_Getenv "PIXRAIL_API_KEYS");
  keys <-? configured_keys (cf_RequireConfiguredSecrets cfg) parsed;
  checked <-? check_config env cfg;
  Ok (checked <| cf_APIKeys := keys |>).
End Parse.

Example load_defaults :
  match Load id (fun _ => "") with
  | Ok c => cf_StoreDriver c = "memory" /\ cf_Addr c = ":8080" /\
      map_to_list (ak_TenantID <$> cf_APIKeys c) =
      map_to_list (ak_TenantID <$> dev_keys)
  | Err _ => False
  end.
Proof. vm_compute. auto. Qed.

(** ** Keys *)

(** A key as the API and the store rely on it: filed under its secret, with a trimmed
    tenant free of the separators, and with known roles. *)
Record key_ok (secret : string) (k : APIKey) : Prop := mkKeyOk {
  ko_secret : ak_Secret k = secret;
  ko_nonempty : secret <> "" /\ ak_TenantID k <> "";
  ko_tenant : has_char ":" (ak_TenantID k) = false;
  ko_trimmed : TrimSpace (ak_TenantID k) = ak_TenantID k;
  ko_roles : ak_Roles k <> ∅;
  ko_valid : map_Forall (fun r b => valid_role r = true /\ b = true) (ak_Roles k)
}.

Definition keys_ok (keys : gmap string APIKey) : Prop := map_Forall key_ok keys.

Definition roles_ok (roles : gmap string bool) : Prop :=
  map_Forall (fun r b => valid_role r = true /\ b = true) roles.

Lemma roleSet_ok roles :
  Forall (fun r => valid_role r = true) roles -> roles_ok (roleSet roles).
Proof.
  intros H r b Hb. unfold roleSet in Hb. apply elem_of_list_to_map_2 in Hb.
  apply list_elem_of_fmap in Hb as (r' & [= -> ->] & Hr). split; [|done].
  rewrite Forall_forall in H. auto.
Qed.

Lemma roleSet_lookup roles r : is_Some (roleSet roles !! r) <-> r ∈ roles.
Proof.
  unfold roleSet. induction roles as [|x l IH]; cbn.
  - rewrite lookup_empty, elem_of_nil. split; [by intros [? ?]|done].
  - rewrite elem_of_cons. destruct (decide (r = x)) as [->|Hne].
    + rewrite lookup_insert_eq. split; [by left|by eauto].
    + rewrite lookup_insert_ne, IH by done. split; [by right|by intros [|]].
Qed.

(** The role set of a list grants exactly its roles. *)
Lemma roleSet_true roles r :
  roleSet roles !! r = if decide (r ∈ roles) then Some true else None.
Proof.
  destruct (decide (r ∈ roles)) as [H|H].
  - apply roleSet_lookup in H as [b Hb]. rewrite Hb. f_equal.
    unfold roleSet in Hb. apply elem_of_list_to_map_2 in Hb.
    by apply list_elem_of_fmap in Hb as (? & [= _ ->] & _).
  - apply eq_None_not_Some. by rewrite roleSet_lookup.
Qed.

Lemma roleSet_nonempty role roles : roleSet (role :: roles) <> ∅.
Proof.
  intros H. assert (Hl : is_Some (roleSet (role :: roles) !! role))
    by (apply roleSet_lookup; by left).
  rewrite H, lookup_empty in Hl. by destruct Hl.
Qed.

Lemma dev_keys_ok : keys_ok dev_keys.
Proof.
  intros s k Hk. apply elem_of_list_to_map_2 in Hk.
  assert (Hdev : forall secret role, secret <> "" -> valid_role role = true ->
    key_ok secret (mkAPIKey "tenant_demo" secret (roleSet [role]))).
  { intros secret role Hs Hr. split; cbn [ak_Secret ak_TenantID ak_Roles];
      [reflexivity|by split|reflexivity|reflexivity|apply roleSet_nonempty|].
    apply roleSet_ok. by repeat constructor. }
  repeat (apply elem_of_cons in Hk as [[= -> ->]|Hk]; [by apply Hdev|]).
  by apply elem_of_nil in Hk.
Qed.

Section KeyProofs.
Context (uq : string -> string).

Lemma parse_roles_loop_ok parts roles roles' :
  roles_ok roles -> parse_roles_loop uq parts roles = Ok roles' -> roles_ok roles'.
Proof.
  revert roles. induction parts as [|p parts IH]; intros roles H E; cbn in E; [by simplify_eq|].
  destruct (valid_role (TrimSpace p)) eqn:Hv; [|done].
  eapply IH; [|exact E]. by apply map_Forall_insert_2.
Qed.

Lemma parseRoles_ok raw roles : parseRoles uq raw = Ok roles -> roles_ok roles /\ roles <> ∅.
Proof.
  unfold parseRoles. destruct (parse_roles_loop uq _ _) as [r|] eqn:E; [|done].
  destruct (decide (r = ∅)); [done|]. intros [= <-]. split; [|done].
  eapply parse_roles_loop_ok; [|exact E]. apply map_Forall_empty.
Qed.

Lemma blank_false s : blank s = false -> TrimSpace s <> "".
Proof. unfold blank. intros H. by b2p. Qed.

Lemma SplitN_head c s n p ps : SplitN c s (S n) = p :: ps -> has_char c p = false.
Proof.
  cbn. destruct (Cut c s) as [a [r|]] eqn:E; intros [= <- _];
    by apply Cut_inv in E as [? _].
Qed.

Lemma parse_entry_ok entry t secret roles :
  parse_entry uq entry = Ok (t, secret, roles) -> key_ok secret (mkAPIKey t secret roles).
Proof.
  unfold parse_entry. intros E. destruct (SplitN ":" (TrimSpace entry) 2) as [|p0 ps] eqn:Es; [done|].
  apply SplitN_head in Es as Hc.
  assert (Htenant : roles_ok (roleSet [RoleTenant]) /\ roleSet [RoleTenant] <> ∅).
  { split; [apply roleSet_ok; by repeat constructor|apply roleSet_nonempty]. }
  destruct ps as [|p1 [|p2 [|? ?]]]; try done.
  - destruct (blank p0 || blank p1) eqn:Hb; [done|]. simplify_eq. b2p.
    destruct Htenant. split; cbn; try done.
    + split; by apply blank_false.
    + by apply TrimSpace_has_char.
    + apply TrimSpace_idem.
  - destruct (_ || _) eqn:Hb; [done|].
    destruct (parseRoles uq p2) as [r|] eqn:Er; [|done]. simplify_eq. b2p.
    apply parseRoles_ok in Er as [? ?]. split; cbn; try done.
    + split; by apply blank_false.
    + by apply TrimSpace_has_char.
    + apply TrimSpace_idem.
Qed.

Lemma parse_keys_loop_ok pairs keys keys' :
  keys_ok keys -> parse_keys_loop uq pairs keys = Ok keys' -> keys_ok keys'.
Proof.
  revert keys. induction pairs as [|p pairs IH]; intros keys H E; cbn in E; [by simplify_eq|].
  destruct (parse_entry uq p) as [[[t secret] roles]|] eqn:Ep; [|done].
  destruct (keys !! secret); [done|]. eapply IH; [|exact E].
  apply map_Forall_insert_2; [|done]. by eapply parse_entry_ok.
Qed.

Lemma parseAPIKeys_ok raw keys : parseAPIKeys uq raw = Ok keys -> keys_ok keys.
Proof.
  unfold parseAPIKeys. destruct (_ ==s ""); [intros [= <-]; apply map_Forall_empty|].
  apply parse_keys_loop_ok, map_Forall_empty.
Qed.

(** ** Rendered keys parse back *)

(** An entry of [PIXRAIL_API_KEYS]: tenant, secret and roles. *)
Definition render_entry (e : string * string * list APIKeyRole) : string :=
  let '(t, secret, roles) := e in t +:+ ":" +:+ secret +:+ ":" +:+ Join "|" roles.

Definition render_keys (es : list (string * string * list APIKeyRole)) : string :=
  Join "," (map render_entry es).

Definition entry_key (e : string * string * list APIKeyRole) : string * APIKey :=
  let '(t, secret, roles) := e in (secret, mkAPIKey t secret (roleSet roles)).

(** A part of an entry: visible, not empty, without separators. *)
Definition part_ok (s : string) : Prop :=
  visible s = true /\ s <> "" /\ has_char ":" s = false /\ has_char "," s = false.

Record entry_ok (e : string * string * list APIKeyRole) : Prop := mkEntryOk {
  eo_tenant : part_ok (fst (fst e));
  eo_secret : part_ok (snd (fst e));
  eo_roles : snd e <> [] /\ Forall (fun r => valid_role r = true) (snd e)
}.

Lemma valid_role_cases r : valid_role r = true -> r ∈ [RoleTenant; RoleWorker; RoleRisk; RoleProvider].
Proof.
  unfold valid_role. rewrite !orb_true_iff, !String.eqb_eq, !elem_of_cons, elem_of_nil. tauto.
Qed.

Lemma valid_role_part r : valid_role r = true ->
  part_ok r /\ has_char "|" r = false /\ TrimSpace r = r.
Proof.
  intros H. apply valid_role_cases in H.
  assert (Hv : forall r, part_ok r /\ has_char "|" r = false ->
    part_ok r /\ has_char "|" r = false /\ TrimSpace r = r).
  { intros r0 [Hp Hb]. split_and!; [done|done|]. by apply TrimSpace_visible_id, Hp. }
  apply Hv. unfold part_ok.
  repeat (apply elem_of_cons in H as [->|H]; [vm_compute; split_and!; done|]).
  by apply elem_of_nil in H.
Qed.

Lemma parse_roles_render roles acc :
  Forall (fun r => valid_role r = true) roles ->
  parse_roles_loop uq roles acc = Ok (list_to_map (map (fun r => (r, true)) (rev roles)) ∪ acc).
Proof.
  revert acc. induction roles as [|r roles IH]; intros acc H.
  { cbn. by rewrite map_empty_union. }
  inversion_clear H as [|? ? Hr Hrs]. cbn [parse_roles_loop].
  destruct (valid_role_part r Hr) as (_ & _ & ->). rewrite Hr, IH by done. f_equal.
  cbn [rev]. rewrite map_app, list_to_map_app. cbn.
  rewrite <- map_union_assoc. f_equal.
  by rewrite insert_union_singleton_l.
Qed.

Lemma list_to_map_true (l : list string) r :
  (list_to_map (map (fun r => (r, true)) l) : gmap string bool) !! r =
  if decide (r ∈ l) then Some true else None.
Proof. apply roleSet_true. Qed.

Lemma parseRoles_render roles :
  roles <> [] -> Forall (fun r => valid_role r = true) roles ->
  parseRoles uq (Join "|" roles) = Ok (roleSet roles).
Proof.
  intros Hne H. unfold parseRoles.
  rewrite (Split_Join "|"); [|done|].
  2: { eapply Forall_impl; [exact H|]. intros r Hr. by apply valid_role_part. }
  rewrite parse_roles_render, map_union_empty by done.
  assert (E : list_to_map (map (fun r => (r, true)) (rev roles)) = roleSet roles).
  { apply map_eq. intros r. rewrite list_to_map_true, roleSet_true.
    assert (Hiff : r ∈ rev roles <-> r ∈ roles)
      by (rewrite !list_elem_of_In; symmetry; apply in_rev).
    by destruct (decide (r ∈ rev roles)), (decide (r ∈ roles)); try tauto. }
  rewrite E. destruct roles as [|r roles]; [done|].
  destruct (decide (roleSet (r :: roles) = ∅)) as [E0|]; [|done].
  by apply roleSet_nonempty in E0.
Qed.

Lemma render_entry_parts e : entry_ok e ->
  visible (render_entry e) = true /\ has_char "," (render_entry e) = false /\
  render_entry e <> "" /\
  parse_entry uq (render_entry e) = Ok (fst (fst e), snd (fst e), roleSet (snd e)).
Proof.
  destruct e as [[t s] roles]. intros [(Vt & Nt & Ct & Kt) (Vs & Ns & Cs & Ks) [Hne Hr]].
  cbn [fst snd] in *. unfold render_entry.
  assert (Vr : visible (Join "|" roles) = true).
  { apply visible_Join; [done|]. eapply Forall_impl; [exact Hr|].
    intros r H. by apply valid_role_part. }
  assert (Kr : has_char "," (Join "|" roles) = false).
  { apply has_char_Join; [done|]. eapply Forall_impl; [exact Hr|].
    intros r H. by apply valid_role_part. }
  assert (Nr : Join "|" roles <> "").
  { destruct roles as [|r roles]; [done|]. apply Join_nonempty.
    inversion_clear Hr. by apply valid_role_part. }
  assert (Hvis : visible (t +:+ ":" +:+ s +:+ ":" +:+ Join "|" roles) = true)
    by (rewrite !visible_app, Vt, Vs, Vr; done).
  split_and!; [done| | |].
  - by rewrite !has_char_app, Kt, Ks, Kr.
  - by destruct t.
  - unfold parse_entry. rewrite TrimSpace_visible_id by done.
    change (SplitN ":" (t +:+ ":" +:+ s +:+ ":" +:+ Join "|" roles) 2) with
      (SplitN ":" (t +:+ String ":" (s +:+ String ":" (Join "|" roles))) 2).
    rewrite (SplitN_cons ":" t) by done. rewrite (SplitN_cons ":" s) by done.
    cbn [SplitN]. unfold blank. rewrite !TrimSpace_visible_id by done.
    apply String.eqb_neq in Nt, Ns, Nr. rewrite Nt, Ns, Nr. cbn [orb].
    by rewrite parseRoles_render.
Qed.

Lemma parse_keys_render es acc :
  Forall entry_ok es -> NoDup (map (fun e => snd (fst e)) es) ->
  Forall (fun e => acc !! snd (fst e) = None) es ->
  parse_keys_loop uq (map render_entry es) acc =
    Ok (acc ∪ list_to_map (map entry_key es)).
Proof.
  revert acc. induction es as [|e es IH]; intros acc Hok Hnd Hacc; cbn [map parse_keys_loop].
  { cbn. by rewrite map_union_empty. }
  inversion_clear Hok as [|? ? He Hes]. inversion_clear Hnd as [|? ? Hn Hnd'].
  inversion_clear Hacc as [|? ? Ha Has].
  destruct (render_entry_parts e He) as (_ & _ & _ & ->).
  destruct e as [[t s] roles]. cbn [fst snd] in *. rewrite Ha, IH; [|done|done|].
  - f_equal. cbn. rewrite <- insert_union_l. by rewrite insert_union_r.
  - rewrite Forall_forall in Has |- *. intros e' He'. rewrite lookup_insert_ne; [by apply Has|].
    intros ->. apply Hn, list_elem_of_fmap. eauto.
Qed.
End KeyProofs.

(** API keys written as [tenant:secret:role|role] entries, of visible characters
    without separators and with distinct secrets, are read back exactly, and each key
    grants the roles it lists and no other. Whatever text is given, the keys read from
    it are filed under their secrets, have tenants free of the store's separator, and
    carry known roles only. *)
Theorem api_keys_roundtrip uq es raw keys :
  Forall entry_ok es -> NoDup (map (fun e => snd (fst e)) es) ->
  parseAPIKeys uq raw = Ok keys ->
  parseAPIKeys uq (render_keys es) = Ok (list_to_map (map entry_key es)) /\
  Forall (fun e => forall role,
    APIKey_HasRole (snd (entry_key e)) role = bool_decide (role ∈ snd e)) es /\
  map_Forall key_ok keys.
Proof.
  intros Hok Hnd Hraw. split_and!; [| |by eapply parseAPIKeys_ok].
  - unfold parseAPIKeys, render_keys. destruct es as [|e es]; [done|].
    assert (Hp : Forall (fun e => visible (render_entry e) = true /\
      has_char "," (render_entry e) = false /\ render_entry e <> "") (e :: es)).
    { eapply Forall_impl; [exact Hok|]. intros e' He'.
      destruct (render_entry_parts uq e' He') as (?&?&?&_). done. }
    rewrite TrimSpace_visible_id.
    2: { apply visible_Join; [done|]. apply Forall_map. eapply Forall_impl; [exact Hp|].
         by intros ? (?&_). }
    rewrite (proj2 (String.eqb_neq _ _)).
    2: { apply Join_nonempty. by inversion_clear Hp as [|? ? (_&_&?)]. }
    rewrite (Split_Join ","); [|done|].
    2: { apply Forall_map. eapply Forall_impl; [exact Hp|]. by intros ? (_&?&_). }
    rewrite parse_keys_render; [|done|done|].
    + by rewrite map_empty_union.
    + apply Forall_forall. intros. apply lookup_empty.
  - eapply Forall_impl; [exact Hok|]. intros [[t s] roles] [_ _ [Hne Hr]] role.
    cbn [fst snd] in *. unfold APIKey_HasRole, entry_key. cbn [snd ak_Roles].
    destruct roles as [|r roles]; [done|].
    destruct (decide (roleSet (r :: roles) = ∅)) as [E|_];
      [by apply roleSet_nonempty in E|].
    rewrite roleSet_true. by destruct (decide (role ∈ r :: roles)) eqn:Ed;
      [rewrite bool_decide_true|rewrite bool_decide_false].
Qed.

(** ** Loading *)

(** What every part of the program may assume of its configuration. *)
Record config_ok (c : Config) : Prop := mkConfigOk {
  co_conns : 0 <= cf_PostgresMinConns c /\ 1 <= cf_PostgresMaxConns c;
  co_buckets : 1 <= cf_TenantBucketSize c /\ 1 <= cf_DictBucketSize c /\
    1 <= cf_WorkerBatchSize c;
  co_ints : Forall (fun z => z <= max_int64)
    [cf_PostgresMinConns c; cf_PostgresMaxConns c; cf_TenantBucketSize c; cf_DictBucketSize c;
     cf_WorkerBatchSize c];
  co_durations : Forall (fun d => 1 <= d)
    [cf_PostgresMaxConnLifetime c; cf_DictTimeout c; cf_WorkerInterval c;
     cf_ProviderSignatureTolerance c; cf_ShutdownTimeout c];
  co_driver : cf_StoreDriver c = "memory" \/
    cf_StoreDriver c = "postgres" /\ cf_DatabaseURL c <> "";
  co_tracing : cf_TracingExporter c = "none" \/ cf_TracingExporter c = "stdout";
  co_secret : cf_ProviderCallbackSecret c <> "";
  co_keys : cf_APIKeys c <> ∅ /\ keys_ok (cf_APIKeys c)
}.

Section Loading.
Context (uq os_Getenv : string -> string).

Lemma getenvInt_bounds key fallback min z :
  min <= fallback <= max_int64 -> getenvIntAtLeast uq os_Getenv key fallback min = Ok z ->
  min <= z <= max_int64.
Proof.
  unfold getenvIntAtLeast. intros Hf E. cases_in E; simplify_eq; b2p; [lia|].
  select (parse_int _ = _) (fun Hp => apply parse_int_range in Hp as []). lia.
Qed.

Lemma getenvDuration_bounds key fallback min d :
  min <= fallback -> getenvDurationAtLeast os_Getenv key fallback min = Ok d -> min <= d.
Proof.
  unfold getenvDurationAtLeast. intros Hf E. cases_in E; simplify_eq; b2p; lia.
Qed.

Lemma getenv_nonempty key fallback : fallback <> "" -> getenv os_Getenv key fallback <> "".
Proof. unfold getenv. intros H. destruct (_ ==s "") eqn:E; cbn; b2p; done. Qed.

Lemma check_config_inv env c c' : check_config env c = Ok c' ->
  c' = c /\
  (cf_RequireConfiguredSecrets c = true -> cf_ProviderCallbackSecret c <> "") /\
  (cf_StoreDriver c = "memory" \/ cf_StoreDriver c = "postgres" /\ cf_DatabaseURL c <> "") /\
  (env = "production" -> cf_StoreDriver c = "postgres") /\
  (cf_TracingExporter c = "none" \/ cf_TracingExporter c = "stdout").
Proof.
  unfold check_config. intros E.
  destruct (cf_RequireConfiguredSecrets c && _) eqn:E1; [done|].
  destruct (negb _ && negb _) eqn:E2 in E; [done|].
  destruct ((cf_StoreDriver c ==s "postgres") && _) eqn:E3; [done|].
  destruct ((env ==s "production") && _) eqn:E4; [done|].
  destruct (negb (cf_TracingExporter c ==s "none") && _) eqn:E5; [done|]. simplify_eq.
  rewrite !andb_false_iff, ?negb_false_iff, ?String.eqb_eq, ?String.eqb_neq in *.
  split_and!; try done.
  - intros H. destruct E1 as [E1|E1]; [congruence|done].
  - destruct E2 as [E2|E2]; [by left|right]. split; [done|]. by destruct E3.
  - intros H. by destruct E4.
Qed.

Lemma configured_keys_inv required parsed keys :
  keys_ok parsed -> configured_keys required parsed = Ok keys ->
  keys <> ∅ /\ keys_ok keys /\ (required = true -> keys = parsed).
Proof.
  unfold configured_keys. intros Hp E. destruct (decide (parsed = ∅)) as [H0|H0].
  - destruct required; [done|]. simplify_eq. split_and!; [|apply dev_keys_ok|done].
    intros H. assert (Hl : dev_keys !! "dev-secret" = None) by (rewrite H; apply lookup_empty).
    revert Hl. by vm_compute.
  - simplify_eq. done.
Qed.
End Loading.

Lemma load_facts uq os_Getenv c :
  Load uq os_Getenv = Ok c ->
  config_ok c /\
  cf_Environment c = getenv os_Getenv "PIXRAIL_ENV" "development" /\
  (cf_Environment c = "production" ->
     cf_StoreDriver c = "postgres" /\ cf_DatabaseURL c <> "" /\
     parseAPIKeys uq (os_Getenv "PIXRAIL_API_KEYS") = Ok (cf_APIKeys c) /\
     cf_ProviderCallbackSecret c =
       TrimSpace (os_Getenv "PIXRAIL_PROVIDER_CALLBACK_SECRET")).
Proof.
  unfold Load. intros E. set (env := getenv os_Getenv "PIXRAIL_ENV" "development") in *.
  repeat match type of E with
  | match getenvIntAtLeast ?u ?g ?k ?f ?m with _ => _ end = _ =>
      let H := fresh "Hi" in destruct (getenvIntAtLeast u g k f m) eqn:H; [|done];
      apply getenvInt_bounds in H as [? ?]; [|done]
  | match getenvDurationAtLeast ?g ?k ?f ?m with _ => _ end = _ =>
      let H := fresh "Hd" in destruct (getenvDurationAtLeast g k f m) eqn:H; [|done];
      apply getenvDuration_bounds in H; [|done]
  end.
  cbv zeta in E. destruct (parseAPIKeys uq _) as [parsed|] eqn:Ep; [|done].
  destruct (configured_keys _ parsed) as [keys|] eqn:Ek; [|done].
  destruct (check_config env _) as [c'|] eqn:Ec; [|done].
  apply check_config_inv in Ec as (-> & Hsecret & Hdriver & Hprod & Htrace). simplify_eq.
  apply configured_keys_inv in Ek as (Hne & Hkeys & Hreq); [|by eapply parseAPIKeys_ok].
  cbn in *.
  assert (Hs : getenv os_Getenv "PIXRAIL_PROVIDER_CALLBACK_SECRET"
                 (defaultProviderCallbackSecret env) <> "").
  { destruct (env ==s "production") eqn:Ee; [by apply Hsecret|].
    apply getenv_nonempty. unfold defaultProviderCallbackSecret. by rewrite Ee. }
  split_and!; [|done|].
  - split; cbn; auto; repeat constructor; done.
  - intros He. apply String.eqb_eq in He as Heb. rewrite Heb in *.
    assert (Hdrv : getenv os_Getenv "PIXRAIL_STORE_DRIVER" "memory" = "postgres") by auto.
    split_and!; [done| | |].
    + destruct Hdriver as [Hm|[_ ?]]; [congruence|done].
    + by rewrite (Hreq eq_refl).
    + unfold getenv, defaultProviderCallbackSecret in *. rewrite Heb in *.
      destruct (TrimSpace (os_Getenv "PIXRAIL_PROVIDER_CALLBACK_SECRET") ==s ""); done.
Qed.

(** C33: whatever the environment, a configuration that loads is usable: sizes and
    timeouts are at least their minimum, sizes fit an [int], the store driver and the exporter are known, a
    PostgreSQL driver comes with its address, the callback secret is not empty, and
    there is a key. In production the store is PostgreSQL, and the keys and the
    callback secret are exactly those of the environment: no development secret is ever
    accepted there. *)
Theorem load_sound uq os_Getenv c :
  Load uq os_Getenv = Ok c ->
  config_ok c /\
  cf_Environment c = getenv os_Getenv "PIXRAIL_ENV" "development" /\
  (cf_Environment c = "production" ->
     cf_StoreDriver c = "postgres" /\ cf_DatabaseURL c <> "" /\
     parseAPIKeys uq (os_Getenv "PIXRAIL_API_KEYS") = Ok (cf_APIKeys c) /\
     cf_ProviderCallbackSecret c =
       TrimSpace (os_Getenv "PIXRAIL_PROVIDER_CALLBACK_SECRET")).
Proof. apply load_facts. Qed.
