(* ===== verification/Metrics.v ===== *)
(** * Metrics ([internal/observability/metrics.go])

    The counters and latency samples of the process, updated under one mutex, and
    their Prometheus text. Latencies are [float64] values, computed with the binary64
    operations of the Standard Library. A route keeps its last 1024 samples, on which
    the quantiles are always defined. *)

From Stdlib Require Import Floats.SpecFloat.
From S2P Require Import Prelude GoStrings GoStrconv.

Definition maxLatencySamplesPerRoute : nat := 1024.

Record Metrics := mkMetrics {
  mt_requests : gmap string Z;
  mt_latency : gmap string (list float64);
  mt_decisions : gmap string Z;
  mt_events : gmap string Z;
  mt_started : Time
}.

#[export] Instance eta_Metrics : Eta Metrics := fun m =>
  mkMetrics (mt_requests m) (mt_latency m) (mt_decisions m) (mt_events m) (mt_started m).

Definition NewMetrics (now : Time) : Metrics := mkMetrics ∅ ∅ ∅ ∅ (time_UTC now).

(** ** Observations *)

(** [counts[key] += n]. *)
Definition add_count (key : string) (n : Z) (counts : gmap string Z) : gmap string Z :=
  <[key := int64 (default 0 (counts !! key) + n)]> counts.

(** [label="value"]. *)
Definition label (name value : string) : string := name +:+ "=" +:+ dquote +:+ value +:+ dquote.

Definition latency_key (method route : string) : string :=
  label "method" method +:+ "," +:+ label "route" route.
Definition request_key (method route : string) (status : Z) : string :=
  latency_key method route +:+ "," +:+ label "status" (Itoa status).

(** [d.Seconds()]. *)
Definition Duration_Seconds (d : Duration) : float64 :=
  fl_add (fl_of_Z (Z.quot d Second)) (fl_div (fl_of_Z (Z.rem d Second)) (fl_of_Z Second)).

(** The last [maxLatencySamplesPerRoute] samples. *)
Definition clip_samples (samples : list float64) : list float64 :=
  if (maxLatencySamplesPerRoute <? length samples)%nat
  then drop (length samples - maxLatencySamplesPerRoute) samples
  else samples.

Definition Metrics_ObserveRequest (method route : string) (status : Z) (elapsed : Duration)
    (m : Metrics) : Metrics :=
  let m := m <| mt_requests := add_count (request_key method route status) 1 (mt_requests m) |> in
  let latencyKey := latency_key method route in
  let samples := default [] (mt_latency m !! latencyKey) ++ [Duration_Seconds elapsed] in
  m <| mt_latency := <[latencyKey := clip_samples samples]> (mt_latency m) |>.

Definition Metrics_ObserveDecision (status : string) (m : Metrics) : Metrics :=
  m <| mt_decisions := add_count status 1 (mt_decisions m) |>.

Definition Metrics_ObserveEvents (count : Z) (m : Metrics) : Metrics :=
  m <| mt_events := add_count "outbox_inserted" (int64 count) (mt_events m) |>.

(** ** Text *)

Definition newline : string := String (ascii_of_nat 10) "".

(** [%.pf] of a finite value: the exact decimal value rounded to [p] digits, ties to
    even. *)
Definition format_fixed (p : nat) (x : float64) : string :=
  let '(neg, num, den) :=
    match x with
    | S754_finite s m e =>
        if 0 <=? e then (s, Zpos m * 2 ^ e, 1) else (s, Zpos m, 2 ^ (- e))
    | S754_zero s => (s, 0, 1)
    | _ => (false, 0, 1)
    end in
  let scaled := num * 10 ^ Z.of_nat p in
  let q := scaled / den in
  let r := 2 * (scaled mod den) in
  let q := if (den <? r) || ((r =? den) && Z.odd q) then q + 1 else q in
  (if neg : bool then "-" else "") +:+ Itoa (q / 10 ^ Z.of_nat p) +:+
  match p with O => "" | _ => "." +:+ pad0 p (q mod 10 ^ Z.of_nat p) end.

Definition writeMetricHeader (name metricType help : string) : string :=
  "# HELP " +:+ name +:+ " " +:+ help +:+ newline +:+
  "# TYPE " +:+ name +:+ " " +:+ metricType +:+ newline.

(** [sort.Strings] on the keys of a map, in byte order. *)
Definition string_le (a b : string) : Prop := String.leb a b = true.
#[export] Instance string_le_dec a b : Decision (string_le a b).
Proof. unfold string_le; apply _. Defined.

Definition sorted_keys {A} (m : gmap string A) : list string :=
  merge_sort string_le (map fst (map_to_list m)).

Definition writeCounterMap (name : string) (values : gmap string Z) : string :=
  String.concat "" (map (fun key =>
    name +:+ "{" +:+ key +:+ "} " +:+ Itoa (default 0 (values !! key)) +:+ newline)
    (sorted_keys values)).

(** [labelValues]: distinct keys stay distinct, so the order does not matter. *)
Definition labelValues (values : gmap string Z) (name : string) : gmap string Z :=
  kmap (label name) values.

Definition float_le (a b : float64) : Prop := SFleb a b = true.
#[export] Instance float_le_dec a b : Decision (float_le a b).
Proof. unfold float_le; apply _. Defined.

(** [int(float64(len(samples)-1) * quantile)]. *)
Definition percentile_index (n : nat) (quantile : float64) : Z :=
  fl_trunc (fl_mul (fl_of_Z (Z.of_nat n - 1)) quantile).

(** [None] when the index is out of range, where Go panics. *)
Definition percentile (samples : list float64) (quantile : float64) : option float64 :=
  match samples with
  | [] => Some (S754_zero false)
  | _ =>
      let index := percentile_index (length samples) quantile in
      if (index <? 0) then None else samples !! Z.to_nat index
  end.

Definition sum (samples : list float64) : float64 :=
  fold_left fl_add samples (S754_zero false).

(** The constants 0.50, 0.95 and 0.99. *)
Definition q50 : float64 := fl_div (fl_of_Z 50) (fl_of_Z 100).
Definition q95 : float64 := fl_div (fl_of_Z 95) (fl_of_Z 100).
Definition q99 : float64 := fl_div (fl_of_Z 99) (fl_of_Z 100).

Definition quantile_line (name key digits : string) (q : float64) (samples : list float64)
    : option string :=
  match percentile samples q with
  | None => None
  | Some v => Some (name +:+ "{quantile=" +:+ dquote +:+ digits +:+ dquote +:+ "," +:+ key +:+
                    "} " +:+ format_fixed 6 v +:+ newline)
  end.

(** The lines of one key; [None] is a panic. *)
Definition summary_lines (name key : string) (values : list float64) : option string :=
  let samples := merge_sort float_le values in
  match samples with
  | [] => Some ""
  | _ =>
      match quantile_line name key "0.50" q50 samples,
            quantile_line name key "0.95" q95 samples,
            quantile_line name key "0.99" q99 samples with
      | Some l50, Some l95, Some l99 =>
          Some (name +:+ "_count{" +:+ key +:+ "} " +:+ Itoa (Z.of_nat (length samples)) +:+ newline +:+
                name +:+ "_sum{" +:+ key +:+ "} " +:+ format_fixed 6 (sum samples) +:+ newline +:+
                l50 +:+ l95 +:+ l99)
      | _, _, _ => None
      end
  end.

Fixpoint concat_lines (l : list (option string)) : option string :=
  match l with
  | [] => Some ""
  | Some a :: r => match concat_lines r with Some b => Some (a +:+ b) | None => None end
  | None :: _ => None
  end.

Definition writeSummaryMap (name : string) (values : gmap string (list float64)) : option string :=
  concat_lines (map (fun key => summary_lines name key (default [] (values !! key)))
                  (sorted_keys values)).

(** What [WritePrometheus] reads of the clock and of package [runtime]. *)
Record RuntimeStats := mkRuntimeStats {
  rt_now : Time;
  rt_gomaxprocs : Z;
  rt_num_cpu : Z;
  rt_goroutines : Z;
  rt_heap_alloc : Z
}.

(** A header and one value. *)
Definition gauge (name help value : string) : string :=
  writeMetricHeader name "gauge" help +:+ name +:+ " " +:+ value +:+ newline.

Definition Metrics_WritePrometheus (rt : RuntimeStats) (m : Metrics) : option string :=
  match writeSummaryMap "pixrail_http_request_latency_seconds" (mt_latency m) with
  | None => None
  | Some summary => Some (
      gauge "pixrail_uptime_seconds" "Seconds since the process started."
        (format_fixed 0 (Duration_Seconds (time_Sub (rt_now rt) (mt_started m)))) +:+
      gauge "pixrail_runtime_gomaxprocs" "Current Go scheduler GOMAXPROCS value."
        (Itoa (rt_gomaxprocs rt)) +:+
      gauge "pixrail_runtime_num_cpu" "Logical CPUs visible to the Go runtime."
        (Itoa (rt_num_cpu rt)) +:+
      gauge "pixrail_runtime_goroutines" "Current goroutine count." (Itoa (rt_goroutines rt)) +:+
      gauge "pixrail_runtime_heap_alloc_bytes" "Currently allocated heap bytes."
        (Itoa (rt_heap_alloc rt)) +:+
      writeMetricHeader "pixrail_http_requests_total" "counter"
        "HTTP requests by method, route, and status." +:+
      writeCounterMap "pixrail_http_requests_total" (mt_requests m) +:+
      writeMetricHeader "pixrail_transfer_decisions_total" "counter"
        "Pix transfer decisions by status." +:+
      writeCounterMap "pixrail_transfer_decisions_total" (labelValues (mt_decisions m) "status") +:+
      writeMetricHeader "pixrail_outbox_events_total" "counter"
        "Outbox events created by the switch." +:+
      writeCounterMap "pixrail_outbox_events_total" (labelValues (mt_events m) "kind") +:+
      writeMetricHeader "pixrail_http_request_latency_seconds" "summary"
        "Observed HTTP request latency samples." +:+ summary)
  end.

Example format_examples :
  map (format_fixed 6) [Duration_Seconds (1500 * Millisecond); Duration_Seconds 1234567;
                        Duration_Seconds 500; Duration_Seconds 0] =
  ["1.500000"; "0.001235"; "0.000000"; "0.000000"].
Proof. vm_compute. reflexivity. Qed.

(** ** Quantiles are defined *)

(** The three indices of a sample set of each size a route can have, in order. *)
Definition indices_ok (n : nat) : bool :=
  let i50 := percentile_index n q50 in
  let i95 := percentile_index n q95 in
  let i99 := percentile_index n q99 in
  (0 <=? i50) && (i50 <=? i95) && (i95 <=? i99) && (i99 <? Z.of_nat n).

Lemma indices_checked :
  forallb indices_ok (seq 1 maxLatencySamplesPerRoute) = true.
Proof. vm_compute. reflexivity. Qed.

Lemma percentile_indices n : (0 < n <= maxLatencySamplesPerRoute)%nat ->
  0 <= percentile_index n q50 <= percentile_index n q95 /\
  percentile_index n q95 <= percentile_index n q99 < Z.of_nat n.
Proof.
  intros Hn. pose proof (proj1 (forallb_forall _ _) indices_checked n) as H.
  specialize (H ltac:(apply in_seq; lia)). unfold indices_ok in H. b2p. lia.
Qed.

(** ** Histories *)

Inductive Observation : Type :=
  | ObsRequest (method route : string) (status : Z) (elapsed : Duration)
  | ObsDecision (status : string)
  | ObsEvents (count : Z).

Definition observe (m : Metrics) (o : Observation) : Metrics :=
  match o with
  | ObsRequest method route status elapsed => Metrics_ObserveRequest method route status elapsed m
  | ObsDecision status => Metrics_ObserveDecision status m
  | ObsEvents count => Metrics_ObserveEvents count m
  end.

Definition observe_all (now : Time) (os : list Observation) : Metrics :=
  fold_left observe os (NewMetrics now).

(** What a history says about each series. *)
Definition latencies_of (key : string) (os : list Observation) : list float64 :=
  flat_map (fun o => match o with
    | ObsRequest method route _ elapsed =>
        if latency_key method route ==s key then [Duration_Seconds elapsed] else []
    | _ => [] end) os.
Definition requests_of (key : string) (os : list Observation) : Z :=
  Z.of_nat (length (List.filter (fun o => match o with
    | ObsRequest method route status _ => request_key method route status ==s key
    | _ => false end) os)).
Definition decisions_of (status : string) (os : list Observation) : Z :=
  Z.of_nat (length (List.filter (fun o => match o with
    | ObsDecision s => s ==s status | _ => false end) os)).
Definition events_of (os : list Observation) : Z :=
  fold_left (fun n o => match o with ObsEvents c => n + c | _ => n end) os 0.

(** The last [maxLatencySamplesPerRoute] elements. *)
Definition last_samples (l : list float64) : list float64 :=
  drop (length l - maxLatencySamplesPerRoute) l.

Lemma clip_last l : clip_samples l = last_samples l.
Proof.
  unfold clip_samples, last_samples.
  destruct (_ <? _)%nat eqn:E; [done|]. apply Nat.ltb_ge in E.
  by replace (length l - maxLatencySamplesPerRoute)%nat with O by lia.
Qed.

Lemma last_samples_snoc l x : last_samples (last_samples l ++ [x]) = last_samples (l ++ [x]).
Proof.
  unfold last_samples. rewrite !length_app, length_drop. cbn [length].
  destruct (decide (length l < maxLatencySamplesPerRoute)%nat) as [H|H].
  - replace (length l - maxLatencySamplesPerRoute)%nat with O by lia. rewrite drop_0.
    by rewrite Nat.sub_0_r.
  - rewrite !drop_app_le by (rewrite ?length_drop; unfold maxLatencySamplesPerRoute in *; lia).
    rewrite drop_drop. do 2 f_equal. unfold maxLatencySamplesPerRoute in *. lia.
Qed.

Lemma length_last_samples l : (length (last_samples l) <= maxLatencySamplesPerRoute)%nat.
Proof. unfold last_samples. rewrite length_drop. lia. Qed.

Lemma observe_all_snoc now os o :
  observe_all now (os ++ [o]) = observe (observe_all now os) o.
Proof. unfold observe_all. by rewrite fold_left_app. Qed.

Lemma add_count_lookup key key' n counts :
  default 0 (add_count key n counts !! key') =
    if key ==s key' then int64 (default 0 (counts !! key') + n) else default 0 (counts !! key').
Proof.
  unfold add_count. destruct (key ==s key') eqn:E; b2p.
  - subst. by rewrite lookup_insert_eq.
  - by rewrite lookup_insert_ne.
Qed.

(** What a route's entry holds after the latencies [l]. *)
Definition kept_samples (l : list float64) : option (list float64) :=
  match l with [] => None | _ => Some (last_samples l) end.

Lemma kept_snoc l x :
  Some (clip_samples (default [] (kept_samples l) ++ [x])) = kept_samples (l ++ [x]).
Proof.
  rewrite clip_last. replace (default [] (kept_samples l)) with (last_samples l) by (by destruct l).
  rewrite last_samples_snoc. by destruct l.
Qed.

(** The latency samples of a history. *)
Lemma history_latency now os key :
  mt_latency (observe_all now os) !! key = kept_samples (latencies_of key os).
Proof.
  induction os as [|o os IH] using rev_ind; [apply lookup_empty|].
  rewrite observe_all_snoc. unfold latencies_of in *. rewrite flat_map_app. cbn [flat_map].
  destruct o as [method route status elapsed|status|count]; cbn [observe];
    rewrite ?app_nil_r; [|done|done].
  unfold Metrics_ObserveRequest.
  change (mt_latency (?m <| mt_latency := ?v |>)) with v. cbv zeta.
  change (mt_latency (?m <| mt_requests := ?v |>)) with (mt_latency m).
  destruct (latency_key method route ==s key) eqn:E; b2p.
  - subst key. by rewrite lookup_insert_eq, IH, kept_snoc.
  - by rewrite lookup_insert_ne, ?app_nil_r.
Qed.

Lemma history_requests now os key :
  default 0 (mt_requests (observe_all now os) !! key) = int64 (requests_of key os).
Proof.
  induction os as [|o os IH] using rev_ind; [done|].
  rewrite observe_all_snoc. unfold requests_of in *. rewrite List.filter_app, length_app.
  destruct o as [method route status elapsed|status|count]; cbn [observe List.filter];
    rewrite ?Nat.add_0_r; [|done|done].
  unfold Metrics_ObserveRequest. cbn [mt_requests upd_field].
  change (mt_requests (?m <| mt_latency := ?v |>)) with (mt_requests m).
  cbn. rewrite add_count_lookup, IH. destruct (_ ==s key); cbn [length].
  - rewrite int64_add_l. f_equal. lia.
  - by rewrite Nat.add_0_r.
Qed.

Lemma history_decisions now os status :
  default 0 (mt_decisions (observe_all now os) !! status) = int64 (decisions_of status os).
Proof.
  induction os as [|o os IH] using rev_ind; [done|].
  rewrite observe_all_snoc. unfold decisions_of in *. rewrite List.filter_app, length_app.
  destruct o as [method route st elapsed|st|count]; cbn [observe List.filter];
    rewrite ?Nat.add_0_r; [done| |done].
  cbn. rewrite add_count_lookup, IH. destruct (st ==s status); cbn [length].
  - rewrite int64_add_l. f_equal. lia.
  - by rewrite Nat.add_0_r.
Qed.

Lemma history_events now os :
  default 0 (mt_events (observe_all now os) !! "outbox_inserted") = int64 (events_of os).
Proof.
  induction os as [|o os IH] using rev_ind; [done|].
  rewrite observe_all_snoc. unfold events_of in *. rewrite fold_left_app. cbn [fold_left].
  destruct o as [method route st elapsed|st|count]; cbn [observe]; [done|done|].
  cbn. rewrite add_count_lookup, IH. cbn [String.eqb Ascii.eqb Bool.eqb].
  rewrite int64_add_l, Z.add_comm, int64_add_l. f_equal. lia.
Qed.

(** A percentile of at most 1024 samples exists. *)
Lemma percentile_some samples q :
  q = q50 \/ q = q95 \/ q = q99 -> (length samples <= maxLatencySamplesPerRoute)%nat ->
  is_Some (percentile samples q).
Proof.
  intros Hq Hl. unfold percentile. destruct samples as [|x l]; [by eexists|].
  pose proof (percentile_indices (length (x :: l)) ltac:(cbn [length] in *; lia)) as [H1 H2].
  assert (Hi : 0 <= percentile_index (length (x :: l)) q < Z.of_nat (length (x :: l)))
    by (destruct Hq as [->|[->| ->]]; lia).
  rewrite (proj2 (Z.ltb_ge _ 0)) by lia. apply lookup_lt_is_Some. lia.
Qed.

Lemma summary_some name key l : (length l <= maxLatencySamplesPerRoute)%nat ->
  is_Some (summary_lines name key l).
Proof.
  intros Hl. unfold summary_lines.
  assert (Hs : (length (merge_sort float_le l) <= maxLatencySamplesPerRoute)%nat)
    by (by rewrite (Permutation_length (merge_sort_Permutation _ _))).
  destruct (merge_sort float_le l) as [|x s]; [by eexists|]. unfold quantile_line.
  destruct (percentile_some (x :: s) q50) as [? ->]; [tauto|done|].
  destruct (percentile_some (x :: s) q95) as [? ->]; [tauto|done|].
  destruct (percentile_some (x :: s) q99) as [? ->]; [tauto|done|].
  by eexists.
Qed.

Lemma concat_some l : Forall is_Some l -> is_Some (concat_lines l).
Proof.
  induction 1 as [|x l [a ->] _ [b IH]]; [by eexists|]. cbn. rewrite IH. by eexists.
Qed.

(** After any history of observations, each series is what the history
    says: a route keeps exactly its last 1024 latencies, the counters count, and the
    quantile indices are in range, so that the text can always be written. *)
Theorem metrics_history now os method route status rt :
  let m := observe_all now os in
  mt_latency m !! latency_key method route =
    match latencies_of (latency_key method route) os with
    | [] => None
    | l => Some (drop (length l - 1024) l)
    end /\
  default 0 (mt_requests m !! request_key method route status) =
    int64 (requests_of (request_key method route status) os) /\
  default 0 (mt_decisions m !! method) = int64 (decisions_of method os) /\
  default 0 (mt_events m !! "outbox_inserted") = int64 (events_of os) /\
  is_Some (Metrics_WritePrometheus rt m).
Proof.
  cbv zeta. split_and!.
  - rewrite history_latency. by destruct (latencies_of _ os).
  - apply history_requests.
  - apply history_decisions.
  - apply history_events.
  - unfold Metrics_WritePrometheus.
    assert (H : is_Some (writeSummaryMap "pixrail_http_request_latency_seconds"
      (mt_latency (observe_all now os)))).
    { apply concat_some, Forall_map, Forall_forall. intros key _.
      apply summary_some. rewrite history_latency.
      destruct (latencies_of key os) as [|x l]; [cbn; lia|].
      exact (length_last_samples (x :: l)). }
    destruct H as [s ->]. by eexists.
Qed.
