(* ===== verification/JsonText.v ===== *)
(** * JSON text reads back

    What [Events.json_text] writes, [JsonDecode] reads: a string comes back with its
    invalid UTF-8 replaced, an integer with its digits, an array or an object with its
    elements. The bound of the parser is large enough for every text. *)

From S2P Require Import Prelude GoStrings GoStrconv Events JsonDecode.

(** ** Strings *)

(** The valid UTF-8 a Go string becomes in JSON: every byte that starts no rune is
    replaced by U+FFFD. [copy] bytes of the current rune are copied. *)
Fixpoint to_valid (copy : nat) (s : string) : string :=
  match s with
  | EmptyString => ""
  | String c r =>
      match copy with
      | S k => String c (to_valid k r)
      | O =>
          if code c <? 128 then String c (to_valid 0 r)
          else match rune_size s with
          | O => replacement +:+ to_valid 0 r
          | S n => String c (to_valid n r)
          end
      end
  end.

(** [utf8.ValidString]. *)
Definition valid_utf8 (s : string) : bool := to_valid 0 s ==s s.

Lemma append_cons c a b : (String c a +:+ b) = String c (a +:+ b).
Proof. done. Qed.

Lemma append_nil b : "" +:+ b = b.
Proof. done. Qed.

Lemma append_assoc a b c : (a +:+ b) +:+ c = a +:+ (b +:+ c).
Proof. induction a as [|x a IH]; [done|]. rewrite !append_cons. by rewrite IH. Qed.

Lemma append_nil_r a : a +:+ "" = a.
Proof. induction a as [|x a IH]; [done|]. rewrite append_cons. by rewrite IH. Qed.

Lemma length_append a b : String.length (a +:+ b) = (String.length a + String.length b)%nat.
Proof. induction a as [|x a IH]; [done|]. rewrite append_cons. cbn. by rewrite IH. Qed.

(** The escape of an ASCII byte is read as the byte. *)
Lemma unquote_escape_ascii c x : code c < 128 ->
  unquote 0 0 (escape_ascii c +:+ x) = prepend (String c "") (unquote 0 0 x).
Proof.
  intros Hc. destruct c as [[] [] [] [] [] [] [] []]; try (exfalso; by vm_compute in Hc);
    reflexivity.
Qed.

Lemma prepend_app p q r : prepend p (prepend q r) = prepend (p +:+ q) r.
Proof. destruct r as [[s rest]|]; [|done]. cbn. by rewrite append_assoc. Qed.

Lemma escape_skip p t : escape_from (String.length p) (p +:+ t) = escape_from 0 t.
Proof. induction p as [|c p IH]; [done|]. exact IH. Qed.

Lemma to_valid_copy p t : to_valid (String.length p) (p +:+ t) = p +:+ to_valid 0 t.
Proof. induction p as [|c p IH]; [done|]. rewrite !append_cons. cbn. by rewrite IH. Qed.

Lemma unquote_copy p x :
  unquote 0 (String.length p) (p +:+ x) = prepend p (unquote 0 0 x).
Proof.
  induction p as [|c p IH].
  { change ("" +:+ x) with x. cbn [String.length]. by destruct (unquote 0 0 x) as [[? ?]|]. }
  rewrite append_cons. cbn [String.length unquote]. rewrite IH, prepend_app. done.
Qed.

Lemma unquote_skip n p x : (String.length p <= n)%nat ->
  unquote n 0 (p +:+ x) = unquote (n - String.length p) 0 x.
Proof.
  revert n. induction p as [|c p IH]; intros n Hn; [by rewrite Nat.sub_0_r|].
  destruct n as [|n]; cbn in Hn; [lia|]. rewrite append_cons. cbn. apply IH. lia.
Qed.

Lemma substring_prefix p t : String.substring 0 (String.length p) (p +:+ t) = p.
Proof. induction p as [|c p IH]; [by destruct t|]. rewrite append_cons. cbn. by rewrite IH. Qed.

(** A rune at the head of a string: its bytes, whatever follows. *)
Lemma rune_head s n : rune_size s = S n ->
  exists c p t, s = String c (p +:+ t) /\ String.length p = n /\
    forall x, rune_size (String c (p +:+ x)) = S n.
Proof.
  intros E. destruct s as [|a [|b r]]; [done..|]. cbn in E.
  destruct (between 0xC2 0xDF a && cont b) eqn:E2.
  { exists a, (String b ""), r. injection E as <-. split_and!; [done..|]. 
    intros x. rewrite !append_cons, append_nil. unfold rune_size. by rewrite E2. }
  destruct r as [|c r]; [done|].
  destruct ((((code a =? 0xE0) && between 0xA0 0xBF b) || (between 0xE1 0xEC a && cont b) ||
    ((code a =? 0xED) && between 0x80 0x9F b) || (between 0xEE 0xEF a && cont b)) && cont c) eqn:E3.
  { exists a, (String b (String c "")), r. injection E as <-. split_and!; [done..|].
    intros x. rewrite !append_cons, append_nil. unfold rune_size. by rewrite E2, E3. }
  destruct r as [|d r]; [done|].
  destruct ((((code a =? 0xF0) && between 0x90 0xBF b) || (between 0xF1 0xF3 a && cont b) ||
    ((code a =? 0xF4) && between 0x80 0x8F b)) && cont c && cont d) eqn:E4; [|done].
  exists a, (String b (String c (String d ""))), r. injection E as <-. split_and!; [done..|].
  intros x. rewrite !append_cons, append_nil. unfold rune_size. by rewrite E2, E3, E4.
Qed.

(** U+2028 and U+2029 are escaped and read back. *)
Lemma line_separator_inv s d n : line_separator s = Some d -> rune_size s = S n ->
  exists c p t, s = String c (p +:+ t) /\ String.length p = 2%nat /\ n = 2%nat /\
    forall x, unquote 0 0 (backslash +:+ "u202" +:+ d +:+ x)
              = prepend (String c p) (unquote 0 0 x).
Proof.
  intros E Hn. destruct s as [|a [|b [|c t]]]; [done..|]. cbn in E.
  destruct ((code a =? 0xE2) && (code b =? 0x80)) eqn:Eab; [|done].
  assert (Hin : forall u v, code u = code v -> u = v).
  { intros u v Huv. unfold code in Huv. apply N2Z.inj in Huv.
    by rewrite <- (ascii_N_embedding u), <- (ascii_N_embedding v), Huv. }
  b2p. assert (a = chr 0xE2 /\ b = chr 0x80) as [-> ->] by (split; apply Hin; done).
  destruct (code c =? 0xA8) eqn:Ec; [|destruct (code c =? 0xA9) eqn:Ed; [|done]]; simplify_eq; b2p.
  - assert (c = chr 0xA8) as -> by (apply Hin; done). cbn in Hn. injection Hn as <-.
    exists (chr 0xE2), (String (chr 0x80) (String (chr 0xA8) "")), t. done.
  - assert (c = chr 0xA9) as -> by (apply Hin; done). cbn in Hn. injection Hn as <-.
    exists (chr 0xE2), (String (chr 0x80) (String (chr 0xA9) "")), t. done.
Qed.

Lemma unquote_rune c r n : (code c <? 128) = false -> rune_size (String c r) = S n ->
  unquote 0 0 (String c r) = prepend (String c "") (unquote 0 n r).
Proof.
  intros Hc Hn. apply Z.ltb_ge in Hc. cbn [unquote]. rewrite Hn.
  rewrite (proj2 (Z.eqb_neq (code c) 34)), (proj2 (Z.ltb_ge (code c) 32)),
    (proj2 (Z.eqb_neq (code c) 92)), (proj2 (Z.ltb_ge (code c) 128)) by lia. done.
Qed.

(** Go's string escaping is inverted by reading the string. *)
Lemma unquote_escape s rest :
  unquote 0 0 (escape_from 0 s +:+ quote +:+ rest) = Some (to_valid 0 s, rest).
Proof.
  remember (String.length s) as n eqn:Hn. revert s Hn.
  induction (lt_wf n) as [n _ IH]. intros s ->. destruct s as [|c r]; [done|].
  cbn [escape_from to_valid]. destruct (code c <? 128) eqn:Hc.
  - rewrite append_assoc, unquote_escape_ascii by (by apply Z.ltb_lt).
    by rewrite (IH (String.length r)) by (cbn; lia).
  - destruct (rune_size (String c r)) as [|m] eqn:Em.
    + rewrite !append_assoc.
      change (unquote 0 0 (backslash +:+ "ufffd" +:+ ?x)) with (prepend replacement (unquote 0 0 x)).
      by rewrite (IH (String.length r)) by (cbn; lia).
    + cbn [Nat.sub]. rewrite Nat.sub_0_r. destruct (line_separator (String c r)) as [d|] eqn:Ed.
      * destruct (line_separator_inv _ _ _ Ed Em) as (c' & p & t & [= <- ->] & Hp & -> & Hx).
        rewrite !append_assoc, Hx, <- Hp, escape_skip, to_valid_copy.
        by rewrite (IH (String.length t)) by (cbn; rewrite ?length_append; lia).
      * destruct (rune_head _ _ Em) as (c' & p & t & [= <- ->] & <- & Hx).
        change (String.substring 0 (S (String.length p)) (String c (p +:+ t)))
          with (String c (String.substring 0 (String.length p) (p +:+ t))).
        rewrite substring_prefix, escape_skip, to_valid_copy, append_cons.
        rewrite append_cons, append_assoc, (unquote_rune _ _ _ Hc (Hx _)), unquote_copy.
        rewrite (IH (String.length t)) by (cbn; rewrite ?length_append; lia). done.
Qed.

(** Reading once is enough. *)
Lemma to_valid_idem s : to_valid 0 (to_valid 0 s) = to_valid 0 s.
Proof.
  remember (String.length s) as n eqn:Hn. revert s Hn.
  induction (lt_wf n) as [n _ IH]. intros s ->. destruct s as [|c r]; [done|].
  cbn [to_valid]. destruct (code c <? 128) eqn:Hc.
  - cbn [to_valid]. rewrite Hc. by rewrite (IH (String.length r)) by (cbn; lia).
  - destruct (rune_size (String c r)) as [|m] eqn:Em.
    + change (to_valid 0 (replacement +:+ ?x)) with (replacement +:+ to_valid 0 x).
      by rewrite (IH (String.length r)) by (cbn; lia).
    + destruct (rune_head _ _ Em) as (c' & p & t & [= <- ->] & <- & Hx).
      rewrite to_valid_copy. cbn [to_valid]. rewrite Hc, Hx, to_valid_copy.
      by rewrite (IH (String.length t)) by (cbn; rewrite ?length_append; lia).
Qed.

(** ** Integers *)

Definition digit (d : Z) : ascii := pretty_N_char (Z.to_N d).

Lemma digit_code d : 0 <= d <= 9 -> code (digit d) = 48 + d.
Proof.
  intros Hd.
  assert (d = 0 \/ d = 1 \/ d = 2 \/ d = 3 \/ d = 4 \/ d = 5 \/ d = 6 \/ d = 7 \/ d = 8 \/ d = 9)
    as Hcases by lia.
  by repeat destruct Hcases as [->|Hcases]; [..|subst d].
Qed.

(** [p] is the decimal text of the positive number [n]. *)
Inductive decimal : Z -> string -> Prop :=
  | decimal_digit d : 1 <= d <= 9 -> decimal d (String (digit d) "")
  | decimal_snoc n d p : decimal n p -> 0 <= d <= 9 ->
      decimal (10 * n + d) (p +:+ String (digit d) "").

Lemma pretty_N_go_app x s : pretty_N_go x s = pretty_N_go x "" +:+ s.
Proof.
  revert s. induction (N.lt_wf_0 x) as [x _ IH]; intros s.
  destruct (decide (x = 0%N)) as [->|Hx]; [by rewrite !pretty_N_go_0|].
  rewrite !(pretty_N_go_step x) by lia. assert (Hlt : (x / 10 < x)%N) by (apply N.div_lt; lia).
  rewrite (IH _ Hlt), (IH _ Hlt (String _ "")), append_assoc. done.
Qed.

Lemma pretty_N_decimal x : (0 < x)%N -> decimal (Z.of_N x) (pretty_N_go x "").
Proof.
  induction (N.lt_wf_0 x) as [x _ IH]; intros Hx.
  rewrite pretty_N_go_step, pretty_N_go_app by done.
  pose proof (N.div_mod x 10 ltac:(done)) as Hdm. pose proof (N.mod_lt x 10 ltac:(done)) as Hm.
  replace (pretty_N_char (x mod 10)) with (digit (Z.of_N (x mod 10)))
    by (unfold digit; by rewrite N2Z.id).
  assert (Hlt : (x / 10 < x)%N) by (apply N.div_lt; lia).
  generalize dependent (x mod 10)%N. generalize dependent (x / 10)%N. intros q Hlt m Hdm Hm.
  destruct (decide (q = 0)%N) as [->|E].
  - rewrite pretty_N_go_0, append_nil. replace (Z.of_N x) with (Z.of_N m) by lia.
    apply decimal_digit. lia.
  - replace (Z.of_N x) with (10 * Z.of_N q + Z.of_N m) by lia.
    apply decimal_snoc; [|lia]. apply IH; lia.
Qed.

Lemma Itoa_cases z :
  z = 0 /\ Itoa z = "0" \/
  (exists p, decimal z p /\ Itoa z = p) \/
  (exists p, decimal (- z) p /\ Itoa z = String "-" p).
Proof.
  destruct z as [|z|z]; [by left|right; left|right; right].
  - exists (pretty_N_go (Npos z) ""). split; [by apply (pretty_N_decimal (Npos z))|done].
  - exists (pretty_N_go (Npos z) ""). split; [by apply (pretty_N_decimal (Npos z))|done].
Qed.

Definition str_all (f : ascii -> bool) (s : string) : Prop :=
  Forall (fun c => f c = true) (list_ascii_of_string s).

Lemma str_all_app f a b : str_all f (a +:+ b) <-> str_all f a /\ str_all f b.
Proof.
  unfold str_all. rewrite <- Forall_app. replace (list_ascii_of_string (a +:+ b)) with
    (list_ascii_of_string a ++ list_ascii_of_string b); [done|].
  induction a as [|c a IH]; [done|]. rewrite append_cons. cbn. by rewrite IH.
Qed.

Lemma digit_is_digit d : 0 <= d <= 9 -> is_digit (digit d) = true.
Proof. intros Hd. unfold is_digit. rewrite digit_code by done. lia. Qed.

Lemma decimal_shape n p : decimal n p ->
  1 <= n /\ str_all is_digit p /\ exists c q, p = String c q /\ 49 <= code c <= 57.
Proof.
  induction 1 as [d Hd|n d p _ (Hn & Hall & c & q & -> & Hc) Hd].
  - split_and!; [lia|repeat constructor; apply digit_is_digit; lia|].
    exists (digit d), "". rewrite digit_code by lia. split; [done|lia].
  - split_and!; [lia| |by exists c, (q +:+ String (digit d) "")].
    apply str_all_app. split; [done|]. repeat constructor. by apply digit_is_digit.
Qed.

Lemma parse_uint_decimal n p t : decimal n p -> n < 2^64 ->
  parse_uint_loop 0 (p +:+ t) = parse_uint_loop n t.
Proof.
  intros Hp. revert t. induction Hp as [d Hd|n d p Hp IH Hd]; intros t Hn.
  - rewrite append_cons, append_nil. cbn [parse_uint_loop].
    rewrite digit_is_digit by lia. unfold digit_value. rewrite digit_code by lia.
    cbn [negb]. change (2^64 / 10 + 1) with 1844674407370955162.
    rewrite (proj2 (Z.leb_gt _ 0)) by lia. rewrite (proj2 (Z.leb_gt _ _)) by lia.
    f_equal. lia.
  - rewrite append_assoc, IH, append_cons, append_nil by lia. cbn [parse_uint_loop].
    rewrite digit_is_digit by lia. unfold digit_value. rewrite digit_code by lia.
    cbn [negb]. change (2^64 / 10 + 1) with 1844674407370955162.
    rewrite (proj2 (Z.leb_gt _ n)) by lia. rewrite (proj2 (Z.leb_gt _ _)) by lia.
    f_equal. lia.
Qed.

(** [strconv.ParseInt] inverts [strconv.FormatInt]. *)
Lemma parse_int_Itoa z : in_int64 z -> parse_int (Itoa z) = inl z.
Proof.
  intros Hz. assert (Hdec : forall n p, decimal n p -> n <= 2^63 -> parse_uint p = inl n).
  { intros n p Hp Hn. destruct (decimal_shape _ _ Hp) as (_ & _ & c & q & -> & _).
    unfold parse_uint. rewrite <- (append_nil_r (String c q)).
    by rewrite (parse_uint_decimal n) by (done || lia). }
  destruct (Itoa_cases z) as [[-> ->]|[(p & Hp & ->)|(p & Hp & ->)]]; [done| |];
    destruct (decimal_shape _ _ Hp) as (Hn & _ & c & q & Eq & Hc); unfold parse_int.
  - rewrite Eq. rewrite (proj2 (Z.eqb_neq (code c) 45)), (proj2 (Z.eqb_neq (code c) 43)) by lia.
    rewrite <- Eq, (Hdec _ _ Hp) by int_lia. cbn [negb andb].
    by rewrite (proj2 (Z.leb_gt _ z)) by int_lia.
  - change (code "-" =? 45) with true. cbv beta iota zeta.
    rewrite (Hdec _ _ Hp) by int_lia. cbn [negb andb].
    rewrite (proj2 (Z.ltb_ge _ (- z))) by int_lia. f_equal. lia.
Qed.

(** What may follow a number. *)
Definition number_stop (t : string) : bool :=
  match t with
  | EmptyString => true
  | String c _ =>
      negb (is_digit c) && negb (code c =? 46) && negb (code c =? 101) && negb (code c =? 69)
  end.

Lemma span_digits_app p t : str_all is_digit p -> number_stop t = true ->
  span_digits (p +:+ t) = (p, t).
Proof.
  intros Hp Ht. induction p as [|c p IH].
  - rewrite append_nil. destruct t as [|c t]; [done|]. cbn in *. b2p. 
    match goal with H : is_digit c = false |- _ => by rewrite H end.
  - inversion Hp as [|? ? Hc Hp']. rewrite append_cons. cbn. by rewrite Hc, IH.
Qed.

Lemma number_tail t : number_stop t = true -> number_frac t = Some ("", t) /\ number_exp t = Some ("", t).
Proof.
  intros Ht. destruct t as [|c t]; [done|]. cbn in *. b2p.
  by rewrite (proj2 (Z.eqb_neq (code c) 46)), (proj2 (Z.eqb_neq (code c) 101)),
    (proj2 (Z.eqb_neq (code c) 69)) by done.
Qed.

Lemma number_int_decimal n p t : decimal n p -> number_stop t = true ->
  number_int (p +:+ t) = Some (p, t).
Proof.
  intros Hp Ht. destruct (decimal_shape _ _ Hp) as (_ & Hall & c & q & -> & Hc).
  inversion Hall as [|? ? Hd Hq]. rewrite append_cons. cbn.
  rewrite (proj2 (Z.eqb_neq (code c) 48)), Hd, span_digits_app by (done || lia). done.
Qed.

Lemma parse_number_Itoa z t : number_stop t = true ->
  parse_number (Itoa z +:+ t) = Some (Itoa z, t).
Proof.
  intros Ht. destruct (number_tail t Ht) as [Hf He]. unfold parse_number.
  destruct (Itoa_cases z) as [[_ ->]|[(p & Hp & ->)|(p & Hp & ->)]].
  - rewrite append_cons, append_nil. cbn [code]. change (code "0" =? 45) with false.
    cbv beta iota. change (number_int (String "0" t)) with (Some ("0", t)). cbv beta iota.
    by rewrite Hf, He.
  - destruct (decimal_shape _ _ Hp) as (_ & _ & c & q & Eq & Hc). rewrite Eq, append_cons.
    rewrite (proj2 (Z.eqb_neq (code c) 45)) by lia. cbv beta iota.
    rewrite <- append_cons, <- Eq, (number_int_decimal z) by done. rewrite Hf, He.
    by rewrite !append_nil, append_nil_r.
  - rewrite append_cons. change (code "-" =? 45) with true. cbv beta iota.
    rewrite (number_int_decimal (- z)), Hf, He by done. by rewrite append_nil_r.
Qed.

(** ** Values *)

(** Values without sorted objects, raw text and times. *)
Fixpoint plain (j : json) : bool :=
  match j with
  | JString _ | JInt _ | JBool _ | JNull | JStrings _ => true
  | JArray l => forallb plain l
  | JStruct kvs => forallb (fun kv => plain (snd kv)) kvs
  | JRaw _ | JTime _ | JObject _ => false
  end.

Fixpoint value_of (j : json) : jvalue :=
  match j with
  | JString s => VString (to_valid 0 s)
  | JInt z => VNumber (Itoa z)
  | JBool b => VBool b
  | JStrings l => VArray (map (fun s => VString (to_valid 0 s)) l)
  | JArray l => VArray (map value_of l)
  | JStruct kvs => VObject (map (fun kv => (to_valid 0 (fst kv), value_of (snd kv))) kvs)
  | _ => VNull
  end.

(** The nesting of a value. *)
Fixpoint height (j : json) : Z :=
  match j with
  | JStrings _ => 1
  | JArray l => 1 + foldr Z.max 0 (map height l)
  | JStruct kvs => 1 + foldr Z.max 0 (map (fun kv => height (snd kv)) kvs)
  | _ => 0
  end.

Section JsonInd.
Variable P : json -> Prop.
Hypothesis Pleaf : forall j, match j with JArray _ | JStruct _ | JObject _ => False | _ => True end -> P j.
Hypothesis Parray : forall l, Forall P l -> P (JArray l).
Hypothesis Pobject : forall kvs, P (JObject kvs).
Hypothesis Pstruct : forall kvs, Forall (fun kv => P (snd kv)) kvs -> P (JStruct kvs).

Fixpoint json_ind' (j : json) : P j :=
  match j with
  | JArray l => Parray l ((fix go l := match l return Forall P l with
      | [] => Forall_nil_2 _ | x :: l => Forall_cons_2 _ _ _ (json_ind' x) (go l) end) l)
  | JStruct kvs => Pstruct kvs ((fix go l := match l return Forall (fun kv => P (snd kv)) l with
      | [] => Forall_nil_2 _ | x :: l => Forall_cons_2 _ _ _ (json_ind' (snd x)) (go l) end) kvs)
  | JObject kvs => Pobject kvs
  | j => Pleaf j I
  end.
End JsonInd.

(** The first byte of a value. *)
Definition value_start (c : ascii) : bool :=
  let z := code c in
  (z =? 34) || (z =? 45) || is_digit c || (z =? 116) || (z =? 102) || (z =? 110) ||
  (z =? 91) || (z =? 123).

Lemma json_text_head j : plain j = true ->
  exists c q, json_text j = String c q /\ value_start c = true.
Proof.
  destruct j as [s|z|b| | | |l|l| |kvs]; try done; intros _; cbn [json_text];
    try (by eexists _, _).
  - destruct (Itoa_cases z) as [[_ ->]|[(p & Hp & ->)|(p & Hp & ->)]]; try (by eexists _, _).
    destruct (decimal_shape _ _ Hp) as (_ & _ & c & q & -> & Hc). exists c, q.
    split; [done|]. unfold value_start, is_digit. lia.
  - destruct b; by eexists _, _.
Qed.

Lemma start_next c r : value_start c = true -> next_byte (String c r) = Some (code c, r).
Proof.
  intros Hc. unfold next_byte. cbn. unfold is_space. unfold value_start, is_digit in Hc.
  replace (_ || _) with false by lia. done.
Qed.

(** A value does not close an array. *)
Lemma start_array {A} c r (f : string -> A) x : value_start c = true ->
  match next_byte (String c r) with Some (93, r') => f r' | _ => x end = x.
Proof.
  intros Hc. destruct c as [[] [] [] [] [] [] [] []]; try discriminate Hc; reflexivity.
Qed.

Lemma unquote_json_string s rest :
  next_byte (json_string s +:+ rest) = Some (34, escape_from 0 s +:+ quote +:+ rest).
Proof. unfold json_string. rewrite !append_assoc. done. Qed.

(** The text of [j], with enough calls, reads as [j]. *)
Definition reads (j : json) : Prop := forall n depth rest,
  plain j = true -> number_stop rest = true -> (2 * String.length (json_text j) + 1 <= n)%nat ->
  depth + height j <= maxNestingDepth ->
  parse_value n depth (json_text j +:+ rest) = Some (value_of j, rest).

Lemma reads_length j : plain j = true -> (1 <= String.length (json_text j))%nat.
Proof. intros Hj. destruct (json_text_head j Hj) as (c & q & -> & _). cbn. lia. Qed.

Lemma reads_int z : reads (JInt z).
Proof.
  intros n depth rest _ Hs Hn _. destruct n as [|n]; [lia|]. cbn [json_text value_of] in *.
  pose proof (parse_number_Itoa z rest Hs) as Hp.
  assert (Hh : exists c q, Itoa z = String c q /\ value_start c = true /\ (code c =? 34) = false /\
    (code c =? 123) = false /\ (code c =? 91) = false /\ (code c =? 116) = false /\
    (code c =? 102) = false /\ (code c =? 110) = false).
  { destruct (Itoa_cases z) as [[_ ->]|[(p & Hd & ->)|(p & Hd & ->)]]; try (by eexists _, _).
    destruct (decimal_shape _ _ Hd) as (_ & _ & c & q & -> & Hc). exists c, q.
    unfold value_start, is_digit. split_and!; [done|lia..]. }
  destruct Hh as (c & q & E & Hc & E1 & E2 & E3 & E4 & E5 & E6). rewrite E in *.
  rewrite append_cons in *. cbn [parse_value]. rewrite start_next, E1, E2, E3, E4, E5, E6 by done.
  replace (skip_space (String c (q +:+ rest))) with (String c (q +:+ rest)); [by rewrite Hp|].
  cbn. unfold is_space. unfold value_start, is_digit in Hc. by replace (_ || _) with false by lia.
Qed.

Lemma expect_app literal rest v : expect literal (literal +:+ rest) v = Some (v, rest).
Proof.
  unfold expect, HasPrefix. replace (String.prefix literal (literal +:+ rest)) with true.
  - f_equal. f_equal. induction literal as [|c l IH]; [done|]. by rewrite append_cons.
  - induction literal as [|c l IH]; [by destruct rest|]. rewrite append_cons. cbn.
    by destruct (ascii_dec c c).
Qed.

Lemma reads_leaf j :
  match j with JArray _ | JStruct _ | JObject _ | JStrings _ => False | _ => True end -> reads j.
Proof.
  destruct j as [s|z|b| | | | | | |]; try done; intros _ n depth rest Hp Hs Hn Hd; try done.
  - destruct n as [|n]; [cbn in Hn; lia|]. cbn [parse_value json_text].
    rewrite unquote_json_string. cbv beta iota. change (34 =? 34) with true. cbv iota.
    by rewrite unquote_escape.
  - by apply reads_int.
  - destruct n as [|n]; [lia|]. destruct b.
    + exact (expect_app "true" rest (VBool true)).
    + exact (expect_app "false" rest (VBool false)).
  - destruct n as [|n]; [lia|]. exact (expect_app "null" rest VNull).
Qed.

Lemma elements_read l n depth rest acc :
  Forall reads l -> forallb plain l = true -> l <> [] ->
  (2 * String.length (Join "," (map json_text l)) + 2 <= n)%nat ->
  depth + foldr Z.max 0 (map height l) <= maxNestingDepth ->
  parse_elements n depth (Join "," (map json_text l) +:+ "]" +:+ rest) acc =
    Some (VArray (acc ++ map value_of l), rest).
Proof.
  intros Hr. revert n acc. induction Hr as [|x l Hx Hl IH]; intros n acc Hp Hne Hn Hd; [done|].
  cbn in Hp, Hd. apply andb_prop in Hp as [Hpx Hpl]. destruct n as [|n]; [lia|].
  destruct l as [|y l].
  - cbn [map Join] in *. cbn [parse_elements].
    rewrite (Hx n depth ("]" +:+ rest)) by (done || lia). cbv beta iota.
    change (next_byte ("]" +:+ rest)) with (Some (93, rest)). done.
  - cbn [map] in *. change (Join "," (json_text x :: json_text y :: map json_text l)) with
      (json_text x +:+ "," +:+ Join "," (json_text y :: map json_text l)) in *.
    rewrite !length_append in Hn. cbn [String.length] in Hn.
    pose proof (reads_length x Hpx). rewrite !append_assoc. cbn [parse_elements].
    rewrite (Hx n depth) by (done || lia). cbv beta iota.
    change (next_byte ("," +:+ ?t)) with (Some (44, t)). cbv beta iota.
    rewrite IH; [|done..|lia|lia]. by rewrite <- app_assoc.
Qed.

Lemma reads_array l : Forall reads l -> reads (JArray l).
Proof.
  intros Hl n depth rest Hp _ Hn Hd. cbn [plain json_text height value_of] in *.
  rewrite !length_append in Hn. cbn [String.length] in Hn. destruct n as [|n]; [lia|].
  rewrite !append_assoc. cbn [parse_value].
  change (next_byte ("[" +:+ ?t)) with (Some (91, t)). cbv beta iota.
  change (91 =? 34) with false. change (91 =? 123) with false. change (91 =? 91) with true.
  cbv iota. assert (Hm : 0 <= foldr Z.max 0 (map height l))
    by (clear; induction (map height l); cbn; lia).
  rewrite (proj2 (Z.leb_gt maxNestingDepth depth)) by lia.
  destruct l as [|x l].
  - cbn [map Join]. rewrite append_nil.
    change (next_byte ("]" +:+ rest)) with (Some (93, rest)). done.
  - assert (Hh : exists c q, Join "," (map json_text (x :: l)) +:+ "]" +:+ rest = String c q /\
      value_start c = true).
    { cbn in Hp. apply andb_prop in Hp as [Hpx _].
      destruct (json_text_head x Hpx) as (c & q & Eq & Hc). cbn [map Join].
      rewrite Eq. destruct (map json_text l); rewrite ?append_assoc, append_cons; eauto. }
    destruct Hh as (c & q & Eq & Hc). rewrite Eq, start_array, <- Eq by done.
    apply elements_read; [done..|lia|lia].
Qed.

(** The text of a member. *)
Definition member_text (kv : string * json) : string :=
  json_member (fst kv, json_text (snd kv)).

Lemma members_read kvs n depth rest acc :
  Forall (fun kv => reads (snd kv)) kvs -> forallb (fun kv => plain (snd kv)) kvs = true ->
  kvs <> [] ->
  (2 * String.length (Join "," (map member_text kvs)) + 2 <= n)%nat ->
  depth + foldr Z.max 0 (map (fun kv => height (snd kv)) kvs) <= maxNestingDepth ->
  parse_members n depth (Join "," (map member_text kvs) +:+ "}" +:+ rest) acc =
    Some (VObject (acc ++ map (fun kv => (to_valid 0 (fst kv), value_of (snd kv))) kvs), rest).
Proof.
  intros Hr. revert n acc. induction Hr as [|[k x] l Hx Hl IH]; intros n acc Hp Hne Hn Hd; [done|].
  cbn [forallb map foldr fst snd] in Hp, Hd, Hx. apply andb_prop in Hp as [Hpx Hpl].
  destruct n as [|n]; [lia|]. pose proof (reads_length x Hpx).
  assert (Hlen : String.length (member_text (k, x)) =
    (String.length (json_string k) + 1 + String.length (json_text x))%nat).
  { unfold member_text, json_member. cbn [fst snd]. rewrite !length_append. cbn. lia. }
  assert (Hstep : forall t m, number_stop t = true -> (2 * String.length (json_text x) + 1 <= m)%nat ->
    parse_members (S m) depth (member_text (k, x) +:+ t) acc =
    match next_byte t with
    | Some (44, r) => parse_members m depth r (acc ++ [(to_valid 0 k, value_of x)])
    | Some (125, r) => Some (VObject (acc ++ [(to_valid 0 k, value_of x)]), r)
    | _ => None
    end).
  { intros t m Ht Hm. unfold member_text, json_member. cbn [fst snd]. rewrite !append_assoc.
    cbn [parse_members]. rewrite unquote_json_string. cbv beta iota.
    rewrite unquote_escape. cbv beta iota.
    change (next_byte (":" +:+ ?t)) with (Some (58, t)). cbv beta iota.
    by rewrite Hx by (done || lia). }
  destruct l as [|y l].
  - cbn [map Join] in *. rewrite Hstep by (done || lia).
    change (next_byte ("}" +:+ rest)) with (Some (125, rest)). done.
  - cbn [map] in *. change (Join "," (member_text (k, x) :: member_text y :: map member_text l)) with
      (member_text (k, x) +:+ "," +:+ Join "," (member_text y :: map member_text l)) in *.
    rewrite !length_append in Hn. cbn [String.length] in Hn.
    rewrite !append_assoc, Hstep by (done || lia).
    change (next_byte ("," +:+ ?t)) with (Some (44, t)). cbv beta iota.
    rewrite IH; [|done..|lia|lia]. by rewrite <- app_assoc.
Qed.

Lemma reads_struct kvs : Forall (fun kv => reads (snd kv)) kvs -> reads (JStruct kvs).
Proof.
  intros Hl n depth rest Hp _ Hn Hd. cbn [plain json_text height value_of] in *.
  rewrite map_map in *. fold member_text in *.
  change (map (fun x => json_member (fst x, json_text (snd x))) kvs) with (map member_text kvs) in *.
  rewrite !length_append in Hn. cbn [String.length] in Hn. destruct n as [|n]; [lia|].
  rewrite !append_assoc. cbn [parse_value].
  change (next_byte ("{" +:+ ?t)) with (Some (123, t)). cbv beta iota.
  change (123 =? 34) with false. change (123 =? 123) with true. cbv iota.
  assert (Hm : 0 <= foldr Z.max 0 (map (fun kv => height (snd kv)) kvs))
    by (clear; induction (map _ kvs); cbn; lia).
  rewrite (proj2 (Z.leb_gt maxNestingDepth depth)) by lia.
  destruct kvs as [|[k x] l].
  - cbn [map Join]. rewrite append_nil.
    change (next_byte ("}" +:+ rest)) with (Some (125, rest)). done.
  - assert (Hh : exists t, Join "," (map member_text ((k, x) :: l)) +:+ "}" +:+ rest =
      json_string k +:+ t).
    { cbn [map Join]. destruct (map member_text l); unfold member_text, json_member;
        cbn [fst snd]; rewrite !append_assoc; eauto. }
    destruct Hh as [t Et]. rewrite Et, unquote_json_string. cbv beta iota. rewrite <- Et.
    apply members_read; [done..|lia|lia].
Qed.

Lemma json_reads j : reads j.
Proof.
  induction j as [j Hj|l Hl|kvs|kvs Hl] using json_ind'.
  - destruct j as [| | | | | |l| | |]; try (by apply reads_leaf).
    intros n depth rest Hp Hs Hn Hd.
    assert (Hr : reads (JArray (map JString l))).
    { apply reads_array, Forall_forall. intros x [s [-> _]]%list_elem_of_fmap. by apply reads_leaf. }
    assert (Et : json_text (JArray (map JString l)) = json_text (JStrings l))
      by (cbn [json_text]; by rewrite map_map).
    assert (Ev : value_of (JArray (map JString l)) = value_of (JStrings l))
      by (cbn [value_of]; by rewrite map_map).
    rewrite <- Et, <- Ev. apply Hr; [|done|by rewrite Et|].
    + clear. cbn. induction l; [done|]. done.
    + cbn [height] in *. rewrite map_map. replace (foldr _ _ _) with 0; [done|].
      clear. induction l as [|s l IH]; cbn in *; lia.
  - by apply reads_array.
  - by intros n depth rest Hp.
  - by apply reads_struct.
Qed.

(** Go's JSON is read back, by [json.Unmarshal] and by a decoder. *)
Lemma unmarshal_json j : plain j = true -> height j <= maxNestingDepth ->
  unmarshal_value (bytes_of_string (json_text j)) = Some (value_of j) /\
  decoder_value (bytes_of_string (json_text j)) = Some (value_of j).
Proof.
  intros Hp Hh. unfold unmarshal_value, decoder_value. rewrite string_of_bytes_of_string.
  pose proof (json_reads j (json_fuel (json_text j)) 0 "" Hp eq_refl) as Hr.
  rewrite append_nil_r in Hr. rewrite Hr; [done|unfold json_fuel; lia|lia].
Qed.
