(* ===== verification/JsonFuel.v ===== *)
(** * The JSON parser terminates

    [encoding/json] scans its input to the end; the parser of [JsonDecode] recurses on
    a bound instead. Every call consumes input ([parse_consumes]), so the bound
    [json_fuel] is never what stops it. *)

From S2P Require Import Prelude GoStrings GoStrconv Events JsonDecode JsonText.

Local Abbreviation len := String.length.

(** ** Consumption *)

Lemma skip_space_length s : (len (skip_space s) <= len s)%nat.
Proof. induction s as [|c s IH]; cbn; [lia|]. destruct (is_space c); cbn; lia. Qed.

Lemma next_byte_length s c r : next_byte s = Some (c, r) -> (len r < len s)%nat.
Proof.
  unfold next_byte. pose proof (skip_space_length s). destruct (skip_space s); [done|].
  intros [= <- <-]. cbn in *. lia.
Qed.

Lemma str_drop_length n s : (len (str_drop n s) <= len s)%nat.
Proof. revert s. induction n as [|n IH]; intros [|c s]; cbn; try lia. specialize (IH s). lia. Qed.

Lemma prepend_Some p x t r : prepend p x = Some (t, r) -> exists t', x = Some (t', r).
Proof. destruct x as [[t' r']|]; [|done]. intros [= <- <-]. by exists t'. Qed.

Lemma unquote_length s skip copy t r : unquote skip copy s = Some (t, r) -> (len r < len s)%nat.
Proof.
  enough (H : forall k s, (len s <= k)%nat -> forall skip copy t r,
    unquote skip copy s = Some (t, r) -> (len r < len s)%nat) by eauto.
  clear. induction k as [|k IH]; intros [|c s] Hk skip copy t r H; try done; cbn [len] in *; [lia|].
  assert (Hs : forall sk cp t r, unquote sk cp s = Some (t, r) -> (len r < S (len s))%nat)
    by (intros sk cp t' r' E; specialize (IH s ltac:(lia) _ _ _ _ E); lia).
  cbn [unquote] in H. destruct skip as [|sk]; [|by eapply Hs].
  destruct copy as [|cp]; [|apply prepend_Some in H as [t' H]; by eapply Hs].
  destruct (code c =? 34); [injection H as <- <-; lia|]. destruct (code c <? 32); [done|].
  destruct (code c =? 92).
  - destruct s as [|e s1]; [done|].
    assert (Hs1 : forall sk cp t r, unquote sk cp s1 = Some (t, r) -> (len r < S (len (String e s1)))%nat)
      by (intros sk cp t' r' E; cbn in *; specialize (IH s1 ltac:(lia) _ _ _ _ E); lia).
    destruct (code e =? 117).
    + destruct (get_hex4 s1); [|done]. destruct (escape_rune _ _) as [text more].
      apply prepend_Some in H as [t' H]. by eapply Hs1.
    + destruct (simple_escape e); [|done]. apply prepend_Some in H as [t' H]. by eapply Hs1.
  - destruct (code c <? 128); [apply prepend_Some in H as [t' H]; by eapply Hs|].
    destruct (rune_size _); apply prepend_Some in H as [t' H]; by eapply Hs.
Qed.

Lemma span_digits_length s : (len (snd (span_digits s)) <= len s)%nat.
Proof.
  induction s as [|c s IH]; cbn; [lia|]. destruct (is_digit c); [|cbn; lia].
  destruct (span_digits s) as [a b]. cbn in *. lia.
Qed.

Lemma number_int_length s a r : number_int s = Some (a, r) -> (len r < len s)%nat.
Proof.
  unfold number_int. destruct s as [|c s]; [done|].
  destruct (code c =? 48); [intros [= <- <-]; cbn; lia|]. destruct (is_digit c); [|done].
  pose proof (span_digits_length s). destruct (span_digits s). intros [= <- <-]. cbn in *. lia.
Qed.

Lemma number_frac_length s a r : number_frac s = Some (a, r) -> (len r <= len s)%nat.
Proof.
  unfold number_frac. destruct s as [|c s]; [intros [= <- <-]; done|].
  destruct (code c =? 46); [|intros [= <- <-]; cbn; lia].
  pose proof (span_digits_length s). destruct (span_digits s) as [d b].
  destruct (d ==s ""); [done|]. intros [= <- <-]. cbn in *. lia.
Qed.

Lemma number_exp_length s a r : number_exp s = Some (a, r) -> (len r <= len s)%nat.
Proof.
  unfold number_exp. destruct s as [|c s]; [intros [= <- <-]; done|].
  destruct (_ || _)%bool; [|intros [= <- <-]; cbn; lia].
  set (q := match s with String d r' => _ | EmptyString => _ end).
  assert (Hq : (len (snd q) <= len s)%nat).
  { unfold q. destruct s as [|d s']; [done|]. destruct (_ || _)%bool; cbn; lia. }
  destruct q as [sign r1]. pose proof (span_digits_length r1).
  destruct (span_digits r1) as [d b]. destruct (d ==s ""); [done|].
  intros [= <- <-]. cbn in *. lia.
Qed.

Lemma parse_number_length s a r : parse_number s = Some (a, r) -> (len r < len s)%nat.
Proof.
  unfold parse_number. set (q := match s with String d r' => _ | EmptyString => _ end).
  assert (Hq : (len (snd q) <= len s)%nat).
  { unfold q. destruct s as [|d s']; [done|]. destruct (_ =? _); cbn; lia. }
  destruct q as [sign r1]. cbn in Hq.
  destruct (number_int r1) as [[i r2]|] eqn:E1; [|done]. apply number_int_length in E1.
  destruct (number_frac r2) as [[f r3]|] eqn:E2; [|done]. apply number_frac_length in E2.
  destruct (number_exp r3) as [[e r4]|] eqn:E3; [|done]. apply number_exp_length in E3.
  intros [= <- <-]. lia.
Qed.

Lemma prefix_length p s : String.prefix p s = true -> (len p <= len s)%nat.
Proof.
  revert s. induction p as [|a p IH]; intros [|b s] H; cbn in *; try lia; try done.
  destruct (ascii_dec a b); [|done]. apply IH in H. lia.
Qed.

Lemma str_drop_exact n s : (n <= len s)%nat -> len (str_drop n s) = (len s - n)%nat.
Proof. revert s. induction n as [|n IH]; intros [|c s] H; cbn in *; try lia. apply IH. lia. Qed.

Lemma expect_length literal s v x r : literal <> "" ->
  expect literal (skip_space s) v = Some (x, r) -> (len r < len s)%nat.
Proof.
  unfold expect, HasPrefix. intros Hne. pose proof (skip_space_length s).
  destruct (String.prefix _ _) eqn:E; [|done]. apply prefix_length in E.
  intros [= <- <-]. rewrite str_drop_exact by done. destruct literal; [done|]. cbn in *. lia.
Qed.

Ltac consumed :=
  repeat match goal with
  | H : next_byte _ = Some _ |- _ => apply next_byte_length in H
  | H : unquote 0 0 _ = Some _ |- _ => apply unquote_length in H
  end.

(** The parser with its literals compared instead of matched. *)
Definition on_byte {A} (k : Z) (x : option (Z * string)) (f : string -> A) (g : A) : A :=
  match x with Some (c, r) => if c =? k then f r else g | None => g end.

Lemma parse_value_eq n d s : parse_value (S n) d s =
  match next_byte s with
  | None => None
  | Some (c, r) =>
      if c =? 34 then
        match unquote 0 0 r with Some (t, r) => Some (VString t, r) | None => None end
      else if c =? 123 then
        if maxNestingDepth <=? d then None
        else on_byte 125 (next_byte r) (fun r => Some (VObject [], r)) (parse_members n (d + 1) r [])
      else if c =? 91 then
        if maxNestingDepth <=? d then None
        else on_byte 93 (next_byte r) (fun r => Some (VArray [], r)) (parse_elements n (d + 1) r [])
      else if c =? 116 then expect "true" (skip_space s) (VBool true)
      else if c =? 102 then expect "false" (skip_space s) (VBool false)
      else if c =? 110 then expect "null" (skip_space s) VNull
      else match parse_number (skip_space s) with
      | Some (l, r) => Some (VNumber l, r)
      | None => None
      end
  end.
Proof.
  cbn [parse_value]. destruct (next_byte s) as [[c r]|]; [|done]. unfold on_byte.
  destruct (c =? 34); [done|]. destruct (c =? 123).
  - destruct (maxNestingDepth <=? d); [done|]. destruct (next_byte r) as [[c2 r2]|]; [|done].
    destruct (Z.eqb_spec c2 125) as [->|Hne]; [done|]. cases_goal; congruence.
  - destruct (c =? 91); [|done].
    destruct (maxNestingDepth <=? d); [done|]. destruct (next_byte r) as [[c2 r2]|]; [|done].
    destruct (Z.eqb_spec c2 93) as [->|Hne]; [done|]. cases_goal; congruence.
Qed.

Lemma parse_members_eq n d s acc : parse_members (S n) d s acc =
  on_byte 34 (next_byte s) (fun r =>
    match unquote 0 0 r with
    | None => None
    | Some (key, r) =>
        on_byte 58 (next_byte r) (fun r =>
          match parse_value n d r with
          | None => None
          | Some (v, r) =>
              let close r0 := on_byte 125 (next_byte r0)
                (fun r => Some (VObject (acc ++ [(key, v)]), r)) None in
              on_byte 44 (next_byte r) (fun r => parse_members n d r (acc ++ [(key, v)])) (close r)
          end) None
    end) None.
Proof.
  cbn [parse_members]. unfold on_byte.
  destruct (next_byte s) as [[c r]|]; [|done].
  destruct (Z.eqb_spec c 34) as [->|Hne]; [|cases_goal; congruence].
  destruct (unquote 0 0 r) as [[key r1]|]; [|done].
  destruct (next_byte r1) as [[c1 r2]|]; [|done].
  destruct (Z.eqb_spec c1 58) as [->|Hne]; [|cases_goal; congruence].
  destruct (parse_value n d r2) as [[v r3]|]; [|done].
  destruct (next_byte r3) as [[c3 r4]|]; [|done].
  destruct (Z.eqb_spec c3 44) as [->|Hne]; [done|].
  destruct (Z.eqb_spec c3 125) as [->|Hne2]; [done|]. cases_goal; congruence.
Qed.

Lemma parse_elements_eq n d s acc : parse_elements (S n) d s acc =
  match parse_value n d s with
  | None => None
  | Some (v, r) =>
      on_byte 44 (next_byte r) (fun r => parse_elements n d r (acc ++ [v]))
        (on_byte 93 (next_byte r) (fun r => Some (VArray (acc ++ [v]), r)) None)
  end.
Proof.
  cbn [parse_elements]. unfold on_byte.
  destruct (parse_value n d s) as [[v r]|]; [|done].
  destruct (next_byte r) as [[c r1]|]; [|done].
  destruct (Z.eqb_spec c 44) as [->|Hne]; [done|].
  destruct (Z.eqb_spec c 93) as [->|Hne2]; [done|]. cases_goal; congruence.
Qed.

Lemma on_byte_inv {A} k x (f : string -> option A) g y : on_byte k x f g = Some y ->
  (exists r, x = Some (k, r) /\ f r = Some y) \/ g = Some y.
Proof.
  unfold on_byte. destruct x as [[c r]|]; [|auto].
  destruct (Z.eqb_spec c k) as [->|_]; [|auto]. left. by exists r.
Qed.

(** ** What is left is shorter *)

Lemma parse_consumes n :
  (forall d s v r, parse_value n d s = Some (v, r) -> (len r < len s)%nat) /\
  (forall d s acc v r, parse_members n d s acc = Some (v, r) -> (len r < len s)%nat) /\
  (forall d s acc v r, parse_elements n d s acc = Some (v, r) -> (len r < len s)%nat).
Proof.
  induction n as [|n (IHv & IHm & IHe)]; [split_and!; done|]. split_and!.
  - intros d s v r. rewrite parse_value_eq.
    destruct (next_byte s) as [[c r1]|] eqn:E1; [|done]. apply next_byte_length in E1.
    destruct (c =? 34); [|destruct (c =? 123); [|destruct (c =? 91)]].
    + destruct (unquote 0 0 r1) as [[t r2]|] eqn:E2; [|done]. apply unquote_length in E2.
      intros [= <- <-]. lia.
    + destruct (maxNestingDepth <=? d); [done|].
      intros [(r2 & E2%next_byte_length & [= <- <-])|H%IHm]%on_byte_inv; lia.
    + destruct (maxNestingDepth <=? d); [done|].
      intros [(r2 & E2%next_byte_length & [= <- <-])|H%IHe]%on_byte_inv; lia.
    + intros H. destruct (c =? 116); [by eapply expect_length in H|].
      destruct (c =? 102); [by eapply expect_length in H|].
      destruct (c =? 110); [by eapply expect_length in H|].
      destruct (parse_number _) as [[l r2]|] eqn:E2; [|done]. apply parse_number_length in E2.
      injection H as <- <-. pose proof (skip_space_length s). lia.
  - intros d s acc v r. rewrite parse_members_eq.
    intros [(r1 & E1%next_byte_length & H)|?]%on_byte_inv; [|done].
    destruct (unquote 0 0 r1) as [[key r2]|] eqn:E2; [|done]. apply unquote_length in E2.
    apply on_byte_inv in H as [(r3 & E3%next_byte_length & H)|?]; [|done].
    destruct (parse_value n d r3) as [[x r4]|] eqn:E4; [|done]. apply IHv in E4. cbv zeta in H.
    apply on_byte_inv in H as [(r5 & E5%next_byte_length & H%IHm)|H]; [lia|].
    apply on_byte_inv in H as [(r5 & E5%next_byte_length & [= <- <-])|?]; [lia|done].
  - intros d s acc v r. rewrite parse_elements_eq.
    destruct (parse_value n d s) as [[x r4]|] eqn:E4; [|done]. apply IHv in E4. intros H.
    apply on_byte_inv in H as [(r5 & E5%next_byte_length & H%IHe)|H]; [lia|].
    apply on_byte_inv in H as [(r5 & E5%next_byte_length & [= <- <-])|?]; [lia|done].
Qed.

(** ** The bound is enough *)

Lemma on_byte_ext {A} k x (f f' : string -> A) g g' :
  (forall r, x = Some (k, r) -> f r = f' r) -> g = g' -> on_byte k x f g = on_byte k x f' g'.
Proof.
  unfold on_byte. intros Hf ->. destruct x as [[c r]|]; [|done].
  destruct (Z.eqb_spec c k) as [->|_]; auto.
Qed.

Lemma parse_stable l :
  (forall s, (len s <= l)%nat -> forall n m d, (2 * len s < n)%nat -> (2 * len s < m)%nat ->
     parse_value n d s = parse_value m d s) /\
  (forall s, (len s <= l)%nat -> forall n m d acc, (2 * len s + 1 < n)%nat -> (2 * len s + 1 < m)%nat ->
     parse_members n d s acc = parse_members m d s acc) /\
  (forall s, (len s <= l)%nat -> forall n m d acc, (2 * len s + 1 < n)%nat -> (2 * len s + 1 < m)%nat ->
     parse_elements n d s acc = parse_elements m d s acc).
Proof.
  induction l as [l IH] using lt_wf_ind.
  assert (IHv : forall s, (len s < l)%nat -> forall n m d, (2 * len s < n)%nat -> (2 * len s < m)%nat ->
    parse_value n d s = parse_value m d s)
    by (intros s Hs; exact (proj1 (IH (len s) Hs) s (le_n _))).
  assert (IHm : forall s, (len s < l)%nat -> forall n m d acc, (2 * len s + 1 < n)%nat ->
    (2 * len s + 1 < m)%nat -> parse_members n d s acc = parse_members m d s acc)
    by (intros s Hs; exact (proj1 (proj2 (IH (len s) Hs)) s (le_n _))).
  assert (IHe : forall s, (len s < l)%nat -> forall n m d acc, (2 * len s + 1 < n)%nat ->
    (2 * len s + 1 < m)%nat -> parse_elements n d s acc = parse_elements m d s acc)
    by (intros s Hs; exact (proj2 (proj2 (IH (len s) Hs)) s (le_n _))).
  clear IH.
  assert (Hv : forall s, (len s <= l)%nat -> forall n m d, (2 * len s < n)%nat -> (2 * len s < m)%nat ->
    parse_value n d s = parse_value m d s).
  { intros s Hl [|n] [|m] d Hn Hm; try lia. rewrite !parse_value_eq.
    destruct (next_byte s) as [[c r1]|] eqn:E1; [|done]. apply next_byte_length in E1.
    destruct (c =? 34); [done|]. destruct (c =? 123); [|destruct (c =? 91); [|done]].
    - destruct (maxNestingDepth <=? d); [done|]. apply on_byte_ext; [done|]. apply IHm; lia.
    - destruct (maxNestingDepth <=? d); [done|]. apply on_byte_ext; [done|]. apply IHe; lia. }
  split_and!; [exact Hv| |].
  - intros s Hl [|n] [|m] d acc Hn Hm; try lia. rewrite !parse_members_eq.
    apply on_byte_ext; [|done]. intros r1 E1%next_byte_length.
    destruct (unquote 0 0 r1) as [[key r2]|] eqn:E2; [|done]. apply unquote_length in E2.
    apply on_byte_ext; [|done]. intros r3 E3%next_byte_length. rewrite (Hv r3) with (m := m) by lia.
    destruct (parse_value m d r3) as [[x r4]|] eqn:E4; [|done].
    apply (proj1 (parse_consumes m)) in E4.
    apply on_byte_ext; [|done]. intros r5 E5%next_byte_length. apply IHm; lia.
  - intros s Hl [|n] [|m] d acc Hn Hm; try lia. rewrite !parse_elements_eq.
    rewrite (Hv s) with (m := m) by lia.
    destruct (parse_value m d s) as [[x r4]|] eqn:E4; [|done].
    apply (proj1 (parse_consumes m)) in E4.
    apply on_byte_ext; [|done]. intros r5 E5%next_byte_length. apply IHe; lia.
Qed.

(** With any bound above [json_fuel] the parser gives the result it gives with
    [json_fuel]. *)
Lemma json_fuel_enough s depth n :
  (json_fuel s <= n)%nat -> parse_value n depth s = parse_value (json_fuel s) depth s.
Proof. intros Hn. apply (proj1 (parse_stable (len s)) s); unfold json_fuel in *; lia. Qed.

(** What [json.Unmarshal] reads, for any large enough bound. *)
Lemma unmarshal_iff body v n : (json_fuel (string_of_bytes body) <= n)%nat ->
  unmarshal_value body = Some v <->
  exists rest, parse_value n 0 (string_of_bytes body) = Some (v, rest) /\ skip_space rest = "".
Proof.
  intros Hn. unfold unmarshal_value. rewrite (json_fuel_enough _ _ _ Hn).
  destruct (parse_value _ 0 _) as [[v' rest]|]; [|naive_solver].
  destruct (skip_space rest ==s "") eqn:E; b2p; naive_solver.
Qed.
