(* ===== verification/JsonCodec.v ===== *)
(** * The JSON codec ([internal/codec/json.go])

    [JSONCodec]: the event as [encoding/json] writes it by the struct tags of
    [events.go] and reads it back. Strings come back as valid UTF-8, and nothing else
    changes; any text is decoded as a field-by-field reference says. *)

From S2P Require Import Prelude GoStrings GoStrconv Events JsonDecode JsonText JsonFuel Wire PaymentEvent.

(** ** Encoding *)

(** A member with the option [omitempty]. *)
Definition omitempty (empty : bool) (m : string * json) : list (string * json) :=
  if empty then [] else [m].
Definition omit_string (name s : string) : list (string * json) :=
  omitempty (s ==s "") (name, JString s).
Definition omit_int (name : string) (z : Z) : list (string * json) :=
  omitempty (z =? 0) (name, JInt z).

(** The struct tags of [PaymentEvent]. *)
Definition event_members (e : PaymentEvent) : list (string * json) :=
  [("event_id", JString (pe_EventID e)); ("event_type", JString (pe_EventType e));
   ("tenant_id", JString (pe_TenantID e)); ("account_id", JString (pe_AccountID e));
   ("pix_transfer_id", JString (pe_TransferID e));
   ("correlation_id", JString (pe_CorrelationID e));
   ("occurred_at_unix_nano", JInt (pe_OccurredAtUnixNano e))] ++
  omit_int "amount_cents" (pe_AmountCents e) ++
  omit_string "currency" (pe_Currency e) ++
  omit_string "receiver_key_type" (pe_ReceiverKeyType e) ++
  omit_string "decision_reason" (pe_DecisionReason e) ++
  omit_string "spi_message_id" (pe_SPIMessageID e) ++
  omit_string "end_to_end_id" (pe_EndToEndID e) ++
  omit_int "fraud_score" (pe_FraudScore e) ++
  omitempty (bool_decide (pe_FraudRules e = [])) ("fraud_rules", JStrings (pe_FraudRules e)).

(** [json.Marshal(event)], which does not fail on strings, integers and slices. *)
Definition JSONCodec_Marshal (e : PaymentEvent) : outcome (list byte) :=
  Ret (bytes_of_string (json_text (JStruct (event_members e)))).

(** ** Decoding *)

(** The event being filled, and the array behind its slice of rules: a [null] element
    leaves what the array holds there. *)
Abbreviation Filling := (PaymentEvent * list string)%type.

(** The elements of a JSON array into the array [old]. *)
Fixpoint fill_strings (l : list jvalue) (old : list string) : option (list string * list string) :=
  match l with
  | [] => Some ([], old)
  | v :: l =>
      match
        match v with
        | VString s => Some s
        | VNull => Some (default "" (head old))
        | _ => None
        end
      with
      | None => None
      | Some s =>
          match fill_strings l (tail old) with
          | Some (slice, array) => Some (s :: slice, s :: array)
          | None => None
          end
      end
  end.

(** A [[]string] field: an empty array and [null] drop the old array. *)
Definition rules_setter (v : jvalue) (s : Filling) : option Filling :=
  match v with
  | VNull | VArray [] => Some ((fst s) <| pe_FraudRules := [] |>, [])
  | VArray l =>
      match fill_strings l (snd s) with
      | Some (slice, array) => Some ((fst s) <| pe_FraudRules := slice |>, array)
      | None => None
      end
  | _ => None
  end.

Definition string_field (name : string) (set : string -> PaymentEvent -> PaymentEvent) : field Filling :=
  mkField name (string_setter (fun v s => (set v (fst s), snd s))).
Definition int_field (name : string) (set : Z -> PaymentEvent -> PaymentEvent) : field Filling :=
  mkField name (int64_setter (fun v s => (set v (fst s), snd s))).

Definition event_fields : list (field Filling) := [
  string_field "event_id" (fun v e => e <| pe_EventID := v |>);
  string_field "event_type" (fun v e => e <| pe_EventType := v |>);
  string_field "tenant_id" (fun v e => e <| pe_TenantID := v |>);
  string_field "account_id" (fun v e => e <| pe_AccountID := v |>);
  string_field "pix_transfer_id" (fun v e => e <| pe_TransferID := v |>);
  string_field "correlation_id" (fun v e => e <| pe_CorrelationID := v |>);
  int_field "occurred_at_unix_nano" (fun v e => e <| pe_OccurredAtUnixNano := v |>);
  int_field "amount_cents" (fun v e => e <| pe_AmountCents := v |>);
  string_field "currency" (fun v e => e <| pe_Currency := v |>);
  string_field "receiver_key_type" (fun v e => e <| pe_ReceiverKeyType := v |>);
  string_field "decision_reason" (fun v e => e <| pe_DecisionReason := v |>);
  string_field "spi_message_id" (fun v e => e <| pe_SPIMessageID := v |>);
  string_field "end_to_end_id" (fun v e => e <| pe_EndToEndID := v |>);
  int_field "fraud_score" (fun v e => e <| pe_FraudScore := v |>);
  mkField "fraud_rules" rules_setter].

Section Codec.
(** The text of an error of [encoding/json] on an input. *)
Context (json_error : list byte -> string).

(** On an error [Unmarshal] also returns the event as far as it was filled; the model
    keeps the error only, as the callers do. *)
Definition JSONCodec_Unmarshal (raw : list byte) : outcome PaymentEvent :=
  match
    match unmarshal_value raw with
    | Some v => decode_struct event_fields (empty_event, []) v
    | None => None
    end
  with
  | Some (e, _) => Ret e
  | None => Fails (mkError None (json_error raw))
  end.

Inductive JSONCodec : Set := mkJSONCodec.

#[export] Instance JSONCodec_Codec : Codec JSONCodec := {|
  codec_Name := "json";
  codec_Marshal := JSONCodec_Marshal;
  codec_Unmarshal := JSONCodec_Unmarshal
|}.

Example json_sample :
  obind (JSONCodec_Marshal SamplePixTransferBlocked) JSONCodec_Unmarshal
  = Ret SamplePixTransferBlocked.
Proof. vm_compute. reflexivity. Qed.

(** ** Round trip *)

(** The integer fields have Go's [int64]. *)
Definition json_domain (e : PaymentEvent) : Prop :=
  in_int64 (pe_OccurredAtUnixNano e) /\ in_int64 (pe_AmountCents e) /\
  in_int64 (pe_FraudScore e).

(** The strings as valid UTF-8. *)
Definition json_norm (e : PaymentEvent) : PaymentEvent :=
  let v := to_valid 0 in
  mkPaymentEvent (v (pe_EventID e)) (v (pe_EventType e)) (v (pe_TenantID e))
    (v (pe_AccountID e)) (v (pe_TransferID e)) (v (pe_CorrelationID e))
    (pe_OccurredAtUnixNano e) (pe_AmountCents e) (v (pe_Currency e))
    (v (pe_ReceiverKeyType e)) (v (pe_DecisionReason e)) (v (pe_SPIMessageID e))
    (v (pe_EndToEndID e)) (pe_FraudScore e) (map v (pe_FraudRules e)).

Definition member_value (kv : string * json) : string * jvalue :=
  (to_valid 0 (fst kv), value_of (snd kv)).

Lemma decode_members_app {S} (fields : list (field S)) a b s :
  decode_members fields (a ++ b) s =
  match decode_members fields a s with Some s' => decode_members fields b s' | None => None end.
Proof.
  revert s. induction a as [|[k v] a IH]; intros s; [done|]. cbn.
  destruct (find_field fields k) as [f|]; [|apply IH]. destruct (fd_set f v s); [apply IH|done].
Qed.

Lemma decode_string name set s rest (e : PaymentEvent) b :
  find_field event_fields (to_valid 0 name) = Some (string_field name set) ->
  decode_members event_fields (member_value (name, JString s) :: rest) (e, b) =
  decode_members event_fields rest (set (to_valid 0 s) e, b).
Proof. intros Hf. cbn [decode_members member_value fst snd]. by rewrite Hf. Qed.

Lemma decode_int name set z rest (e : PaymentEvent) b :
  find_field event_fields (to_valid 0 name) = Some (int_field name set) -> in_int64 z ->
  decode_members event_fields (member_value (name, JInt z) :: rest) (e, b) =
  decode_members event_fields rest (set z e, b).
Proof.
  intros Hf Hz. cbn [decode_members member_value fst snd value_of]. rewrite Hf.
  cbn [fd_set int_field int64_setter]. by rewrite parse_int_Itoa.
Qed.

(** An optional member sets the field, or leaves the zero it has. *)
Lemma decode_omit_string name set s rest (e : PaymentEvent) b :
  find_field event_fields (to_valid 0 name) = Some (string_field name set) ->
  set "" e = e ->
  decode_members event_fields (map member_value (omit_string name s) ++ rest) (e, b) =
  decode_members event_fields rest (set (to_valid 0 s) e, b).
Proof.
  intros Hf Hz. unfold omit_string. destruct (s ==s "") eqn:Es.
  - apply String.eqb_eq in Es as ->. cbn [omitempty map app to_valid]. by rewrite Hz.
  - cbn [omitempty map app decode_members member_value fst snd]. by rewrite Hf.
Qed.

Lemma decode_omit_int name set z rest (e : PaymentEvent) b :
  find_field event_fields (to_valid 0 name) = Some (int_field name set) ->
  set 0 e = e -> in_int64 z ->
  decode_members event_fields (map member_value (omit_int name z) ++ rest) (e, b) =
  decode_members event_fields rest (set z e, b).
Proof.
  intros Hf Hz Hr. unfold omit_int. destruct (z =? 0) eqn:Es.
  - apply Z.eqb_eq in Es as ->. cbn [omitempty map app]. by rewrite Hz.
  - cbn [omitempty map app decode_members member_value fst snd value_of]. rewrite Hf.
    cbn [fd_set int_field int64_setter]. by rewrite parse_int_Itoa.
Qed.

Lemma fill_strings_all l old :
  fill_strings (map (fun s => VString (to_valid 0 s)) l) old =
  Some (map (to_valid 0) l, map (to_valid 0) l ++ drop (length l) old).
Proof.
  revert old. induction l as [|s l IH]; intros old; [done|]. cbn. rewrite IH.
  destruct old; cbn; by rewrite ?drop_nil.
Qed.

(** The step for the next member, with the event in normal form after it. *)
Ltac next_member L :=
  erewrite L; [|reflexivity|..];
  [cbv [upd_field pe_EventID pe_EventType pe_TenantID pe_AccountID pe_TransferID
     pe_CorrelationID pe_OccurredAtUnixNano pe_AmountCents pe_Currency pe_ReceiverKeyType
     pe_DecisionReason pe_SPIMessageID pe_EndToEndID pe_FraudScore pe_FraudRules]
  |try reflexivity; try assumption..].

Lemma decode_fields e s1 s2 s3 s4 s5 s6 occurred amount s7 s8 s9 s10 s11 score rules :
  e = mkPaymentEvent s1 s2 s3 s4 s5 s6 occurred amount s7 s8 s9 s10 s11 score rules ->
  json_domain e ->
  exists b, decode_members event_fields (map member_value (event_members e)) (empty_event, [])
    = Some (json_norm e, b).
Proof.
  intros -> (Ho & Ha & Hs). unfold json_norm, event_members, empty_event in *.
  cbn [pe_EventID pe_EventType pe_TenantID pe_AccountID pe_TransferID
    pe_CorrelationID pe_OccurredAtUnixNano pe_AmountCents pe_Currency pe_ReceiverKeyType
    pe_DecisionReason pe_SPIMessageID pe_EndToEndID pe_FraudScore pe_FraudRules] in *.
  rewrite !map_app. cbn [map app].
  do 6 next_member decode_string. next_member decode_int.
  next_member decode_omit_int. do 5 next_member decode_omit_string.
  next_member decode_omit_int.
  destruct rules as [|r rules]; [by eexists|].
  cbn [bool_decide]. rewrite bool_decide_false by done.
  cbn [omitempty map decode_members member_value fst snd value_of].
  change (find_field event_fields (to_valid 0 "fraud_rules")) with
    (Some (mkField "fraud_rules" rules_setter)).
  cbn [fd_set rules_setter map snd].
  pose proof (fill_strings_all (r :: rules) []) as Hf. cbn [map] in Hf. rewrite Hf. by eexists.
Qed.

Lemma decode_event e : json_domain e ->
  exists b, decode_members event_fields (map member_value (event_members e)) (empty_event, [])
    = Some (json_norm e, b).
Proof. destruct e. by eapply decode_fields. Qed.

(** The members are flat. *)
Definition flat (kv : string * json) : Prop := plain (snd kv) = true /\ height (snd kv) <= 1.

Lemma omitempty_flat b m : flat m -> Forall flat (omitempty b m).
Proof. intros H. destruct b; cbn; [constructor|by apply Forall_singleton]. Qed.

Lemma event_members_flat e : Forall flat (event_members e).
Proof.
  unfold event_members. repeat (apply Forall_app; split); try (apply omitempty_flat; done).
  repeat apply Forall_cons_2; done.
Qed.

Lemma struct_flat kvs : Forall flat kvs ->
  plain (JStruct kvs) = true /\ height (JStruct kvs) <= maxNestingDepth.
Proof.
  intros H. cbn [plain height]. enough (forallb (fun kv => plain (snd kv)) kvs = true /\
    foldr Z.max 0 (map (fun kv => height (snd kv)) kvs) <= 1) as [H1 H2]
    by (unfold maxNestingDepth; split; [done|lia]).
  induction H as [|kv l [Hp Hh] _ [IH1 IH2]]; [done|]. cbn. rewrite Hp, IH1. split; [done|lia].
Qed.

Lemma json_roundtrip_norm e : json_domain e ->
  exists raw, JSONCodec_Marshal e = Ret raw /\ JSONCodec_Unmarshal raw = Ret (json_norm e).
Proof.
  intros He. eexists. split; [done|]. unfold JSONCodec_Unmarshal.
  destruct (struct_flat _ (event_members_flat e)) as [Hp Hh].
  destruct (unmarshal_json _ Hp Hh) as [-> _]. cbn [value_of decode_struct].
  destruct (decode_event e He) as [b Hb].
  change (map _ (event_members e)) with (map member_value (event_members e)). by rewrite Hb.
Qed.

Lemma json_norm_idem e : json_norm (json_norm e) = json_norm e.
Proof.
  destruct e. unfold json_norm. cbn. rewrite !to_valid_idem, map_map. f_equal.
  apply map_ext. apply to_valid_idem.
Qed.

#[export] Instance JSONCodec_Laws : CodecLaws JSONCodec json_domain json_norm.
Proof. split; [apply json_roundtrip_norm|]. intros e He. split; [exact He|apply json_norm_idem]. Qed.

(** An event of valid strings is its own normal form. *)
Lemma json_norm_valid e : Forall (fun s => valid_utf8 s = true) (event_strings e) -> json_norm e = e.
Proof.
  intros Hv. destruct e. unfold json_norm. unfold event_strings in Hv. cbn in Hv |- *.
  assert (Hid : forall s, valid_utf8 s = true -> to_valid 0 s = s)
    by (intros s; unfold valid_utf8; by intros ?%String.eqb_eq).
  repeat (apply Forall_cons in Hv as [?%Hid Hv]).
  f_equal; try done. clear - Hv Hid. induction Hv; [done|]. cbn. f_equal; auto.
Qed.

(** C35: an event of Go's types is encoded and decoded to itself with its strings
    made valid UTF-8, whatever bytes they hold; an event of valid strings comes back
    unchanged. *)
Theorem json_exact e :
  json_domain e ->
  obind (JSONCodec_Marshal e) JSONCodec_Unmarshal = Ret (json_norm e) /\
  (Forall (fun s => valid_utf8 s = true) (event_strings e) ->
   obind (JSONCodec_Marshal e) JSONCodec_Unmarshal = Ret e) /\
  Forall (fun s => valid_utf8 s = true) (event_strings (json_norm e)).
Proof.
  intros He. destruct (json_roundtrip_norm e He) as (raw & Em & Eu).
  rewrite Em. cbn [obind]. rewrite Eu. split_and!; [done| |].
  - intros Hv. by rewrite json_norm_valid.
  - assert (Hv : forall s, valid_utf8 (to_valid 0 s) = true)
      by (intros s; unfold valid_utf8; rewrite to_valid_idem; apply String.eqb_refl).
    destruct e. unfold event_strings, json_norm. cbn.
    repeat (apply Forall_cons_2; [apply Hv|]). apply Forall_forall.
    intros s (r & -> & _)%list_elem_of_fmap. apply Hv.
Qed.

(** ** Decoding, field by field

    A reference for the decoder that does not go through the members in order: every
    field is looked up on its own. *)

Definition same_name (tag key : string) : bool := fold_name tag ==s fold_name key.

(** The values of the members with the name [tag], up to case. *)
Definition named (tag : string) (ms : list (string * jvalue)) : list jvalue :=
  map snd (List.filter (fun kv => same_name tag (fst kv)) ms).

Definition string_value (v : jvalue) : option string :=
  match v with VString s => Some s | _ => None end.
Definition int64_value (v : jvalue) : option Z :=
  match v with
  | VNumber l => match parse_int l with inl z => Some z | inr _ => None end
  | _ => None
  end.

(** A field has the last value given for it that is not [null]. *)
Definition text_of (tag : string) (ms : list (string * jvalue)) : string :=
  default "" (last (omap string_value (named tag ms))).
Definition integer_of (tag : string) (ms : list (string * jvalue)) : Z :=
  default 0 (last (omap int64_value (named tag ms))).

(** The arrays since the last value that emptied the slice. *)
Definition keep_array (acc : list (list jvalue)) (v : jvalue) : list (list jvalue) :=
  match v with VArray (x :: l) => acc ++ [x :: l] | _ => [] end.
Definition arrays_of (tag : string) (ms : list (string * jvalue)) : list (list jvalue) :=
  fold_left keep_array (named tag ms) [].

(** The last string one of the arrays has at the index [i]. *)
Definition text_at (arrays : list (list jvalue)) (i : nat) : string :=
  default "" (last (omap (fun l => l !! i ≫= string_value) arrays)).

(** A slice of strings has the length of the last array; a [null] in it stands for the
    string an earlier one left there. *)
Definition texts_of (tag : string) (ms : list (string * jvalue)) : list string :=
  let arrays := arrays_of tag ms in
  match last arrays with Some l => imap (fun i _ => text_at arrays i) l | None => [] end.

Definition event_of_members (ms : list (string * jvalue)) : PaymentEvent := {|
  pe_EventID := text_of "event_id" ms;
  pe_EventType := text_of "event_type" ms;
  pe_TenantID := text_of "tenant_id" ms;
  pe_AccountID := text_of "account_id" ms;
  pe_TransferID := text_of "pix_transfer_id" ms;
  pe_CorrelationID := text_of "correlation_id" ms;
  pe_OccurredAtUnixNano := integer_of "occurred_at_unix_nano" ms;
  pe_AmountCents := integer_of "amount_cents" ms;
  pe_Currency := text_of "currency" ms;
  pe_ReceiverKeyType := text_of "receiver_key_type" ms;
  pe_DecisionReason := text_of "decision_reason" ms;
  pe_SPIMessageID := text_of "spi_message_id" ms;
  pe_EndToEndID := text_of "end_to_end_id" ms;
  pe_FraudScore := integer_of "fraud_score" ms;
  pe_FraudRules := texts_of "fraud_rules" ms
|}.

(** The kinds of values a field takes. *)
Definition is_null (v : jvalue) : bool := match v with VNull => true | _ => false end.
Definition text_or_null (v : jvalue) : bool := is_null v || bool_decide (is_Some (string_value v)).
Definition integer_or_null (v : jvalue) : bool := is_null v || bool_decide (is_Some (int64_value v)).
Definition texts_or_null (v : jvalue) : bool :=
  is_null v || match v with VArray l => forallb text_or_null l | _ => false end.

Definition text_tags : list string :=
  ["event_id"; "event_type"; "tenant_id"; "account_id"; "pix_transfer_id"; "correlation_id";
   "currency"; "receiver_key_type"; "decision_reason"; "spi_message_id"; "end_to_end_id"].
Definition integer_tags : list string := ["occurred_at_unix_nano"; "amount_cents"; "fraud_score"].

(** A member of an unknown name, or of the kind its field takes. *)
Definition member_fits (kv : string * jvalue) : bool :=
  let one_of tags := existsb (fun tag => same_name tag (fst kv)) tags in
  implb (one_of text_tags) (text_or_null (snd kv)) &&
  implb (one_of integer_tags) (integer_or_null (snd kv)) &&
  implb (one_of ["fraud_rules"]) (texts_or_null (snd kv)).

Definition event_of_value (v : jvalue) : option PaymentEvent :=
  match v with
  | VNull => Some empty_event
  | VObject ms => if forallb member_fits ms then Some (event_of_members ms) else None
  | _ => None
  end.

(** *** One more member *)

Lemma named_snoc tag ms k v :
  named tag (ms ++ [(k, v)]) = named tag ms ++ (if same_name tag k then [v] else []).
Proof.
  unfold named. rewrite List.filter_app, map_app. cbn. by destruct (same_name tag k).
Qed.

Lemma text_of_snoc tag ms k v :
  text_of tag (ms ++ [(k, v)]) =
  if same_name tag k then default (text_of tag ms) (string_value v) else text_of tag ms.
Proof.
  unfold text_of. rewrite named_snoc. destruct (same_name tag k); [|by rewrite app_nil_r].
  rewrite omap_app. cbn. destruct (string_value v); cbn; [by rewrite last_snoc|by rewrite app_nil_r].
Qed.

Lemma integer_of_snoc tag ms k v :
  integer_of tag (ms ++ [(k, v)]) =
  if same_name tag k then default (integer_of tag ms) (int64_value v) else integer_of tag ms.
Proof.
  unfold integer_of. rewrite named_snoc. destruct (same_name tag k); [|by rewrite app_nil_r].
  rewrite omap_app. cbn. destruct (int64_value v); cbn; [by rewrite last_snoc|by rewrite app_nil_r].
Qed.

Lemma arrays_of_snoc tag ms k v :
  arrays_of tag (ms ++ [(k, v)]) =
  if same_name tag k then keep_array (arrays_of tag ms) v else arrays_of tag ms.
Proof.
  unfold arrays_of. rewrite named_snoc, fold_left_app. by destruct (same_name tag k).
Qed.

Lemma text_at_snoc arrays l i :
  text_at (arrays ++ [l]) i = default (text_at arrays i) (l !! i ≫= string_value).
Proof.
  unfold text_at. rewrite omap_app. cbn.
  destruct (l !! i ≫= string_value); cbn; [by rewrite last_snoc|by rewrite app_nil_r].
Qed.

Lemma same_name_other tag k : same_name tag k = false ->
  forall ms v, texts_of tag (ms ++ [(k, v)]) = texts_of tag ms.
Proof. intros E ms v. unfold texts_of. by rewrite arrays_of_snoc, E. Qed.

(** *** The setters *)

Lemma text_or_null_spec v : text_or_null v = true <-> v = VNull \/ exists s, v = VString s.
Proof. destruct v; cbn; naive_solver. Qed.

Lemma fill_strings_spec l old :
  if forallb text_or_null l
  then exists array,
    fill_strings l old =
      Some (imap (fun i v => default (default "" (old !! i)) (string_value v)) l, array) /\
    forall i, default "" (array !! i) = default (default "" (old !! i)) (l !! i ≫= string_value)
  else fill_strings l old = None.
Proof.
  revert old. induction l as [|v l IH]; intros old; cbn [forallb fill_strings].
  { by exists old. }
  assert (Ht : forall i, tail old !! i = old !! S i) by (by destruct old).
  assert (Hh : default "" (head old) = default "" (old !! 0%nat)) by (by destruct old).
  specialize (IH (tail old)).
  destruct (text_or_null v) eqn:Ev; [|by destruct v].
  assert (Es : match v with VString s => Some s | VNull => Some (default "" (head old)) | _ => None end
    = Some (default (default "" (old !! 0%nat)) (string_value v))) by (rewrite <- Hh; by destruct v).
  rewrite Es. cbn [andb]. destruct (forallb text_or_null l); [|by rewrite IH].
  destruct IH as (array & -> & Ha). eexists. rewrite imap_cons. split.
  - do 3 f_equal. apply imap_ext. intros i x _. cbn. by rewrite Ht.
  - intros [|i]; [done|]. cbn. by rewrite Ha, Ht.
Qed.

(** The state of the decoder after the members [ms]. *)
Definition filled (ms : list (string * jvalue)) (st : Filling) : Prop :=
  fst st = event_of_members ms /\
  forall i, default "" (snd st !! i) = text_at (arrays_of "fraud_rules" ms) i.

(** The event with the rules [rules]. *)
Lemma rules_setter_spec ms st k v :
  filled ms st -> same_name "fraud_rules" k = true ->
  match rules_setter v st with
  | Some st' => texts_or_null v = true /\
      fst st' = (event_of_members ms) <| pe_FraudRules := texts_of "fraud_rules" (ms ++ [(k, v)]) |> /\
      forall i, default "" (snd st' !! i) = text_at (arrays_of "fraud_rules" (ms ++ [(k, v)])) i
  | None => texts_or_null v = false
  end.
Proof.
  intros [He Ha] Hk. unfold texts_of. rewrite arrays_of_snoc, Hk.
  destruct v as [|b|l|s|[|x l]|m]; cbn [rules_setter keep_array]; try done; rewrite ?He; try done.
  set (l' := x :: l) in *. clearbody l'. pose proof (fill_strings_spec l' (snd st)) as Hf.
  change (texts_or_null (VArray l')) with (forallb text_or_null l').
  destruct (forallb text_or_null l'); [|by rewrite Hf].
  destruct Hf as (array & -> & Hl). split_and!; [done| |].
  - cbn. do 2 f_equal. rewrite last_snoc. apply imap_ext. intros i y Hy.
    rewrite text_at_snoc, Hy, Ha. done.
  - intros i. cbn. by rewrite Hl, Ha, text_at_snoc.
Qed.

(** The field names differ up to case, so folded names find the field. *)
Lemma find_folded {S} (fields : list (field S)) key :
  NoDup (map (fun f => fold_name (fd_name f)) fields) ->
  find_field fields key = List.find (fun f => same_name (fd_name f) key) fields.
Proof.
  intros Hnd. unfold find_field, same_name.
  destruct (List.find (fun f => fd_name f ==s key) fields) as [f|] eqn:E; [|done].
  apply find_some in E as [Hin Hn]. b2p.
  destruct (List.find (fun f => fold_name (fd_name f) ==s fold_name key) fields) as [g|] eqn:Eg.
  - apply find_some in Eg as [Hg Hgn]. b2p. f_equal.
    apply list_elem_of_In in Hin, Hg. 
    apply list_elem_of_lookup in Hin as [i Hi], Hg as [j Hj].
    assert (Hmap : forall n h, fields !! n = Some h ->
      map (fun f => fold_name (fd_name f)) fields !! n = Some (fold_name (fd_name h)))
      by (intros n h En; by rewrite list_lookup_fmap, En).
    apply Hmap in Hi as Hi'. apply Hmap in Hj as Hj'. rewrite Hgn in Hj'. rewrite Hn in Hi'.
    pose proof (NoDup_lookup _ _ _ _ Hnd Hi' Hj') as ->.
    congruence.
  - exfalso. eapply find_none in Eg; [|exact Hin]. cbn in Eg. rewrite Hn, String.eqb_refl in Eg. done.
Qed.

Lemma event_field key :
  find_field event_fields key = List.find (fun f => same_name (fd_name f) key) event_fields.
Proof. apply find_folded. apply (bool_decide_unpack _). vm_compute. reflexivity. Qed.

(** *** The members in order *)

Definition event_tags : list string := map fd_name event_fields.

(** A key names one field, or none. *)
Lemma key_row k :
  let row := map (fun u => same_name u k) event_tags in
  row = map (fun _ => false) event_tags \/
  exists t, t ∈ event_tags /\ row = map (fun u => fold_name u ==s fold_name t) event_tags.
Proof.
  cbv zeta. destruct (decide (Forall (fun u => same_name u k = false) event_tags)) as [Hn|Hn].
  - left. apply map_ext_Forall. exact Hn.
  - right. apply not_Forall_Exists, Exists_exists in Hn as (t & Ht & E); [|apply _].
    exists t. split; [done|]. apply map_ext. intros u. unfold same_name in *.
    apply not_false_is_true, String.eqb_eq in E. by rewrite E.
Qed.

Definition take_member (k : string) (v : jvalue) (st : Filling) : option Filling :=
  match List.find (fun f => same_name (fd_name f) k) event_fields with
  | Some f => fd_set f v st
  | None => Some st
  end.

Lemma take_member_spec ms st k v : filled ms st ->
  match take_member k v st with
  | Some st' => member_fits (k, v) = true /\ filled (ms ++ [(k, v)]) st'
  | None => member_fits (k, v) = false
  end.
Proof.
  intros Hf. pose proof (rules_setter_spec ms st k v Hf) as Hrules.
  pose proof (same_name_other "fraud_rules" k) as Hother. destruct Hf as [He Ha].
  destruct st as [e array]. cbn [fst snd] in He, Ha. subst e.
  pose proof (key_row k) as Hrow. cbv zeta in Hrow.
  unfold take_member, member_fits, filled, event_of_members.
  rewrite arrays_of_snoc in Hrules |- *. rewrite !text_of_snoc, !integer_of_snoc.
  cbn [event_tags event_fields map List.find fd_name string_field int_field existsb text_tags
    integer_tags fst snd] in *.
  repeat match goal with
  | |- context [same_name ?t k] => let b := fresh "b" in set (b := same_name t k) in *; clearbody b
  end.
  destruct Hrow as [Hrow|(t & Ht & Hrow)].
  { simplify_eq. by rewrite (Hother eq_refl). }
  repeat (apply elem_of_cons in Ht as [->|Ht]; [vm_compute in Hrow; simplify_eq|]);
    [..|by apply elem_of_nil in Ht];
    try rewrite (Hother eq_refl);
    cbn [implb orb andb fd_set string_field int_field string_setter int64_setter].
  15: { specialize (Hrules eq_refl). destruct (rules_setter v _) as [st'|]; [|done].
        destruct Hrules as (-> & -> & H). done. }
  all: destruct v as [|b|l|s|l|m]; try done; unfold int64_setter, integer_or_null;
    cbn [int64_value is_null orb]; destruct (parse_int l); done.
Qed.

Lemma decode_reference ms :
  match decode_members event_fields ms (empty_event, []) with
  | Some st => forallb member_fits ms = true /\ filled ms st
  | None => forallb member_fits ms = false
  end.
Proof.
  induction ms as [|[k v] ms IH] using rev_ind; [done|].
  rewrite decode_members_app, forallb_app.
  destruct (decode_members event_fields ms _) as [st|]; [|by rewrite IH].
  destruct IH as [-> Hf]. pose proof (take_member_spec ms st k v Hf) as H. unfold take_member in H.
  cbn [decode_members forallb andb]. rewrite event_field, andb_true_r.
  destruct (List.find _ event_fields) as [f|]; [|done]. by destruct (fd_set f v st).
Qed.

(** C34: decoding ends on its own, on every input, and gives what a field-by-field
    reading of the text gives: under any bound of at least two calls per byte and one
    more, the result is an event exactly when the text is one JSON value followed by white
    space, either [null], which gives the empty event, or an object whose members named
    like a field, up to case, hold what the field takes or [null]; each field is then the
    last such value (a [null] rule is the string an earlier array left in its place) and
    the zero value without one. Every other text is an error. *)
Theorem json_decoding_exact raw n :
  (json_fuel (string_of_bytes raw) <= n)%nat ->
  JSONCodec_Unmarshal raw =
  match parse_value n 0 (string_of_bytes raw) with
  | Some (v, rest) =>
      match (if skip_space rest ==s "" then event_of_value v else None) with
      | Some e => Ret e
      | None => Fails (mkError None (json_error raw))
      end
  | None => Fails (mkError None (json_error raw))
  end.
Proof.
  intros Hn. rewrite (json_fuel_enough _ _ _ Hn). unfold JSONCodec_Unmarshal, unmarshal_value.
  destruct (parse_value _ 0 _) as [[v rest]|]; [|done].
  destruct (skip_space rest ==s ""); [|done].
  destruct v as [| | | | |ms]; try done. cbn [decode_struct event_of_value].
  pose proof (decode_reference ms) as H.
  destruct (decode_members _ ms _) as [[e array]|].
  - by destruct H as [-> [<- _]].
  - by rewrite H.
Qed.
End Codec.
