(* ===== verification/Codecs.v ===== *)
(** * All codecs ([AllCodecs] of [internal/codec/json.go])

    The codecs the service offers, side by side: an event that every codec can carry
    survives any number of hand-overs from one codec to another. *)

From S2P Require Import Prelude GoStrings Wire PaymentEvent MsgPack ProtoWire Cbor JsonDecode JsonText JsonCodec.

(** A value of the interface type [Codec]. *)
Inductive AnyCodec := any_codec (C : Type) (codec : Codec C).

Definition Name (c : AnyCodec) : string :=
  match c with any_codec C codec => @codec_Name C codec end.
Definition Marshal (c : AnyCodec) : PaymentEvent -> outcome (list byte) :=
  match c with any_codec C codec => @codec_Marshal C codec end.
Definition Unmarshal (c : AnyCodec) : list byte -> outcome PaymentEvent :=
  match c with any_codec C codec => @codec_Unmarshal C codec end.

Section Codecs.
(** The texts of the errors of [encoding/json]. *)
Context (json_error : list byte -> string).

Definition AllCodecs : list AnyCodec :=
  [any_codec JSONCodec (JSONCodec_Codec json_error); any_codec ProtoWireCodec _; any_codec MsgPackCodec _;
   any_codec CBORCodec _].

(** An event handed on from codec to codec. *)
Fixpoint hand_over (cs : list AnyCodec) (e : PaymentEvent) : outcome PaymentEvent :=
  match cs with
  | [] => Ret e
  | c :: cs => obind (obind (Marshal c e) (Unmarshal c)) (hand_over cs)
  end.

(** The events every codec can carry. *)
Record portable (e : PaymentEvent) : Prop := mkPortable {
  pt_typed : event_typed e;
  pt_fits : msgpack_fits e;
  pt_valid : Forall (fun s => valid_utf8 s = true) (event_strings e);
  pt_rules : Forall (fun r => r <> "") (pe_FraudRules e)
}.

Lemma portable_exact c e : portable e -> c ∈ AllCodecs -> obind (Marshal c e) (Unmarshal c) = Ret e.
Proof.
  intros [Ht Hf Hv Hr] Hc. unfold AllCodecs in Hc.
  repeat (apply elem_of_cons in Hc as [->|Hc]; [cbn [Marshal Unmarshal]|]); [..|by apply elem_of_nil in Hc].
  - apply codec_exact; [by destruct Ht|by apply json_norm_valid].
  - apply codec_exact; [done|by apply proto_norm_id].
  - by apply (codec_exact (C := MsgPackCodec)).
  - apply (codec_exact (C := CBORCodec)); [|done]. split; [done|].
    pose proof (mf_rules e Hf). unfold max_strings. lia.
Qed.

(** The codecs have distinct names, and an event each of them can carry survives any
    sequence of them. *)
Theorem codecs_interoperate e cs : portable e -> cs ⊆ AllCodecs ->
  NoDup (map Name AllCodecs) /\ hand_over cs e = Ret e.
Proof.
  intros He Hcs. split; [by apply (bool_decide_unpack _)|].
  induction cs as [|c cs IH]; [done|]. cbn [hand_over].
  rewrite portable_exact; [|done|apply Hcs, list_elem_of_here].
  apply IH. intros x Hx. by apply Hcs, list_elem_of_further.
Qed.
End Codecs.
