(* ===== verification/Postgres.v ===== *)
(** * The PostgreSQL store ([internal/postgres/store.go], schema in [db/migrations])

    [PgStore] is the content of the four tables, with the constraints of the schema.
    A statement is a function of the tables that either fails or gives its rows and the
    new tables; a method runs its statements as the code does, inside a transaction
    when the code opens one: on an error, or when the commit is refused, the tables are
    as before. [select .. for update] holds the row of the transfer until the
    transaction ends and the outbox claim is a single statement, so a method is one
    atomic step, as in [MemStore]. The server is the parameter [Database]. The empty
    string stands for NULL in the two nullable text columns, which the statements
    convert with [nullif] and [coalesce]. *)

From S2P Require Import Prelude GoStrings Rail Events StoreSpec GoStrconv JsonDecode.

(** ** The server *)

(** The statements of a call; a repeated statement is numbered. *)
Inductive Stmt : Set :=
  | SPing | SBegin | SCommit
  | SSelectTransfer | SInsertTransfer | SUpdateTransfer | SSelectPending
  | SSelectCallback | SInsertCallback
  | SInsertOutbox (n : nat) | SUpdateOutbox | SSelectOutbox
  | SInsertAudit (n : nat) | SSelectAudit.

(** The error of a statement: one of the server, with its code and the constraint it
    names, or another. *)
Inductive db_error : Type :=
  | PgError (Code ConstraintName : string) (err : error)
  | OtherError (err : error).

Definition as_error (e : db_error) : error :=
  match e with PgError _ _ err => err | OtherError err => err end.

Definition translatePgError (e : db_error) : error :=
  match e with
  | PgError Code ConstraintName err =>
      if Code ==s "23505" then Errorf ErrConflict ConstraintName else err
  | OtherError err => err
  end.

(** A row of [pix_transfers]: its columns, and the text of [fraud_rules], which
    replaces the field [FraudRules]. *)
Record Row := mkRow { r_transfer : Transfer; r_fraud_rules : string }.

(** A row of [audit_records], with the text of [metadata]. *)
Record AuditRow := mkAuditRow { ar_record : AuditRecord; ar_metadata : string }.

Record Callback := mkCallback {
  pc_tenant_id : string;
  pc_spi_message_id : string;
  pc_callback_hash : string;
  pc_processed_at : Time
}.

(** What the server does in the call observed by an [Obs]: the statements it refuses
    (whatever the reason: connection, context, encoding), its clock, the values of the
    outbox sequence, the records other transactions have locked, the order in which it
    meets the rows of a table and returns updated ones. *)
Record Database := mkDatabase {
  db_refuses : Obs -> Stmt -> option db_error;
  db_now : Obs -> Time;
  db_nextval : Obs -> nat -> Z;
  db_locked : Obs -> Z -> bool;
  db_rows : Obs -> list Row -> list Row;
  db_returning : Obs -> list OutboxRecord -> list OutboxRecord;
  (** A time as a [timestamptz] column keeps it. *)
  db_timestamptz : Time -> Time;
  (** A document as a [jsonb] column gives it back, when it accepts it. *)
  db_jsonb : string -> option string;
  (** The text of an error with a code on a constraint or a column. *)
  db_text : string -> string -> string
}.

(** ** Reading columns *)

(** A JSON value into a Go string that is empty. *)
Definition scan_string (v : jvalue) : option string :=
  match v with VString s => Some s | VNull => Some "" | _ => None end.

(** [json.Unmarshal] of a text into a nil [[]string]. *)
Definition scan_rules (raw : string) : option (list string) :=
  match unmarshal_value (bytes_of_string raw) with
  | Some VNull => Some []
  | Some (VArray l) => mapM scan_string l
  | _ => None
  end.

(** [json.Unmarshal] of a text into a nil [map[string]string]. *)
Definition scan_metadata (raw : string) : option (gmap string string) :=
  match unmarshal_value (bytes_of_string raw) with
  | Some VNull => Some ∅
  | Some (VObject members) =>
      kvs ← mapM (fun kv => v ← scan_string (snd kv); Some (fst kv, v)) members;
      Some (foldl (fun m kv => <[fst kv := snd kv]> m) ∅ kvs)
  | _ => None
  end.

(** [json.Marshal] of the two values the store writes as JSON. *)
Definition rules_text (rules : list string) : string := json_text (JStrings rules).
Definition metadata_text (m : gmap string string) : string :=
  json_text (JObject (map (fun kv => (fst kv, JString (snd kv))) (map_to_list m))).

(** [json_error] is the text of [encoding/json]'s error on a document. *)
Definition scanTransfer (json_error : string -> string) (row : Row) : result Transfer :=
  match scan_rules (r_fraud_rules row) with
  | Some rules => Ok ((r_transfer row) <| t_FraudRules := rules |>)
  | None => Err (mkError None (json_error (r_fraud_rules row)))
  end.

(** ** The tables *)

Record PgStore := mkPgStore {
  pg_transfers : gmap string Row;
  pg_outbox : list OutboxRecord;
  pg_audit : list AuditRow;
  pg_callbacks : list Callback
}.

#[export] Instance eta_PgStore : Eta PgStore := fun s =>
  mkPgStore (pg_transfers s) (pg_outbox s) (pg_audit s) (pg_callbacks s).

(** The tables the migrations create. *)
Definition empty_tables : PgStore := mkPgStore ∅ [] [] [].

(** The range of [integer]. *)
Definition in_int4 (z : Z) : bool := (- 2^31 <=? z) && (z <? 2^31).

(** [check (status in (..))]. *)
Definition status_check (status : TransferStatus) : bool :=
  (status ==s "accepted") || (status ==s "approved") || (status ==s "blocked") ||
  (status ==s "review") || (status ==s "settled") || (status ==s "rejected").

(** Two rows that a unique index refuses, NULL (the empty string) apart. *)
Definition same_text (a b : string) : bool := negb (a ==s "") && (a ==s b).
Definition same_key (t u : Transfer) : bool :=
  (t_TenantID t ==s t_TenantID u) && (t_IdempotencyKey t ==s t_IdempotencyKey u).

(** The unique indexes of [pix_transfers] besides its primary key, in the order in
    which they are created. *)
Definition transfer_indexes : list (string * (Transfer -> Transfer -> bool)) :=
  [("pix_transfers_end_to_end_id_key", fun t u => same_text (t_EndToEndID t) (t_EndToEndID u));
   ("pix_transfers_spi_message_id_key", fun t u => same_text (t_SPIMessageID t) (t_SPIMessageID u));
   ("pix_transfers_tenant_id_idempotency_key_key", same_key)].

(** The rows of the table, but for one. *)
Definition other_rows (id : string) (m : gmap string Row) : list Transfer :=
  map (fun kv => r_transfer (snd kv)) (map_to_list (delete id m)).

(** The first unique index the row of [t] violates. *)
Definition index_violation (t : Transfer) (m : gmap string Row) : option string :=
  fst <$> List.find (fun ix => existsb (snd ix t) (other_rows (t_ID t) m)) transfer_indexes.

(** The first check the row of [t] violates, in the order of their names. *)
Definition check_violation (t : Transfer) : option string :=
  if t_AmountCents t <=? 0 then Some "pix_transfers_amount_cents_check"
  else if negb (t_Currency t ==s "BRL") then Some "pix_transfers_currency_check"
  else if negb (status_check (t_Status t)) then Some "pix_transfers_status_check"
  else None.

(** ** Statements *)

(** A statement: its rows and the new tables, or its error. *)
Definition Sql (A : Type) : Type := PgStore -> (A * PgStore) + db_error.

(** The Go code of a method between its statements. *)
Definition Tx (A : Type) : Type := PgStore -> result (A * PgStore).

Definition tx_ret {A} (a : A) : Tx A := fun s => Ok (a, s).
Definition tx_err {A} (e : error) : Tx A := fun _ => Err e.
Definition tx_bind {A B} (m : Tx A) (k : A -> Tx B) : Tx B := fun s =>
  match m s with Ok (a, s) => k a s | Err e => Err e end.
Definition tx_lift {A} (r : result A) : Tx A := fun s =>
  match r with Ok a => Ok (a, s) | Err e => Err e end.

Notation "x <~ m ;; k" := (tx_bind m (fun x => k))
  (at level 100, m at next level, right associativity) : go_scope.

(** [if err != nil { return translatePgError(err) }] and [{ return err }]. *)
Definition translated {A} (q : Sql A) : Tx A := fun s =>
  match q s with inl r => Ok r | inr e => Err (translatePgError e) end.
Definition raw {A} (q : Sql A) : Tx A := fun s =>
  match q s with inl r => Ok r | inr e => Err (as_error e) end.

(** [for n, x := range l { if err := f(n, x); err != nil { return err } }]. *)
Fixpoint tx_iter {A} (f : nat -> A -> Tx unit) (n : nat) (l : list A) : Tx unit :=
  match l with
  | [] => tx_ret tt
  | x :: l => _ <~ f n x;; tx_iter f (S n) l
  end.

Section Statements.
Context (db : Database) (json_error : string -> string) (o : Obs).

Local Abbreviation tz := (db_timestamptz db).

Definition violation (Code ConstraintName : string) : db_error :=
  PgError Code ConstraintName (mkError None (db_text db Code ConstraintName)).

(** The driver cannot encode an argument. *)
Definition encoding_error (column : string) : db_error :=
  OtherError (mkError None (db_text db "" column)).

(** A statement the server does not refuse. *)
Definition statement {A} (st : Stmt) (q : Sql A) : Sql A := fun s =>
  match db_refuses db o st with Some e => inr e | None => q s end.

(** A transaction: the tables change when it commits. *)
Definition in_tx {A} (body : Tx A) (s : PgStore) : result A * PgStore :=
  match db_refuses db o SBegin with
  | Some e => (Err (as_error e), s)
  | None =>
      match body s with
      | Err e => (Err e, s)
      | Ok (a, s') =>
          match db_refuses db o SCommit with
          | Some e => (Err (as_error e), s)
          | None => (Ok a, s')
          end
      end
  end.

(** A single statement commits by itself. *)
Definition autocommit {A} (body : Tx A) (s : PgStore) : result A * PgStore :=
  match body s with Err e => (Err e, s) | Ok (a, s') => (Ok a, s') end.

Definition to_jsonb (column text : string) : string + db_error :=
  match db_jsonb db text with
  | Some text => inl text
  | None => inr (violation "22P02" column)
  end.

(** ** [pix_transfers] *)

(** The times of a row as their columns keep them. *)
Definition column_times (t : Transfer) : Transfer :=
  t <| t_SPIClaimedUntil := tz <$> t_SPIClaimedUntil t |>
    <| t_CreatedAt := tz (t_CreatedAt t) |> <| t_UpdatedAt := tz (t_UpdatedAt t) |>.

Definition insert_transfer_row (t : Transfer) : Sql unit := statement SInsertTransfer (fun s =>
  if negb (in_int4 (t_ReceiverRisk t)) then inr (encoding_error "receiver_risk")
  else if negb (in_int4 (t_FraudScore t)) then inr (encoding_error "fraud_score")
  else if negb (in_int4 (t_SPISubmissionAttempts t)) then
    inr (encoding_error "spi_submission_attempts")
  else match to_jsonb "fraud_rules" (rules_text (t_FraudRules t)) with
  | inr e => inr e
  | inl rules =>
      match check_violation t with
      | Some c => inr (violation "23514" c)
      | None =>
          match pg_transfers s !! t_ID t with
          | Some _ => inr (violation "23505" "pix_transfers_pkey")
          | None =>
              match index_violation t (pg_transfers s) with
              | Some c => inr (violation "23505" c)
              | None =>
                  let row := mkRow (column_times (t <| t_FraudRules := [] |>)) rules in
                  inl (tt, s <| pg_transfers := <[t_ID t := row]> (pg_transfers s) |>)
              end
          end
      end
  end).

(** [insertTransfer]; [json.Marshal] does not fail on a slice of strings. *)
Definition insertTransfer (t : Transfer) : Tx unit := translated (insert_transfer_row t).

(** The rows a [where tenant_id = $1 and id = $2] keeps: one at most. *)
Definition row_of (tenantID transferID : string) (s : PgStore) : option Row :=
  match pg_transfers s !! transferID with
  | Some row => if t_TenantID (r_transfer row) ==s tenantID then Some row else None
  | None => None
  end.

(** [QueryRow] and [scanTransfer]: [None] is [pgx.ErrNoRows]. *)
Definition query_transfer (find : PgStore -> option Row) : Tx (option Transfer) :=
  row <~ raw (statement SSelectTransfer (fun s => inl (find s, s)));;
  match row with
  | None => tx_ret None
  | Some row => t <~ tx_lift (scanTransfer json_error row);; tx_ret (Some t)
  end.

(** The transfer of a tenant, as the transactions and [GetTransfer] select it. *)
Definition select_transfer (tenantID transferID : string) : Tx Transfer :=
  t <~ query_transfer (row_of tenantID transferID);;
  match t with Some t => tx_ret t | None => tx_err (sentinel ErrNotFound) end.

(** [update pix_transfers set .. where tenant_id = $ and id = $]: [set] gives the new
    columns of the row, or the error of an expression. *)
Definition update_transfer (tenantID transferID : string) (set : Transfer -> Transfer + db_error)
    : Sql unit := statement SUpdateTransfer (fun s =>
  match row_of tenantID transferID s with
  | None => inl (tt, s)
  | Some row =>
      match set (r_transfer row) with
      | inr e => inr e
      | inl t =>
          match check_violation t with
          | Some c => inr (violation "23514" c)
          | None =>
              match index_violation t (pg_transfers s) with
              | Some c => inr (violation "23505" c)
              | None =>
                  inl (tt, s <| pg_transfers :=
                    <[transferID := mkRow t (r_fraud_rules row)]> (pg_transfers s) |>)
              end
          end
      end
  end).

(** ** [payment_outbox], [audit_records], [processed_spi_callbacks] *)

Definition insert_outbox_row (n : nat) (event : Event) : Sql unit :=
  statement (SInsertOutbox n) (fun s =>
  match to_jsonb "payload" (e_Payload event) with
  | inr e => inr e
  | inl payload =>
      let sequence := db_nextval db o n in
      if existsb (fun r => o_Sequence r =? sequence) (pg_outbox s) then
        inr (violation "23505" "payment_outbox_pkey")
      else if existsb (fun r => e_EventID (o_Event r) ==s e_EventID event) (pg_outbox s) then
        inr (violation "23505" "payment_outbox_event_id_key")
      else match pg_transfers s !! e_TransferID event with
      | None => inr (violation "23503" "payment_outbox_pix_transfer_id_fkey")
      | Some _ =>
          let stored := mkEvent (e_EventID event) (e_EventType event) (e_SchemaVersion event)
            (tz (e_OccurredAt event)) (e_Producer event) (e_TenantID event) (e_AccountID event)
            (e_TransferID event) (e_CorrelationID event) payload in
          let record := {| o_Sequence := sequence; o_Event := stored; o_Published := false;
            o_Attempts := 0; o_LastError := ""; o_AvailableAt := tz (e_OccurredAt event);
            o_ClaimToken := ""; o_ClaimedUntil := None; o_DispatchedAt := None |} in
          inl (tt, s <| pg_outbox := pg_outbox s ++ [record] |>)
      end
  end).

Definition insertOutbox (n : nat) (event : Event) : Tx unit :=
  translated (insert_outbox_row n event).

Definition insert_audit_row (n : nat) (record : AuditRecord) : Sql unit :=
  statement (SInsertAudit n) (fun s =>
  match to_jsonb "metadata" (metadata_text (a_Metadata record)) with
  | inr e => inr e
  | inl metadata =>
      match pg_transfers s !! a_TransferID record with
      | None => inr (violation "23503" "audit_records_pix_transfer_id_fkey")
      | Some _ =>
          let stored := mkAuditRecord (a_TenantID record) (a_AccountID record)
            (a_TransferID record) (a_Action record) (a_CorrelationID record) ∅
            (tz (a_CreatedAt record)) in
          inl (tt, s <| pg_audit := pg_audit s ++ [mkAuditRow stored metadata] |>)
      end
  end).

Definition insertAudit (n : nat) (record : AuditRecord) : Tx unit :=
  translated (insert_audit_row n record).

(** The callbacks of a message; their order does not matter, for there is one. *)
Definition callback_of (tenantID spiMessageID : string) (s : PgStore) : option Callback :=
  List.find (fun c => (pc_tenant_id c ==s tenantID) && (pc_spi_message_id c ==s spiMessageID))
    (pg_callbacks s).

Definition select_callback (tenantID spiMessageID : string) : Sql (option string) :=
  statement SSelectCallback (fun s => inl (pc_callback_hash <$> callback_of tenantID spiMessageID s, s)).

Definition duplicate_callback (c c' : Callback) : bool :=
  (pc_tenant_id c ==s pc_tenant_id c') && (pc_spi_message_id c ==s pc_spi_message_id c') &&
  (pc_callback_hash c ==s pc_callback_hash c').

Definition insert_callback (c : Callback) : Sql unit := statement SInsertCallback (fun s =>
  if existsb (duplicate_callback c) (pg_callbacks s) then
    inr (violation "23505" "processed_spi_callbacks_pkey")
  else inl (tt, s <| pg_callbacks := pg_callbacks s ++ [c] |>)).
End Statements.

(** ** The store *)

Section Store.
Context (db : Database) (json_error : string -> string).

Local Abbreviation tz := (db_timestamptz db).

Definition Postgres_Health (o : Obs) (s : PgStore) : option error :=
  as_error <$> db_refuses db o SPing.

(** A row by tenant and key: the unique index leaves one at most. *)
Definition key_row (tenantID key : string) (s : PgStore) : option Row :=
  snd <$> List.find (fun kv =>
    (t_TenantID (r_transfer (snd kv)) ==s tenantID) &&
    (t_IdempotencyKey (r_transfer (snd kv)) ==s key)) (map_to_list (pg_transfers s)).

Definition Postgres_FindByIdempotency (o : Obs) (tenantID key : string) (s : PgStore)
    : result (option Transfer) :=
  fst (autocommit (query_transfer db json_error o (key_row tenantID key)) s).

Definition Postgres_InsertTransfer (o : Obs) (transfer : Transfer) (outbox : list Event)
    (audit : list AuditRecord) : PgStore -> result unit * PgStore :=
  in_tx db o (
    _ <~ insertTransfer db o transfer;;
    _ <~ tx_iter (insertOutbox db o) 0 outbox;;
    tx_iter (insertAudit db o) 0 audit).

Definition Postgres_GetTransfer (o : Obs) (tenantID transferID : string) (s : PgStore)
    : result Transfer :=
  fst (autocommit (select_transfer db json_error o tenantID transferID) s).

Definition Postgres_ClaimSPISubmission (o : Obs) (tenantID transferID claimToken : string)
    (claimUntil : Time) : PgStore -> result (Transfer * bool) * PgStore :=
  in_tx db o (
    transfer <~ select_transfer db json_error o tenantID transferID;;
    if (t_Status transfer ==s StatusApproved) && negb (t_SPIMessageID transfer ==s "")
    then tx_ret (transfer, true)
    else
      let updatedAt := time_UTC (obs_now o) in
      transfer <~ tx_lift (Transfer_ClaimSPISubmission transfer claimToken claimUntil updatedAt);;
      _ <~ translated (update_transfer db o tenantID transferID (fun row =>
        if in_int4 (t_SPISubmissionAttempts row + 1) then
          inl (row <| t_SPIClaimToken := t_SPIClaimToken transfer |>
                   <| t_SPIClaimedUntil := tz <$> t_SPIClaimedUntil transfer |>
                   <| t_SPISubmissionAttempts := t_SPISubmissionAttempts row + 1 |>
                   <| t_SPILastError := "" |>
                   <| t_UpdatedAt := tz (t_UpdatedAt transfer) |>)
        else inr (violation db "22003" "spi_submission_attempts")));;
      tx_ret (transfer, false)).

Definition Postgres_RecordSPISubmission (o : Obs) (tenantID transferID claimToken : string)
    (message : SPIMessage) (outbox : list Event) (audit : AuditRecord)
    : PgStore -> result (Transfer * bool) * PgStore :=
  in_tx db o (
    transfer <~ select_transfer db json_error o tenantID transferID;;
    if (t_Status transfer ==s StatusApproved) &&
       (t_SPIMessageID transfer ==s m_MessageID message)
    then tx_ret (transfer, true)
    else
      transfer <~ tx_lift (Transfer_RecordSPISubmission transfer claimToken message);;
      _ <~ translated (update_transfer db o tenantID transferID (fun row =>
        inl (row <| t_Status := t_Status transfer |>
                 <| t_SPIMessageID := t_SPIMessageID transfer |>
                 <| t_EndToEndID := t_EndToEndID transfer |>
                 <| t_SPIClaimToken := "" |>
                 <| t_SPIClaimedUntil := None |>
                 <| t_SPILastError := "" |>
                 <| t_UpdatedAt := tz (t_UpdatedAt transfer) |>)));;
      _ <~ tx_iter (insertOutbox db o) 0 outbox;;
      _ <~ insertAudit db o 0 audit;;
      tx_ret (transfer, false)).

Definition Postgres_ReleaseSPISubmission (o : Obs)
    (tenantID transferID claimToken lastError : string) (retryAt : Time)
    : PgStore -> result unit * PgStore :=
  in_tx db o (
    transfer <~ select_transfer db json_error o tenantID transferID;;
    if (t_Status transfer ==s StatusApproved) && negb (t_SPIMessageID transfer ==s "")
    then tx_ret tt
    else
      transfer <~ tx_lift (Transfer_ReleaseSPISubmission transfer claimToken lastError retryAt
        (time_UTC (obs_now o)));;
      translated (update_transfer db o tenantID transferID (fun row =>
        inl (row <| t_SPIClaimToken := "" |>
                 <| t_SPIClaimedUntil := tz <$> t_SPIClaimedUntil transfer |>
                 <| t_SPILastError := t_SPILastError transfer |>
                 <| t_UpdatedAt := tz (t_UpdatedAt transfer) |>)))).

Definition Postgres_RecordReviewDecision (o : Obs) (tenantID transferID : string)
    (status : TransferStatus) (reason : string) (outbox : list Event) (audit : AuditRecord)
    : PgStore -> result Transfer * PgStore :=
  in_tx db o (
    transfer <~ select_transfer db json_error o tenantID transferID;;
    transfer <~ tx_lift (Transfer_RecordReviewDecision transfer status reason (a_CreatedAt audit));;
    _ <~ translated (update_transfer db o tenantID transferID (fun row =>
      inl (row <| t_Status := t_Status transfer |>
               <| t_DecisionReason := t_DecisionReason transfer |>
               <| t_UpdatedAt := tz (t_UpdatedAt transfer) |>)));;
    _ <~ tx_iter (insertOutbox db o) 0 outbox;;
    _ <~ insertAudit db o 0 audit;;
    tx_ret transfer).

Definition pg_callback_hash (callback : SettlementCallback) : string :=
  if cb_CallbackHash callback ==s "" then SettlementCallback_Fingerprint callback
  else cb_CallbackHash callback.

Definition Postgres_UpdateSettlement (o : Obs) (tenantID transferID : string)
    (callback : SettlementCallback) (outbox : list Event) (audit : AuditRecord)
    : PgStore -> result (Transfer * bool) * PgStore :=
  in_tx db o (
    transfer <~ select_transfer db json_error o tenantID transferID;;
    let callbackHash := pg_callback_hash callback in
    existingHash <~ raw (select_callback db o tenantID (cb_SPIMessageID callback));;
    match existingHash with
    | Some existingHash =>
        if existingHash ==s callbackHash then tx_ret (transfer, true)
        else tx_err (Errorf ErrConflict "conflicting settlement callback for terminal transfer")
    | None =>
        transfer <~ tx_lift (Transfer_RecordSettlement transfer callback);;
        _ <~ translated (update_transfer db o tenantID transferID (fun row =>
          inl (row <| t_Status := t_Status transfer |>
                   <| t_SettlementCode := t_SettlementCode transfer |>
                   <| t_UpdatedAt := tz (t_UpdatedAt transfer) |>)));;
        _ <~ tx_iter (insertOutbox db o) 0 outbox;;
        _ <~ insertAudit db o 0 audit;;
        _ <~ translated (insert_callback db o (mkCallback tenantID (cb_SPIMessageID callback)
          callbackHash (tz (cb_ReceivedAt callback))));;
        tx_ret (transfer, false)
    end).

(** ** Reading the logs *)

(** A negative or null limit means 100. *)
Definition row_limit (limit : Z) : Z := if limit <=? 0 then 100 else limit.

Definition sequence_le (a b : OutboxRecord) : Prop := o_Sequence a <= o_Sequence b.
#[export] Instance sequence_le_dec a b : Decision (sequence_le a b).
Proof. unfold sequence_le; apply _. Defined.

Definition select_outbox (o : Obs) (f : list OutboxRecord -> list OutboxRecord) (s : PgStore)
    : result (list OutboxRecord) :=
  fst (autocommit (raw (statement db o SSelectOutbox
    (fun s => inl (f (merge_sort sequence_le (pg_outbox s)), s)))) s).

Definition Postgres_Outbox (o : Obs) : PgStore -> result (list OutboxRecord) :=
  select_outbox o (fun records => records).

Definition scan_audit (row : AuditRow) : result AuditRecord :=
  match scan_metadata (ar_metadata row) with
  | Some metadata =>
      let r := ar_record row in
      Ok (mkAuditRecord (a_TenantID r) (a_AccountID r) (a_TransferID r) (a_Action r)
            (a_CorrelationID r) metadata (a_CreatedAt r))
  | None => Err (mkError None (json_error (ar_metadata row)))
  end.

(** The loop over [rows]: the first error ends it. *)
Fixpoint scan_all {A B} (scan : A -> result B) (rows : list A) : result (list B) :=
  match rows with
  | [] => Ok []
  | row :: rows => x <-? scan row; l <-? scan_all scan rows; Ok (x :: l)
  end.

Definition Postgres_Audit (o : Obs) (s : PgStore) : result (list AuditRecord) :=
  rows <-? fst (autocommit (raw (statement db o SSelectAudit (fun s => inl (pg_audit s, s)))) s);
  scan_all scan_audit rows.

(** [published = false and available_at <= now() and (claimed_until is null or
    claimed_until <= now())]. *)
Definition record_pending (now : Time) (r : OutboxRecord) : bool :=
  negb (o_Published r) && (o_AvailableAt r <=? now) &&
  match o_ClaimedUntil r with Some until => until <=? now | None => true end.

Definition Postgres_PendingOutbox (o : Obs) (limit : Z) : PgStore -> result (list OutboxRecord) :=
  select_outbox o (fun records =>
    take (Z.to_nat (row_limit limit)) (List.filter (record_pending (db_now db o)) records)).

(** ** Claiming and marking outbox records *)

Definition claimed_row (claimToken : string) (claimUntil : Time) (r : OutboxRecord) : OutboxRecord :=
  r <| o_ClaimToken := claimToken |> <| o_ClaimedUntil := Some (tz claimUntil) |>.

(** [next_records]: the first pending records in sequence order no other transaction
    has locked. *)
Definition next_records (o : Obs) (limit : Z) (s : PgStore) : list OutboxRecord :=
  take (Z.to_nat (row_limit limit))
    (List.filter (fun r => record_pending (db_now db o) r && negb (db_locked db o (o_Sequence r)))
       (merge_sort sequence_le (pg_outbox s))).

Definition has_sequence (records : list OutboxRecord) (r : OutboxRecord) : bool :=
  existsb (fun n => o_Sequence n =? o_Sequence r) records.

(** The rows are returned in the order the update meets them. *)
Definition update_claims (o : Obs) (limit : Z) (claimToken : string) (claimUntil : Time)
    : Sql (list OutboxRecord) := statement db o SUpdateOutbox (fun s =>
  let next := next_records o limit s in
  let outbox := map (fun r =>
    if has_sequence next r then claimed_row claimToken claimUntil r else r) (pg_outbox s) in
  inl (db_returning db o (List.filter (has_sequence next) outbox), s <| pg_outbox := outbox |>)).

(** [now1] is the clock reading of the guard. *)
Definition Postgres_ClaimPendingOutbox (now1 : Time) (o : Obs) (limit : Z) (claimToken : string)
    (claimUntil : Time) (s : PgStore) : result (list OutboxRecord) * PgStore :=
  if (claimToken ==s "") || negb (time_After claimUntil (time_UTC now1)) then
    (Err (Errorf ErrValidation "valid outbox claim token and expiry are required"), s)
  else autocommit (raw (update_claims o limit claimToken (time_UTC claimUntil))) s.

(** [where sequence = $1 and claim_token = $2]. *)
Definition marks (sequence : Z) (claimToken : string) (r : OutboxRecord) : bool :=
  (o_Sequence r =? sequence) && (o_ClaimToken r ==s claimToken).

(** An update of the marked rows; the number of them. *)
Definition update_marked (o : Obs) (sequence : Z) (claimToken : string)
    (fails : OutboxRecord -> bool) (set : OutboxRecord -> OutboxRecord) : Sql nat :=
  statement db o SUpdateOutbox (fun s =>
  let marked := List.filter (marks sequence claimToken) (pg_outbox s) in
  if existsb fails marked then inr (violation db "22003" "attempts")
  else inl (length marked, s <| pg_outbox := map (fun r =>
    if marks sequence claimToken r then set r else r) (pg_outbox s) |>)).

Definition mark_rows (o : Obs) (sequence : Z) (claimToken : string)
    (fails : OutboxRecord -> bool) (set : OutboxRecord -> OutboxRecord) (s : PgStore)
    : result unit * PgStore :=
  match autocommit (raw (update_marked o sequence claimToken fails set)) s with
  | (Err e, s) => (Err e, s)
  | (Ok RowsAffected, s) =>
      if Nat.eqb RowsAffected 0 then
        (Err (Errorf ErrConflict "outbox record is not claimed by this worker"), s)
      else (Ok tt, s)
  end.

Definition published_row (dispatchedAt : Time) (r : OutboxRecord) : OutboxRecord :=
  r <| o_Published := true |> <| o_DispatchedAt := Some (tz dispatchedAt) |>
    <| o_LastError := "" |> <| o_ClaimToken := "" |> <| o_ClaimedUntil := None |>.

Definition Postgres_MarkOutboxPublished (o : Obs) (sequence : Z) (claimToken : string)
    (dispatchedAt : Time) : PgStore -> result unit * PgStore :=
  mark_rows o sequence claimToken (fun _ => false) (published_row (time_UTC dispatchedAt)).

Definition failed_row (lastError : string) (retryAt : Time) (r : OutboxRecord) : OutboxRecord :=
  r <| o_Attempts := o_Attempts r + 1 |> <| o_LastError := lastError |>
    <| o_AvailableAt := tz retryAt |> <| o_ClaimToken := "" |> <| o_ClaimedUntil := None |>.

Definition Postgres_MarkOutboxFailed (o : Obs) (sequence : Z) (claimToken lastError : string)
    (retryAt : Time) : PgStore -> result unit * PgStore :=
  mark_rows o sequence claimToken (fun r => negb (in_int4 (o_Attempts r + 1)))
    (failed_row lastError (time_UTC retryAt)).

(** ** The SPI work queue *)

Definition created_before (a b : Row) : Prop :=
  t_CreatedAt (r_transfer a) <= t_CreatedAt (r_transfer b).
#[export] Instance created_before_dec a b : Decision (created_before a b).
Proof. unfold created_before; apply _. Defined.

Definition row_pending (now : Time) (row : Row) : bool :=
  let t := r_transfer row in
  (t_Status t ==s StatusAccepted) && (t_SPIMessageID t ==s "") &&
  match t_SPIClaimedUntil t with Some until => until <=? now | None => true end.

(** Rows created at the same time come in the order the server meets them. *)
Definition Postgres_PendingSPISubmissions (o : Obs) (limit : Z) (s : PgStore)
    : result (list Transfer) :=
  rows <-? fst (autocommit (raw (statement db o SSelectPending (fun s =>
    inl (take (Z.to_nat (row_limit limit))
           (merge_sort created_before
              (List.filter (row_pending (db_now db o))
                 (db_rows db o (map snd (map_to_list (pg_transfers s)))))), s)))) s);
  scan_all (scanTransfer json_error) rows.
End Store.

(** ** Opening the store *)

Record PoolOptions := mkPoolOptions {
  MinConns : Z;
  MaxConns : Z;
  MaxConnLifetime : Duration
}.

#[export] Instance eta_PoolOptions : Eta PoolOptions := fun p =>
  mkPoolOptions (MinConns p) (MaxConns p) (MaxConnLifetime p).

(** The options that are set replace those of the connection string. *)
Definition pool_config (config : PoolOptions) (options : list PoolOptions) : PoolOptions :=
  match options with
  | [] => config
  | option :: _ =>
      let config := if 0 <? MinConns option then config <| MinConns := MinConns option |> else config in
      let config := if 0 <? MaxConns option then config <| MaxConns := MaxConns option |> else config in
      if 0 <? MaxConnLifetime option
      then config <| MaxConnLifetime := MaxConnLifetime option |> else config
  end.

(** [postgres.New], over [pgxpool]: the pool it opens, by its options. *)
Definition postgres_New (ParseConfig : string -> result PoolOptions)
    (NewWithConfig : PoolOptions -> option error) (Ping : PoolOptions -> option error)
    (databaseURL : string) (options : list PoolOptions) : result PoolOptions :=
  let failed msg err := mkError (err_is err) (msg +:+ ": " +:+ Error err) in
  match ParseConfig databaseURL with
  | Err err => Err (failed "parse postgres pool config" err)
  | Ok config =>
      let config := pool_config config options in
      match NewWithConfig config with
      | Some err => Err (failed "create postgres pool" err)
      | None =>
          match Ping config with
          | Some err => Err (failed "ping postgres" err)
          | None => Ok config
          end
      end
  end.
