(* ===== verification/PostgresProps.v ===== *)
(** * The tables of the PostgreSQL store: invariant and evolution

    What the code relies on of the server ([DatabaseLaws]), how a transfer reads back
    once stored ([pg_read]), the invariant of the tables ([pg_ok]: rows that read back,
    checks and unique indexes that hold), their evolution ([pg_le]), and the effect of
    each statement. *)

From S2P Require Import Prelude GoStrings Rail Events StoreSpec JsonDecode JsonText Postgres.

(** A [timestamptz] keeps a time to the microsecond; a [jsonb] column gives back the
    strings of an array; the server returns the rows there are. *)
Class DatabaseLaws (db : Database) := mkDatabaseLaws {
  timestamptz_idem : forall t, db_timestamptz db (db_timestamptz db t) = db_timestamptz db t;
  timestamptz_le : forall t, db_timestamptz db t <= t;
  jsonb_rules : forall rules text, db_jsonb db (rules_text rules) = Some text ->
    scan_rules text = scan_rules (rules_text rules);
  rows_perm : forall o l, db_rows db o l ≡ₚ l;
  returning_perm : forall o l, db_returning db o l ≡ₚ l
}.

Lemma scan_rules_text rules : scan_rules (rules_text rules) = Some (map (to_valid 0) rules).
Proof.
  unfold scan_rules, rules_text.
  destruct (unmarshal_json (JStrings rules)) as [-> _]; [done|by cbn|].
  cbn [value_of]. induction rules as [|r rules IH]; [done|]. cbn in *. by rewrite IH.
Qed.

(** ** Rows *)

Definition row_view (row : Row) : option Transfer :=
  rules ← scan_rules (r_fraud_rules row); Some ((r_transfer row) <| t_FraudRules := rules |>).

Lemma scanTransfer_view je row :
  scanTransfer je row = match row_view row with
    Some t => Ok t | None => Err (mkError None (je (r_fraud_rules row))) end.
Proof. unfold scanTransfer, row_view. by destruct (scan_rules _). Qed.

Lemma row_view_fields row t : row_view row = Some t ->
  t_ID (r_transfer row) = t_ID t /\ t_TenantID (r_transfer row) = t_TenantID t /\
  t_IdempotencyKey (r_transfer row) = t_IdempotencyKey t /\
  t_Status (r_transfer row) = t_Status t /\
  t_SPISubmissionAttempts (r_transfer row) = t_SPISubmissionAttempts t.
Proof. unfold row_view. destruct (scan_rules _); intros [= <-]. done. Qed.

Lemma row_view_check row t :
  row_view row = Some t -> check_violation t = check_violation (r_transfer row).
Proof. unfold row_view. destruct (scan_rules _); intros [= <-]. done. Qed.

(** Two rows that a unique index refuses. *)
Definition clash (t u : Transfer) : bool := existsb (fun ix => snd ix t u) transfer_indexes.
Arguments clash : simpl never.

Lemma same_text_sym a b : same_text a b = same_text b a.
Proof.
  unfold same_text. rewrite (String.eqb_sym b a). destruct (a ==s b) eqn:E; b2p; [by subst|].
  by rewrite !andb_false_r.
Qed.

Lemma same_key_sym t u : same_key t u = same_key u t.
Proof.
  unfold same_key. by rewrite (String.eqb_sym (t_TenantID u)), (String.eqb_sym (t_IdempotencyKey u)).
Qed.

Lemma clash_eq t u : clash t u =
  same_text (t_EndToEndID t) (t_EndToEndID u) ||
  (same_text (t_SPIMessageID t) (t_SPIMessageID u) || (same_key t u || false)).
Proof. reflexivity. Qed.

Lemma clash_sym t u : clash t u = clash u t.
Proof.
  by rewrite !clash_eq, (same_key_sym u), (same_text_sym (t_EndToEndID u)),
    (same_text_sym (t_SPIMessageID u)).
Qed.

Lemma clash_key t u : clash t u = false -> same_key t u = false.
Proof. rewrite clash_eq. intros H. b2p. done. Qed.

Lemma index_violation_None t m :
  index_violation t m = None <->
  forall id row, id <> t_ID t -> m !! id = Some row -> clash t (r_transfer row) = false.
Proof.
  unfold index_violation, other_rows. split.
  - intros H id row Hid Hrow. destruct (List.find _ _) eqn:E in H; [done|].
    unfold clash. apply not_true_iff_false. intros [ix [Hix Hc]]%existsb_exists.
    pose proof (find_none _ _ E ix Hix) as Hn. cbn in Hn.
    rewrite <- not_true_iff_false, existsb_exists in Hn. apply Hn.
    exists (r_transfer row). split; [|done]. apply in_map_iff. exists (id, row). split; [done|].
    by apply list_elem_of_In, elem_of_map_to_list, lookup_delete_Some.
  - intros H. destruct (List.find _ _) as [ix|] eqn:E; [exfalso|done].
    apply find_some in E as [Hix [u [Hu Hc]]%existsb_exists].
    apply in_map_iff in Hu as [[id row] [<- Hu]].
    apply list_elem_of_In, elem_of_map_to_list, lookup_delete_Some in Hu as [Hne Hu].
    assert (Hx : clash t (r_transfer row) = true) by (apply existsb_exists; eauto).
    rewrite H with (id := id) in Hx; [done|congruence|done].
Qed.

Section Props.
Context (db : Database) `{!DatabaseLaws db} (json_error : string -> string).

Local Abbreviation tz := (db_timestamptz db).

(** A transfer as it reads back once stored. *)
Definition pg_read (t : Transfer) : Transfer :=
  column_times db (t <| t_FraudRules := map (to_valid 0) (t_FraudRules t) |>).

Definition pg_read_event (e : Event) : Event :=
  mkEvent (e_EventID e) (e_EventType e) (e_SchemaVersion e) (tz (e_OccurredAt e))
    (e_Producer e) (e_TenantID e) (e_AccountID e) (e_TransferID e) (e_CorrelationID e)
    (default "" (db_jsonb db (e_Payload e))).

Definition pg_read_audit (a : AuditRecord) : AuditRecord :=
  mkAuditRecord (a_TenantID a) (a_AccountID a) (a_TransferID a) (a_Action a)
    (a_CorrelationID a)
    (default ∅ (db_jsonb db (metadata_text (a_Metadata a)) ≫= scan_metadata))
    (tz (a_CreatedAt a)).

Definition audit_view (row : AuditRow) : AuditRecord :=
  let r := ar_record row in
  mkAuditRecord (a_TenantID r) (a_AccountID r) (a_TransferID r) (a_Action r)
    (a_CorrelationID r) (default ∅ (scan_metadata (ar_metadata row))) (a_CreatedAt r).

Lemma to_valid_map_idem l : map (to_valid 0) (map (to_valid 0) l) = map (to_valid 0) l.
Proof. rewrite map_map. apply map_ext. intros s. apply to_valid_idem. Qed.

Lemma pg_read_idem t : pg_read (pg_read t) = pg_read t.
Proof.
  destruct t as [? ? ? ? ? ? ? ? ? ? ? ? ? ? ? ? ? ? ? ? u]. unfold pg_read, column_times. cbn.
  rewrite to_valid_map_idem, !timestamptz_idem. f_equal.
  destruct u; cbn; by rewrite ?timestamptz_idem.
Qed.

Lemma pg_read_content t : same_content (pg_read t) t.
Proof.
  split; [done|]. cbn. destruct (t_SPIClaimedUntil t); cbn; [apply timestamptz_le|done].
Qed.

Lemma pg_read_event_content e : event_content (pg_read_event e) = event_content e.
Proof. done. Qed.
(** ** Invariant and evolution *)

(** One operation of the aggregate on a stored transfer, written back. *)
Definition pg_step (t t' : Transfer) : Prop := exists u, transfer_step t u /\ t' = pg_read u.

Definition row_ok (id : string) (row : Row) : Prop := exists t,
  row_view row = Some t /\ t_ID t = id /\ transfer_ok t /\ pg_read t = t /\
  in_int4 (t_SPISubmissionAttempts t) = true /\ check_violation t = None.

Definition callback_id (c : Callback) : string * string := (pc_tenant_id c, pc_spi_message_id c).

Record pg_ok (s : PgStore) : Prop := mkPgOk {
  po_rows : forall id row, pg_transfers s !! id = Some row -> row_ok id row;
  po_unique : forall id id' row row', id <> id' -> pg_transfers s !! id = Some row ->
    pg_transfers s !! id' = Some row' -> clash (r_transfer row) (r_transfer row') = false;
  po_outbox : NoDup (map o_Sequence (pg_outbox s));
  po_callbacks : NoDup (map callback_id (pg_callbacks s))
}.

Lemma empty_tables_ok : pg_ok empty_tables.
Proof. split; try done; constructor. Qed.

Definition view (s : PgStore) (id : string) : option Transfer := pg_transfers s !! id ≫= row_view.

Record pg_le (s s' : PgStore) : Prop := mkPgLe {
  ple_rows : forall id t, view s id = Some t ->
    exists t', view s' id = Some t' /\ rtc pg_step t t';
  ple_outbox : map o_Event (pg_outbox s) `prefix_of` map o_Event (pg_outbox s');
  ple_audit : pg_audit s `prefix_of` pg_audit s';
  ple_callbacks : pg_callbacks s `prefix_of` pg_callbacks s'
}.

#[export] Instance pg_le_refl : Reflexive pg_le.
Proof. intros s. split; try reflexivity. intros id t Ht. by exists t. Qed.

#[export] Instance pg_le_trans : Transitive pg_le.
Proof.
  intros a b c [H1 ? ? ?] [H2 ? ? ?]. split; try (etrans; eassumption).
  intros id t Ht. destruct (H1 _ _ Ht) as (u & Hu & ?). destruct (H2 _ _ Hu) as (v & ? & ?).
  exists v. split; [done|]. by etrans.
Qed.

(** What a step keeps of the columns that identify a row. *)
Definition row_key (t : Transfer) := (t_ID t, t_TenantID t, t_IdempotencyKey t).

Lemma transfer_step_key t u : transfer_step t u -> row_key u = row_key t.
Proof.
  intros H%step_identity. unfold transfer_identity in H. unfold row_key.
  simplify_eq. congruence.
Qed.

Lemma pg_step_key t t' : pg_step t t' -> row_key t' = row_key t.
Proof. intros (u & Hu & ->). exact (transfer_step_key t u Hu). Qed.

Lemma rtc_pg_step_key t t' : rtc pg_step t t' -> row_key t' = row_key t.
Proof. induction 1 as [|t u t' H _ IH]; [done|]. rewrite IH. by apply pg_step_key. Qed.

(** ** Statements *)

Lemma statement_inv {A} o st (q : Sql A) s r :
  statement db o st q s = inl r -> db_refuses db o st = None /\ q s = inl r.
Proof. unfold statement. by destruct (db_refuses db o st). Qed.

Lemma translated_inv {A} (q : Sql A) s r : translated q s = Ok r -> q s = inl r.
Proof. unfold translated. destruct (q s); congruence. Qed.

Lemma bind_inv {A B} (m : Tx A) (k : A -> Tx B) s r :
  tx_bind m k s = Ok r -> exists a s1, m s = Ok (a, s1) /\ k a s1 = Ok r.
Proof. unfold tx_bind. destruct (m s) as [[a s1]|]; [eauto|done]. Qed.

Lemma lift_inv {A} (m : result A) s r : tx_lift m s = Ok r -> exists a, m = Ok a /\ r = (a, s).
Proof. unfold tx_lift. destruct m; intros [= <-]; eauto. Qed.

(** A transaction that succeeds committed; one that does not changed nothing. *)
Lemma in_tx_cases {A} o (body : Tx A) s :
  (exists a s', body s = Ok (a, s') /\ in_tx db o body s = (Ok a, s')) \/
  (exists e, in_tx db o body s = (Err e, s)).
Proof.
  unfold in_tx. destruct (db_refuses db o SBegin); [eauto|].
  destruct (body s) as [[a s']|]; [|eauto]. destruct (db_refuses db o SCommit); eauto 6.
Qed.

(** The tables after the row of [id] is written and evidence appended. *)
Definition committed (id : string) (row : Row) (records : list OutboxRecord)
    (audit : list AuditRow) (callbacks : list Callback) (s : PgStore) : PgStore :=
  mkPgStore (<[id := row]> (pg_transfers s)) (pg_outbox s ++ records) (pg_audit s ++ audit)
    (pg_callbacks s ++ callbacks).

Lemma update_inv o tn id set row s x s' :
  update_transfer db o tn id set s = inl (x, s') -> row_of tn id s = Some row ->
  exists t, set (r_transfer row) = inl t /\ check_violation t = None /\
    index_violation t (pg_transfers s) = None /\
    s' = committed id (mkRow t (r_fraud_rules row)) [] [] [] s.
Proof.
  intros [_ H]%statement_inv Hrow. rewrite Hrow in H.
  destruct (set _) as [t|]; [|done]. exists t.
  destruct (check_violation t); [done|]. destruct (index_violation t _); [done|].
  injection H as _ <-. unfold committed. by rewrite !app_nil_r.
Qed.

Lemma insert_outbox_inv o n e s x s' : insertOutbox db o n e s = Ok (x, s') ->
  exists r, s' = s <| pg_outbox := pg_outbox s ++ [r] |> /\ o_Event r = pg_read_event e /\
    Forall (fun r' => o_Sequence r' <> o_Sequence r) (pg_outbox s).
Proof.
  intros [_ H]%translated_inv%statement_inv. unfold to_jsonb in H. unfold pg_read_event.
  destruct (db_jsonb db _) as [text|]; [|done]. cbn [default] in *.
  destruct (existsb _ _) eqn:Eseq in H; [done|]. destruct (existsb _ _) in H; [done|].
  destruct (pg_transfers s !! _); [|done]. injection H as _ <-. eexists. split; [reflexivity|].
  split; [done|]. apply Forall_forall. intros r' Hr E. cbn in E.
  rewrite <- not_true_iff_false in Eseq. apply Eseq, existsb_exists. exists r'.
  split; [by apply list_elem_of_In|by apply Z.eqb_eq].
Qed.

Lemma iter_outbox_inv o evs n s x s' : tx_iter (insertOutbox db o) n evs s = Ok (x, s') ->
  exists records, s' = s <| pg_outbox := pg_outbox s ++ records |> /\
    map o_Event records = map pg_read_event evs /\
    (NoDup (map o_Sequence (pg_outbox s)) -> NoDup (map o_Sequence (pg_outbox s'))).
Proof.
  revert n s. induction evs as [|e evs IH]; intros n s H; cbn [tx_iter] in H.
  - injection H as _ <-. exists []. rewrite app_nil_r. by destruct s.
  - apply bind_inv in H as (y & s1 & H1 & H2). apply insert_outbox_inv in H1 as (r & -> & Er & Hf).
    apply IH in H2 as (rs & -> & Ers & Hnd). exists (r :: rs). split_and!.
    + cbn. by rewrite <- app_assoc.
    + cbn. by rewrite Er, Ers.
    + intros Hs. apply Hnd. cbn. rewrite map_app, NoDup_app. split_and!; [done| |apply NoDup_singleton].
      intros z Hz ->%list_elem_of_singleton. apply list_elem_of_fmap in Hz as (r' & E & Hr').
      rewrite Forall_forall in Hf. by destruct (Hf r' Hr').
Qed.

Lemma insert_audit_inv o n a s x s' : insertAudit db o n a s = Ok (x, s') ->
  exists row, s' = s <| pg_audit := pg_audit s ++ [row] |> /\ audit_view row = pg_read_audit a.
Proof.
  intros [_ H]%translated_inv%statement_inv. unfold to_jsonb in H. unfold pg_read_audit.
  destruct (db_jsonb db _) as [text|]; [|done].
  destruct (pg_transfers s !! _); [|done]. injection H as _ <-. eexists. split; reflexivity.
Qed.

Lemma iter_audit_inv o aud n s x s' : tx_iter (insertAudit db o) n aud s = Ok (x, s') ->
  exists rows, s' = s <| pg_audit := pg_audit s ++ rows |> /\
    map audit_view rows = map pg_read_audit aud.
Proof.
  revert n s. induction aud as [|a aud IH]; intros n s H; cbn [tx_iter] in H.
  - injection H as _ <-. exists []. rewrite app_nil_r. by destruct s.
  - apply bind_inv in H as (y & s1 & H1 & H2). apply insert_audit_inv in H1 as (r & -> & Er).
    apply IH in H2 as (rs & -> & Ers). exists (r :: rs). cbn. by rewrite <- app_assoc, Er, Ers.
Qed.
End Props.
