(* ===== verification/PostgresLaws.v ===== *)
(** * The PostgreSQL store meets the store contract

    Instances of [Store], [StoreView] and [StoreLaws] for [PgStore]: the switch's
    theorems hold for it. *)

From S2P Require Import Prelude GoStrings Rail Events StoreSpec JsonDecode JsonText Postgres PostgresProps.

Section Laws.
Context (db : Database) `{!DatabaseLaws db} (json_error : string -> string).

Definition Postgres_Store : Store PgStore := {|
  Health := Postgres_Health db;
  FindByIdempotency := Postgres_FindByIdempotency db json_error;
  InsertTransfer := Postgres_InsertTransfer db;
  GetTransfer := Postgres_GetTransfer db json_error;
  ClaimSPISubmission := Postgres_ClaimSPISubmission db json_error;
  RecordSPISubmission := Postgres_RecordSPISubmission db json_error;
  ReleaseSPISubmission := Postgres_ReleaseSPISubmission db json_error;
  RecordReviewDecision := Postgres_RecordReviewDecision db json_error;
  UpdateSettlement := Postgres_UpdateSettlement db json_error;
  PendingSPISubmissions := Postgres_PendingSPISubmissions db json_error;
  Outbox := Postgres_Outbox db;
  Audit := Postgres_Audit db json_error
|}.

(** ** The view *)

Definition owned (s : PgStore) (tn id : string) : option Transfer := row_of tn id s ≫= row_view.

#[export] Instance Postgres_View : StoreView PgStore := {|
  st_inv := pg_ok db;
  st_evolves s s' := pg_le db s s' /\ (pg_ok db s -> pg_ok db s');
  st_owned := owned;
  st_keyed s tn k := key_row tn k s ≫= row_view;
  st_callback s tn m := pc_callback_hash <$> callback_of tn m s;
  st_outbox s := map o_Event (pg_outbox s);
  st_audit s := map audit_view (pg_audit s);
  st_read := pg_read db;
  st_read_event := pg_read_event db;
  st_read_audit := pg_read_audit db;
  st_avail o := forall st, db_refuses db o st = None;
  st_exhausted t := in_int4 (t_SPISubmissionAttempts t + 1) = false
|}.

Lemma row_of_Some tn id s row :
  row_of tn id s = Some row <-> pg_transfers s !! id = Some row /\ t_TenantID (r_transfer row) = tn.
Proof.
  unfold row_of. destruct (pg_transfers s !! id) as [r|]; [|naive_solver].
  destruct (_ ==s tn) eqn:E; b2p; naive_solver.
Qed.

Lemma owned_Some tn id s t :
  owned s tn id = Some t <-> view s id = Some t /\ t_TenantID t = tn.
Proof.
  unfold owned, view. split.
  - destruct (row_of tn id s) as [row|] eqn:E; [|done]. apply row_of_Some in E as [-> <-].
    cbn. intros Hv. split; [done|]. by apply row_view_fields in Hv as (_ & <- & _).
  - destruct (pg_transfers s !! id) as [row|] eqn:E; [|by intros [? ?]]. cbn. intros [Hv <-].
    assert (Hr : row_of (t_TenantID t) id s = Some row).
    { apply row_of_Some. split; [done|]. by apply row_view_fields in Hv as (_ & <- & _). }
    by rewrite Hr.
Qed.
(** The unique index leaves one row per tenant and key. *)
Lemma key_row_Some s tn k row : pg_ok db s ->
  key_row tn k s = Some row <->
  exists id, pg_transfers s !! id = Some row /\ t_TenantID (r_transfer row) = tn /\
    t_IdempotencyKey (r_transfer row) = k.
Proof.
  intros Hs. unfold key_row. set (f := fun kv => _).
  assert (Hf : forall kv, f kv = true <->
    t_TenantID (r_transfer (snd kv)) = tn /\ t_IdempotencyKey (r_transfer (snd kv)) = k).
  { intros kv. unfold f. by rewrite andb_true_iff, !String.eqb_eq. }
  destruct (List.find f _) as [[id row']|] eqn:E; cbn; split.
  - intros [= ->]. apply find_some in E as [Hin Ht]. apply Hf in Ht.
    apply list_elem_of_In, elem_of_map_to_list in Hin. exists id. naive_solver.
  - intros (id' & Hrow & Htn & Hk). apply find_some in E as [Hin Ht]. apply Hf in Ht as [? ?].
    apply list_elem_of_In, elem_of_map_to_list in Hin. cbn in *.
    destruct (decide (id = id')) as [->|Hne]; [congruence|].
    pose proof (clash_key _ _ (po_unique db s Hs _ _ _ _ Hne Hin Hrow)) as Hc.
    unfold same_key in Hc. apply andb_false_iff in Hc as [Hc|Hc]; b2p; congruence.
  - done.
  - intros (id & Hrow & Htn & Hk). exfalso.
    apply elem_of_map_to_list, list_elem_of_In in Hrow.
    pose proof (find_none _ _ E _ Hrow) as Hn. apply not_true_iff_false in Hn.
    by apply Hn, Hf.
Qed.

Lemma keyed_Some s tn k t : pg_ok db s ->
  key_row tn k s ≫= row_view = Some t <->
  view s (t_ID t) = Some t /\ t_TenantID t = tn /\ t_IdempotencyKey t = k.
Proof.
  intros Hs. split.
  - destruct (key_row tn k s) as [row|] eqn:E; [|done]. cbn. intros Hv.
    apply key_row_Some in E as (id & Hrow & <- & <-); [|done].
    destruct (po_rows db s Hs _ _ Hrow) as (t' & Hv' & Hid & _).
    rewrite Hv in Hv'. injection Hv' as <-. unfold view. rewrite Hid, Hrow.
    by apply row_view_fields in Hv as Hf; destruct Hf as (_ & -> & -> & _).
  - intros (Hv & <- & <-). unfold view in Hv.
    destruct (pg_transfers s !! t_ID t) as [row|] eqn:Erow; [|done]. cbn in Hv.
    apply row_view_fields in Hv as Hf. destruct Hf as (_ & Htn & Hk & _).
    assert (E : key_row (t_TenantID t) (t_IdempotencyKey t) s = Some row)
      by (apply key_row_Some; eauto).
    by rewrite E.
Qed.

Lemma view_row s id t : pg_ok db s -> view s id = Some t -> t_ID t = id /\ transfer_ok t /\
  pg_read db t = t.
Proof.
  intros Hs. unfold view. destruct (pg_transfers s !! id) as [row|] eqn:E; [|done]. cbn. intros Hv.
  destruct (po_rows db s Hs _ _ E) as (t' & Hv' & Hr). rewrite Hv in Hv'. injection Hv' as <-.
  naive_solver.
Qed.

(** ** Writing one transfer with its evidence *)

Lemma committed_le id row t u row' records audit callbacks s :
  pg_transfers s !! id = Some row -> row_view row = Some t -> transfer_step t u ->
  row_view row' = Some (pg_read db u) ->
  pg_le db s (committed id row' records audit callbacks s).
Proof.
  intros Hrow Hv Hst Hv'. split; cbn.
  - intros id' t' Ht'. unfold view in *. cbn. destruct (decide (id = id')) as [<-|Hne].
    + rewrite lookup_insert_eq. exists (pg_read db u). split; [done|].
      rewrite Hrow in Ht'. cbn in Ht'. assert (t' = t) as -> by congruence.
      apply rtc_once. by exists u.
    + rewrite lookup_insert_ne by done. by exists t'.
  - rewrite map_app. by eexists.
  - by eexists.
  - by eexists.
Qed.

Lemma committed_ok id row t u row' records audit callbacks s : pg_ok db s ->
  pg_transfers s !! id = Some row -> row_view row = Some t -> transfer_step t u ->
  row_view row' = Some (pg_read db u) -> in_int4 (t_SPISubmissionAttempts u) = true ->
  check_violation (r_transfer row') = None ->
  index_violation (r_transfer row') (pg_transfers s) = None ->
  NoDup (map o_Sequence (pg_outbox s ++ records)) ->
  NoDup (map callback_id (pg_callbacks s ++ callbacks)) ->
  pg_ok db (committed id row' records audit callbacks s).
Proof.
  intros Hs Hrow Hv Hst Hv' Hatt Hck Hix Ho Hc.
  destruct (po_rows db s Hs _ _ Hrow) as (t0 & Hv0 & Hid & Hok & _). rewrite Hv in Hv0.
  injection Hv0 as <-.
  assert (Hid' : t_ID (r_transfer row') = id).
  { apply row_view_fields in Hv' as (-> & _). cbn. pose proof (transfer_step_key _ _ Hst) as Hk.
    unfold row_key in Hk. congruence. }
  assert (Hnc : forall id2 row2, id2 <> id -> pg_transfers s !! id2 = Some row2 ->
    clash (r_transfer row') (r_transfer row2) = false).
  { intros id2 row2 Hne. apply index_violation_None with (1 := Hix). by rewrite Hid'. }
  split; cbn; [| |done|done].
  - intros id2 row2. destruct (decide (id = id2)) as [<-|Hne].
    + rewrite lookup_insert_eq. intros [= <-]. exists (pg_read db u). split_and!; [done|..].
      * apply row_view_fields in Hv' as (E & _). etrans; [symmetry; exact E|done].
      * eapply content_ok; [by apply pg_read_content|]. by eapply step_ok.
      * by apply pg_read_idem.
      * done.
      * rewrite <- Hck. by apply row_view_check.
    + rewrite lookup_insert_ne by done. apply (po_rows db s Hs).
  - intros id1 id2 row1 row2 Hne. rewrite !lookup_insert_Some.
    intros [[<- <-]|[H1 H1']] [[<- <-]|[H2 H2']]; [done|..].
    + by eapply Hnc.
    + rewrite clash_sym. by eapply Hnc.
    + by apply (po_unique db s Hs id1 id2).
Qed.
(** What the evidence written with a transfer adds to the tables. *)
Definition added (s : PgStore) (evs : list Event) (aud : list AuditRecord)
    (records : list OutboxRecord) (audit : list AuditRow) : Prop :=
  map o_Event records = map (pg_read_event db) evs /\
  map audit_view audit = map (pg_read_audit db) aud /\
  NoDup (map o_Sequence (pg_outbox s ++ records)).

Lemma added_nil s : pg_ok db s -> added s [] [] [] [].
Proof. intros Hs. split_and!; [done..|]. rewrite app_nil_r. apply (po_outbox db s Hs). Qed.

Lemma committed_others tn id row' records audit callbacks s :
  t_TenantID (r_transfer row') = tn ->
  (forall row, pg_transfers s !! id = Some row -> t_TenantID (r_transfer row) = tn) ->
  others_kept s tn id (committed id row' records audit callbacks s).
Proof.
  intros Htn Hrow tn' id' Hne. cbn. unfold owned, row_of. cbn.
  destruct (decide (id = id')) as [<-|]; [|by rewrite lookup_insert_ne].
  rewrite lookup_insert_eq, Htn. destruct (tn ==s tn') eqn:Et; [b2p; congruence|].
  destruct (pg_transfers s !! id) as [row|]; [|done]. by rewrite (Hrow row eq_refl), Et.
Qed.

Lemma committed_writes tn id row t u row' records audit callbacks evs aud s :
  pg_ok db s -> row_of tn id s = Some row -> row_view row = Some t -> transfer_step t u ->
  row_view row' = Some (pg_read db u) -> in_int4 (t_SPISubmissionAttempts u) = true ->
  check_violation (r_transfer row') = None ->
  index_violation (r_transfer row') (pg_transfers s) = None ->
  added s evs aud records audit -> NoDup (map callback_id (pg_callbacks s ++ callbacks)) ->
  writes s tn id u evs aud (committed id row' records audit callbacks s).
Proof.
  intros Hs [Hrow Htn]%row_of_Some Hv Hst Hv' Hatt Hck Hix (Hev & Hau & Hseq) Hcb.
  assert (Hok : pg_ok db (committed id row' records audit callbacks s))
    by (eapply committed_ok; eauto).
  split_and!; [done|split; [by eapply committed_le|done]|..].
  - apply owned_Some. unfold view. cbn. rewrite lookup_insert_eq. cbn. split; [done|].
    apply row_view_fields in Hv as (_ & E & _). pose proof (transfer_step_key _ _ Hst) as Hk.
    unfold row_key in Hk. cbn. congruence.
  - cbn. by rewrite map_app, Hev.
  - cbn. by rewrite map_app, Hau.
  - apply committed_others; [|congruence].
    apply row_view_fields in Hv as (_ & E & _), Hv' as (_ & E' & _).
    pose proof (transfer_step_key _ _ Hst) as Hk. unfold row_key in Hk. cbn in E'. congruence.
Qed.

(** ** The selected transfer *)

Lemma select_inv o tn id s t s1 : select_transfer db json_error o tn id s = Ok (t, s1) ->
  s1 = s /\ owned s tn id = Some t /\
  exists row, row_of tn id s = Some row /\ row_view row = Some t.
Proof.
  intros (ot & s2 & H1 & H2)%bind_inv. apply bind_inv in H1 as (orow & s3 & H1 & H3).
  unfold raw in H1. destruct (statement _ _ _ _ _) as [p|] eqn:E; [|done]. injection H1 as ->.
  apply statement_inv in E as [_ E]. injection E as <- <-. unfold owned.
  destruct (row_of tn id s) as [row|].
  - apply bind_inv in H3 as (t' & s4 & H3 & H4). apply lift_inv in H3 as (t'' & H3 & E).
    injection E as -> ->. rewrite scanTransfer_view in H3.
    destruct (row_view row) as [u|] eqn:Ev; [|done]. injection H3 as ->.
    injection H4 as <- <-. injection H2 as <- <-. eauto 6.
  - injection H3 as <- <-. done.
Qed.
(** ** Updates *)

(** The columns an update sets are those the operation changed, as they read back. *)
Lemma updated_view row t t' u : row_view row = Some t ->
  t' <| t_FraudRules := t_FraudRules t |> = pg_read db u ->
  row_view (mkRow t' (r_fraud_rules row)) = Some (pg_read db u).
Proof.
  unfold row_view. cbn [r_fraud_rules r_transfer].
  destruct (scan_rules _) as [l|]; [|done]. cbn [mbind option_bind]. intros [= <-] <-. done.
Qed.

(** An update of the row, its evidence, and what the method does next. *)
Lemma update_meets {A} o tn id t u s row set evs aud (k : Tx A) r : pg_ok db s ->
  row_of tn id s = Some row -> row_view row = Some t -> transfer_step t u ->
  t_SPISubmissionAttempts u = t_SPISubmissionAttempts t ->
  (forall t', set (r_transfer row) = inl t' -> t' <| t_FraudRules := t_FraudRules t |> = pg_read db u) ->
  (_ <~ translated (update_transfer db o tn id set);;
   _ <~ tx_iter (insertOutbox db o) 0 evs;;
   _ <~ insertAudit db o 0 aud;; k) s = Ok r ->
  exists row' records audit, k (committed id row' records audit [] s) = Ok r /\
    forall callbacks, NoDup (map callback_id (pg_callbacks s ++ callbacks)) ->
      writes s tn id u evs [aud] (committed id row' records audit callbacks s).
Proof.
  intros Hs Hrow Hv Hst Hatt Hset (x & s1 & Hup & (y & s2 & Ho & (z & s3 & Ha & Hk)%bind_inv)%bind_inv)%bind_inv.
  apply translated_inv in Hup.
  destruct (update_inv _ _ _ _ _ _ _ _ _ Hup Hrow) as (t' & Et & Hck & Hix & ->).
  apply iter_outbox_inv in Ho as (records & -> & Hev & Hnd).
  apply insert_audit_inv in Ha as (a & -> & Ea).
  unfold committed in *. cbn [pg_outbox pg_audit pg_callbacks pg_transfers] in *.
  eexists _, records, [a]. split.
  - rewrite <- Hk. f_equal. cbn. by rewrite !app_nil_r.
  - intros callbacks Hcb. assert (Hatt' : in_int4 (t_SPISubmissionAttempts u) = true).
    { rewrite Hatt. apply row_of_Some in Hrow as [Hrow _].
      destruct (po_rows db s Hs _ _ Hrow) as (t0 & Hv0 & _ & _ & _ & ? & _).
      rewrite Hv in Hv0. by injection Hv0 as <-. }
    eapply committed_writes; try done.
    + by apply updated_view with (1 := Hv), Hset.
    + split_and!; [done|exact (f_equal (fun x => [x]) Ea)|].
      cbn in Hnd. rewrite !app_nil_r in Hnd. apply Hnd, (po_outbox db s Hs).
Qed.

(** The new columns against the stored transfer, which reads back as it is. *)
Lemma stored_fix row t s id : pg_ok db s -> pg_transfers s !! id = Some row ->
  row_view row = Some t -> pg_read db t = t.
Proof.
  intros Hs Hrow Hv. destruct (po_rows db s Hs _ _ Hrow) as (t' & Hv' & _ & _ & Hfix & _).
  rewrite Hv in Hv'. by injection Hv' as <-.
Qed.

Lemma transfer_eq t u :
  (t_ID t, t_TenantID t, t_AccountID t, t_IdempotencyKey t, t_RequestHash t,
   (t_CorrelationID t, t_EndToEndID t, t_AmountCents t, t_Currency t, t_ReceiverKey t,
    t_ReceiverKeyType t, t_ReceiverName t, t_ReceiverBank t, t_ReceiverRisk t),
   (t_FraudScore t, t_FraudRules t, t_Status t, t_DecisionReason t, t_SPIMessageID t,
    t_SPIClaimToken t, t_SPIClaimedUntil t, t_SPISubmissionAttempts t),
   (t_SPILastError t, t_SettlementCode t, t_CreatedAt t, t_UpdatedAt t)) =
  (t_ID u, t_TenantID u, t_AccountID u, t_IdempotencyKey u, t_RequestHash u,
   (t_CorrelationID u, t_EndToEndID u, t_AmountCents u, t_Currency u, t_ReceiverKey u,
    t_ReceiverKeyType u, t_ReceiverName u, t_ReceiverBank u, t_ReceiverRisk u),
   (t_FraudScore u, t_FraudRules u, t_Status u, t_DecisionReason u, t_SPIMessageID u,
    t_SPIClaimToken u, t_SPIClaimedUntil u, t_SPISubmissionAttempts u),
   (t_SPILastError u, t_SettlementCode u, t_CreatedAt u, t_UpdatedAt u)) -> t = u.
Proof. destruct t, u. cbn. intros E. by simplify_eq. Qed.

(** What reads back as it is has its times and rules as the columns keep them. *)
Lemma fix_fields t : pg_read db t = t ->
  map (to_valid 0) (t_FraudRules t) = t_FraudRules t /\
  db_timestamptz db <$> t_SPIClaimedUntil t = t_SPIClaimedUntil t /\
  db_timestamptz db (t_CreatedAt t) = t_CreatedAt t /\
  db_timestamptz db (t_UpdatedAt t) = t_UpdatedAt t.
Proof. intros E. split_and!; [set (f := t_FraudRules)|set (f := t_SPIClaimedUntil)|set (f := t_CreatedAt)|set (f := t_UpdatedAt)]; exact (f_equal f E). Qed.

Lemma row_view_rules row t :
  row_view row = Some t -> exists rules, t = (r_transfer row) <| t_FraudRules := rules |>.
Proof. unfold row_view. destruct (scan_rules _) as [l|]; [|done]. intros [= <-]. by exists l. Qed.

(** The row of [t] with new columns is the operation's outcome as it reads back. *)
Ltac columns Hv Hfix :=
  let Hr := fresh in let Hu := fresh in let Hc := fresh in let Ht := fresh in
  apply fix_fields in Hfix as (Hr & Hu & Hc & Ht);
  apply row_view_rules in Hv as [? ->];
  match type of Hr with context [r_transfer ?row] => destruct (r_transfer row) end;
  cbn in Hr, Hu, Hc, Ht; apply transfer_eq; cbn; congruence.

(** The transaction committed after its body, [Hb], or changed nothing. *)
Ltac tx_split Hb :=
  match goal with |- context [in_tx db ?o ?b ?s] =>
    destruct (in_tx_cases db o b s) as [(a & s' & Hb & ->)|(e & ->)]
  end.

Lemma row_fix tn id s row t : pg_ok db s -> row_of tn id s = Some row -> row_view row = Some t ->
  pg_read db t = t.
Proof. intros Hs [Hrow _]%row_of_Some Hv. by eapply stored_fix. Qed.

Lemma pg_record_law o tn id tok msg evs aud s : pg_ok db s ->
  let r := Postgres_RecordSPISubmission db json_error o tn id tok msg evs aud s in
  meets s tn id (record_spec tok msg) (fun x => x) evs [aud] r \/ fails s r.
Proof.
  intros Hs r. subst r. unfold Postgres_RecordSPISubmission.
  tx_split Hb; [left|right; by eexists].
  apply bind_inv in Hb as (t & s1 & Hsel & Hb).
  apply select_inv in Hsel as (-> & Hown & row & Hrow & Hv).
  unfold meets. cbn [st_owned Postgres_View]. rewrite Hown. unfold record_spec.
  destruct (_ && _)%bool; [by injection Hb as <- <-|].
  apply bind_inv in Hb as (u & s2 & (u' & Hu & [= <- ->])%lift_inv & Hb). rewrite Hu. cbn [fresh].
  pose proof (row_fix _ _ _ _ _ Hs Hrow Hv) as Hfix.
  apply (update_meets o tn id t u s row) in Hb; try done; [|by eapply ts_record| |].
  - destruct Hb as (row' & records & audit & [= <- <-] & Hw). eexists. split; [done|].
    apply Hw. rewrite app_nil_r. apply (po_callbacks db s Hs).
  - by apply record_inv in Hu as (_ & _ & _ & _ & _ & ->).
  - intros t' [= <-]. apply record_inv in Hu as (_ & _ & _ & _ & _ & ->). columns Hv Hfix.
Qed.
Lemma pg_review_law o tn id status reason evs aud s : pg_ok db s ->
  let r := Postgres_RecordReviewDecision db json_error o tn id status reason evs aud s in
  meets s tn id (review_spec status reason (a_CreatedAt aud)) fst evs [aud] r \/ fails s r.
Proof.
  intros Hs r. subst r. unfold Postgres_RecordReviewDecision.
  tx_split Hb; [left|right; by eexists].
  apply bind_inv in Hb as (t & s1 & Hsel & Hb).
  apply select_inv in Hsel as (-> & Hown & row & Hrow & Hv).
  unfold meets. cbn [st_owned Postgres_View]. rewrite Hown. unfold review_spec.
  apply bind_inv in Hb as (u & s2 & (u' & Hu & [= <- ->])%lift_inv & Hb). rewrite Hu. cbn [fresh].
  pose proof (row_fix _ _ _ _ _ Hs Hrow Hv) as Hfix.
  apply (update_meets o tn id t u s row) in Hb; try done; [|by eapply ts_review| |].
  - destruct Hb as (row' & records & audit & [= <- <-] & Hw). eexists. split; [done|].
    apply Hw. rewrite app_nil_r. apply (po_callbacks db s Hs).
  - by apply review_inv in Hu as (_ & _ & ->).
  - intros t' [= <-]. apply review_inv in Hu as (_ & _ & ->). columns Hv Hfix.
Qed.

(** ** Settlement *)

Lemma callback_of_None tn m s : callback_of tn m s = None ->
  Forall (fun c => callback_id c <> (tn, m)) (pg_callbacks s).
Proof.
  intros E. apply Forall_forall. intros c Hc [= Htn Hm].
  apply list_elem_of_In in Hc. pose proof (find_none _ _ E _ Hc) as Hn. cbn in Hn.
  rewrite Htn, Hm, !String.eqb_refl in Hn. done.
Qed.

Lemma find_app {A} (f : A -> bool) l l' : List.find f (l ++ l') =
  match List.find f l with Some x => Some x | None => List.find f l' end.
Proof. induction l as [|x l IH]; cbn; [done|]. by destruct (f x). Qed.

Lemma pg_settle_law o tn id cb evs aud s : pg_ok db s -> cb_CallbackHash cb <> "" ->
  let r := Postgres_UpdateSettlement db json_error o tn id cb evs aud s in
  let known s := pc_callback_hash <$> callback_of tn (cb_SPIMessageID cb) s in
  (meets s tn id (settle_spec cb (known s)) (fun x => x) evs [aud] r /\
   forall t s', r = (Ok (t, false), s') -> known s' = Some (cb_CallbackHash cb)) \/ fails s r.
Proof.
  intros Hs Hne r known. subst r. unfold Postgres_UpdateSettlement.
  assert (Eh : pg_callback_hash cb = cb_CallbackHash cb).
  { unfold pg_callback_hash. apply String.eqb_neq in Hne. by rewrite Hne. }
  tx_split Hb; [left|right; by eexists].
  apply bind_inv in Hb as (t & s1 & Hsel & Hb).
  apply select_inv in Hsel as (-> & Hown & row & Hrow & Hv).
  unfold meets. cbn [st_owned Postgres_View]. rewrite Hown. unfold settle_spec. cbv zeta in Hb.
  rewrite Eh in Hb. apply bind_inv in Hb as (h & s1 & Hh & Hb).
  unfold raw in Hh. destruct (select_callback _ _ _ _ _) as [p|] eqn:E; [|done].
  apply statement_inv in E as [_ [= <-]]. injection Hh as <- <-. fold (known s) in Hb |- *.
  destruct (known s) as [h|] eqn:Ek.
  { destruct (h ==s _); [|done]. injection Hb as <- <-. split; [done|]. by intros t' s' [=]. }
  apply bind_inv in Hb as (u & s2 & (u' & Hu & [= <- ->])%lift_inv & Hb). rewrite Hu. cbn [fresh].
  pose proof (row_fix _ _ _ _ _ Hs Hrow Hv) as Hfix.
  apply (update_meets o tn id t u s row) in Hb; try done; [|by eapply ts_settle| |].
  - destruct Hb as (row' & records & audit & Hb & Hw).
    assert (Hnone : callback_of tn (cb_SPIMessageID cb) s = None)
      by (unfold known in Ek; by destruct (callback_of tn (cb_SPIMessageID cb) s)).
    apply bind_inv in Hb as (y & s2 & [_ Hc]%translated_inv%statement_inv & [= <- <-]).
    destruct (existsb _ _) in Hc; [done|]. injection Hc as _ <-. split.
    + eexists. split; [done|]. unfold committed. cbn. rewrite <- app_assoc. apply Hw.
      rewrite map_app, NoDup_app. split_and!; [apply (po_callbacks db s Hs)| |apply NoDup_singleton].
      intros k Hk ->%list_elem_of_singleton. apply list_elem_of_fmap in Hk as (c & E & Hin).
      pose proof (callback_of_None _ _ _ Hnone) as Hf. rewrite Forall_forall in Hf.
      by apply (Hf c Hin).
    + intros t' s' [= _ <-]. unfold known, callback_of. cbn. rewrite app_nil_r, find_app.
      fold (callback_of tn (cb_SPIMessageID cb) s). rewrite Hnone. cbn.
      by rewrite !String.eqb_refl.
  - by apply settle_inv in Hu as (_ & _ & _ & st & _ & ->).
  - intros t' [= <-]. apply settle_inv in Hu as (_ & _ & _ & st & _ & ->). columns Hv Hfix.
Qed.
(** ** When the server answers *)

Definition answers (o : Obs) : Prop := forall st, db_refuses db o st = None.

Lemma in_tx_answers {A} o (body : Tx A) s :
  db_refuses db o SBegin = None -> db_refuses db o SCommit = None ->
  in_tx db o body s = match body s with Ok (a, s') => (Ok a, s') | Err e => (Err e, s) end.
Proof. unfold in_tx. intros -> ->. by destruct (body s) as [[]|]. Qed.

Lemma query_run o find s : (forall row, find s = Some row -> is_Some (row_view row)) ->
  db_refuses db o SSelectTransfer = None ->
  query_transfer db json_error o find s = Ok (find s ≫= row_view, s).
Proof.
  intros Hv Ho. unfold query_transfer, tx_bind, raw, statement. rewrite Ho.
  destruct (find s) as [row|]; [|done]. destruct (Hv row eq_refl) as [t Ht].
  cbn [mbind option_bind]. unfold tx_lift. by rewrite scanTransfer_view, Ht.
Qed.

Lemma select_run o tn id s : pg_ok db s -> db_refuses db o SSelectTransfer = None ->
  select_transfer db json_error o tn id s =
  match owned s tn id with Some t => Ok (t, s) | None => Err (sentinel ErrNotFound) end.
Proof.
  intros Hs Ho. unfold select_transfer, tx_bind. rewrite query_run; [|..|done].
  - unfold owned. by destruct (row_of tn id s ≫= row_view).
  - intros row [Hrow _]%row_of_Some. by destruct (po_rows db s Hs _ _ Hrow) as (t & Hv & _).
Qed.

(** The columns of an update that neither a check nor an index sees. *)
Definition constrained (t : Transfer) :=
  (t_ID t, t_TenantID t, t_IdempotencyKey t, t_EndToEndID t, t_SPIMessageID t,
   (t_AmountCents t, t_Currency t, t_Status t)).

Lemma update_run o tn id set s row t' : pg_ok db s -> db_refuses db o SUpdateTransfer = None ->
  row_of tn id s = Some row -> set (r_transfer row) = inl t' ->
  constrained t' = constrained (r_transfer row) ->
  update_transfer db o tn id set s = inl (tt, committed id (mkRow t' (r_fraud_rules row)) [] [] [] s).
Proof.
  intros Hs Ho Hrow Hset Hc.
  injection Hc as E1 E2 E3 E4 E5 E6 E7 E8. unfold update_transfer, statement.
  rewrite Ho, Hrow, Hset. apply row_of_Some in Hrow as [Hrow _].
  destruct (po_rows db s Hs _ _ Hrow) as (t & Hv & Hid & _ & _ & _ & Hck).
  assert (Hck' : check_violation t' = None).
  { rewrite (row_view_check _ _ Hv) in Hck. unfold check_violation. by rewrite E6, E7, E8. }
  assert (Hix : index_violation t' (pg_transfers s) = None).
  { apply index_violation_None. intros id' row' Hne Hrow'.
    apply row_view_fields in Hv as (Ev & _).
    assert (Hcl : clash (r_transfer row) (r_transfer row') = false)
      by (apply (po_unique db s Hs id id'); [congruence|done..]).
    rewrite clash_eq in *. unfold same_key in *. by rewrite E2, E3, E4, E5. }
  rewrite Hck', Hix. unfold committed. by rewrite !app_nil_r.
Qed.
(** A refused [begin], [commit] or [select .. for update] fails the transaction. *)
Lemma in_tx_refused {A} o (body : Tx A) s st : db_refuses db o st <> None ->
  (st = SBegin \/ st = SCommit \/ exists e, body s = Err e) -> fails s (in_tx db o body s).
Proof.
  intros Hr Hst. unfold fails, in_tx. destruct (db_refuses db o SBegin) eqn:?; [eauto|].
  destruct (body s) as [[a s']|] eqn:?; [|eauto].
  destruct (db_refuses db o SCommit) eqn:?; [eauto|]. destruct Hst as [->|[->|[? ?]]]; congruence.
Qed.

Lemma select_refused o tn id s : db_refuses db o SSelectTransfer <> None ->
  exists e, select_transfer db json_error o tn id s = Err e.
Proof.
  intros Hr. unfold select_transfer, query_transfer, tx_bind, raw, statement.
  destruct (db_refuses db o SSelectTransfer); [eauto|done].
Qed.

Lemma bind_err {A B} (m : Tx A) (k : A -> Tx B) s e : m s = Err e -> tx_bind m k s = Err e.
Proof. unfold tx_bind. by intros ->. Qed.

Lemma in_tx_ext {A} o (body body' : Tx A) s : body s = body' s -> in_tx db o body s = in_tx db o body' s.
Proof. unfold in_tx. by intros ->. Qed.

(** The two lease operations: an update without evidence. *)
Definition lease_tx {A} o tn id (op : Transfer -> result Transfer)
    (set : Transfer -> Transfer -> Transfer + db_error) (out : Transfer * bool -> A) : Tx A :=
  t <~ select_transfer db json_error o tn id;;
  if already_submitted t then tx_ret (out (t, true))
  else u <~ tx_lift (op t);; _ <~ translated (update_transfer db o tn id (set u));;
    tx_ret (out (u, false)).

Lemma lease_body {A} o tn id op set (out : Transfer * bool -> A) s :
  pg_ok db s -> db_refuses db o SSelectTransfer = None ->
  lease_tx o tn id op set out s =
  match owned s tn id with
  | None => Err (sentinel ErrNotFound)
  | Some t =>
      if already_submitted t then Ok (out (t, true), s)
      else match op t with
      | Err e => Err e
      | Ok u =>
          match update_transfer db o tn id (set u) s with
          | inl (_, s') => Ok (out (u, false), s')
          | inr e => Err (translatePgError e)
          end
      end
  end.
Proof.
  intros Hs Es. unfold lease_tx, tx_bind at 1. rewrite (select_run o tn id s Hs Es).
  destruct (owned s tn id) as [t|]; [|done]. destruct (already_submitted t); [done|].
  unfold tx_bind, tx_lift, translated. destruct (op t); [|done].
  by destruct (update_transfer _ _ _ _ _ s) as [[]|].
Qed.

Lemma lease_law {A} o tn id (exhausted : Transfer -> Prop) (op : Transfer -> result Transfer)
    set (out : Transfer * bool -> A) s : pg_ok db s ->
  (forall row t u, row_view row = Some t -> pg_read db t = t -> already_submitted t = false ->
    op t = Ok u -> transfer_step t u /\
    ((exists e, set u (r_transfer row) = inr e /\ exhausted t) \/
     (exists t', set u (r_transfer row) = inl t' /\ constrained t' = constrained (r_transfer row) /\
      t' <| t_FraudRules := t_FraudRules t |> = pg_read db u /\
      (in_int4 (t_SPISubmissionAttempts t) = true -> in_int4 (t_SPISubmissionAttempts u) = true)))) ->
  let r := in_tx db o (lease_tx o tn id op set out) s in
  meets s tn id (fun t => if already_submitted t then Ok (t, true) else fresh (op t)) out [] [] r \/
  (fails s r /\ (~ answers o \/ exists t, owned s tn id = Some t /\ exhausted t)).
Proof.
  intros Hs Hop r. subst r. set (body := lease_tx _ _ _ _ _ _).
  destruct (db_refuses db o SBegin) as [e|] eqn:Eb.
  { right. split; [apply in_tx_refused with SBegin; [congruence|auto]|left; intros H; congruence]. }
  destruct (db_refuses db o SCommit) as [e|] eqn:Ec.
  { right. split; [apply in_tx_refused with SCommit; [congruence|auto]|left; intros H; congruence]. }
  destruct (db_refuses db o SSelectTransfer) as [e|] eqn:Es.
  { right. split; [|left; intros H; congruence]. eapply in_tx_refused; [by rewrite Es|].
    destruct (select_refused o tn id s) as [e' He']; [by rewrite Es|]. right; right. exists e'.
    by apply bind_err. }
  rewrite (in_tx_answers o body s Eb Ec). unfold body. rewrite (lease_body _ _ _ _ _ _ _ Hs Es).
  unfold meets. cbn [st_owned Postgres_View].
  destruct (owned s tn id) as [t|] eqn:Hown; [|by left].
  destruct (already_submitted t) eqn:Esub; [by left|]. destruct (op t) as [u|e] eqn:Eu; [|by left].
  cbn [fresh]. destruct (db_refuses db o SUpdateTransfer) as [e|] eqn:Eup.
  { right. split; [|left; intros H; congruence]. unfold update_transfer, statement.
    rewrite Eup. by eexists _. }
  unfold owned in Hown. destruct (row_of tn id s) as [row|] eqn:Hrow; [|done]. cbn in Hown.
  pose proof (row_fix _ _ _ _ _ Hs Hrow Hown) as Hfix.
  destruct (Hop row t u Hown Hfix Esub Eu) as [Hst [(e & Hset & Hex)|(t' & Hset & Hc & Hcol & Hatt)]].
  - right. split; [|right; eauto]. unfold update_transfer, statement. rewrite Eup, Hrow, Hset.
    by eexists.
  - left. pose proof (update_run o tn id _ s row t' Hs Eup Hrow Hset Hc) as Hrun. rewrite Hrun.
    destruct (update_inv _ _ _ _ _ _ _ _ _ Hrun Hrow) as (t2 & Hset2 & Hck & Hix & _).
    rewrite Hset in Hset2. injection Hset2 as <-. eexists. split; [reflexivity|].
    pose proof Hrow as [Hrow' _]%row_of_Some.
    destruct (po_rows db s Hs _ _ Hrow') as (t0 & Hv0 & _ & _ & _ & Hin & _).
    rewrite Hown in Hv0. injection Hv0 as <-.
    eapply committed_writes; eauto using added_nil.
    + by apply updated_view with (1 := Hown).
    + rewrite app_nil_r. apply (po_callbacks db s Hs).
Qed.
Lemma int4_int64 z : in_int4 z = true -> int64 z = z.
Proof.
  intros H. apply int64_id. unfold in_int4 in H. b2p.
  change (2^31) with 2147483648 in *. int_lia.
Qed.

Lemma pg_claim_law o tn id tok until s : pg_ok db s ->
  let r := Postgres_ClaimSPISubmission db json_error o tn id tok until s in
  meets s tn id (claim_spec tok until (obs_now o)) (fun x => x) [] [] r \/
  (fails s r /\ (~ answers o \/ exists t, owned s tn id = Some t /\
     in_int4 (t_SPISubmissionAttempts t + 1) = false)).
Proof.
  intros Hs. apply (lease_law o tn id _
    (fun t => Transfer_ClaimSPISubmission t tok until (obs_now o)) _ (fun x => x) s Hs).
  intros row t u Hv Hfix _ Hu. split; [by eapply ts_claim|].
  pose proof (row_view_fields _ _ Hv) as (_ & _ & _ & _ & Eatt). rewrite Eatt.
  destruct (in_int4 (t_SPISubmissionAttempts t + 1)) eqn:Ein; [right|left; by eexists].
  eexists. split; [reflexivity|].
  pose proof (int4_int64 _ Ein) as Ei. apply claim_inv in Hu as (_ & _ & _ & _ & ->).
  split_and!; [done| |intros _; cbn; by rewrite Ei]. cbn [t_SPISubmissionAttempts] in *.
  rewrite Ei. clear Ei. columns Hv Hfix.
Qed.

Lemma pg_release_law o tn id tok err retry s : pg_ok db s ->
  let r := Postgres_ReleaseSPISubmission db json_error o tn id tok err retry s in
  meets s tn id (release_spec tok err retry (obs_now o)) (fun _ => tt) [] [] r \/
  (~ answers o /\ fails s r).
Proof.
  intros Hs r.
  assert (Er : r = in_tx db o (lease_tx o tn id
    (fun t => Transfer_ReleaseSPISubmission t tok err retry (obs_now o))
    (fun u row => inl (row <| t_SPIClaimToken := "" |>
      <| t_SPIClaimedUntil := db_timestamptz db <$> t_SPIClaimedUntil u |>
      <| t_SPILastError := t_SPILastError u |>
      <| t_UpdatedAt := db_timestamptz db (t_UpdatedAt u) |>)) (fun _ => tt)) s).
  { apply in_tx_ext. unfold lease_tx, tx_bind. destruct (select_transfer _ _ _ _ _ s) as [[t s1]|]; [|done].
    unfold already_submitted. destruct (_ && _)%bool; [done|]. unfold tx_lift.
    destruct (Transfer_ReleaseSPISubmission _ _ _ _ _); [|done].
    by destruct (translated _ s1) as [[[] ?]|]. }
  rewrite Er. clear r Er.
  match goal with |- context [lease_tx o tn id ?op ?set ?out] =>
    destruct (lease_law o tn id (fun _ => False) op set out s Hs) as [H|[Hf [Hn|(t & _ & [])]]]
  end; [|left; exact H|by right].
  intros row t u Hv Hfix Hsub Hu. split; [by eapply ts_release|]. right. eexists. split; [reflexivity|].
  unfold already_submitted in Hsub. unfold Transfer_ReleaseSPISubmission in Hu. rewrite Hsub in Hu.
  cases_in Hu; simplify_eq.
  split_and!; [done| |done]. columns Hv Hfix.
Qed.
(** ** Reading *)

Lemma pg_find_law o tn k s : pg_ok db s ->
  Postgres_FindByIdempotency db json_error o tn k s = Ok (key_row tn k s ≫= row_view) \/
  (~ answers o /\ exists e, Postgres_FindByIdempotency db json_error o tn k s = Err e).
Proof.
  intros Hs. unfold Postgres_FindByIdempotency, autocommit.
  destruct (db_refuses db o SSelectTransfer) as [e|] eqn:Eo.
  - right. split; [intros H; congruence|]. unfold query_transfer, tx_bind, raw, statement.
    rewrite Eo. by eexists.
  - left. rewrite query_run; [done| |done].
    intros row (id & Hrow & _)%key_row_Some; [|done].
    by destruct (po_rows db s Hs _ _ Hrow) as (t & Hv & _).
Qed.

Lemma pg_get_law o tn id s : pg_ok db s ->
  Postgres_GetTransfer db json_error o tn id s =
    match owned s tn id with Some t => Ok t | None => Err (sentinel ErrNotFound) end \/
  (~ answers o /\ exists e, Postgres_GetTransfer db json_error o tn id s = Err e).
Proof.
  intros Hs. unfold Postgres_GetTransfer, autocommit.
  destruct (db_refuses db o SSelectTransfer) as [e|] eqn:Eo.
  - right. split; [intros H; congruence|].
    destruct (select_refused o tn id s) as [e' ->]; [congruence|]. by eexists.
  - left. rewrite (select_run o tn id s Hs Eo). by destruct (owned s tn id).
Qed.

Lemma scan_all_Forall2 {A B} (scan : A -> result B) rows l :
  scan_all scan rows = Ok l -> Forall2 (fun r x => scan r = Ok x) rows l.
Proof.
  revert l. induction rows as [|r rows IH]; intros l H; cbn in H.
  - injection H as <-. constructor.
  - destruct (scan r) as [x|] eqn:E; [|done]. destruct (scan_all scan rows); [|done].
    injection H as <-. constructor; auto.
Qed.

(** The rows the SPI queue selects: at most the limit, stored and claimable. *)
Lemma queue_rows o limit s rows : rows = take (Z.to_nat (row_limit limit))
    (merge_sort created_before (List.filter (row_pending (db_now db o))
      (db_rows db o (map snd (map_to_list (pg_transfers s)))))) ->
  Z.of_nat (length rows) <= row_limit limit /\
  Forall (fun row => row_pending (db_now db o) row = true /\
    exists id, pg_transfers s !! id = Some row) rows.
Proof.
  intros ->. split.
  - rewrite length_take. unfold row_limit. destruct (limit <=? 0) eqn:E; b2p; lia.
  - apply Forall_forall. intros row Hrow.
    apply (fun H => elem_of_sublist _ _ _ H (sublist_take _ _)) in Hrow.
    rewrite merge_sort_Permutation in Hrow. apply list_elem_of_In, filter_In in Hrow as [Hrow Hp].
    split; [done|]. apply list_elem_of_In in Hrow. rewrite rows_perm in Hrow.
    apply list_elem_of_fmap in Hrow as ([id row'] & -> & Hin). exists id.
    by apply elem_of_map_to_list.
Qed.

Lemma pg_pending_law o limit s ts : pg_ok db s ->
  Postgres_PendingSPISubmissions db json_error o limit s = Ok ts ->
  Z.of_nat (length ts) <= (if limit <=? 0 then 100 else limit) /\
  Forall (fun t => owned s (t_TenantID t) (t_ID t) = Some t /\ t_Status t = StatusAccepted) ts.
Proof.
  intros Hs H. unfold Postgres_PendingSPISubmissions, autocommit, raw, statement in H.
  destruct (db_refuses db o SSelectPending); [done|]. cbn [fst] in H.
  apply scan_all_Forall2 in H.
  destruct (queue_rows o limit s _ eq_refl) as [Hlen Hf].
  split; [by rewrite <- (Forall2_length _ _ _ H)|].
  apply Forall_forall. intros t Ht. apply list_elem_of_lookup in Ht as [i Hi].
  destruct (Forall2_lookup_r _ _ _ _ _ H Hi) as (row & Hrow & Hscan).
  rewrite Forall_lookup in Hf. destruct (Hf _ _ Hrow) as [Hp [id Hid]].
  rewrite scanTransfer_view in Hscan. destruct (row_view row) as [u|] eqn:Hv; [|done].
  injection Hscan as ->. destruct (row_view_fields _ _ Hv) as (_ & _ & _ & Est & _).
  assert (Hview : view s id = Some t) by (unfold view; by rewrite Hid).
  destruct (view_row _ _ _ Hs Hview) as (<- & _). split.
  - by apply owned_Some.
  - unfold row_pending in Hp. b2p. congruence.
Qed.
(** ** Inserting *)

Lemma insert_transfer_inv o t s x s' : insertTransfer db o t s = Ok (x, s') ->
  exists row, s' = committed (t_ID t) row [] [] [] s /\ row_view row = Some (pg_read db t) /\
    pg_transfers s !! t_ID t = None /\ in_int4 (t_SPISubmissionAttempts t) = true /\
    check_violation t = None /\ index_violation t (pg_transfers s) = None /\
    constrained (r_transfer row) = constrained t.
Proof.
  intros [_ H]%translated_inv%statement_inv. unfold to_jsonb in H.
  destruct (in_int4 (t_ReceiverRisk t)); [|done]. destruct (in_int4 (t_FraudScore t)); [|done].
  destruct (in_int4 (t_SPISubmissionAttempts t)); [|done]. cbn [negb] in H.
  destruct (db_jsonb db _) as [text|] eqn:Etext; [|done].
  destruct (check_violation t); [done|]. destruct (pg_transfers s !! t_ID t); [done|].
  destruct (index_violation t _); [done|]. injection H as _ <-.
  exists (mkRow (column_times db (t <| t_FraudRules := [] |>)) text). split_and!; [| |done..].
  - unfold committed. by rewrite !app_nil_r.
  - unfold row_view. cbn [r_fraud_rules r_transfer].
    rewrite (jsonb_rules _ _ Etext), scan_rules_text. cbn [mbind option_bind]. f_equal.
Qed.

Lemma pg_inserted_ok t row records audit s : pg_ok db s -> transfer_ok t ->
  pg_transfers s !! t_ID t = None -> row_view row = Some (pg_read db t) ->
  in_int4 (t_SPISubmissionAttempts t) = true -> check_violation t = None ->
  index_violation t (pg_transfers s) = None -> constrained (r_transfer row) = constrained t ->
  NoDup (map o_Sequence (pg_outbox s ++ records)) ->
  pg_ok db (committed (t_ID t) row records audit [] s).
Proof.
  intros Hs Hok Hno Hv Hatt Hck Hix Hc Ho.
  assert (Hnc : forall id2 row2, pg_transfers s !! id2 = Some row2 ->
    clash (r_transfer row) (r_transfer row2) = false).
  { intros id2 row2 H2. destruct (decide (id2 = t_ID t)) as [->|Hne]; [congruence|].
    pose proof (proj1 (index_violation_None _ _) Hix id2 row2 Hne H2) as Hcl.
    injection Hc as E1 E2 E3 E4 E5 E6 E7 E8.
    rewrite clash_eq in *. unfold same_key in *. by rewrite E2, E3, E4, E5. }
  split; cbn; [| |done|rewrite app_nil_r; apply (po_callbacks db s Hs)].
  - intros id2 row2. rewrite lookup_insert_Some. intros [[<- <-]|[_ H2]]; [|by apply (po_rows db s Hs)].
    exists (pg_read db t). split_and!; [done|done| |by apply pg_read_idem|done|done].
    eapply content_ok; [by apply pg_read_content|done].
  - intros id1 id2 row1 row2 Hne. rewrite !lookup_insert_Some.
    intros [[<- <-]|[H1 H1']] [[<- <-]|[H2 H2']]; [done|..].
    + by eapply Hnc.
    + rewrite clash_sym. by eapply Hnc.
    + by apply (po_unique db s Hs id1 id2).
Qed.

Lemma pg_inserted_le id row records audit s : pg_transfers s !! id = None ->
  pg_le db s (committed id row records audit [] s).
Proof.
  intros Hno. split; cbn.
  - intros id' t' Ht'. unfold view in *. cbn. destruct (decide (id = id')) as [<-|Hne].
    + by rewrite Hno in Ht'.
    + rewrite lookup_insert_ne by done. by exists t'.
  - rewrite map_app. by eexists.
  - by eexists.
  - by eexists.
Qed.

Lemma pg_insert_law o t evs aud s : pg_ok db s -> transfer_ok t ->
  match Postgres_InsertTransfer db o t evs aud s with
  | (Ok _, s') =>
      writes s (t_TenantID t) (t_ID t) t evs aud s' /\
      st_owned s (t_TenantID t) (t_ID t) = None /\
      st_keyed s (t_TenantID t) (t_IdempotencyKey t) = None /\
      st_keyed s' (t_TenantID t) (t_IdempotencyKey t) = Some (st_read t)
  | (Err _, s') => s' = s
  end.
Proof.
  intros Hs Hok. unfold Postgres_InsertTransfer. tx_split Hb; [|done].
  apply bind_inv in Hb as (x & s1 & Hins & (y & s2 & Ho & Ha)%bind_inv).
  apply insert_transfer_inv in Hins as (row & -> & Hv & Hno & Hatt & Hck & Hix & Hc).
  apply iter_outbox_inv in Ho as (records & -> & Hev & Hnd).
  apply iter_audit_inv in Ha as (rows & -> & Hau).
  set (s' := upd_field _ _ _).
  assert (Es : s' = committed (t_ID t) row records rows [] s)
    by (unfold s', committed; cbn; by rewrite !app_nil_r).
  assert (Hok' : pg_ok db s').
  { rewrite Es. apply pg_inserted_ok; try done. cbn in Hnd. rewrite !app_nil_r in Hnd.
    apply Hnd, (po_outbox db s Hs). }
  assert (Hview : view s' (t_ID t) = Some (pg_read db t))
    by (rewrite Es; unfold view; cbn; by rewrite lookup_insert_eq).
  split_and!.
  - split_and!; [done|split; [rewrite Es; by apply pg_inserted_le|done]|..].
    + apply owned_Some. by split.
    + rewrite Es. cbn. by rewrite map_app, Hev.
    + rewrite Es. cbn. by rewrite map_app, Hau.
    + rewrite Es. apply committed_others; [|congruence].
      apply row_view_fields in Hv as (_ & E & _). cbn in E. congruence.
  - cbn. unfold owned, row_of. by rewrite Hno.
  - cbn. destruct (key_row _ _ s) as [row2|] eqn:E; [exfalso|done].
    apply key_row_Some in E as (id2 & H2 & Htn & Hk); [|done].
    assert (Hne : id2 <> t_ID t) by (intros ->; congruence).
    pose proof (clash_key _ _ (proj1 (index_violation_None _ _) Hix id2 row2 Hne H2)) as Hcl.
    unfold same_key in Hcl. by rewrite Htn, Hk, !String.eqb_refl in Hcl.
  - cbn. by apply keyed_Some.
Qed.

(** ** The contract *)

Lemma evolves_rows s s' id t : pg_le db s s' -> view s id = Some t ->
  exists t', view s' id = Some t' /\ rtc stored_step t t' /\ row_key t' = row_key t.
Proof.
  intros Hle Hv. destruct (ple_rows db _ _ Hle _ _ Hv) as (t' & Hv' & Hst). exists t'.
  split_and!; [done|exact Hst|by eapply rtc_pg_step_key].
Qed.

Lemma Postgres_Laws : @StoreLaws PgStore Postgres_Store Postgres_View.
Proof.
  split; cbn.
  - intros s. split; [reflexivity|auto].
  - intros a b c [H1 ?] [H2 ?]. split; [by etrans|auto].
  - intros s s' tn id t Hs [Hle _] [Hv Htn]%owned_Some.
    destruct (evolves_rows _ _ _ _ Hle Hv) as (t' & Hv' & Hst & Hk). exists t'.
    split; [|done]. apply owned_Some. unfold row_key in Hk. split; congruence.
  - intros s s' tn k t Hs [Hle Hok] (Hv & Htn & Hk)%keyed_Some; [|done].
    destruct (evolves_rows _ _ _ _ Hle Hv) as (t' & Hv' & Hst & Ek). exists t'.
    split; [|done]. unfold row_key in Ek. apply keyed_Some; [auto|].
    split_and!; congruence.
  - intros s s' tn m h [Hle _]. destruct (ple_callbacks db _ _ Hle) as [cbs Ec].
    unfold callback_of. rewrite Ec, find_app. by destruct (List.find _ (pg_callbacks s)).
  - intros s s' [Hle _]. destruct (ple_audit db _ _ Hle) as [rows ->]. rewrite map_app. by eexists.
  - intros s s' [Hle _]. apply (ple_outbox db _ _ Hle).
  - apply pg_read_content; done.
  - apply pg_read_idem; done.
  - done.
  - done.
  - intros s tn id t Hs [Hv <-]%owned_Some. destruct (view_row _ _ _ Hs Hv) as (? & ? & _). done.
  - intros s tn k t Hs (Hv & _)%keyed_Some; [|done]. by destruct (view_row _ _ _ Hs Hv) as (_ & ? & _).
  - intros s tn k t Hs _ _ (Hv & Htn & Hk)%keyed_Some; [|done]. split_and!; [done..|].
    by apply owned_Some.
  - intros s tn id t Hs [Hv <-]%owned_Some. by destruct (view_row _ _ _ Hs Hv) as (_ & _ & ?).
  - intros s tn k t Hs (Hv & _)%keyed_Some; [|done]. by destruct (view_row _ _ _ Hs Hv) as (_ & _ & ?).
  - apply pg_find_law.
  - apply pg_get_law.
  - apply pg_pending_law.
  - intros o t evs aud s Hs (Hok & _) _ _. by apply pg_insert_law.
  - apply pg_claim_law.
  - intros o tn id tok msg evs aud s Hs _. by apply pg_record_law.
  - apply pg_release_law.
  - intros o tn id status reason evs aud s Hs _. by apply pg_review_law.
  - intros o tn id cb evs aud s Hs _ Hne. by apply pg_settle_law.
Qed.

(** C6: the PostgreSQL store implements the store contract the switch is proved
    against, whatever the server refuses: its transactions have the outcome the
    specification gives on the abstract view of the tables (transfers as they read
    back, idempotency keys, callbacks, logs), for the transfer they name and no other, or
    fail without changing them. *)
Theorem postgres_store_refines_contract : @StoreLaws PgStore Postgres_Store Postgres_View.
Proof. apply Postgres_Laws. Qed.
End Laws.
