(* ===== verification/EvidenceStores.v ===== *)
(** * The logs of the two stores

    Both stores start with true logs, and the relay, which works on the outbox besides
    the switch, keeps them: it changes neither the transfers nor the events it publishes.
    So [logs_tell_transfers] holds of both stores with relays running. *)

From S2P Require Import Prelude GoStrings Rail Events StoreSpec Effects Switcher SwitcherProps Evidence.
From S2P Require Import MemStore MemStoreProps OutboxProps MemStoreLaws Postgres PostgresProps PostgresLaws.

(** The operations of the relay on a store. *)
Inductive RelayOp :=
  | RelayClaim (o : Obs) (now : Time) (limit : Z) (token : string) (until : Time)
  | RelayPublished (o : Obs) (sequence : Z) (token : string) (at_ : Time)
  | RelayFailed (o : Obs) (sequence : Z) (token lastError : string) (retryAt : Time).

(** ** The in-memory store *)

Section Memory.
Context (order : list Transfer -> list Transfer) (order_perm : forall l, order l ≡ₚ l).

#[local] Instance logs_memory_store : Store MemoryStore := MemoryStore_Store order.
#[local] Instance logs_memory_laws : StoreLaws MemoryStore := MemoryStore_Laws order order_perm.

Definition memory_relay (op : RelayOp) (s : MemoryStore) : MemoryStore :=
  match op with
  | RelayClaim o now limit token until => snd (MemoryStore_ClaimPendingOutbox o now limit token until s)
  | RelayPublished o sequence token at_ => snd (MemoryStore_MarkOutboxPublished o sequence token at_ s)
  | RelayFailed o sequence token e retryAt =>
      snd (MemoryStore_MarkOutboxFailed o sequence token e retryAt s)
  end.

Lemma scan_claim_events now tok until n events :
  map o_Event (fst (scan_claim now tok until n events)) = map o_Event events.
Proof.
  revert n. induction events as [|r rest IH]; intros [|n]; try done. cbn [scan_claim].
  destruct (outbox_pending now r).
  - specialize (IH n). destruct (scan_claim now tok until n rest). cbn in *. by rewrite IH.
  - specialize (IH (S n)). destruct (scan_claim now tok until (S n) rest). cbn in *. by rewrite IH.
Qed.

Lemma mark_loop_events seq tok f events evs : (forall r, o_Event (f r) = o_Event r) ->
  mark_loop seq tok f events = Ok evs -> map o_Event evs = map o_Event events.
Proof.
  intros Hf. revert evs. induction events as [|r rest IH]; cbn; intros evs E; [done|].
  cases_in E; simplify_eq; cbn; [by rewrite (IH _ eq_refl)|by rewrite Hf].
Qed.

Lemma mark_with_view o seq tok f s : (forall r, o_Event (f r) = o_Event r) ->
  same_view s (snd (mark_with o seq tok f s)).
Proof.
  intros Hf. unfold mark_with. destruct (MemoryStore_Health o); [done|].
  destruct (mark_loop seq tok f (ms_events s)) as [evs|] eqn:E; [|done].
  split_and!; [done| |done]. by eapply mark_loop_events.
Qed.

Lemma memory_relay_view op s : same_view s (memory_relay op s).
Proof.
  destruct op as [o now limit tok until|o seq tok at_|o seq tok e retry]; cbn;
    [|by apply mark_with_view..].
  unfold MemoryStore_ClaimPendingOutbox. destruct (MemoryStore_Health o); [done|].
  destruct (_ || _); [done|].
  pose proof (scan_claim_events (time_UTC (obs_now o)) tok until
    (Z.to_nat (default_limit limit)) (ms_events s)) as E.
  destruct (scan_claim _ _ _ _ _). by split_and!.
Qed.

Lemma memory_relay_evidenced op s : evidenced s -> evidenced (memory_relay op s).
Proof. apply same_view_evidenced, memory_relay_view. Qed.

Definition relay_store_op (op : RelayOp) : StoreOp :=
  match op with
  | RelayClaim o now limit token until => OpClaimOutbox o now limit token until
  | RelayPublished o sequence token at_ => OpPublished o sequence token at_
  | RelayFailed o sequence token e retryAt => OpFailed o sequence token e retryAt
  end.

Lemma memory_relay_preserves op s : store_ok s -> preserves s (memory_relay op s).
Proof.
  intros Hs. assert (Hst : store_step s (run_op (relay_store_op op) s))
    by (constructor; by destruct op).
  replace (memory_relay op s) with (run_op (relay_store_op op) s) by (by destruct op).
  exact (steps_ok s _ Hs (rtc_once _ _ Hst)).
Qed.

(** A relay at work between the accesses of a call keeps the contract and the logs. *)
Lemma memory_relay_rely (env : Env MemoryStore) ops :
  (forall k s, env_others env k s = memory_relay (ops k) s) -> rely_evidenced env.
Proof.
  intros Ho. split; intros k s Hs; rewrite Ho; [by apply memory_relay_preserves|].
  apply memory_relay_evidenced.
Qed.

Lemma new_memory_evidenced : evidenced NewMemoryStore.
Proof. by apply empty_evidenced. Qed.
End Memory.

(** ** The PostgreSQL store *)

Section Tables.
Context (db : Database) `{!DatabaseLaws db} (json_error : string -> string).

#[local] Instance logs_tables_store : Store PgStore := Postgres_Store db json_error.
#[local] Instance logs_tables_view : StoreView PgStore := Postgres_View db.
#[local] Instance logs_tables_laws : StoreLaws PgStore := Postgres_Laws db json_error.

Definition tables_relay (op : RelayOp) (s : PgStore) : PgStore :=
  match op with
  | RelayClaim o now limit token until =>
      snd (Postgres_ClaimPendingOutbox db now o limit token until s)
  | RelayPublished o sequence token at_ => snd (Postgres_MarkOutboxPublished db o sequence token at_ s)
  | RelayFailed o sequence token e retryAt =>
      snd (Postgres_MarkOutboxFailed db o sequence token e retryAt s)
  end.

(** An update of outbox rows that keeps their events. *)
Lemma rows_view f s : (forall r, o_Event (f r) = o_Event r) ->
  same_view s (s <| pg_outbox := map f (pg_outbox s) |>).
Proof.
  intros Hf. split_and!; [done| |done]. cbn. rewrite map_map. by apply map_ext.
Qed.

Lemma mark_rows_view o seq tok fails set s : (forall r, o_Event (set r) = o_Event r) ->
  same_view s (snd (mark_rows db o seq tok fails set s)).
Proof.
  intros Hf. unfold mark_rows, update_marked, autocommit, raw, statement.
  destruct (db_refuses db o SUpdateOutbox); [done|]. destruct (existsb _ _); [done|].
  destruct (Nat.eqb _ 0); apply rows_view; intros r; by destruct (marks _ _ r).
Qed.

Lemma tables_relay_view op s : same_view s (tables_relay op s).
Proof.
  destruct op as [o now limit tok until|o seq tok at_|o seq tok e retry]; cbn;
    [|by apply mark_rows_view..].
  unfold Postgres_ClaimPendingOutbox, update_claims, autocommit, raw, statement.
  destruct (_ || _); [done|]. destruct (db_refuses db o SUpdateOutbox); [done|].
  apply rows_view. intros r. by destruct (has_sequence _ r).
Qed.

Lemma tables_relay_evidenced op s : evidenced s -> evidenced (tables_relay op s).
Proof. apply same_view_evidenced, tables_relay_view. Qed.

Lemma empty_tables_evidenced : evidenced empty_tables.
Proof. by apply empty_evidenced. Qed.
End Tables.
