(* ===== verification/PostgresCommits.v ===== *)
(** * The transactions of the PostgreSQL store commit

    [PostgresLaws] lets a transaction fail. Here is when it may not: the server answers
    every statement and the evidence is storable, that is, violates no constraint. Then
    every method has its specified outcome on the stored transfer. *)

From S2P Require Import Prelude GoStrings Rail Events StoreSpec JsonDecode JsonText Postgres.
From S2P Require Import PostgresProps PostgresLaws.

Section Commits.
Context (db : Database) `{!DatabaseLaws db} (json_error : string -> string) (o : Obs).
Context (Hans : answers db o).

#[local] Instance commits_view : StoreView PgStore := Postgres_View db.

(** The events and the audit records of the transfer [id] violate no constraint: the
    server accepts their documents, the sequence gives new numbers, the event ids are
    new. *)
Record storable (id : string) (evs : list Event) (aud : list AuditRecord) (s : PgStore) : Prop :=
  mkStorable {
    sb_transfer : Forall (fun e => e_TransferID e = id) evs /\ Forall (fun a => a_TransferID a = id) aud;
    sb_payload : Forall (fun e => is_Some (db_jsonb db (e_Payload e))) evs;
    sb_metadata : Forall (fun a => is_Some (db_jsonb db (metadata_text (a_Metadata a)))) aud;
    sb_ids : NoDup (map e_EventID evs) /\
      forall e r, e ∈ evs -> r ∈ pg_outbox s -> e_EventID (o_Event r) <> e_EventID e;
    sb_sequence : forall i j, (i < j < length evs)%nat -> db_nextval db o i <> db_nextval db o j;
    sb_fresh : forall i r, (i < length evs)%nat -> r ∈ pg_outbox s -> o_Sequence r <> db_nextval db o i
  }.

Lemma statement_run {A} st (q : Sql A) s : statement db o st q s = q s.
Proof. unfold statement. by rewrite (Hans st). Qed.

Lemma insert_outbox_run n e s : is_Some (db_jsonb db (e_Payload e)) ->
  is_Some (pg_transfers s !! e_TransferID e) ->
  (forall r, r ∈ pg_outbox s -> o_Sequence r <> db_nextval db o n /\ e_EventID (o_Event r) <> e_EventID e) ->
  exists r, insertOutbox db o n e s = Ok (tt, s <| pg_outbox := pg_outbox s ++ [r] |>) /\
    o_Sequence r = db_nextval db o n /\ e_EventID (o_Event r) = e_EventID e.
Proof.
  intros [text Ht] [row Hrow] Hf. unfold insertOutbox, translated, insert_outbox_row.
  rewrite statement_run. unfold to_jsonb. rewrite Ht, Hrow.
  assert (Hn : forall f : OutboxRecord -> bool, (forall r, r ∈ pg_outbox s -> f r = false) ->
    existsb f (pg_outbox s) = false).
  { intros f Hfalse. apply not_true_iff_false. intros (r & Hr & E)%existsb_exists.
    apply list_elem_of_In, Hfalse in Hr. congruence. }
  rewrite !Hn; [eexists; split; [reflexivity|done]|..]; intros r Hr; destruct (Hf r Hr).
  - by apply String.eqb_neq.
  - by apply Z.eqb_neq.
Qed.

Lemma iter_outbox_run evs n s : Forall (fun e => is_Some (db_jsonb db (e_Payload e))) evs ->
  Forall (fun e => is_Some (pg_transfers s !! e_TransferID e)) evs ->
  NoDup (map e_EventID evs) ->
  (forall e r, e ∈ evs -> r ∈ pg_outbox s -> e_EventID (o_Event r) <> e_EventID e) ->
  (forall i j, (i < j < length evs)%nat -> db_nextval db o (n + i) <> db_nextval db o (n + j)) ->
  (forall i r, (i < length evs)%nat -> r ∈ pg_outbox s -> o_Sequence r <> db_nextval db o (n + i)) ->
  exists records, tx_iter (insertOutbox db o) n evs s =
    Ok (tt, s <| pg_outbox := pg_outbox s ++ records |>).
Proof.
  revert n s. induction evs as [|e evs IH]; intros n s Hj Ht Hnd Hid Hseq Hfr; cbn [tx_iter].
  { exists []. rewrite app_nil_r. by destruct s. }
  apply Forall_cons in Hj as [Hj1 Hj]. apply Forall_cons in Ht as [Ht1 Ht].
  apply NoDup_cons in Hnd as [Hni Hnd].
  destruct (insert_outbox_run n e s Hj1 Ht1) as (r & E & Er & Ee).
  { intros r Hr. split; [|by apply Hid; [left|]]. rewrite <- (Nat.add_0_r n).
    apply Hfr; [cbn; lia|done]. }
  destruct (IH (S n) (s <| pg_outbox := pg_outbox s ++ [r] |>)) as (rs & E2); [exact Hj|exact Ht|exact Hnd| | | |].
  - cbn. intros e' r' He' [Hr'|Er'%list_elem_of_singleton]%elem_of_app; [by apply Hid; [right|]|].
    rewrite Er', Ee. intros Eid. apply Hni. rewrite Eid. by apply list_elem_of_fmap_2.
  - intros i j Hij. rewrite !Nat.add_succ_comm. apply Hseq. cbn. lia.
  - cbn. intros i r' Hi [Hr'|Er'%list_elem_of_singleton]%elem_of_app.
    + rewrite <- Nat.add_succ_r. apply Hfr; [cbn; lia|done].
    + rewrite Er', Er, <- Nat.add_succ_r. rewrite <- (Nat.add_0_r n) at 1. apply Hseq. cbn. lia.
  - exists (r :: rs). unfold tx_bind. rewrite E, E2. cbn. by rewrite <- app_assoc.
Qed.

Lemma iter_audit_run aud n s :
  Forall (fun a => is_Some (db_jsonb db (metadata_text (a_Metadata a)))) aud ->
  Forall (fun a => is_Some (pg_transfers s !! a_TransferID a)) aud ->
  exists rows, tx_iter (insertAudit db o) n aud s = Ok (tt, s <| pg_audit := pg_audit s ++ rows |>).
Proof.
  revert n s. induction aud as [|a aud IH]; intros n s Hj Ht; cbn [tx_iter].
  { exists []. rewrite app_nil_r. by destruct s. }
  apply Forall_cons in Hj as [[text Htext] Hj]. apply Forall_cons in Ht as [[row Hrow] Ht].
  unfold tx_bind. unfold insertAudit at 1, translated, insert_audit_row. rewrite statement_run.
  unfold to_jsonb. rewrite Htext, Hrow.
  edestruct (IH (S n)) as (rs & E); [done| |rewrite E]; [done|].
  eexists. cbn. by rewrite <- app_assoc.
Qed.
(** ** The updates *)

(** The update of a row and its evidence go through. *)
Lemma update_commits {A} tn id set row t' evs aud (k : Tx A) s :
  row_of tn id s = Some row -> set (r_transfer row) = inl t' -> check_violation t' = None ->
  index_violation t' (pg_transfers s) = None -> storable id evs [aud] s ->
  exists row' records audit,
    (_ <~ translated (update_transfer db o tn id set);;
     _ <~ tx_iter (insertOutbox db o) 0 evs;;
     _ <~ insertAudit db o 0 aud;; k) s = k (committed id row' records audit [] s).
Proof.
  intros Hrow Hset Hck Hix [[He Ha] Hp Hm [Hnd Hid] Hseq Hfr].
  set (s1 := committed id (mkRow t' (r_fraud_rules row)) [] [] [] s).
  assert (Eu : translated (update_transfer db o tn id set) s = Ok (tt, s1)).
  { unfold translated, update_transfer. rewrite statement_run, Hrow, Hset, Hck, Hix.
    unfold s1, committed. by rewrite !app_nil_r. }
  assert (Hin : is_Some (pg_transfers s1 !! id)) by (unfold s1; cbn; by rewrite lookup_insert_eq).
  assert (Eo : pg_outbox s1 = pg_outbox s) by (unfold s1; cbn; by rewrite app_nil_r).
  destruct (iter_outbox_run evs 0 s1) as (records & Er).
  { done. }
  { eapply Forall_impl; [exact He|]. by intros e ->. }
  { done. }
  { by rewrite Eo. }
  { exact Hseq. }
  { rewrite Eo. exact Hfr. }
  destruct (iter_audit_run [aud] 0 (s1 <| pg_outbox := pg_outbox s1 ++ records |>)) as (rows & Ea).
  { done. }
  { eapply Forall_impl; [exact Ha|]. by intros a ->. }
  exists (mkRow t' (r_fraud_rules row)), records, rows.
  unfold tx_bind at 1. rewrite Eu. unfold tx_bind at 1. rewrite Er.
  cbn [tx_iter] in Ea. unfold tx_bind at 1 in Ea. unfold tx_bind at 1.
  destruct (insertAudit db o 0 aud _) as [[x s2]|]; [|done]. injection Ea as ->. f_equal.
  unfold s1, committed. cbn. by rewrite !app_nil_r.
Qed.

(** A transaction on the selected transfer whose body has the outcome of [spec]. *)
Lemma tx_meets {A} tn id spec (out : Transfer * bool -> A) evs aud (rest : Transfer -> Tx A) s :
  pg_ok db s ->
  let r := in_tx db o (t <~ select_transfer db json_error o tn id;; rest t) s in
  meets s tn id spec out evs aud r \/ fails s r ->
  (forall t, owned s tn id = Some t ->
     match spec t with
     | Err e => rest t s = Err e
     | Ok (u, true) => rest t s = Ok (out (u, true), s)
     | Ok (u, false) => exists a s', rest t s = Ok (a, s')
     end) ->
  meets s tn id spec out evs aud r.
Proof.
  intros Hs r Hlaw Hrest. subst r.
  rewrite (in_tx_answers db o _ s (Hans _) (Hans _)) in *. unfold tx_bind in *.
  rewrite (select_run db json_error o tn id s Hs (Hans _)) in *.
  unfold meets in *. cbn [st_owned commits_view Postgres_View] in *.
  destruct (owned s tn id) as [t|] eqn:Ho; [|done]. specialize (Hrest t eq_refl).
  destruct (spec t) as [[u []]|e]; [by rewrite Hrest| |by rewrite Hrest].
  destruct Hrest as (a & s' & E). rewrite E in *. destruct Hlaw as [L|[e L]]; [exact L|done].
Qed.
(** The SPI identifiers of a row are those of no other. *)
Definition free_identifiers (id message endToEnd : string) (s : PgStore) : Prop :=
  forall id' row, id' <> id -> pg_transfers s !! id' = Some row ->
    same_text endToEnd (t_EndToEndID (r_transfer row)) = false /\
    same_text message (t_SPIMessageID (r_transfer row)) = false.

(** The columns no evidence-writing update sets. *)
Definition fixed_columns (t : Transfer) :=
  (t_ID t, t_TenantID t, t_IdempotencyKey t, t_AmountCents t, t_Currency t).

Lemma row_update tn id s row t' : pg_ok db s -> row_of tn id s = Some row ->
  fixed_columns t' = fixed_columns (r_transfer row) -> status_check (t_Status t') = true ->
  free_identifiers id (t_SPIMessageID t') (t_EndToEndID t') s ->
  check_violation t' = None /\ index_violation t' (pg_transfers s) = None.
Proof.
  intros Hs [Hrow _]%(row_of_Some json_error) Hc Hst Hfree. injection Hc as E1 E2 E3 E4 E5.
  destruct (po_rows db s Hs _ _ Hrow) as (t & Hv & Hid & _ & _ & _ & Hck). split.
  - rewrite (row_view_check _ _ Hv) in Hck. unfold check_violation in *. rewrite E4, E5, Hst.
    destruct (_ <=? 0); [done|]. by destruct (negb (_ ==s "BRL")).
  - apply row_view_fields in Hv as (Ev & _). apply index_violation_None. intros id' row' Hne Hrow'.
    assert (Hne' : id <> id') by congruence.
    pose proof (clash_key _ _ (po_unique db s Hs _ _ _ _ Hne' Hrow Hrow')) as Hk.
    destruct (Hfree id' row') as [F1 F2]; [done..|].
    rewrite clash_eq, F1, F2. unfold same_key in *. by rewrite E2, E3, Hk.
Qed.

(** A row that keeps its identifiers keeps them apart from the others'. *)
Lemma kept_identifiers tn id s row : pg_ok db s -> row_of tn id s = Some row ->
  free_identifiers id (t_SPIMessageID (r_transfer row)) (t_EndToEndID (r_transfer row)) s.
Proof.
  intros Hs [Hrow _]%(row_of_Some json_error) id' row' Hne Hrow'.
  assert (Hne' : id <> id') by congruence.
  pose proof (po_unique db s Hs _ _ _ _ Hne' Hrow Hrow') as Hc. rewrite clash_eq in Hc.
  apply orb_false_iff in Hc as [F1 [F2 _]%orb_false_iff]. done.
Qed.

Lemma owned_row tn id s t : owned s tn id = Some t ->
  exists row, row_of tn id s = Some row /\ row_view row = Some t.
Proof. unfold owned. destruct (row_of tn id s) as [row|]; [|done]. cbn. eauto. Qed.

(** The update [set] makes of the row, with the status [st], and the evidence. *)
Lemma evidence_commits {A} tn id set row t' evs aud (k : Tx A) s : pg_ok db s ->
  storable id evs [aud] s -> row_of tn id s = Some row -> set (r_transfer row) = inl t' ->
  fixed_columns t' = fixed_columns (r_transfer row) -> status_check (t_Status t') = true ->
  free_identifiers id (t_SPIMessageID t') (t_EndToEndID t') s ->
  (forall s', pg_callbacks s' = pg_callbacks s -> exists r, k s' = Ok r) ->
  exists a s',
    (_ <~ translated (update_transfer db o tn id set);;
     _ <~ tx_iter (insertOutbox db o) 0 evs;;
     _ <~ insertAudit db o 0 aud;; k) s = Ok (a, s').
Proof.
  intros Hs Hsb Hrow Hset Hc Hst Hfree Hk.
  destruct (row_update tn id s row t' Hs Hrow Hc Hst Hfree) as [Hck Hix].
  destruct (update_commits tn id set row t' evs aud k s Hrow Hset Hck Hix Hsb)
    as (row' & records & audit & ->).
  destruct (Hk (committed id row' records audit [] s)) as [[a s'] E]; [cbn; by rewrite app_nil_r|].
  by exists a, s'.
Qed.

Lemma record_commits tn id tok msg evs aud s : pg_ok db s -> storable id evs [aud] s ->
  free_identifiers id (m_MessageID msg) (m_EndToEndID msg) s ->
  meets s tn id (record_spec tok msg) (fun x => x) evs [aud]
    (Postgres_RecordSPISubmission db json_error o tn id tok msg evs aud s).
Proof.
  intros Hs Hsb Hfree. apply tx_meets; [done|by apply (pg_record_law db json_error)|].
  intros t Ho. destruct (owned_row _ _ _ _ Ho) as (row & Hrow & Hv). unfold record_spec.
  destruct (_ && _)%bool; [done|]. cbn [fresh]. unfold fresh, tx_bind at 1, tx_lift.
  destruct (Transfer_RecordSPISubmission t tok msg) as [u|e] eqn:E; [|done].
  apply record_inv in E as (_ & _ & _ & _ & _ & Eu).
  eapply evidence_commits; [done|done|done|reflexivity|done| | |by eexists].
  - by rewrite Eu.
  - cbn. by rewrite Eu.
Qed.

Lemma review_commits tn id status reason evs aud s : pg_ok db s -> storable id evs [aud] s ->
  meets s tn id (review_spec status reason (a_CreatedAt aud)) fst evs [aud]
    (Postgres_RecordReviewDecision db json_error o tn id status reason evs aud s).
Proof.
  intros Hs Hsb. apply tx_meets; [done|by apply (pg_review_law db json_error)|].
  intros t Ho. destruct (owned_row _ _ _ _ Ho) as (row & Hrow & Hv). unfold review_spec.
  unfold fresh, tx_bind at 1, tx_lift.
  destruct (Transfer_RecordReviewDecision t status reason (a_CreatedAt aud)) as [u|e] eqn:E; [|done].
  apply review_inv in E as (_ & Hst & Eu).
  eapply evidence_commits; [done|done|done|reflexivity|done| | |by eexists].
  - rewrite Eu. by destruct Hst as [->| ->].
  - by eapply kept_identifiers.
Qed.

Lemma bind_run {A B} (m : Tx A) (k : A -> Tx B) s a s' : m s = Ok (a, s') -> tx_bind m k s = k a s'.
Proof. unfold tx_bind. by intros ->. Qed.

Lemma callback_run tn m s :
  raw (select_callback db o tn m) s = Ok (pc_callback_hash <$> callback_of tn m s, s).
Proof. unfold raw, select_callback. by rewrite statement_run. Qed.

Lemma settle_commits tn id cb evs aud s : pg_ok db s -> storable id evs [aud] s ->
  cb_CallbackHash cb <> "" ->
  meets s tn id (settle_spec cb (st_callback s tn (cb_SPIMessageID cb))) (fun x => x) evs [aud]
    (Postgres_UpdateSettlement db json_error o tn id cb evs aud s).
Proof.
  intros Hs Hsb Hne. apply tx_meets; [done| |].
  { destruct (pg_settle_law db json_error o tn id cb evs aud s Hs Hne) as [[L _]|L]; auto. }
  intros t Ho. destruct (owned_row _ _ _ _ Ho) as (row & Hrow & Hv). unfold settle_spec.
  cbn [st_callback commits_view Postgres_View].
  assert (Eh : pg_callback_hash cb = cb_CallbackHash cb)
    by (unfold pg_callback_hash; apply String.eqb_neq in Hne; by rewrite Hne).
  rewrite Eh, !(bind_run _ _ _ _ _ (callback_run _ _ _)).
  destruct (callback_of tn (cb_SPIMessageID cb) s) as [c|] eqn:Ec; cbn [fmap option_fmap option_map].
  { by destruct (pc_callback_hash c ==s cb_CallbackHash cb). }
  unfold fresh, tx_bind at 1, tx_lift.
  destruct (Transfer_RecordSettlement t cb) as [u|e] eqn:E; [|done].
  apply settle_inv in E as (_ & _ & _ & st & Hst & Eu).
  eapply evidence_commits; [done|done|done|reflexivity|done| | |].
  - rewrite Eu. by destruct Hst as [[-> _]|[-> _]].
  - by eapply kept_identifiers.
  - intros s' Ecb. unfold tx_bind, translated, insert_callback. rewrite statement_run, Ecb.
    replace (existsb _ (pg_callbacks s)) with false; [by eexists|].
    symmetry. apply not_true_iff_false. intros (c & Hc & Ed)%existsb_exists.
    pose proof (callback_of_None _ _ _ Ec) as Hf. rewrite Forall_forall in Hf.
    apply (Hf c); [by apply list_elem_of_In|]. unfold duplicate_callback in Ed. cbn in Ed. b2p.
    unfold callback_id. congruence.
Qed.
(** ** The insertion *)

(** The row of a new transfer violates no constraint. *)
Record insertable (t : Transfer) (s : PgStore) : Prop := mkInsertable {
  ib_integers : in_int4 (t_ReceiverRisk t) = true /\ in_int4 (t_FraudScore t) = true /\
    in_int4 (t_SPISubmissionAttempts t) = true;
  ib_rules : is_Some (db_jsonb db (rules_text (t_FraudRules t)));
  ib_check : check_violation t = None;
  ib_id : pg_transfers s !! t_ID t = None;
  ib_index : index_violation t (pg_transfers s) = None
}.

Lemma insert_commits t evs aud s : insertable t s -> storable (t_ID t) evs aud s ->
  exists s', Postgres_InsertTransfer db o t evs aud s = (Ok tt, s').
Proof.
  intros [(I1 & I2 & I3) [text Ht] Hck Hid Hix] [[He Ha] Hp Hm [Hnd Hev] Hseq Hfr].
  unfold Postgres_InsertTransfer. rewrite (in_tx_answers db o _ s (Hans _) (Hans _)).
  assert (E1 : exists row, insertTransfer db o t s =
    Ok (tt, s <| pg_transfers := <[t_ID t := row]> (pg_transfers s) |>)).
  { unfold insertTransfer, translated, insert_transfer_row. rewrite statement_run.
    rewrite I1, I2, I3. cbn [negb]. unfold to_jsonb. rewrite Ht, Hck, Hid, Hix. by eexists. }
  destruct E1 as [row E1]. rewrite (bind_run _ _ _ _ _ E1). set (s1 := upd_field _ _ _).
  assert (Hin : is_Some (pg_transfers s1 !! t_ID t)) by (unfold s1; cbn; by rewrite lookup_insert_eq).
  destruct (iter_outbox_run evs 0 s1) as (records & E2); [done| |done|exact Hev|exact Hseq|exact Hfr|].
  { eapply Forall_impl; [exact He|]. by intros e ->. }
  rewrite (bind_run _ _ _ _ _ E2).
  destruct (iter_audit_run aud 0 (s1 <| pg_outbox := pg_outbox s1 ++ records |>)) as (rows & E3); [done| |].
  { eapply Forall_impl; [exact Ha|]. by intros a ->. }
  rewrite E3. by eexists.
Qed.

(** ** The leases *)

Lemma claim_commits tn id tok until s : pg_ok db s ->
  (forall t, owned s tn id = Some t -> in_int4 (t_SPISubmissionAttempts t + 1) = true) ->
  meets s tn id (claim_spec tok until (obs_now o)) (fun x => x) [] []
    (Postgres_ClaimSPISubmission db json_error o tn id tok until s).
Proof.
  intros Hs Hcount.
  destruct (pg_claim_law db json_error o tn id tok until s Hs) as [L|[_ [Hn|(t & Ho & E)]]];
    [done|by destruct Hn|]. by rewrite (Hcount t Ho) in E.
Qed.

Lemma release_commits tn id tok err retry s : pg_ok db s ->
  meets s tn id (release_spec tok err retry (obs_now o)) (fun _ => tt) [] []
    (Postgres_ReleaseSPISubmission db json_error o tn id tok err retry s).
Proof.
  intros Hs. by destruct (pg_release_law db json_error o tn id tok err retry s Hs) as [L|[Hn _]].
Qed.

(** C7: the PostgreSQL store does commit: when the server answers every statement,
    each of the six transactions on transfers has the outcome of its specification on the
    stored transfer, in particular succeeds when the state machine allows it. An insertion
    succeeds of a transfer that violates no constraint and, of a well-formed one, adds
    exactly the transfer, its key and its evidence; it and the three updates that
    write evidence need the events and audit records to violate none; recording a
    submission also needs SPI identifiers no other transfer has, and a claim a stored
    counter of attempts that the integer column can still count up. *)
Theorem postgres_commits tn id evs aud s : pg_ok db s ->
  (forall t auds, insertable t s -> storable (t_ID t) evs auds s ->
     exists s', Postgres_InsertTransfer db o t evs auds s = (Ok tt, s') /\
       (transfer_ok t ->
          writes s (t_TenantID t) (t_ID t) t evs auds s' /\
          st_keyed s' (t_TenantID t) (t_IdempotencyKey t) = Some (st_read t))) /\
  (forall tok until,
     (forall t, owned s tn id = Some t -> in_int4 (t_SPISubmissionAttempts t + 1) = true) ->
     meets s tn id (claim_spec tok until (obs_now o)) (fun x => x) [] []
       (Postgres_ClaimSPISubmission db json_error o tn id tok until s)) /\
  (forall tok err retry,
     meets s tn id (release_spec tok err retry (obs_now o)) (fun _ => tt) [] []
       (Postgres_ReleaseSPISubmission db json_error o tn id tok err retry s)) /\
  (storable id evs [aud] s ->
    (forall tok msg, free_identifiers id (m_MessageID msg) (m_EndToEndID msg) s ->
       meets s tn id (record_spec tok msg) (fun x => x) evs [aud]
         (Postgres_RecordSPISubmission db json_error o tn id tok msg evs aud s)) /\
    (forall status reason,
       meets s tn id (review_spec status reason (a_CreatedAt aud)) fst evs [aud]
         (Postgres_RecordReviewDecision db json_error o tn id status reason evs aud s)) /\
    (forall cb, cb_CallbackHash cb <> "" ->
       meets s tn id (settle_spec cb (st_callback s tn (cb_SPIMessageID cb))) (fun x => x) evs [aud]
         (Postgres_UpdateSettlement db json_error o tn id cb evs aud s))).
Proof.
  intros Hs. split_and!; [| | |intros Hsb; split_and!].
  - intros t auds Hins Hsb. destruct (insert_commits t evs auds s Hins Hsb) as [s' E].
    exists s'. split; [exact E|]. intros Hok. pose proof (pg_insert_law db json_error o t evs auds s Hs Hok) as L.
    rewrite E in L. by destruct L as (Hw & _ & _ & Hk).
  - intros tok until. by apply claim_commits.
  - intros tok err retry. by apply release_commits.
  - intros tok msg. by apply record_commits.
  - intros status reason. by apply review_commits.
  - intros cb. by apply settle_commits.
Qed.
End Commits.
