(* ===== verification/PostgresOutbox.v ===== *)
(** * The outbox of the PostgreSQL store

    The relay's operations on [payment_outbox]: a claim hands out records no other
    worker holds, a mark takes effect on the record claimed under its token, and both
    keep the tables' invariant and evolution. The relay runs over the store. *)

From S2P Require Import Prelude GoStrings Rail Events StoreSpec Relay Postgres PostgresProps.

Section Outbox.
Context (db : Database) `{!DatabaseLaws db}.

Definition Postgres_OutboxStore : OutboxStore PgStore := {|
  ClaimPendingOutbox := Postgres_ClaimPendingOutbox db;
  MarkOutboxPublished := Postgres_MarkOutboxPublished db;
  MarkOutboxFailed := Postgres_MarkOutboxFailed db
|}.

(** ** Updates of the outbox alone *)

(** An update of outbox records that keeps their sequence and event. *)
Lemma outbox_update_ok s f : pg_ok db s ->
  (forall r, o_Sequence (f r) = o_Sequence r /\ o_Event (f r) = o_Event r) ->
  pg_ok db (s <| pg_outbox := map f (pg_outbox s) |>) /\
  pg_le db s (s <| pg_outbox := map f (pg_outbox s) |>).
Proof.
  intros [H1 H2 H3 H4] Hf. split; split; cbn; try done.
  - by rewrite map_map, (map_ext (fun r => o_Sequence (f r)) o_Sequence) by (intros r; apply Hf).
  - intros id t Ht. by exists t.
  - by rewrite map_map, (map_ext (fun r => o_Event (f r)) o_Event) by (intros r; apply Hf).
Qed.

Lemma has_sequence_spec l r : has_sequence l r = true <-> o_Sequence r ∈ map o_Sequence l.
Proof.
  unfold has_sequence. rewrite existsb_exists, list_elem_of_fmap. split.
  - intros (x & Hx & E). apply Z.eqb_eq in E. exists x. split; [done|by apply list_elem_of_In].
  - intros (x & E & Hx). exists x. split; [by apply list_elem_of_In|by apply Z.eqb_eq].
Qed.

(** Records of the outbox with one sequence number are one record. *)
Lemma sequence_inj s r r' : pg_ok db s -> r ∈ pg_outbox s -> r' ∈ pg_outbox s ->
  o_Sequence r = o_Sequence r' -> r = r'.
Proof.
  intros Hs [i Hi]%list_elem_of_lookup [j Hj]%list_elem_of_lookup E.
  assert (i = j) as ->; [|congruence].
  eapply (NoDup_lookup (map o_Sequence (pg_outbox s))); [apply (po_outbox db s Hs)|..];
    rewrite list_lookup_fmap, ?Hi, ?Hj; cbn; [reflexivity|by rewrite E].
Qed.

Lemma next_in o limit s r : r ∈ next_records db o limit s ->
  r ∈ pg_outbox s /\ record_pending (db_now db o) r = true.
Proof.
  intros H. apply (fun H => elem_of_sublist _ _ _ H (sublist_take _ _)) in H.
  apply list_elem_of_In, filter_In in H as [H Hp]. b2p. split; [|done].
  apply list_elem_of_In in H. by rewrite merge_sort_Permutation in H.
Qed.
(** ** Claims *)

Definition claim_pass (o : Obs) (limit : Z) (tok : string) (until : Time) (s : PgStore)
    (r : OutboxRecord) : OutboxRecord :=
  if has_sequence (next_records db o limit s) r then claimed_row db tok until r else r.

Lemma claim_run o now1 limit tok until s :
  tok <> "" -> now1 < until -> db_refuses db o SUpdateOutbox = None ->
  let outbox := map (claim_pass o limit tok until s) (pg_outbox s) in
  Postgres_ClaimPendingOutbox db now1 o limit tok until s =
  (Ok (db_returning db o (List.filter (has_sequence (next_records db o limit s)) outbox)),
   s <| pg_outbox := outbox |>).
Proof.
  intros Htok Hu Ho. unfold Postgres_ClaimPendingOutbox, time_After, time_UTC.
  apply String.eqb_neq in Htok. rewrite Htok, (proj2 (Z.ltb_lt _ _) Hu). cbn.
  unfold autocommit, raw, update_claims, statement. by rewrite Ho.
Qed.

Lemma claim_pass_keeps o limit tok until s r :
  o_Sequence (claim_pass o limit tok until s r) = o_Sequence r /\
  o_Event (claim_pass o limit tok until s r) = o_Event r.
Proof. unfold claim_pass. by destruct (has_sequence _ _). Qed.

Lemma claimed_iff o limit tok until s r : pg_ok db s ->
  r ∈ List.filter (has_sequence (next_records db o limit s))
        (map (claim_pass o limit tok until s) (pg_outbox s)) <->
  exists x, x ∈ next_records db o limit s /\ r = claimed_row db tok until x.
Proof.
  intros Hs. rewrite list_elem_of_In, filter_In, <- list_elem_of_In, list_elem_of_fmap. split.
  - intros [(x & -> & Hx) Hr]. unfold claim_pass in *.
    destruct (has_sequence _ x) eqn:E; [|congruence]. exists x. split; [|done].
    apply has_sequence_spec, list_elem_of_fmap in E as (y & E & Hy).
    destruct (next_in _ _ _ _ Hy) as [Hin _]. by rewrite (sequence_inj s x y Hs Hx Hin E).
  - intros (x & Hx & ->). destruct (next_in _ _ _ _ Hx) as [Hin _].
    assert (E : has_sequence (next_records db o limit s) x = true)
      by (apply has_sequence_spec, list_elem_of_fmap; eauto).
    split; [|exact E]. exists x. split; [|done]. unfold claim_pass. by rewrite E.
Qed.


(** ** Marks *)

Definition put_record (sequence : Z) (f : OutboxRecord -> OutboxRecord) (s : PgStore) : PgStore :=
  s <| pg_outbox := map (fun x => if o_Sequence x =? sequence then f x else x) (pg_outbox s) |>.

Lemma marks_eq s r x tok : pg_ok db s -> r ∈ pg_outbox s -> x ∈ pg_outbox s ->
  marks (o_Sequence r) tok x = (o_Sequence x =? o_Sequence r) && (o_ClaimToken r ==s tok).
Proof.
  intros Hs Hr Hx. unfold marks. destruct (o_Sequence x =? o_Sequence r) eqn:E; [|done]. b2p.
  by rewrite (sequence_inj s x r Hs Hx Hr E).
Qed.

Lemma mark_held o s r fails set : pg_ok db s -> r ∈ pg_outbox s ->
  db_refuses db o SUpdateOutbox = None -> fails r = false ->
  mark_rows db o (o_Sequence r) (o_ClaimToken r) fails set s = (Ok tt, put_record (o_Sequence r) set s).
Proof.
  intros Hs Hr Ho Hf. unfold mark_rows, autocommit, raw, update_marked, statement. rewrite Ho.
  set (marked := List.filter _ _).
  assert (Hmarked : forall x, x ∈ marked <-> x = r).
  { intros x. unfold marked. rewrite list_elem_of_In, filter_In, <- list_elem_of_In. split.
    - intros [Hx E]. rewrite (marks_eq s) in E by done. b2p. by apply (sequence_inj s x r Hs).
    - intros ->. split; [done|]. rewrite (marks_eq s) by done. by rewrite Z.eqb_refl, String.eqb_refl. }
  assert (Hex : existsb fails marked = false).
  { apply not_true_iff_false. intros (x & Hx & Hfx)%existsb_exists.
    apply list_elem_of_In, Hmarked in Hx as ->. congruence. }
  rewrite Hex. destruct marked as [|x l] eqn:El.
  { pose proof (proj2 (Hmarked r) eq_refl) as H. by apply elem_of_nil in H. }
  cbn [length Nat.eqb]. unfold put_record. cbn. do 2 f_equal. apply map_ext_in.
  intros y Hy%list_elem_of_In. rewrite (marks_eq s) by done.
  by rewrite String.eqb_refl, andb_true_r.
Qed.

Lemma map_same {A} (f : A -> A) l : (forall x, x ∈ l -> f x = x) -> map f l = l.
Proof.
  intros H. induction l as [|x l IH]; cbn; [done|]. f_equal.
  - apply H, list_elem_of_here.
  - apply IH. intros y Hy. by apply H, list_elem_of_further.
Qed.

Definition not_claimed : error :=
  Errorf ErrConflict "outbox record is not claimed by this worker".

Lemma mark_refused o s sequence tok fails set : db_refuses db o SUpdateOutbox = None ->
  (forall x, x ∈ pg_outbox s -> marks sequence tok x = false) ->
  mark_rows db o sequence tok fails set s = (Err not_claimed, s).
Proof.
  intros Ho Hn. unfold mark_rows, autocommit, raw, update_marked, statement. rewrite Ho.
  assert (E : List.filter (marks sequence tok) (pg_outbox s) = []).
  { destruct (List.filter _ _) as [|x l] eqn:El; [done|].
    assert (Hx : In x (List.filter (marks sequence tok) (pg_outbox s))) by (rewrite El; by left).
    apply filter_In in Hx as [Hx Hm]. apply list_elem_of_In, Hn in Hx. congruence. }
  rewrite E. cbn. do 2 f_equal. rewrite map_same; [by destruct s|].
  intros x Hx. by rewrite Hn.
Qed.

(** A mark takes effect on the record exactly when the token is that of its
    claim: [MarkOutboxPublished] publishes it for good, [MarkOutboxFailed] counts the
    attempt and sets when to retry, and both release the claim and keep the tables'
    invariant and evolution. Under another token, and for a record the outbox does not
    hold, both are conflicts without effect. *)
Theorem postgres_mark_by_claim o s r : pg_ok db s -> r ∈ pg_outbox s ->
  db_refuses db o SUpdateOutbox = None ->
  (forall at_, let s' := put_record (o_Sequence r) (published_row db at_) s in
     Postgres_MarkOutboxPublished db o (o_Sequence r) (o_ClaimToken r) at_ s = (Ok tt, s') /\
     pg_ok db s' /\ pg_le db s s' /\
     forall now, record_pending now (published_row db at_ r) = false) /\
  (forall err retry, in_int4 (o_Attempts r + 1) = true ->
     let s' := put_record (o_Sequence r) (failed_row db err retry) s in
     Postgres_MarkOutboxFailed db o (o_Sequence r) (o_ClaimToken r) err retry s = (Ok tt, s') /\
     pg_ok db s' /\ pg_le db s s') /\
  (forall sequence tok at_ err retry,
     (sequence = o_Sequence r /\ tok <> o_ClaimToken r) \/
     sequence ∉ map o_Sequence (pg_outbox s) ->
     Postgres_MarkOutboxPublished db o sequence tok at_ s = (Err not_claimed, s) /\
     Postgres_MarkOutboxFailed db o sequence tok err retry s = (Err not_claimed, s)).
Proof.
  intros Hs Hr Ho.
  assert (Hput : forall f, (forall x, o_Sequence (f x) = o_Sequence x /\ o_Event (f x) = o_Event x) ->
    pg_ok db (put_record (o_Sequence r) f s) /\ pg_le db s (put_record (o_Sequence r) f s)).
  { intros f Hf. apply outbox_update_ok; [done|]. intros x. by destruct (o_Sequence x =? _). }
  split_and!.
  - intros at_ s'. destruct (Hput (published_row db at_)) as [? ?]; [done|].
    split_and!; [by apply mark_held|done..].
  - intros err retry Hin s'. destruct (Hput (failed_row db err retry)) as [? ?]; [done|].
    split_and!; [|done..]. apply mark_held; try done. by rewrite Hin.
  - intros sequence tok at_ err retry Hcase.
    assert (Hn : forall x, x ∈ pg_outbox s -> marks sequence tok x = false).
    { intros x Hx. destruct Hcase as [[-> Htok]|Hno].
      - rewrite (marks_eq s) by done. apply not_eq_sym, String.eqb_neq in Htok.
        by rewrite Htok, andb_false_r.
      - unfold marks. destruct (o_Sequence x =? sequence) eqn:E; [|done]. b2p. subst.
        exfalso. by apply Hno, list_elem_of_fmap_2. }
    split; by apply mark_refused.
Qed.
End Outbox.
