(* ===== verification/DeliveryStores.v ===== *)
(** * Both outboxes keep the relay's contract

    [OutboxLaws] for the in-memory store and for the tables, so that
    [relay_acknowledges_delivered] holds of a relay over either. *)

From S2P Require Import Prelude GoStrings Rail Events StoreSpec MemStore MemStoreProps OutboxProps Effects.
From S2P Require Import Relay Delivery Postgres PostgresProps PostgresOutbox.

(** A part of a list with distinct sequence numbers has distinct ones. *)
Lemma sublist_sequences (l k : list OutboxRecord) :
  l `sublist_of` k -> NoDup (map o_Sequence k) -> NoDup (map o_Sequence l).
Proof. intros Hl Hk. eapply sublist_NoDup; [exact Hk|by apply sublist_map]. Qed.

Lemma perm_sequences (l k : list OutboxRecord) :
  l ≡ₚ k -> NoDup (map o_Sequence k) -> NoDup (map o_Sequence l).
Proof. intros Hl. by rewrite Hl. Qed.

(** An update of each record on its own. *)
Lemma Forall2_map_same {A} (R : A -> A -> Prop) f l :
  (forall x, x ∈ l -> R x (f x)) -> Forall2 R l (map f l).
Proof.
  intros Hf. induction l as [|x l IH]; cbn; constructor.
  - apply Hf, list_elem_of_here.
  - apply IH. intros y Hy. by apply Hf, list_elem_of_further.
Qed.

(** ** The in-memory store *)

#[export] Instance MemoryStore_OutboxView : OutboxView MemoryStore := {| ob_records := ms_events |}.

Lemma scan_claim_rows now tok until n events :
  Forall2 (fun r r' => same_record r r' /\ same_flag r r') events
    (fst (scan_claim now tok until n events)).
Proof.
  assert (Hid : forall l : list OutboxRecord,
    Forall2 (fun r r' => same_record r r' /\ same_flag r r') l l)
    by (intros l; induction l; constructor; auto; by split).
  revert n. induction events as [|r rest IH]; intros [|n]; [constructor..|apply Hid|].
  cbn [scan_claim]. destruct (outbox_pending now r).
  - specialize (IH n). destruct (scan_claim now tok until n rest). constructor; [by split|exact IH].
  - specialize (IH (S n)). destruct (scan_claim now tok until (S n) rest).
    constructor; [by split|exact IH].
Qed.

Lemma mark_loop_rows seq tok f events evs : (forall r, same_record r (f r)) ->
  NoDup (map o_Sequence events) -> mark_loop seq tok f events = Ok evs ->
  Forall2 (fun r r' => same_record r r' /\ r' = if o_Sequence r =? seq then f r else r) events evs.
Proof.
  intros Hf. revert evs. induction events as [|r rest IH]; cbn [mark_loop map]; intros evs Hn E; [done|].
  apply NoDup_cons in Hn as [Hnot Hn]. destruct (o_Sequence r =? seq) eqn:Eq; cbn [negb] in E.
  - destruct (_ || _); [done|]. injection E as <-. constructor; [split; [done|by rewrite Eq]|].
    rewrite <- (map_id rest) at 2. apply Forall2_map_same. intros x Hx. split; [done|].
    destruct (o_Sequence x =? seq) eqn:Ex; [|done]. b2p. destruct Hnot.
    apply list_elem_of_fmap. exists x. split; [congruence|done].
  - destruct (mark_loop seq tok f rest) as [evs'|]; [|done]. injection E as <-.
    constructor; [split; [done|by rewrite Eq]|]. by apply IH.
Qed.

Lemma mem_mark_law o seq tok f s : (forall r, same_record r (f r)) -> numbered s ->
  match mark_with o seq tok f s with
  | (Ok _, s') => rows_kept (fun r r' => r' = if o_Sequence r =? seq then f r else r) s s'
  | (Err _, s') => s' = s
  end.
Proof.
  intros Hf Hn. unfold mark_with. destruct (MemoryStore_Health o); [done|].
  destruct (mark_loop seq tok f (ms_events s)) as [evs|] eqn:E; [|done].
  exact (mark_loop_rows _ _ _ _ _ Hf Hn E).
Qed.

Lemma mem_claim_outbox_law now1 o limit tok until s : numbered s ->
  match MemoryStore_ClaimPendingOutbox o now1 limit tok until s with
  | (Ok recs, s') =>
      rows_kept same_flag s s' /\
      Z.of_nat (length recs) <= (if limit <=? 0 then 100 else limit) /\
      NoDup (map o_Sequence recs) /\
      Forall (fun r => r ∈ ob_records s' /\ o_Published r = false) recs
  | (Err _, s') => s' = s
  end.
Proof.
  intros Hn. unfold MemoryStore_ClaimPendingOutbox. destruct (MemoryStore_Health o); [done|].
  destruct (_ || _); [done|]. set (now := time_UTC (obs_now o)). set (n := Z.to_nat (default_limit limit)).
  pose proof (scan_claim_rows now tok until n (ms_events s)) as Hk.
  pose proof (scan_claim_marks now tok until n (ms_events s)) as Hin.
  pose proof (scan_claim_recs now tok until n (ms_events s)) as Er.
  destruct (scan_claim now tok until n (ms_events s)) as [evs recs]. cbn in Hk, Hin, Er. subst recs.
  split; [exact Hk|]. rewrite merge_sort_Permutation, length_map.
  set (picks := take n _) in *.
  assert (Hp : picks `sublist_of` ms_events s) by (by etrans; [apply sublist_take|apply sublist_filter]).
  split_and!.
  - unfold picks. rewrite length_take. unfold n, default_limit. destruct (limit <=? 0) eqn:E; b2p; lia.
  - rewrite map_map. exact (sublist_sequences _ _ Hp Hn).
  - apply Forall_forall. intros r Hr. split; [by apply Hin|].
    apply list_elem_of_fmap in Hr as (x & -> & Hx).
    apply (fun H => elem_of_sublist _ _ _ H (sublist_take _ _)), list_elem_of_In, filter_In in Hx as [_ Hx].
    unfold outbox_pending in Hx. cbn. by destruct (o_Published x).
Qed.

#[export] Instance MemoryStore_OutboxLaws : OutboxLaws MemoryStore.
Proof.
  split; cbn.
  - apply mem_claim_outbox_law.
  - intros o seq tok at_ s Hn. pose proof (mem_mark_law o seq tok (published_record at_) s) as L.
    unfold MemoryStore_MarkOutboxPublished. destruct (mark_with _ _ _ _ s) as [[]]; [|by apply L].
    eapply rows_kept_weaken; [|by apply L]. intros r r' ->.
    destruct (o_Sequence r =? seq); [by rewrite orb_true_r|by rewrite orb_false_r].
  - intros o seq tok e retry s Hn. pose proof (mem_mark_law o seq tok (failed_record e retry) s) as L.
    unfold MemoryStore_MarkOutboxFailed. destruct (mark_with _ _ _ _ s) as [[]]; [|by apply L].
    eapply rows_kept_weaken; [|by apply L]. intros r r' ->. by destruct (o_Sequence r =? seq).
Qed.

(** ** The tables *)

Section Tables.
Context (db : Database) `{!DatabaseLaws db}.

#[export] Instance Postgres_OutboxView : OutboxView PgStore := {| ob_records := pg_outbox |}.
#[local] Instance tables_outbox : OutboxStore PgStore := Postgres_OutboxStore db.

Lemma pg_mark_law o seq tok fails set s : (forall r, same_record r (set r)) -> numbered s ->
  match mark_rows db o seq tok fails set s with
  | (Ok _, s') => rows_kept (fun r r' => r' = if o_Sequence r =? seq then set r else r) s s'
  | (Err _, s') => s' = s
  end.
Proof.
  intros Hf Hn. unfold mark_rows, autocommit, raw, update_marked, statement.
  destruct (db_refuses db o SUpdateOutbox); [done|]. destruct (existsb _ _); [done|].
  destruct (List.filter (marks seq tok) (pg_outbox s)) as [|x l] eqn:El; cbn [length Nat.eqb].
  - rewrite map_same; [by destruct s|]. intros r Hr. destruct (marks seq tok r) eqn:Em; [|done].
    assert (Hin : In r (List.filter (marks seq tok) (pg_outbox s)))
      by (apply filter_In; split; [by apply list_elem_of_In|done]).
    by rewrite El in Hin.
  - assert (Hx : In x (List.filter (marks seq tok) (pg_outbox s))) by (rewrite El; by left).
    apply filter_In in Hx as [Hx%list_elem_of_In Hm]. apply Forall2_map_same. intros r Hr.
    split; [destruct (marks seq tok r); [apply Hf|by split]|]. destruct (o_Sequence r =? seq) eqn:Er.
    + assert (r = x) as -> by (eapply numbered_inj; [exact Hn|done..|unfold marks in Hm; b2p; congruence]).
      by rewrite Hm.
    + unfold marks. by rewrite Er.
Qed.

(** The records of a claim were pending. *)
Lemma next_unpublished o limit s r : numbered s -> r ∈ pg_outbox s ->
  has_sequence (next_records db o limit s) r = true -> o_Published r = false.
Proof.
  intros Hn Hr (y & E & Hy)%has_sequence_spec%list_elem_of_fmap.
  destruct (next_in db _ _ _ _ Hy) as [Hin Hp]. rewrite (numbered_inj s r y Hn Hr Hin E).
  unfold record_pending in Hp. by destruct (o_Published y).
Qed.

Lemma claimed_length o limit s : numbered s ->
  (length (List.filter (has_sequence (next_records db o limit s)) (pg_outbox s)) <=
   length (next_records db o limit s))%nat.
Proof.
  intros Hn. rewrite <- (length_map o_Sequence), <- (length_map o_Sequence (next_records _ _ _ _)).
  apply NoDup_incl_length.
  - apply NoDup_ListNoDup. eapply sublist_sequences; [apply sublist_filter|exact Hn].
  - intros z. rewrite <- !list_elem_of_In. intros (r & -> & Hr)%list_elem_of_fmap.
    apply list_elem_of_In, filter_In in Hr as [_ Hr]. by apply has_sequence_spec.
Qed.

Lemma filter_pass o limit tok until s l : List.filter (has_sequence (next_records db o limit s))
    (map (claim_pass db o limit tok until s) l) =
  map (claimed_row db tok until) (List.filter (has_sequence (next_records db o limit s)) l).
Proof.
  induction l as [|r l IH]; [done|]. cbn. unfold claim_pass at 1 2.
  destruct (has_sequence _ r) eqn:E; cbn.
  - assert (E' : has_sequence (next_records db o limit s) (claimed_row db tok until r) = true)
      by exact E. rewrite E'. by rewrite IH.
  - by rewrite E, IH.
Qed.

Lemma pg_claim_outbox_law now1 o limit tok until s : numbered s ->
  match Postgres_ClaimPendingOutbox db now1 o limit tok until s with
  | (Ok recs, s') =>
      rows_kept same_flag s s' /\
      Z.of_nat (length recs) <= (if limit <=? 0 then 100 else limit) /\
      NoDup (map o_Sequence recs) /\
      Forall (fun r => r ∈ ob_records s' /\ o_Published r = false) recs
  | (Err _, s') => s' = s
  end.
Proof.
  intros Hn. unfold Postgres_ClaimPendingOutbox. destruct (_ || _); [done|].
  unfold autocommit, raw, update_claims, statement.
  destruct (db_refuses db o SUpdateOutbox); [done|].
  fold (claim_pass db o limit tok (time_UTC until) s). set (rows := map _ (pg_outbox s)).
  rewrite returning_perm. unfold rows. rewrite filter_pass. fold rows.
  set (picks := List.filter _ (pg_outbox s)).
  assert (Hp : picks `sublist_of` pg_outbox s) by apply sublist_filter.
  split_and!.
  - apply Forall2_map_same. intros r _. unfold claim_pass. by destruct (has_sequence _ r).
  - rewrite length_map. etrans; [apply inj_le, claimed_length, Hn|].
    unfold next_records. rewrite length_take. unfold row_limit.
    destruct (limit <=? 0) eqn:E; b2p; lia.
  - rewrite map_map. exact (sublist_sequences _ _ Hp Hn).
  - apply Forall_forall. intros r (x & -> & Hx)%list_elem_of_fmap.
    apply list_elem_of_In, filter_In in Hx as [Hx%list_elem_of_In Hs]. split.
    + apply (list_elem_of_fmap (claim_pass db o limit tok (time_UTC until) s)). exists x. split; [|done]. unfold claim_pass. by rewrite Hs.
    + by apply (next_unpublished o limit s x Hn).
Qed.

Lemma Postgres_OutboxLaws : OutboxLaws PgStore.
Proof.
  split; cbn.
  - apply pg_claim_outbox_law.
  - intros o seq tok at_ s Hn.
    pose proof (pg_mark_law o seq tok (fun _ => false) (published_row db (time_UTC at_)) s) as L.
    unfold Postgres_MarkOutboxPublished. destruct (mark_rows _ _ _ _ _ _ s) as [[]]; [|by apply L].
    eapply rows_kept_weaken; [|by apply L]. intros r r' ->.
    destruct (o_Sequence r =? seq); [by rewrite orb_true_r|by rewrite orb_false_r].
  - intros o seq tok e retry s Hn. unfold Postgres_MarkOutboxFailed.
    match goal with |- context [mark_rows _ _ _ _ ?f ?g _] => pose proof (pg_mark_law o seq tok f g s) as L end.
    destruct (mark_rows _ _ _ _ _ _ s) as [[]]; [|by apply L].
    eapply rows_kept_weaken; [|by apply L]. intros r r' ->. by destruct (o_Sequence r =? seq).
Qed.
End Tables.
