(* ===== verification/Migrations.v ===== *)
(** * Schema migrations ([internal/postgres/migrations.go])

    [LoadMigrations] reads the versioned files of a directory; [ApplyMigrations] runs
    those that [schema_migrations] does not record, each with its record in one
    transaction. The directory, the effect of a file's SQL on the schema, and the
    statements the server refuses are parameters; the files do not touch
    [schema_migrations] themselves. *)

From S2P Require Import Prelude GoStrings GoStrconv Sha256.

Record Migration := mkMigration {
  mg_Version : string;
  mg_Name : string;
  mg_SQL : string;
  mg_Checksum : string
}.

Record MigrationResult := mkMigrationResult {
  mr_Applied : list Migration;
  mr_Skipped : list Migration
}.

#[export] Instance eta_MigrationResult : Eta MigrationResult := fun r =>
  mkMigrationResult (mr_Applied r) (mr_Skipped r).

(** [fmt.Errorf("msg: %w", err)]. *)
Definition wrapf (msg : string) (err : error) : error :=
  mkError (err_is err) (msg +:+ ": " +:+ Error err).

(** ** Loading *)

Record DirEntry := mkDirEntry { de_Name : string; de_IsDir : bool }.

Definition is_migration (entry : DirEntry) : bool :=
  negb (de_IsDir entry) && HasSuffix (de_Name entry) ".sql".

Definition underscore : ascii := ascii_of_nat 95.

(** [strings.Cut(entry.Name(), "_")] with a nonempty version before the separator. *)
Definition migration_version (name : string) : option string :=
  match Cut underscore name with
  | (version, Some _) => if version ==s "" then None else Some version
  | (_, None) => None
  end.

Definition checksum (raw : list byte) : string := hex_EncodeToString (sha256_Sum256 raw).

Definition name_le (a b : Migration) : Prop := String.leb (mg_Name a) (mg_Name b) = true.
#[export] Instance name_le_dec a b : Decision (name_le a b).
Proof. unfold name_le; apply _. Defined.

Section Load.
(** The directory, and the files of its entries. *)
Context (fs_ReadDir : string -> result (list DirEntry)).
Context (fs_ReadFile : string -> string -> result (list byte)).

Fixpoint load_entries (dir : string) (entries : list DirEntry) : result (list Migration) :=
  match entries with
  | [] => Ok []
  | entry :: entries =>
      if negb (is_migration entry) then load_entries dir entries
      else match fs_ReadFile dir (de_Name entry) with
      | Err err => Err (wrapf ("read migration " +:+ de_Name entry) err)
      | Ok raw =>
          match migration_version (de_Name entry) with
          | None => Err (mkError None
              ("migration " +:+ de_Name entry +:+ " must start with a version prefix"))
          | Some version =>
              let migration :=
                mkMigration version (de_Name entry) (string_of_bytes raw) (checksum raw) in
              migrations <-? load_entries dir entries;
              Ok (migration :: migrations)
          end
      end
  end.

Definition LoadMigrations (dir : string) : result (list Migration) :=
  match fs_ReadDir dir with
  | Err err => Err (wrapf "read migrations dir" err)
  | Ok entries =>
      migrations <-? load_entries dir entries;
      Ok (merge_sort name_le migrations)
  end.

(** The migration of a file. *)
Definition loaded_from (dir : string) (entry : DirEntry) (m : Migration) : Prop :=
  is_migration entry = true /\ mg_Name m = de_Name entry /\
  migration_version (de_Name entry) = Some (mg_Version m) /\
  exists raw, fs_ReadFile dir (de_Name entry) = Ok raw /\
    mg_SQL m = string_of_bytes raw /\ mg_Checksum m = checksum raw.

Lemma load_entries_spec dir entries l : load_entries dir entries = Ok l ->
  Forall2 (loaded_from dir) (List.filter is_migration entries) l.
Proof.
  revert l. induction entries as [|entry entries IH]; intros l H; cbn in *.
  - injection H as <-. constructor.
  - destruct (is_migration entry) eqn:Em; cbn in H; [|auto].
    destruct (fs_ReadFile _ _) as [raw|] eqn:Er; [|done].
    destruct (migration_version _) as [v|] eqn:Ev; [|done].
    destruct (load_entries dir entries) as [l'|]; [|done]. injection H as <-.
    constructor; [|auto]. split_and!; eauto.
Qed.

#[export] Instance name_le_total : Total name_le.
Proof. intros a b. apply String.leb_total. Qed.

(** [LoadMigrations] returns the migrations of the directory's [.sql]
    files, one per file, in the order of their names, each with the version before the
    first underscore of its name and the SHA-256 checksum of its content; it fails when
    a file has no version or cannot be read. *)
Theorem load_migrations_exact dir entries l :
  fs_ReadDir dir = Ok entries -> LoadMigrations dir = Ok l ->
  Sorted name_le l /\
  (exists l', l ≡ₚ l' /\ Forall2 (loaded_from dir) (List.filter is_migration entries) l') /\
  Forall (fun m => mg_Version m <> "") l.
Proof.
  unfold LoadMigrations. intros -> H.
  destruct (load_entries dir entries) as [l'|] eqn:E; [|done]. injection H as <-.
  apply load_entries_spec in E. split_and!.
  - apply Sorted_merge_sort, _.
  - exists l'. split; [apply merge_sort_Permutation|done].
  - rewrite merge_sort_Permutation. apply Forall_forall. intros m [i Hi]%list_elem_of_lookup.
    destruct (Forall2_lookup_r _ _ _ _ _ E Hi) as (entry & _ & _ & _ & Hv & _).
    unfold migration_version in Hv. destruct (Cut underscore _) as [v [r|]]; [|done].
    destruct (v ==s "") eqn:Ev; [done|]. injection Hv as <-. by b2p.
Qed.
End Load.

(** ** Applying *)

(** A row of [schema_migrations], by version. *)
Record AppliedRow := mkAppliedRow { ap_name : string; ap_checksum : string; ap_applied_at : Time }.

(** The statements of a run, by the migration they are for. *)
Inductive MigrationStmt : Set :=
  | MEnsure
  | MSelect (version : string) | MBegin (version : string) | MExec (version : string)
  | MRecord (version : string) | MCommit (version : string).

Section Apply.
(** The schema, the effect of a file's SQL on it, and the refused statements. *)
Context {Schema : Type} (run_sql : string -> Schema -> result Schema).
Context (refuses : MigrationStmt -> option error) (timestamptz : Time -> Time).
(** The text of the server's error on a version already recorded. *)
Context (duplicate : string -> error).

(** [schema_migrations] and the rest of the schema. *)
Record MigrationDB := mkMigrationDB {
  md_applied : gmap string AppliedRow;
  md_schema : Schema
}.

(** One migration's transaction: its SQL, its record, its commit. *)
Definition migrate (m : Migration) (now : Time) (db : MigrationDB) : result MigrationDB :=
  match refuses (MBegin (mg_Version m)) with
  | Some err => Err (wrapf ("begin migration " +:+ mg_Name m) err)
  | None =>
      match
        match refuses (MExec (mg_Version m)) with
        | Some err => Err err
        | None => run_sql (mg_SQL m) (md_schema db)
        end
      with
      | Err err => Err (wrapf ("apply migration " +:+ mg_Name m) err)
      | Ok schema =>
          match
            match refuses (MRecord (mg_Version m)), md_applied db !! mg_Version m with
            | Some err, _ => Some err
            | None, Some _ => Some (duplicate (mg_Version m))
            | None, None => None
            end
          with
          | Some err => Err (wrapf ("record migration " +:+ mg_Name m) err)
          | None =>
              match refuses (MCommit (mg_Version m)) with
              | Some err => Err (wrapf ("commit migration " +:+ mg_Name m) err)
              | None =>
                  let row := mkAppliedRow (mg_Name m) (mg_Checksum m) (timestamptz now) in
                  Ok (mkMigrationDB (<[mg_Version m := row]> (md_applied db)) schema)
              end
          end
      end
  end.

(** [select checksum .. where version = $1]: [None] for any error, [pgx.ErrNoRows] or not. *)
Definition recorded_checksum (m : Migration) (db : MigrationDB) : option string :=
  match refuses (MSelect (mg_Version m)) with
  | Some _ => None
  | None => ap_checksum <$> md_applied db !! mg_Version m
  end.

(** The loop: the result so far, the error that ended it, if any, and the database. *)
Fixpoint apply_loop (migrations : list Migration) (now : Time) (res : MigrationResult)
    (db : MigrationDB) : (MigrationResult * option error) * MigrationDB :=
  match migrations with
  | [] => ((res, None), db)
  | m :: migrations =>
      match recorded_checksum m db with
      | Some currentChecksum =>
          if negb (currentChecksum ==s mg_Checksum m) then
            ((res, Some (mkError None ("migration " +:+ mg_Name m +:+ " checksum mismatch"))), db)
          else apply_loop migrations now (res <| mr_Skipped := mr_Skipped res ++ [m] |>) db
      | None =>
          match migrate m now db with
          | Err err => ((res, Some err), db)
          | Ok db => apply_loop migrations now (res <| mr_Applied := mr_Applied res ++ [m] |>) db
          end
      end
  end.

Definition ApplyMigrations (migrations : list Migration) (now : Time) (db : MigrationDB)
    : (MigrationResult * option error) * MigrationDB :=
  match refuses MEnsure with
  | Some err => ((mkMigrationResult [] [], Some (wrapf "ensure schema_migrations" err)), db)
  | None => apply_loop migrations now (mkMigrationResult [] []) db
  end.

(** ** Each migration once *)

(** A migration the database records, unchanged. *)
Definition recorded (db : MigrationDB) (m : Migration) : Prop :=
  ap_checksum <$> md_applied db !! mg_Version m = Some (mg_Checksum m).

(** The SQL of some migrations, in order. *)
Fixpoint run_all (l : list Migration) (schema : Schema) : result Schema :=
  match l with
  | [] => Ok schema
  | m :: l => schema <-? run_sql (mg_SQL m) schema; run_all l schema
  end.

Lemma migrate_inv m now db db' : migrate m now db = Ok db' ->
  md_applied db !! mg_Version m = None /\ md_applied db ⊆ md_applied db' /\ recorded db' m /\
  run_sql (mg_SQL m) (md_schema db) = Ok (md_schema db') /\
  forall v row, md_applied db' !! v = Some row -> md_applied db !! v = None -> v = mg_Version m.
Proof.
  unfold migrate, recorded. intros H. cases_in H; simplify_eq; cbn. split_and!.
  - done.
  - by apply insert_subseteq.
  - by rewrite lookup_insert_eq.
  - done.
  - intros v row. rewrite lookup_insert_Some. intros [[? _]|[_ ?]]; [done|congruence].
Qed.

Lemma recorded_mono db db' m : md_applied db ⊆ md_applied db' -> recorded db m -> recorded db' m.
Proof.
  unfold recorded. intros Hs. destruct (md_applied db !! mg_Version m) as [row|] eqn:E; [|done].
  by rewrite (lookup_weaken _ _ _ _ E Hs).
Qed.
(** What a run did to the database: [app] applied, [skip] found recorded. *)
Definition ran (db : MigrationDB) (app skip : list Migration) (db' : MigrationDB) : Prop :=
  md_applied db ⊆ md_applied db' /\
  Forall (recorded db') (app ++ skip) /\
  Forall (fun m => md_applied db !! mg_Version m = None) app /\ NoDup (map mg_Version app) /\
  run_all app (md_schema db) = Ok (md_schema db') /\
  (forall v row, md_applied db' !! v = Some row -> md_applied db !! v = None ->
     v ∈ map mg_Version app).

Lemma ran_nil db : ran db [] [] db.
Proof. split_and!; try done; try constructor. congruence. Qed.

Lemma ran_skip m db app skip db' : recorded db m -> ran db app skip db' -> ran db app (m :: skip) db'.
Proof.
  intros Hm (Hsub & Hrec & Hnew & Hnd & Hrun & Honly). split_and!; try done.
  rewrite Forall_app in *. destruct Hrec as [? ?]. split; [done|]. constructor; [|done].
  by eapply recorded_mono.
Qed.

Lemma ran_apply m now db db1 app skip db' :
  migrate m now db = Ok db1 -> ran db1 app skip db' -> ran db (m :: app) skip db'.
Proof.
  intros (Hno & Hsub1 & Hm & Hrun1 & Honly1)%migrate_inv (Hsub & Hrec & Hnew & Hnd & Hrun & Honly).
  assert (Hver : is_Some (md_applied db1 !! mg_Version m)).
  { unfold recorded in Hm. by destruct (md_applied db1 !! mg_Version m). }
  split_and!.
  - by etrans.
  - constructor; [|done]. by eapply recorded_mono.
  - constructor; [done|]. eapply Forall_impl; [exact Hnew|]. intros x Hx. cbn in Hx.
    destruct (md_applied db !! mg_Version x) eqn:E; [|done].
    by rewrite (lookup_weaken _ _ _ _ E Hsub1) in Hx.
  - cbn. constructor; [|done]. intros (x & E & Hx)%list_elem_of_fmap.
    rewrite Forall_forall in Hnew. apply Hnew in Hx. rewrite <- E in Hx. destruct Hver. congruence.
  - cbn. by rewrite Hrun1.
  - intros v row Hv Hn. cbn. apply elem_of_cons.
    destruct (md_applied db1 !! v) as [row1|] eqn:E.
    + left. by eapply Honly1.
    + right. by eapply Honly.
Qed.

Lemma recorded_checksum_Some m db c : recorded_checksum m db = Some c ->
  ap_checksum <$> md_applied db !! mg_Version m = Some c.
Proof. unfold recorded_checksum. by destruct (refuses _). Qed.

Lemma apply_loop_ran migrations now res db res' err db' :
  apply_loop migrations now res db = ((res', err), db') ->
  exists app skip rest, mr_Applied res' = mr_Applied res ++ app /\
    mr_Skipped res' = mr_Skipped res ++ skip /\ migrations ≡ₚ app ++ skip ++ rest /\
    (err = None -> rest = []) /\ ran db app skip db'.
Proof.
  revert res db. induction migrations as [|m ms IH]; intros res db H; cbn in H.
  - injection H as <- <- <-. exists [], [], []. rewrite !app_nil_r. split_and!; auto using ran_nil.
  - assert (Hstop : forall e, err = Some e -> res' = res -> db' = db ->
      exists app skip rest, mr_Applied res' = mr_Applied res ++ app /\
        mr_Skipped res' = mr_Skipped res ++ skip /\ m :: ms ≡ₚ app ++ skip ++ rest /\
        (err = None -> rest = []) /\ ran db app skip db').
    { intros e -> -> ->. exists [], [], (m :: ms). rewrite !app_nil_r.
      split_and!; auto using ran_nil. done. }
    destruct (recorded_checksum m db) as [c|] eqn:Ec.
    + destruct (negb _) eqn:En; [injection H as <- <- <-; eauto|]. b2p. subst c.
      apply recorded_checksum_Some in Ec.
      apply IH in H as (app & skip & rest & Ea & Es & Hp & Hr & Hran).
      exists app, (m :: skip), rest. split_and!; [done| | |done|by apply ran_skip].
      * rewrite Es. cbn. by rewrite <- app_assoc.
      * rewrite Hp. cbn. apply Permutation_middle.
    + destruct (migrate m now db) as [db1|e] eqn:Em; [|injection H as <- <- <-; eauto].
      apply IH in H as (app & skip & rest & Ea & Es & Hp & Hr & Hran).
      exists (m :: app), skip, rest. split_and!; [|done| |done|by eapply ran_apply].
      * rewrite Ea. cbn. by rewrite <- app_assoc.
      * by rewrite Hp.
Qed.

Lemma apply_ran migrations now db res err db' :
  ApplyMigrations migrations now db = ((res, err), db') ->
  exists rest, migrations ≡ₚ mr_Applied res ++ mr_Skipped res ++ rest /\
    (err = None -> rest = []) /\ ran db (mr_Applied res) (mr_Skipped res) db'.
Proof.
  unfold ApplyMigrations. destruct (refuses MEnsure).
  - intros [= <- <- <-]. exists migrations. split_and!; auto using ran_nil. done.
  - intros (app & skip & rest & -> & -> & ?)%apply_loop_ran. by exists rest.
Qed.

(** A run over recorded migrations finds them all, when the server answers. *)
Lemma apply_loop_skips migrations now res db :
  (forall v, refuses (MSelect v) = None) -> Forall (recorded db) migrations ->
  apply_loop migrations now res db =
  ((mkMigrationResult (mr_Applied res) (mr_Skipped res ++ migrations), None), db).
Proof.
  intros Hans Hrec. revert res. induction Hrec as [|m ms Hm Hrec IH]; intros res; cbn.
  - rewrite app_nil_r. by destruct res.
  - unfold recorded_checksum. rewrite Hans, Hm, String.eqb_refl. cbn. rewrite IH. cbn.
    by rewrite <- app_assoc.
Qed.
End Apply.

(** C31: a run applies each migration at most once and all or nothing with its
    record: whatever the server refuses, what was recorded stays, the applied
    migrations were not recorded before, they and the skipped ones are recorded under
    their checksum, the schema is the result of the applied ones' SQL in order, and
    nothing else is recorded. After a run without error every migration is recorded under its
    checksum (a file changed since is an error), and every later run the server answers
    applies nothing. *)
Theorem migrations_once {Schema} run_sql refuses timestamptz duplicate migrations now
    (db db' : @MigrationDB Schema) res err :
  ApplyMigrations run_sql refuses timestamptz duplicate migrations now db = ((res, err), db') ->
  ran run_sql db (mr_Applied res) (mr_Skipped res) db' /\
  (err = None -> migrations ≡ₚ mr_Applied res ++ mr_Skipped res /\
     Forall (recorded db') migrations /\
     forall refuses2 now2, refuses2 MEnsure = None ->
       (forall v, refuses2 (MSelect v) = None) ->
       ApplyMigrations run_sql refuses2 timestamptz duplicate migrations now2 db' =
       ((mkMigrationResult [] migrations, None), db')).
Proof.
  intros (rest & Hp & Hrest & Hran)%apply_ran. split; [done|]. intros He.
  rewrite (Hrest He), app_nil_r in Hp. clear Hrest.
  assert (Hrec : Forall (recorded db') migrations) by (rewrite Hp; apply Hran).
  split_and!; [done|done|]. intros refuses2 now2 Hens Hsel. unfold ApplyMigrations. rewrite Hens.
  by apply apply_loop_skips.
Qed.
