(* ===== verification/Api.v ===== *)
(** * The HTTP API ([internal/api/server.go])

    Routing with the role each endpoint requires, the two middlewares, the handlers
    over the switch, the callback signature, the error envelope and the bodies. A
    handler is an effect on the store, the limiters and the metrics that always
    yields a response. [net/http] is modelled as far as the server uses it: the mux
    matches the method and the segments of a clean path (it redirects others), and
    [Header.Get] is a function. Logging and tracing have no effect on the state. *)

From S2P Require Import Prelude GoStrings GoStrconv GoTime Sha256 Rail Events RateLimit StoreSpec Effects Switcher JsonDecode Config Metrics.

(** ** Requests and responses *)

(** [rq_Body] is [None] when the body cannot be read; [rq_Segments] are the decoded
    segments the mux matches, [rq_Path] is [r.URL.Path]. *)
Record Request := mkRequest {
  rq_Method : string;
  rq_Path : string;
  rq_Segments : list string;
  rq_Header : string -> string;
  rq_Body : option (list byte)
}.

Inductive Body : Type :=
  | JSONBody (j : json)
  | TextBody (s : string).

Record Response := mkResponse {
  rs_Status : Z;
  rs_Header : list (string * string);
  rs_Body : Body
}.

Definition StatusOK : Z := 200.
Definition StatusCreated : Z := 201.
Definition StatusBadRequest : Z := 400.
Definition StatusUnauthorized : Z := 401.
Definition StatusForbidden : Z := 403.
Definition StatusNotFound : Z := 404.
Definition StatusMethodNotAllowed : Z := 405.
Definition StatusConflict : Z := 409.
Definition StatusTooManyRequests : Z := 429.
Definition StatusInternalServerError : Z := 500.
Definition StatusBadGateway : Z := 502.
Definition StatusServiceUnavailable : Z := 503.

Definition writeJSON (status : Z) (payload : json) : Response :=
  mkResponse status [("Content-Type", "application/json")] (JSONBody payload).

(** Every caller passes [nil] as details. *)
Definition writeError (status : Z) (code message : string) : Response :=
  writeJSON status (JObject [("error",
    JObject [("code", JString code); ("message", JString message); ("details", JNull)])]).

Definition handleDomainError (err : error) : Response :=
  if errors_Is err ErrValidation then writeError StatusBadRequest "validation_failed" (Error err)
  else if errors_Is err ErrUnauthorized then
    writeError StatusUnauthorized "unauthorized" (Error err)
  else if errors_Is err ErrRateLimited then
    writeError StatusTooManyRequests "rate_limited" (Error err)
  else if errors_Is err ErrNotFound then writeError StatusNotFound "not_found" (Error err)
  else if errors_Is err ErrConflict then writeError StatusConflict "conflict" (Error err)
  else if errors_Is err ErrDependencyFailed then
    writeError StatusBadGateway "dependency_failed" (Error err)
  else writeError StatusInternalServerError "internal_error" "unexpected error".

Definition transferResponse (transfer : Transfer) (replay : bool) : json :=
  JObject [
    ("data", JObject [
      ("id", JString (t_ID transfer));
      ("tenant_id", JString (t_TenantID transfer));
      ("account_id", JString (t_AccountID transfer));
      ("status", JString (t_Status transfer));
      ("amount_cents", JInt (t_AmountCents transfer));
      ("currency", JString (t_Currency transfer));
      ("receiver_key_type", JString (t_ReceiverKeyType transfer));
      ("receiver_name", JString (t_ReceiverName transfer));
      ("receiver_bank", JString (t_ReceiverBank transfer));
      ("fraud_score", JInt (t_FraudScore transfer));
      ("fraud_rules", JStrings (t_FraudRules transfer));
      ("decision_reason", JString (t_DecisionReason transfer));
      ("spi_message_id", JString (t_SPIMessageID transfer));
      ("end_to_end_id", JString (t_EndToEndID transfer));
      ("settlement_code", JString (t_SettlementCode transfer));
      ("created_at", JTime (t_CreatedAt transfer));
      ("updated_at", JTime (t_UpdatedAt transfer))]);
    ("meta", JObject [("idempotent_replay", JBool replay)])].

(** The JSON form of an outbox record: field names, and the event's own tags. *)
Definition json_time_ptr (p : option Time) : json :=
  match p with Some t => JTime t | None => JNull end.

Definition event_json (e : Event) : json := JStruct [
  ("event_id", JString (e_EventID e)); ("event_type", JString (e_EventType e));
  ("schema_version", JString (e_SchemaVersion e)); ("occurred_at", JTime (e_OccurredAt e));
  ("producer", JString (e_Producer e)); ("tenant_id", JString (e_TenantID e));
  ("account_id", JString (e_AccountID e)); ("pix_transfer_id", JString (e_TransferID e));
  ("correlation_id", JString (e_CorrelationID e)); ("payload", JRaw (e_Payload e))].

Definition outbox_json (r : OutboxRecord) : json := JStruct [
  ("Sequence", JInt (o_Sequence r)); ("Event", event_json (o_Event r));
  ("Published", JBool (o_Published r)); ("Attempts", JInt (o_Attempts r));
  ("LastError", JString (o_LastError r)); ("AvailableAt", JTime (o_AvailableAt r));
  ("ClaimToken", JString (o_ClaimToken r)); ("ClaimedUntil", json_time_ptr (o_ClaimedUntil r));
  ("DispatchedAt", json_time_ptr (o_DispatchedAt r))].

(** ** Request bodies *)

Record createTransferPayload := mkCreateTransferPayload {
  cp_AccountID : string;
  cp_AmountCents : Z;
  cp_Currency : string;
  cp_ReceiverKey : string;
  cp_ReceiverKeyType : DictKeyType;
  cp_Description : string
}.
#[export] Instance eta_createTransferPayload : Eta createTransferPayload := fun p =>
  mkCreateTransferPayload (cp_AccountID p) (cp_AmountCents p) (cp_Currency p)
    (cp_ReceiverKey p) (cp_ReceiverKeyType p) (cp_Description p).

Definition create_fields : list (field createTransferPayload) := [
  mkField "account_id" (string_setter (fun v p => p <| cp_AccountID := v |>));
  mkField "amount_cents" (int64_setter (fun v p => p <| cp_AmountCents := v |>));
  mkField "currency" (string_setter (fun v p => p <| cp_Currency := v |>));
  mkField "receiver_key" (string_setter (fun v p => p <| cp_ReceiverKey := v |>));
  mkField "receiver_key_type" (string_setter (fun v p => p <| cp_ReceiverKeyType := v |>));
  mkField "description" (string_setter (fun v p => p <| cp_Description := v |>))].

Record reviewPayload := mkReviewPayload { rp_Decision : ReviewDecision; rp_Reason : string }.
#[export] Instance eta_reviewPayload : Eta reviewPayload := fun p =>
  mkReviewPayload (rp_Decision p) (rp_Reason p).

Definition review_fields : list (field reviewPayload) := [
  mkField "decision" (string_setter (fun v p => p <| rp_Decision := v |>));
  mkField "reason" (string_setter (fun v p => p <| rp_Reason := v |>))].

Record settlementPayload := mkSettlementPayload {
  sp_SPIMessageID : string;
  sp_Status : SettlementStatus;
  sp_Code : string
}.
#[export] Instance eta_settlementPayload : Eta settlementPayload := fun p =>
  mkSettlementPayload (sp_SPIMessageID p) (sp_Status p) (sp_Code p).

Definition settlement_fields : list (field settlementPayload) := [
  mkField "spi_message_id" (string_setter (fun v p => p <| sp_SPIMessageID := v |>));
  mkField "status" (string_setter (fun v p => p <| sp_Status := v |>));
  mkField "code" (string_setter (fun v p => p <| sp_Code := v |>))].

(** [json.NewDecoder(r.Body).Decode(&payload)]. *)
Definition decode_body {S} (fields : list (field S)) (zero : S) (body : option (list byte))
    : option S :=
  match body with
  | None => None
  | Some raw =>
      match decoder_value raw with Some v => decode_struct fields zero v | None => None end
  end.

(** [json.Unmarshal(raw, &payload)]. *)
Definition unmarshal_body {S} (fields : list (field S)) (zero : S) (raw : list byte) : option S :=
  match unmarshal_value raw with Some v => decode_struct fields zero v | None => None end.

Definition invalid_json : Response :=
  writeError StatusBadRequest "invalid_json" "request body must be valid JSON".

(** ** Routes *)

Inductive Route : Type :=
  | RHealth | RReady | RMetrics
  | RCreateTransfer
  | RGetTransfer (id : string)
  | RSubmitToSPI (id : string)
  | RRecordReview (id : string)
  | RRecordSettlement (id : string)
  | ROutbox.

(** The path patterns of [routes], each with its method. *)
Definition match_path (segments : list string) : option (Route * string) :=
  match segments with
  | ["healthz"] => Some (RHealth, "GET")
  | ["readyz"] => Some (RReady, "GET")
  | ["metrics"] => Some (RMetrics, "GET")
  | ["v1"; "pix"; "transfers"] => Some (RCreateTransfer, "POST")
  | ["v1"; "pix"; "transfers"; id] => Some (RGetTransfer id, "GET")
  | ["v1"; "pix"; "transfers"; id; "spi-submissions"] => Some (RSubmitToSPI id, "POST")
  | ["v1"; "pix"; "transfers"; id; "reviews"] => Some (RRecordReview id, "POST")
  | ["v1"; "pix"; "transfers"; id; "spi-callbacks"] => Some (RRecordSettlement id, "POST")
  | ["v1"; "outbox"] => Some (ROutbox, "GET")
  | _ => None
  end.

(** The mux: a [GET] pattern also serves [HEAD]. *)
Definition mux_match (r : Request) : Route + Z :=
  match match_path (rq_Segments r) with
  | None => inr StatusNotFound
  | Some (route, method) =>
      if (rq_Method r ==s method) || ((method ==s "GET") && (rq_Method r ==s "HEAD"))
      then inl route else inr StatusMethodNotAllowed
  end.

(** The role a route requires, if any. *)
Definition route_role (route : Route) : option APIKeyRole :=
  match route with
  | RHealth | RReady | RMetrics => None
  | RCreateTransfer | RGetTransfer _ | ROutbox => Some RoleTenant
  | RSubmitToSPI _ => Some RoleWorker
  | RRecordReview _ => Some RoleRisk
  | RRecordSettlement _ => Some RoleProvider
  end.

Definition mux_error (status : Z) : Response :=
  mkResponse status [("Content-Type", "text/plain; charset=utf-8")]
    (TextBody (if status =? StatusNotFound then "404 page not found" +:+ newline
               else "Method Not Allowed" +:+ newline)).

Definition routeLabel (r : Request) : string :=
  let path := rq_Path r in
  let transfers := HasPrefix path "/v1/pix/transfers/" in
  if transfers && HasSuffix path "/spi-callbacks" then "/v1/pix/transfers/{id}/spi-callbacks"
  else if transfers && HasSuffix path "/spi-submissions" then
    "/v1/pix/transfers/{id}/spi-submissions"
  else if transfers && HasSuffix path "/reviews" then "/v1/pix/transfers/{id}/reviews"
  else if transfers then "/v1/pix/transfers/{id}"
  else path.

(** ** The server *)

Record SecurityConfig := mkSecurityConfig {
  sec_ProviderCallbackSecret : string;
  sec_SignatureTolerance : Duration
}.

(** The security settings of [NewServer]. *)
Definition server_security (security : option SecurityConfig) : SecurityConfig :=
  let c := default (mkSecurityConfig "" (5 * Minute)) security in
  if sec_SignatureTolerance c <=? 0
  then mkSecurityConfig (sec_ProviderCallbackSecret c) (5 * Minute) else c.

Definition providerCallbackSignature (secret timestamp : string) (body : list byte) : string :=
  "sha256=" +:+ hex_EncodeToString (hmac_sha256 (bytes_of_string secret)
    (bytes_of_string timestamp ++ bytes_of_string "." ++ body)).

(** [time.Unix(sec, 0)]: the seconds after year 1 are an [int64]. *)
Definition time_Unix (sec : Z) : Time := int64 (sec + 62135596800) * Second.

Definition unauthorized (message : string) : Response :=
  writeError StatusUnauthorized "unauthorized" message.

Section Server.
Context `{Store St} `{Strategy LT} `{Strategy LD}.
Context (env : Env St) (sv : Service) (keys : gmap string APIKey) (security : SecurityConfig).

Local Abbreviation Limits := (Limits LT LD).
Local Abbreviation M := (@M St (Limits * Metrics)).

(** A call of the switch, which does not touch the metrics. *)
Definition on_limits {A} (m : @Effects.M St Limits A) : M A := fun w =>
  let '(r, w') := m (mkWorld (w_store w) (fst (w_rest w)) (w_tick w)) in
  (r, mkWorld (w_store w') (w_rest w', snd (w_rest w)) (w_tick w')).

(** A call of the metrics. *)
Definition on_metrics (f : Metrics -> Metrics) : M unit := fun w =>
  (Ok tt, mkWorld (w_store w) (fst (w_rest w), f (snd (w_rest w))) (w_tick w)).

(** The end of the four mutating handlers: the error envelope, or the metrics and the
    transfer with the status [ok] chooses. *)
Definition respond (ok : bool -> Z) (r : result Result) : M Response :=
  match r with
  | Err err => ret (handleDomainError err)
  | Ok result =>
      _ <- on_metrics (Metrics_ObserveDecision (t_Status (r_Transfer result)));;
      _ <- on_metrics (Metrics_ObserveEvents (Z.of_nat (length (r_Events result))));;
      ret (writeJSON (ok (r_IdempotentReplay result))
             (transferResponse (r_Transfer result) (r_IdempotentReplay result)))
  end.

Definition health : M Response :=
  ret (writeJSON StatusOK
         (JObject [("status", JString "ok"); ("component", JString "pixrail-api")])).

Definition ready : M Response :=
  r <- attempt (on_limits (Service_Health env));;
  match r with
  | Err err =>
      ret (writeJSON StatusServiceUnavailable
             (JObject [("status", JString "unavailable"); ("dependency", JString "store");
                       ("error", JString (Error err))]))
  | Ok _ =>
      ret (writeJSON StatusOK
             (JObject [("status", JString "ready"); ("dependency", JString "store")]))
  end.

(** [rt] is what the runtime reports; the text cannot fail ([metrics_history]). *)
Definition metricsHandler (rt : RuntimeStats) : M Response := fun w =>
  (Ok (mkResponse StatusOK [("Content-Type", "text/plain; version=0.0.4")]
         (TextBody (default "" (Metrics_WritePrometheus rt (snd (w_rest w)))))), w).

Definition createTransfer (tenantID correlationID : string) (r : Request) : M Response :=
  match decode_body create_fields (mkCreateTransferPayload "" 0 "" "" "" "") (rq_Body r) with
  | None => ret invalid_json
  | Some payload =>
      now <- s_now env;;
      result <- attempt (on_limits (Service_CreateTransfer env sv {|
        cr_TenantID := tenantID;
        cr_AccountID := cp_AccountID payload;
        cr_IdempotencyKey := rq_Header r "Idempotency-Key";
        cr_CorrelationID := correlationID;
        cr_AmountCents := cp_AmountCents payload;
        cr_Currency := cp_Currency payload;
        cr_ReceiverKey := cp_ReceiverKey payload;
        cr_ReceiverKeyType := cp_ReceiverKeyType payload;
        cr_Description := cp_Description payload;
        cr_RequestedAt := time_UTC now |}));;
      respond (fun replay => if replay then StatusOK else StatusCreated) result
  end.

Definition getTransfer (tenantID id : string) : M Response :=
  r <- attempt (on_limits (Service_GetTransfer env tenantID id));;
  match r with
  | Err err => ret (handleDomainError err)
  | Ok transfer => ret (writeJSON StatusOK (transferResponse transfer false))
  end.

Definition submitToSPI (tenantID correlationID id : string) : M Response :=
  result <- attempt (on_limits (Service_SubmitToSPI env sv tenantID id correlationID));;
  respond (fun _ => StatusOK) result.

Definition recordReview (tenantID correlationID id : string) (r : Request) : M Response :=
  match decode_body review_fields (mkReviewPayload "" "") (rq_Body r) with
  | None => ret invalid_json
  | Some payload =>
      now <- s_now env;;
      result <- attempt (on_limits (Service_RecordReview env {|
        rv_TenantID := tenantID;
        rv_TransferID := id;
        rv_Decision := rp_Decision payload;
        rv_Reason := rp_Reason payload;
        rv_CorrelationID := correlationID;
        rv_ReviewedAt := time_UTC now |}));;
      respond (fun _ => StatusOK) result
  end.

(** [readAndVerifyProviderCallback] at the clock reading [now]. *)
Definition verifyProviderCallback (now : Time) (r : Request) : Response + list byte :=
  match rq_Body r with
  | None => inl (writeError StatusBadRequest "invalid_json"
                   "request body is too large or unreadable")
  | Some raw =>
      if 2^20 <? Z.of_nat (length raw) then
        inl (writeError StatusBadRequest "invalid_json"
               "request body is too large or unreadable")
      else
        let secret := TrimSpace (sec_ProviderCallbackSecret security) in
        let timestamp := TrimSpace (rq_Header r "X-PixRail-Timestamp") in
        let signature := TrimSpace (rq_Header r "X-PixRail-Signature") in
        if secret ==s "" then
          inl (unauthorized "provider callback signature is required")
        else if (timestamp ==s "") || (signature ==s "") then
          inl (unauthorized "provider callback signature is required")
        else match parse_int timestamp with
        | inr _ => inl (unauthorized "provider callback timestamp is invalid")
        | inl epoch =>
            let delta := time_Sub (time_UTC now) (time_UTC (time_Unix epoch)) in
            if (sec_SignatureTolerance security <? delta) ||
               (delta <? int64 (- sec_SignatureTolerance security)) then
              inl (unauthorized "provider callback timestamp is outside tolerance")
            else if negb (signature ==s providerCallbackSignature secret timestamp raw) then
              inl (unauthorized "provider callback signature is invalid")
            else inr raw
        end
  end.

Definition recordSettlement (tenantID correlationID id : string) (r : Request) : M Response :=
  now <- s_now env;;
  match verifyProviderCallback now r with
  | inl resp => ret resp
  | inr raw =>
      match unmarshal_body settlement_fields (mkSettlementPayload "" "" "") raw with
      | None => ret invalid_json
      | Some payload =>
          now <- s_now env;;
          result <- attempt (on_limits (Service_RecordSettlement env {|
            cb_TenantID := tenantID;
            cb_TransferID := id;
            cb_SPIMessageID := sp_SPIMessageID payload;
            cb_Status := sp_Status payload;
            cb_Code := sp_Code payload;
            cb_CorrelationID := correlationID;
            cb_ReceivedAt := time_UTC now;
            cb_CallbackHash := "" |}));;
          respond (fun _ => StatusOK) result
      end
  end.

(** The loop of [outbox]: the records of the tenant. *)
Definition tenant_records (tenantID : string) (records : list OutboxRecord) : list OutboxRecord :=
  List.filter (fun record => e_TenantID (o_Event record) ==s tenantID) records.

Definition outbox (tenantID : string) : M Response :=
  r <- attempt (on_limits (Service_Outbox env));;
  match r with
  | Err err => ret (writeError StatusInternalServerError "outbox_read_failed" (Error err))
  | Ok records =>
      ret (writeJSON StatusOK
             (JObject [("data", JArray (map outbox_json (tenant_records tenantID records)))]))
  end.

(** ** Middlewares *)

(** The key a request presents. *)
Definition request_token (r : Request) : string :=
  let token := TrimPrefix (rq_Header r "Authorization") "Bearer " in
  if token ==s "" then rq_Header r "X-API-Key" else token.

(** [authRole]: the tenant of the key, or the refusal. *)
Definition authRole (role : APIKeyRole) (r : Request) : Response + string :=
  match keys !! request_token r with
  | None => inl (unauthorized "valid API key is required")
  | Some key =>
      if negb (APIKey_HasRole key role) then
        inl (writeError StatusForbidden "forbidden"
               "API key is not allowed to access this endpoint")
      else inr (ak_TenantID key)
  end.

(** The handler of a route, for an authenticated tenant. *)
Definition handle (rt : RuntimeStats) (route : Route) (tenantID correlationID : string)
    (r : Request) : M Response :=
  match route with
  | RHealth => health
  | RReady => ready
  | RMetrics => metricsHandler rt
  | RCreateTransfer => createTransfer tenantID correlationID r
  | RGetTransfer id => getTransfer tenantID id
  | RSubmitToSPI id => submitToSPI tenantID correlationID id
  | RRecordReview id => recordReview tenantID correlationID id r
  | RRecordSettlement id => recordSettlement tenantID correlationID id r
  | ROutbox => outbox tenantID
  end.

(** The mux with the handlers [routes] registers. *)
Definition serve_mux (rt : RuntimeStats) (correlationID : string) (r : Request) : M Response :=
  match mux_match r with
  | inr status => ret (mux_error status)
  | inl route =>
      match route_role route with
      | None => handle rt route "" correlationID r
      | Some role =>
          match authRole role r with
          | inl resp => ret resp
          | inr tenantID => handle rt route tenantID correlationID r
          end
      end
  end.

Definition headerOrNew (value prefix : string) : M string :=
  let value := TrimSpace value in
  if negb (value ==s "") then ret value
  else
    now <- s_now env;;
    ret (prefix +:+ "_" +:+ format_compact now +:+ pad0 9 (now mod Second)).

(** [logAndMetricsMiddleware] around the mux. *)
Definition Server_ServeHTTP (rt : RuntimeStats) (r : Request) : M Response :=
  started <- s_now env;;
  requestID <- headerOrNew (rq_Header r "X-Request-ID") "req";;
  correlationID <- headerOrNew (rq_Header r "X-Correlation-ID") "corr";;
  resp <- serve_mux rt correlationID r;;
  finished <- s_now env;;
  let elapsed := time_Sub finished started in
  _ <- on_metrics (Metrics_ObserveRequest (rq_Method r) (routeLabel r) (rs_Status resp) elapsed);;
  ret (mkResponse (rs_Status resp)
         ([("X-Request-ID", requestID); ("X-Correlation-ID", correlationID)] ++ rs_Header resp)
         (rs_Body resp)).
End Server.
