(* ===== verification/ApiProps.v ===== *)
(** * Correctness of the HTTP API

    What [Server.ServeHTTP] does with a request, over any store that meets the
    contract and with other calls interleaved: who is let through, what the switch is
    asked, what is answered and counted. [served] is the abstract specification;
    authorisation, callback authenticity, tenant confinement and the store contract
    are read off it. *)

From S2P Require Import Prelude GoStrings GoStrconv GoTime Sha256 Rail Events RateLimit StoreSpec Effects Switcher SwitcherProps Evidence JsonDecode Config Metrics Api.

(** ** Calls of the switch and of the metrics *)

Section Rules.
Context {St LT LD : Type}.
Implicit Types h : World St (Limits LT LD * Metrics).

(** The world the switch sees, and the metrics. *)
Definition switch_world h : World St (Limits LT LD) :=
  mkWorld (w_store h) (fst (w_rest h)) (w_tick h).
Definition metrics_of h : Metrics := snd (w_rest h).

Lemma wp_on_limits {A} (m : @Effects.M St (Limits LT LD) A) h Q :
  wp m (switch_world h) (fun r w =>
    Q r (mkWorld (w_store w) (w_rest w, metrics_of h) (w_tick w))) ->
  wp (on_limits m) h Q.
Proof.
  unfold wp, on_limits. fold (switch_world h) (metrics_of h). by destruct (m (switch_world h)).
Qed.

Lemma wp_on_metrics f h Q :
  Q (Ok tt) (mkWorld (w_store h) (fst (w_rest h), f (metrics_of h)) (w_tick h)) ->
  wp (on_metrics f) h Q.
Proof. done. Qed.
End Rules.

Ltac api_step :=
  lazymatch goal with
  | |- wp (on_limits _) _ _ => apply wp_on_limits
  | |- wp (on_metrics _) _ _ => apply wp_on_metrics
  | _ => wp_step
  end.
Ltac api_steps := repeat (cbv beta iota; api_step).

(** ** Callback signatures *)

(** A callback the provider signed: its body within the limit, its timestamp an
    integer within the tolerance of the clock reading [now], and its signature the
    HMAC of timestamp and body under the configured secret. *)
Definition authentic (security : SecurityConfig) (now : Time) (r : Request) (raw : list byte)
    : Prop :=
  let secret := TrimSpace (sec_ProviderCallbackSecret security) in
  let timestamp := TrimSpace (rq_Header r "X-PixRail-Timestamp") in
  exists epoch, rq_Body r = Some raw /\ Z.of_nat (length raw) <= 2^20 /\ secret <> "" /\
    parse_int timestamp = inl epoch /\
    Z.abs (now - time_Unix epoch) <= sec_SignatureTolerance security /\
    TrimSpace (rq_Header r "X-PixRail-Signature") =
      "sha256=" +:+ hex_EncodeToString (hmac_sha256 (bytes_of_string secret)
        (bytes_of_string timestamp ++ bytes_of_string "." ++ raw)).

(** What [NewServer] makes of any configuration whose tolerance is a duration that
    does not saturate. *)
Definition tolerance_ok (security : SecurityConfig) : Prop :=
  0 < sec_SignatureTolerance security < max_int64.

Lemma within_tolerance tol now t : 0 < tol < max_int64 ->
  time_Sub now t <= tol /\ int64 (- tol) <= time_Sub now t <-> Z.abs (now - t) <= tol.
Proof.
  intros Ht. rewrite int64_id by int_lia. unfold time_Sub.
  unfold min_int64, max_int64 in *. lia.
Qed.

(** The check lets exactly the authentic callbacks through. *)
Lemma verify_authentic security now r raw : tolerance_ok security ->
  verifyProviderCallback security now r = inr raw <-> authentic security now r raw.
Proof.
  intros Htol. unfold verifyProviderCallback, authentic, unauthorized.
  set (secret := TrimSpace (sec_ProviderCallbackSecret security)).
  set (timestamp := TrimSpace (rq_Header r "X-PixRail-Timestamp")).
  set (signature := TrimSpace (rq_Header r "X-PixRail-Signature")).
  split.
  - intros E. cases_in E; simplify_eq. b2p. eexists. split_and!; try done.
    by apply within_tolerance.
  - intros (epoch & -> & Hl & Hs & Hp & Hd & Hsig). fold signature in Hsig.
    apply within_tolerance in Hd as [Hd1 Hd2]; [|done].
    rewrite (proj2 (Z.ltb_ge _ _) Hl), (proj2 (String.eqb_neq _ _) Hs), Hp.
    assert (Ht : timestamp <> "") by (intros E; by rewrite E in Hp).
    rewrite (proj2 (String.eqb_neq _ _) Ht), Hsig.
    unfold time_UTC. rewrite (proj2 (Z.ltb_ge _ _) Hd1), (proj2 (Z.ltb_ge _ _) Hd2).
    unfold providerCallbackSignature. rewrite String.eqb_refl. cbn [orb negb].
    destruct (_ ==s "") eqn:E; [|done]. by apply String.eqb_eq in E.
Qed.

(** ** What a request does *)

Section Api.
Context `{StoreLaws St} `{Strategy LT} `{Strategy LD}.
Context (env : Env St) (sv : Service) (keys : gmap string APIKey) (security : SecurityConfig).
Local Abbreviation HTTPWorld := (World St (Limits LT LD * Metrics)).
Implicit Types h : HTTPWorld.

(** Nothing happened. *)
Definition refused h h' : Prop := w_store h' = w_store h /\ w_rest h' = w_rest h.

(** The request wrote nothing; other calls may have run. *)
Definition idle h h' : Prop :=
  untouched env (w_store h) (w_store h') /\ w_rest h' = w_rest h.

(** A result of the switch as it is answered and counted. *)
Definition reported (ok : bool -> Z) (res : result Result) (resp : Response) (m m' : Metrics)
    : Prop :=
  match res with
  | Err e => resp = handleDomainError e /\ m' = m
  | Ok x =>
      resp = writeJSON (ok (r_IdempotentReplay x))
               (transferResponse (r_Transfer x) (r_IdempotentReplay x)) /\
      m' = Metrics_ObserveEvents (Z.of_nat (length (r_Events x)))
             (Metrics_ObserveDecision (t_Status (r_Transfer x)) m)
  end.

(** The requests the handlers make of the switch. *)
Definition create_request (tn corr : string) (r : Request) (p : createTransferPayload) (at_ : Time)
    : CreateTransferRequest :=
  mkCreateTransferRequest tn (cp_AccountID p) (rq_Header r "Idempotency-Key") corr
    (cp_AmountCents p) (cp_Currency p) (cp_ReceiverKey p) (cp_ReceiverKeyType p)
    (cp_Description p) at_.
Definition review_request (tn corr id : string) (p : reviewPayload) (at_ : Time)
    : ReviewDecisionRequest :=
  mkReviewDecisionRequest tn id (rp_Decision p) (rp_Reason p) corr at_.
Definition settlement_request (tn corr id : string) (p : settlementPayload) (at_ : Time)
    : SettlementCallback :=
  mkSettlementCallback tn id (sp_SPIMessageID p) (sp_Status p) (sp_Code p) "" corr at_.

Definition created (replay : bool) : Z := if replay then StatusOK else StatusCreated.
Definition always_ok (_ : bool) : Z := StatusOK.

Definition decode_create (r : Request) : option createTransferPayload :=
  decode_body create_fields (mkCreateTransferPayload "" 0 "" "" "" "") (rq_Body r).
Definition decode_review (r : Request) : option reviewPayload :=
  decode_body review_fields (mkReviewPayload "" "") (rq_Body r).

(** A handler's contract, for the tenant [tn] of the key. *)
Definition handled (route : Route) (tn corr : string) (r : Request) h (resp : Response) h' : Prop :=
  let w := switch_world h in
  let w' := switch_world h' in
  let reports ok res := reported ok res resp (metrics_of h) (metrics_of h') in
  match route with
  | RHealth | RMetrics => rs_Status resp = StatusOK /\ refused h h'
  | RReady =>
      idle h h' /\
      exists k, rs_Status resp = match Health (obs_at env k) (w_store h') with
                                 | None => StatusOK | Some _ => StatusServiceUnavailable end
  | RCreateTransfer =>
      match decode_create r with
      | None => resp = invalid_json /\ refused h h'
      | Some p => exists k res,
          create_post env sv (create_request tn corr r p (env_now env k)) w res w' /\ reports created res
      end
  | RGetTransfer id =>
      idle h h' /\
      (resp = match st_owned (w_store h') tn id with
              | Some t => writeJSON StatusOK (transferResponse t false)
              | None => handleDomainError (sentinel ErrNotFound)
              end \/
       exists k e, ~ st_avail (obs_at env k) /\ resp = handleDomainError e)
  | RSubmitToSPI id => exists res,
      submit_post env (TrimSpace tn) (TrimSpace id) w res w' /\ reports always_ok res
  | RRecordReview id =>
      match decode_review r with
      | None => resp = invalid_json /\ refused h h'
      | Some p => exists k res,
          review_post env (review_request tn corr id p (env_now env k)) w res w' /\ reports always_ok res
      end
  | RRecordSettlement id => exists k,
      match verifyProviderCallback security (env_now env k) r with
      | inl refusal => resp = refusal /\ refused h h'
      | inr raw =>
          match unmarshal_body settlement_fields (mkSettlementPayload "" "" "") raw with
          | None => resp = invalid_json /\ refused h h'
          | Some p => exists j res,
              settle_post env (settlement_request tn corr id p (env_now env j)) w res w' /\
              reports always_ok res
          end
      end
  | ROutbox =>
      idle h h' /\
      exists k, resp = match Outbox (obs_at env k) (w_store h') with
        | Ok records => writeJSON StatusOK
            (JObject [("data", JArray (map outbox_json (tenant_records tn records)))])
        | Err e => writeError StatusInternalServerError "outbox_read_failed" (Error e)
        end
  end.

Lemma wp_respond ok res h Q :
  (forall resp h', w_store h' = w_store h -> fst (w_rest h') = fst (w_rest h) ->
     reported ok res resp (metrics_of h) (metrics_of h') -> Q (Ok resp) h') ->
  wp (respond ok res) h Q.
Proof. intros HQ. unfold respond. destruct res; api_steps; by apply HQ. Qed.

(** From a switch call's postcondition to the handler's. *)
Lemma wp_call (m : @Effects.M St (Limits LT LD) Result) ok h
    (P : result Result -> St -> Prop) (Q : result Response -> HTTPWorld -> Prop) :
  wp m (switch_world h) (fun res w => P res (w_store w)) ->
  (forall res resp h', P res (w_store h') ->
     reported ok res resp (metrics_of h) (metrics_of h') -> Q (Ok resp) h') ->
  wp (result <- attempt (on_limits m);; respond ok result) h Q.
Proof.
  intros Hm HQ. wp_step. wp_step. apply wp_on_limits. eapply wp_conseq; [exact Hm|].
  cbv beta iota. intros res w HP. apply wp_respond. intros resp h' Hs _ Hr.
  eapply HQ; [by rewrite Hs|exact Hr].
Qed.

(** A read of the store. *)
Lemma wp_query {A} (f : Obs -> St -> result A) h Q :
  rely env -> st_inv (w_store h) ->
  (forall h', idle h h' -> st_inv (w_store h') ->
     Q (Ok (f (obs_at env (w_tick h)) (w_store h'))) h') ->
  wp (attempt (on_limits (store_read env f))) h Q.
Proof.
  intros Hr Hs HQ. wp_step. apply wp_on_limits, wp_read.
  set (s1 := store_now env (switch_world h)).
  assert (Hu : untouched env (w_store h) s1)
    by exact (untouched_now env (switch_world h)).
  destruct (untouched_preserves _ _ _ Hr Hs Hu) as [Hs1 _].
  by apply (HQ (mkWorld s1 (fst (w_rest h), metrics_of h) (S (w_tick h))));
    [split; [exact Hu|unfold metrics_of; cbn; by destruct (w_rest h)]|].
Qed.

(** The postconditions of the switch only look at the stores. *)
Local Abbreviation at_store s := (mkWorld s (mkLimits None None) 0).

Lemma wp_handle rt route tn corr r h :
  rely env -> st_inv (w_store h) ->
  wp (handle env sv security rt route tn corr r) h (fun out h' =>
    exists resp, out = Ok resp /\ handled route tn corr r h resp h').
Proof.
  intros Hr Hs. destruct route as [| | | |id|id|id|id|]; cbn [handle].
  - by eexists.
  - unfold ready, Service_Health. wp_step. apply wp_query; [done..|]. intros h' Hi _.
    destruct (Health _ _) eqn:E; api_steps; eexists; (split; [done|]);
      (split; [done|]); exists (w_tick h); by rewrite E.
  - by eexists.
  - unfold createTransfer. fold (decode_create r). cbn [handled].
    destruct (decode_create r) as [p|]; [|by eexists]. do 2 wp_step.
    eapply wp_call with (P := fun res s => create_post env sv
      (create_request tn corr r p (env_now env (w_tick h))) (switch_world h) res (at_store s)).
    + exact (create_transfer_post env sv _ (switch_world (next_tick h)) Hr Hs).
    + intros res resp h' HP Hrep. exists resp. split; [done|]. by exists (w_tick h), res.
  - unfold getTransfer, Service_GetTransfer. wp_step. apply wp_query; [done..|].
    intros h' Hi Hs'. cbv beta iota.
    destruct (get_law (obs_at env (w_tick h)) tn id _ Hs') as [E|(Hn & e & E)]; rewrite E.
    + destruct (st_owned (w_store h') tn id) eqn:Eo; wp_step; eexists; (split; [done|]);
        (split; [done|]); left; by rewrite Eo.
    + wp_step. eexists. split; [done|]. split; [done|]. right. eauto.
  - eapply wp_call with (P := fun res s => submit_post env (TrimSpace tn) (TrimSpace id)
      (switch_world h) res (at_store s)).
    + exact (submit_to_spi_post env sv tn id corr (switch_world h) Hr Hs).
    + intros res resp h' HP Hrep. exists resp. split; [done|]. by exists res.
  - unfold recordReview. fold (decode_review r). cbn [handled].
    destruct (decode_review r) as [p|]; [|by eexists]. do 2 wp_step.
    eapply wp_call with (P := fun res s => review_post env
      (review_request tn corr id p (env_now env (w_tick h))) (switch_world h) res (at_store s)).
    + exact (record_review_post env _ (switch_world (next_tick h)) Hr Hs).
    + intros res resp h' HP Hrep. exists resp. split; [done|]. by exists (w_tick h), res.
  - unfold recordSettlement. cbn [handled]. do 2 wp_step.
    destruct (verifyProviderCallback _ _ _) as [resp|raw] eqn:Ev.
    { exists resp. split; [done|]. exists (w_tick h). by rewrite Ev. }
    destruct (unmarshal_body _ _ raw) as [p|] eqn:Ep.
    2: { eexists. split; [done|]. exists (w_tick h). rewrite Ev, Ep. done. }
    do 2 wp_step.
    eapply wp_call with (P := fun res s => settle_post env
      (settlement_request tn corr id p (env_now env (S (w_tick h)))) (switch_world h) res
      (at_store s)).
    + exact (record_settlement_post env _ (switch_world (next_tick (next_tick h))) Hr Hs).
    + intros res resp h' HP Hrep. exists resp. split; [done|]. exists (w_tick h).
      rewrite Ev, Ep. by exists (S (w_tick h)), res.
  - unfold outbox, Service_Outbox. wp_step. apply wp_query; [done..|].
    intros h' Hi Hs'. cbv beta iota.
    destruct (Outbox _ _) eqn:E; api_steps; eexists; (split; [done|]);
      (split; [done|]); exists (w_tick h); by rewrite E.
Qed.

(** The mux behind the authorisation, for the correlation id [corr]. *)
Definition routed (corr : string) (r : Request) h (resp : Response) h' : Prop :=
  match mux_match r with
  | inr status => resp = mux_error status /\ refused h h'
  | inl route =>
      match route_role route with
      | None => handled route "" corr r h resp h'
      | Some role =>
          match keys !! request_token r with
          | None => rs_Status resp = StatusUnauthorized /\ refused h h'
          | Some key =>
              if APIKey_HasRole key role then handled route (ak_TenantID key) corr r h resp h'
              else rs_Status resp = StatusForbidden /\ refused h h'
          end
      end
  end.

(** The id of a request: the one given, or a new one. *)
Definition request_id (given id : string) : Prop :=
  id <> "" /\ (TrimSpace given <> "" -> id = TrimSpace given).

(** The contract of [ServeHTTP]. *)
Definition served (r : Request) h (resp : Response) h' : Prop :=
  exists requestID corr inner h1 elapsed,
    request_id (rq_Header r "X-Request-ID") requestID /\
    request_id (rq_Header r "X-Correlation-ID") corr /\
    routed corr r h inner h1 /\
    w_store h' = w_store h1 /\ fst (w_rest h') = fst (w_rest h1) /\
    metrics_of h' = Metrics_ObserveRequest (rq_Method r) (routeLabel r) (rs_Status inner) elapsed
                      (metrics_of h1) /\
    resp = mkResponse (rs_Status inner)
             ([("X-Request-ID", requestID); ("X-Correlation-ID", corr)] ++ rs_Header inner)
             (rs_Body inner).

Lemma wp_headerOrNew given prefix h Q : prefix <> "" ->
  (forall id h', request_id given id -> w_store h' = w_store h -> w_rest h' = w_rest h ->
     Q (Ok id) h') ->
  wp (headerOrNew env given prefix) h Q.
Proof.
  intros Hp HQ. unfold headerOrNew. wp_steps; b2p; apply HQ; try done.
  split; [by destruct prefix|by destruct 1].
Qed.

Lemma wp_serve_mux rt corr r h :
  rely env -> st_inv (w_store h) ->
  wp (serve_mux env sv keys security rt corr r) h (fun out h' =>
    exists resp, out = Ok resp /\ routed corr r h resp h').
Proof.
  intros Hr Hs. unfold serve_mux, routed, authRole.
  destruct (mux_match r) as [route|status]; [|by eexists].
  destruct (route_role route) as [role|]; [|by apply wp_handle].
  destruct (keys !! request_token r) as [key|]; [|by eexists].
  destruct (APIKey_HasRole key role); cbn [negb]; [by apply wp_handle|by eexists].
Qed.

(** What [routed] says does not depend on the clock. *)
Lemma routed_start corr r h0 h resp h' :
  w_store h = w_store h0 -> w_rest h = w_rest h0 ->
  routed corr r h resp h' -> routed corr r h0 resp h'.
Proof. destruct h, h0; cbn. intros -> ->. exact id. Qed.

Lemma serve_http_served rt r h :
  rely env -> st_inv (w_store h) ->
  wp (Server_ServeHTTP env sv keys security rt r) h (fun out h' =>
    exists resp, out = Ok resp /\ served r h resp h').
Proof.
  intros Hr Hs. unfold Server_ServeHTTP. do 2 wp_step.
  wp_step. apply wp_headerOrNew; [done|]. intros requestID h1 Hid Hs1 Hr1.
  wp_step. apply wp_headerOrNew; [done|]. intros corr h2 Hcorr Hs2 Hr2.
  cbn [w_store w_rest next_tick] in Hs1, Hr1.
  assert (E1 : w_store h2 = w_store h) by congruence.
  assert (E2 : w_rest h2 = w_rest h) by congruence.
  wp_step. eapply wp_conseq; [apply wp_serve_mux; [done|by rewrite E1]|].
  cbv beta iota. intros out h3 (inner & -> & Hrt). wp_step. wp_step. cbv zeta. wp_step.
  apply wp_on_metrics. wp_step. eexists. split; [done|].
  exists requestID, corr, inner, h3, (time_Sub (env_now env (w_tick h3)) (env_now env (w_tick h))).
  split_and!; try done. by apply (routed_start _ _ h h2).
Qed.

(** ** Every request is answered as specified *)

(** C10: every HTTP request is answered. Without a valid key, or with one that
    lacks the role of the endpoint, the answer is 401 or 403 and nothing happened;
    otherwise the switch is called once, for the tenant of the key, with the contract
    of that call, and its result is what is answered and counted. The answer carries
    the request and correlation ids, and the request is counted under its status. *)
Theorem serve_http_correct rt r h out h' :
  rely env -> st_inv (w_store h) ->
  Server_ServeHTTP env sv keys security rt r h = (out, h') ->
  exists resp, out = Ok resp /\ served r h resp h'.
Proof. intros Hr Hs E. exact (wp_run _ _ _ _ _ E (serve_http_served rt r h Hr Hs)). Qed.

(** ** Who can change the store *)

Lemma idle_untouched h h' : idle h h' -> untouched env (w_store h) (w_store h').
Proof. by intros [? _]. Qed.

Lemma refused_untouched h h' : refused h h' -> untouched env (w_store h) (w_store h').
Proof. intros [-> _]. reflexivity. Qed.

Hint Resolve idle_untouched refused_untouched : core.

(** The endpoints that write, with the role each requires. *)
Definition writer (security : SecurityConfig) (key : APIKey) (r : Request) (route : Route) : Prop :=
  match route with
  | RCreateTransfer => APIKey_HasRole key RoleTenant = true
  | RSubmitToSPI _ => APIKey_HasRole key RoleWorker = true
  | RRecordReview _ => APIKey_HasRole key RoleRisk = true
  | RRecordSettlement _ =>
      APIKey_HasRole key RoleProvider = true /\
      exists k raw, authentic security (env_now env k) r raw
  | _ => False
  end.

Lemma store_change_writer rt r h out h' :
  rely env -> st_inv (w_store h) -> tolerance_ok security ->
  Server_ServeHTTP env sv keys security rt r h = (out, h') ->
  ~ untouched env (w_store h) (w_store h') ->
  exists key route, keys !! request_token r = Some key /\ mux_match r = inl route /\
    writer security key r route.
Proof.
  intros Hr Hs Htol E Hch.
  destruct (wp_run _ _ _ _ _ E (serve_http_served rt r h Hr Hs))
    as (resp & _ & ? & corr & inner & h1 & ? & _ & _ & Hrt & Hst & _). rewrite Hst in Hch.
  unfold routed in Hrt. destruct (mux_match r) as [route|]; [|naive_solver].
  destruct (route_role route) as [role|] eqn:Er.
  2: { destruct route; try done; cbn [handled] in Hrt; naive_solver. }
  destruct (keys !! request_token r) as [key|]; [|naive_solver].
  destruct (APIKey_HasRole key role) eqn:Erole; [|naive_solver].
  exists key, route. split_and!; [done..|].
  destruct route; cbn [route_role] in Er; simplify_eq; cbn [writer]; try done;
    cbn [handled] in Hrt; [naive_solver| |naive_solver].
  split; [done|]. destruct Hrt as [k Hrt].
  destruct (verifyProviderCallback _ _ _) as [|raw] eqn:Ev; [naive_solver|].
  exists k, raw. by apply verify_authentic.
Qed.

(** A request that changed the store presented a configured key with
    the role of one of the four writing endpoints, and a settlement callback was
    signed by the provider within the tolerance as well. *)
Theorem store_change_authorized rt r h out h' :
  rely env -> st_inv (w_store h) -> tolerance_ok security ->
  Server_ServeHTTP env sv keys security rt r h = (out, h') ->
  ~ untouched env (w_store h) (w_store h') ->
  exists key route, keys !! request_token r = Some key /\ mux_match r = inl route /\
    writer security key r route.
Proof. apply store_change_writer. Qed.

(** ** The store contract *)

Lemma handled_preserves route tn corr r h resp h' :
  rely env -> st_inv (w_store h) -> handled route tn corr r h resp h' ->
  preserves (w_store h) (w_store h').
Proof.
  intros Hr Hs.
  assert (Hu : untouched env (w_store h) (w_store h') -> preserves (w_store h) (w_store h'))
    by (by apply untouched_preserves).
  destruct route as [| | | |id|id|id|id|]; cbn [handled]; try naive_solver.
  - destruct (decode_create r); [|naive_solver]. intros (k & res & Hp & _).
    exact (create_post_preserves _ _ _ (switch_world h) _ _ Hr Hs Hp).
  - intros (res & Hp & _). exact (proj1 Hp).
  - destruct (decode_review r); [|naive_solver]. intros (k & res & Hp & _).
    exact (review_post_preserves _ _ (switch_world h) _ _ Hr Hs Hp).
  - intros [k Hk]. destruct (verifyProviderCallback _ _ _); [naive_solver|].
    destruct (unmarshal_body _ _ _); [|naive_solver]. destruct Hk as (j & res & Hp & _).
    exact (settle_post_preserves _ _ (switch_world h) _ _ Hr Hs Hp).
Qed.

Lemma served_preserves r h resp h' :
  rely env -> st_inv (w_store h) -> served r h resp h' -> preserves (w_store h) (w_store h').
Proof.
  intros Hr Hs (? & corr & inner & h1 & ? & _ & _ & Hrt & Hst & _). rewrite Hst.
  assert (Href : refused h h1 -> preserves (w_store h) (w_store h1))
    by (intros [-> _]; by apply preserves_refl).
  unfold routed in Hrt. destruct (mux_match r) as [route|]; [|naive_solver].
  destruct (route_role route); [|by eapply handled_preserves].
  destruct (keys !! request_token r) as [key|]; [|naive_solver].
  destruct (APIKey_HasRole key _); [|naive_solver]. by eapply handled_preserves.
Qed.

(** The world after requests, each with what the runtime reports then. *)
Definition serve_all (rs : list (RuntimeStats * Request)) h : HTTPWorld :=
  fold_left (fun h '(rt, r) => snd (Server_ServeHTTP env sv keys security rt r h)) rs h.

Lemma serve_all_preserves rs h :
  rely env -> st_inv (w_store h) -> preserves (w_store h) (w_store (serve_all rs h)).
Proof.
  intros Hr. revert h. induction rs as [|[rt r] rs IH]; intros h Hs; cbn.
  - by apply preserves_refl.
  - destruct (serve_http_served rt r h Hr Hs) as (resp & _ & Hsv).
    pose proof (served_preserves _ _ _ _ Hr Hs Hsv) as Hp. pose proof Hp as [Hs1 _].
    eapply preserves_trans; [exact Hp|by apply IH].
Qed.

(** Any sequence of HTTP requests, interleaved with concurrent calls
    that keep the store contract, keeps it too. *)
Theorem http_keeps_contract rs h :
  rely env -> st_inv (w_store h) -> preserves (w_store h) (w_store (serve_all rs h)).
Proof. apply serve_all_preserves. Qed.

(** ** The logs *)

Lemma handled_evidenced route tn corr r h resp h' :
  rely_evidenced env -> st_inv (w_store h) -> evidenced (w_store h) ->
  handled route tn corr r h resp h' -> evidenced (w_store h').
Proof.
  intros Hr Hs He.
  assert (Hu : untouched env (w_store h) (w_store h') -> evidenced (w_store h'))
    by (intros Hu; by eapply (untouched_evidenced env Hr)).
  destruct route as [| | | |id|id|id|id|]; cbn [handled]; try naive_solver.
  - destruct (decode_create r); [|naive_solver]. intros (k & res & Hp & _).
    exact (create_evidenced env sv Hr _ (switch_world h) _ _ Hs He Hp).
  - intros (res & Hp & _). exact (submit_evidenced env Hr _ _ (switch_world h) _ _ Hs He Hp).
  - destruct (decode_review r); [|naive_solver]. intros (k & res & Hp & _).
    exact (review_evidenced env Hr _ (switch_world h) _ _ Hs He Hp).
  - intros [k Hk]. destruct (verifyProviderCallback _ _ _); [naive_solver|].
    destruct (unmarshal_body _ _ _); [|naive_solver]. destruct Hk as (j & res & Hp & _).
    exact (settle_evidenced env Hr _ (switch_world h) _ _ Hs He Hp).
Qed.

Lemma served_evidenced r h resp h' :
  rely_evidenced env -> st_inv (w_store h) -> evidenced (w_store h) -> served r h resp h' ->
  evidenced (w_store h').
Proof.
  intros Hr Hs He (? & corr & inner & h1 & ? & _ & _ & Hrt & Hst & _). rewrite Hst.
  assert (Href : refused h h1 -> evidenced (w_store h1)) by (by intros [-> _]).
  unfold routed in Hrt. destruct (mux_match r) as [route|]; [|naive_solver].
  destruct (route_role route); [|by eapply handled_evidenced].
  destruct (keys !! request_token r) as [key|]; [|naive_solver].
  destruct (APIKey_HasRole key _); [|naive_solver]. by eapply handled_evidenced.
Qed.

Lemma serve_all_evidenced rs h :
  rely_evidenced env -> st_inv (w_store h) -> evidenced (w_store h) ->
  evidenced (w_store (serve_all rs h)).
Proof.
  intros Hr. revert h. induction rs as [|[rt r] rs IH]; intros h Hs He; cbn; [done|].
  destruct (serve_http_served rt r h (proj1 Hr) Hs) as (resp & _ & Hsv).
  apply IH; [|by eapply served_evidenced].
  exact (proj1 (served_preserves _ _ _ _ (proj1 Hr) Hs Hsv)).
Qed.

(** ** Tenants without colons *)

(** Concurrent calls keep the contract and store no tenant with a colon. *)
Definition rely_plain : Prop := rely env /\
  forall k s, st_inv s -> st_plain s -> st_plain (env_others env k s).

Lemma writes_plain (s : St) tn id t evs aud s' :
  st_plain s -> has_char ":" tn = false -> writes s tn id t evs aud s' -> st_plain s'.
Proof.
  intros Hp Htn (_ & _ & _ & _ & _ & Hk) tn' id' t' Ho.
  destruct (decide ((tn', id') = (tn, id))) as [[= -> ->]|Hne]; [done|].
  rewrite Hk in Ho by done. by eapply Hp.
Qed.

Lemma leased_plain (s s' : St) :
  rely_plain -> st_inv s -> st_plain s -> leased env s s' -> st_plain s'.
Proof.
  intros [Hr Ho] Hs Hp Hl. induction Hl as [s|s s1 s2 Hst _ IH]; [done|].
  assert (Hl1 : leased env s s1) by by apply rtc_once.
  destruct (leased_preserves _ _ _ Hr Hs Hl1) as [Hs1 _]. apply IH; [done|].
  destruct Hst as [[k ->]|(tn & id & t & u & Ht & _ & _ & Hw)]; [by apply Ho|].
  eapply writes_plain; [done| |exact Hw]. by eapply Hp.
Qed.

Lemma untouched_plain (s s' : St) :
  rely_plain -> st_inv s -> st_plain s -> untouched env s s' -> st_plain s'.
Proof. intros Hr Hs Hp Hu. by eapply leased_plain; [..|apply untouched_leased]. Qed.

(** A transaction on a stored transfer, after leases and concurrent calls. *)
Lemma update_plain (s s1 s' : St) tn id u t evs aud :
  rely_plain -> st_inv s -> st_plain s -> leased env s s1 ->
  st_owned s1 tn id = Some u -> writes s1 tn id t evs aud s' -> st_plain s'.
Proof.
  intros Hr Hs Hp Hl Hu Hw. pose proof (leased_plain _ _ Hr Hs Hp Hl) as Hp1.
  eapply writes_plain; [done| |exact Hw]. by eapply Hp1.
Qed.

Lemma handled_plain route tn corr r h resp h' :
  rely_plain -> st_inv (w_store h) -> st_plain (w_store h) ->
  TrimSpace tn = tn -> has_char ":" tn = false ->
  handled route tn corr r h resp h' -> st_plain (w_store h').
Proof.
  intros Hr Hs Hp Htn Hcol.
  assert (Hu : untouched env (w_store h) (w_store h') -> st_plain (w_store h'))
    by (by apply untouched_plain).
  destruct route as [| | | |id|id|id|id|]; cbn [handled]; try naive_solver.
  - destruct (decode_create r); [|naive_solver]. intros (k & [x|e] & Hc & _); [|exact (Hu Hc)].
    cbn in Hc. destruct Hc as (_ & _ & Hc). destruct (r_IdempotentReplay x); [exact (Hu (proj1 Hc))|].
    destruct Hc as (s & a & Hu1 & _ & Hw & _). rewrite Htn in Hw.
    eapply writes_plain; [|exact Hcol|exact Hw]. exact (untouched_plain (w_store h) _ Hr Hs Hp Hu1).
  - intros (res & [_ Hc] & _). destruct res as [x|e]; [|exact (leased_plain (w_store h) _ Hr Hs Hp Hc)].
    destruct Hc as (_ & _ & Hc). destruct (r_IdempotentReplay x); [exact (leased_plain (w_store h) _ Hr Hs Hp (proj1 Hc))|].
    destruct Hc as (_ & s & u & a & Hl & Ho & _ & _ & Hw & _). exact (update_plain (w_store h) _ _ _ _ _ _ _ _ Hr Hs Hp Hl Ho Hw).
  - destruct (decode_review r); [|naive_solver]. intros (k & [x|e] & Hc & _); [|exact (Hu Hc)].
    destruct Hc as (_ & s & u & a & Hl%untouched_leased & Ho & _ & _ & Hw & _).
    exact (update_plain (w_store h) _ _ _ _ _ _ _ _ Hr Hs Hp Hl Ho Hw).
  - intros [k Hk]. destruct (verifyProviderCallback _ _ _); [naive_solver|].
    destruct (unmarshal_body _ _ _); [|naive_solver].
    destruct Hk as (j & [x|e] & Hc & _); [|exact (Hu Hc)].
    destruct Hc as (_ & _ & Hc). destruct (r_IdempotentReplay x); [exact (Hu (proj1 Hc))|].
    destruct Hc as (_ & _ & s2 & u & a & Hl%untouched_leased & Ho & _ & _ & Hw & _).
    exact (update_plain (w_store h) _ _ _ _ _ _ _ _ Hr Hs Hp Hl Ho Hw).
Qed.

(** ** What a tenant is shown *)

(** A body shows transfers and outbox records of the tenant [tn] only. *)
Definition shows_tenant (tn : string) (b : Body) : Prop :=
  match b with
  | TextBody _ => False
  | JSONBody j =>
      (exists code msg, JSONBody j = rs_Body (writeError 0 code msg)) \/
      (exists t replay, j = transferResponse t replay /\ t_TenantID t = tn) \/
      (exists records, j = JObject [("data", JArray (map outbox_json records))] /\
         Forall (fun o => e_TenantID (o_Event o) = tn) records)
  end.

Lemma shows_error tn status code msg : shows_tenant tn (rs_Body (writeError status code msg)).
Proof. left. by eexists _, _. Qed.

Lemma shows_domain_error tn e : shows_tenant tn (rs_Body (handleDomainError e)).
Proof. unfold handleDomainError. repeat case_match; apply shows_error. Qed.

Lemma shows_reported tn ok res resp m m' : reported ok res resp m m' ->
  (forall x, res = Ok x -> t_TenantID (r_Transfer x) = tn) -> shows_tenant tn (rs_Body resp).
Proof.
  intros Hrep Hx. destruct res as [x|e]; cbn in Hrep; destruct Hrep as [-> _].
  - right. left. eexists _, _. split; [done|]. by apply Hx.
  - apply shows_domain_error.
Qed.

Lemma verify_error now r resp :
  verifyProviderCallback security now r = inl resp ->
  exists status code msg, resp = writeError status code msg.
Proof. unfold verifyProviderCallback, unauthorized. intros E. cases_in E; simplify_eq; eauto. Qed.

Lemma tenant_records_own tn records :
  Forall (fun o => e_TenantID (o_Event o) = tn) (tenant_records tn records).
Proof.
  apply Forall_forall. intros o Ho. unfold tenant_records in Ho.
  apply list_elem_of_In, filter_In in Ho as [_ Ho]. by apply String.eqb_eq in Ho.
Qed.

Lemma handled_shows route key corr r h resp h' :
  rely env -> st_inv (w_store h) -> st_plain (w_store h') ->
  TrimSpace (ak_TenantID key) = ak_TenantID key -> has_char ":" (ak_TenantID key) = false ->
  route_role route <> None -> handled route (ak_TenantID key) corr r h resp h' ->
  shows_tenant (ak_TenantID key) (rs_Body resp).
Proof.
  intros Hr Hs Hp' Htn Hcol Hrole Hh.
  destruct (handled_preserves _ _ _ _ _ _ _ Hr Hs Hh) as [Hs' _].
  assert (Hown : forall id t, st_owned (w_store h') (ak_TenantID key) id = Some t ->
    t_TenantID t = ak_TenantID key)
    by (intros id t Ho; by destruct (owned_ok _ _ _ _ Hs' Ho) as (_ & ? & _)).
  assert (Hread : forall t, t_TenantID (st_read t) = t_TenantID t).
  { intros t. pose proof (read_identity t) as Hid. unfold stored_identity in Hid. congruence. }
  destruct route as [| | | |id|id|id|id|]; cbn [handled route_role] in *; try done.
  - destruct (decode_create r); [|destruct Hh as [-> _]; apply shows_error].
    destruct Hh as (k & res & Hp & Hrep). eapply shows_reported; [exact Hrep|].
    intros x ->. cbn in Hp. rewrite Htn in Hp. destruct Hp as (Hk & _ & _).
    destruct (keyed_own _ _ _ _ Hs' Hp' Hcol Hk) as (Et & _). by rewrite <- Hread.
  - destruct Hh as [_ [->|(k & e & _ & ->)]]; [|apply shows_domain_error].
    destruct (st_owned _ _ _) as [t|] eqn:Ho; [|apply shows_domain_error].
    right. left. exists t, false. split; [done|]. by eapply Hown.
  - destruct Hh as (res & Hp & Hrep). eapply shows_reported; [exact Hrep|].
    intros x ->. rewrite Htn in Hp. destruct Hp as (_ & Ho & _). rewrite <- Hread. by eapply Hown.
  - destruct (decode_review r); [|destruct Hh as [-> _]; apply shows_error].
    destruct Hh as (k & res & Hp & Hrep). eapply shows_reported; [exact Hrep|].
    intros x ->. cbn in Hp. rewrite Htn in Hp.
    destruct Hp as (_ & s & u & a & _ & _ & _ & _ & (_ & _ & Ho & _) & _).
    rewrite <- Hread. by eapply Hown.
  - destruct Hh as [k Hh]. destruct (verifyProviderCallback _ _ _) as [refusal|raw] eqn:Ev.
    { destruct Hh as [-> _]. apply verify_error in Ev as (? & ? & ? & ->). apply shows_error. }
    destruct (unmarshal_body _ _ _); [|destruct Hh as [-> _]; apply shows_error].
    destruct Hh as (j & res & Hp & Hrep). eapply shows_reported; [exact Hrep|].
    intros x ->. destruct Hp as (Ho & _). rewrite <- Hread. by eapply Hown.
  - destruct Hh as [_ [k ->]]. destruct (Outbox _ _); [|apply shows_error].
    right. right. eexists. split; [done|]. apply tenant_records_own.
Qed.

(** C21: whatever an authenticated request asks for, the body it gets shows transfers
    and outbox records of its key's tenant only, replays included. No configured tenant
    has a colon in its name, and no request stores a tenant that has one: without that the
    memory store's key [tenant:key] would let two tenants share an idempotency key. *)
Theorem http_tenant_confined rt r h out h' route role key :
  rely_plain -> st_inv (w_store h) -> st_plain (w_store h) -> keys_ok keys ->
  mux_match r = inl route -> route_role route = Some role ->
  keys !! request_token r = Some key -> APIKey_HasRole key role = true ->
  Server_ServeHTTP env sv keys security rt r h = (out, h') ->
  st_plain (w_store h') /\
  exists resp, out = Ok resp /\ shows_tenant (ak_TenantID key) (rs_Body resp).
Proof.
  intros Hr Hs Hp Hk Hm Hrole Hkey Hhas E.
  destruct (wp_run _ _ _ _ _ E (serve_http_served rt r h (proj1 Hr) Hs))
    as (resp & -> & ? & corr & inner & h1 & ? & _ & _ & Hrt & Hst & _ & _ & ->).
  rewrite Hst. unfold routed in Hrt. rewrite Hm, Hrole, Hkey, Hhas in Hrt.
  destruct (Hk _ _ Hkey) as [_ _ Hcol Htrim _ _].
  assert (Hp1 : st_plain (w_store h1)) by (by eapply handled_plain).
  split; [done|]. eexists. split; [done|]. cbn [rs_Body].
  eapply handled_shows; [apply Hr|done..| |exact Hrt]. by rewrite Hrole.
Qed.

(** ** Creating once over HTTP *)

Lemma error_status e : rs_Status (handleDomainError e) <> StatusOK /\
  rs_Status (handleDomainError e) <> StatusCreated.
Proof. unfold handleDomainError. repeat case_match; done. Qed.

(** A creation that was answered with success. *)
Lemma created_result r h resp h' :
  served r h resp h' -> mux_match r = inl RCreateTransfer ->
  rs_Status resp = StatusOK \/ rs_Status resp = StatusCreated ->
  exists key corr p k x h1, keys !! request_token r = Some key /\
    w_store h' = w_store h1 /\
    create_post env sv (create_request (ak_TenantID key) corr r p (env_now env k))
      (switch_world h) (Ok x) (switch_world h1) /\
    rs_Status resp = created (r_IdempotentReplay x) /\
    rs_Body resp = JSONBody (transferResponse (r_Transfer x) (r_IdempotentReplay x)).
Proof.
  intros (? & corr & inner & h1 & ? & _ & _ & Hrt & Hst & _ & _ & ->) Hm Hok.
  cbn [rs_Status rs_Body] in *. unfold routed in Hrt. rewrite Hm in Hrt. cbn in Hrt.
  destruct (keys !! request_token r) as [key|]; [|by destruct Hrt as [E _]; rewrite E in Hok; destruct Hok].
  destruct (APIKey_HasRole key RoleTenant); [|by destruct Hrt as [E _]; rewrite E in Hok; destruct Hok].
  destruct (decode_create r) as [p|]; [|by destruct Hrt as [-> _], Hok].
  destruct Hrt as (k & [res|e] & Hp & Hrep & _).
  - exists key, corr, p, k, res, h1. by rewrite Hrep.
  - rewrite Hrep in Hok. by destruct (error_status e), Hok.
Qed.

(** After a creation was answered 201, with anything in between, a
    creation under the same idempotency key for the same tenant that succeeds is
    answered 200 with the same transfer, at a later point of its life. *)
Theorem http_create_once rt1 rt2 r1 r2 h1 h1' h2 h2' resp1 resp2 key1 key2 :
  rely env -> st_inv (w_store h1) ->
  mux_match r1 = inl RCreateTransfer -> mux_match r2 = inl RCreateTransfer ->
  keys !! request_token r1 = Some key1 -> keys !! request_token r2 = Some key2 ->
  ak_TenantID key1 = ak_TenantID key2 ->
  TrimSpace (rq_Header r1 "Idempotency-Key") = TrimSpace (rq_Header r2 "Idempotency-Key") ->
  Server_ServeHTTP env sv keys security rt1 r1 h1 = (Ok resp1, h1') ->
  rs_Status resp1 = StatusCreated ->
  preserves (w_store h1') (w_store h2) ->
  Server_ServeHTTP env sv keys security rt2 r2 h2 = (Ok resp2, h2') ->
  rs_Status resp2 = StatusOK \/ rs_Status resp2 = StatusCreated ->
  exists t1 t2, rs_Body resp1 = JSONBody (transferResponse t1 false) /\
    rs_Status resp2 = StatusOK /\ rs_Body resp2 = JSONBody (transferResponse t2 true) /\
    t_ID t2 = t_ID t1 /\ rtc stored_step (st_read t1) t2.
Proof.
  intros Hr Hs1 Hm1 Hm2 Hk1 Hk2 Etn Ekey E1 Hc Hp E2 Hok.
  pose proof Hp as [Hs2 _].
  destruct (wp_run _ _ _ _ _ E1 (serve_http_served rt1 r1 h1 Hr Hs1)) as (? & [= <-] & S1).
  destruct (wp_run _ _ _ _ _ E2 (serve_http_served rt2 r2 h2 Hr Hs2)) as (? & [= <-] & S2).
  destruct (created_result _ _ _ _ S1 Hm1 (or_intror Hc))
    as (k1 & c1 & p1 & i1 & x1 & g1 & K1 & W1 & P1 & St1 & B1).
  destruct (created_result _ _ _ _ S2 Hm2 Hok)
    as (k2 & c2 & p2 & i2 & x2 & g2 & K2 & W2 & P2 & St2 & B2). simplify_eq.
  destruct (r_IdempotentReplay x1) eqn:F1; [by rewrite St1 in Hc|].
  rewrite W1 in Hp.
  assert (T : TrimSpace (cr_TenantID (create_request (ak_TenantID key1) c1 r1 p1 (env_now env i1))) =
              TrimSpace (cr_TenantID (create_request (ak_TenantID key2) c2 r2 p2 (env_now env i2))))
    by (cbn; by rewrite Etn).
  destruct (create_post_once env sv _ _ (switch_world h1) (switch_world g1) (switch_world h2)
    (switch_world g2) _ _ Hr Hs1 T Ekey P1 F1 Hp P2) as (F2 & Hst & Hid & _).
  rewrite F2 in St2, B2. eauto 10.
Qed.
End Api.
