(* ===== verification/App.v ===== *)
(** * Putting the program together ([internal/app], [cmd/pixrail-worker])

    [BuildStore] opens the store the configuration names, [NewService] gives the
    service its collaborators and limiters, and the worker submits a batch to SPI at
    its start and at every tick until it is told to stop. A loaded configuration always
    opens a store, and the worker keeps the store contract. *)

From S2P Require Import Prelude GoStrings Rail Events Fraud Dict Spi RateLimit StoreSpec MemStore.
From S2P Require Import Effects Switcher SwitcherProps Postgres Config.

(** ** The store *)

(** What [BuildStore] returns besides its error: a store, or Go's nil interface. *)
Inductive OpenedStore : Type :=
  | OpenedMemory (s : MemoryStore)
  | OpenedPostgres (pool : PoolOptions)
  | OpenedNil.

(** The conversion to [int32]. *)
Definition int32 (z : Z) : Z := (z + 2^31) mod 2^32 - 2^31.

Section Build.
(** Opening the PostgreSQL store with options. *)
Context (open : string -> list PoolOptions -> result PoolOptions).

Definition BuildStore (cfg : Config) : result OpenedStore :=
  if cf_StoreDriver cfg ==s "memory" then Ok (OpenedMemory NewMemoryStore)
  else if cf_StoreDriver cfg ==s "postgres" then
    pool <-? open (cf_DatabaseURL cfg)
      [mkPoolOptions (int32 (cf_PostgresMinConns cfg)) (int32 (cf_PostgresMaxConns cfg))
         (cf_PostgresMaxConnLifetime cfg)];
    Ok (OpenedPostgres pool)
  else Ok OpenedNil.
End Build.

(** ** The service *)

Section Wire.
Context (unicode_lower : string -> string).

(** The collaborators: the [k]-th observation of a call is that of the environment. *)
Definition app_Service {St} (env : Env St) (cfg : Config) : Service :=
  mkService
    (fun k => StaticResolver_Resolve unicode_lower (mkStaticResolver 0 (cf_DictTimeout cfg))
       (fun i => obs_at env (k + i)))
    (fun _ => RulesEngine_Score)
    (fun k => Simulator_Submit (obs_at env k)).

Definition app_Limits (cfg : Config) : Limits Limiter Limiter :=
  let bucket size := ratelimit_New (mkBucketConfig size size Minute) in
  mkLimits (Some (bucket (cf_TenantBucketSize cfg))) (Some (bucket (cf_DictBucketSize cfg))).
End Wire.

(** ** The worker *)

(** What [runBatch] logs. *)
Inductive BatchLog : Type :=
  | BatchSilent
  | BatchFailed (err : error)
  | BatchCompleted (res : SPIBatchResult).

Section Worker.
Context `{Store St} `{Strategy LT} `{Strategy LD}.
Context (env : Env St) (sv : Service).

Local Abbreviation M := (@M St (Limits LT LD)).

Definition runBatch (limit : Z) : M BatchLog :=
  r <- attempt (Service_SubmitPendingSPI env sv limit);;
  let outcome := match r with
    | Err err => (mkSPIBatchResult 0 0 0 0, Some err)
    | Ok outcome => outcome
    end in
  match snd outcome with
  | Some err => if errors_Is err Canceled then ret BatchSilent else ret (BatchFailed err)
  | None =>
      if br_Scanned (fst outcome) =? 0 then ret BatchSilent
      else ret (BatchCompleted (fst outcome))
  end.

(** The loop of [main] over the [ticks] that come before the context is done. *)
Fixpoint worker_loop (limit : Z) (ticks : nat) : M (list BatchLog) :=
  match ticks with
  | O => ret []
  | S ticks =>
      log <- runBatch limit;;
      logs <- worker_loop limit ticks;;
      ret (log :: logs)
  end.

Definition worker (cfg : Config) (ticks : nat) : M (list BatchLog) :=
  worker_loop (cf_WorkerBatchSize cfg) (S ticks).
End Worker.

(** ** What the configuration opens *)

Lemma int32_id z : 0 <= z < 2^31 -> int32 z = z.
Proof.
  intros H. unfold int32. change (2^32) with 4294967296 in *. change (2^31) with 2147483648 in *.
  rewrite Z.mod_small; lia.
Qed.

(** A configuration that loads always names a store: [BuildStore] never hands
    the service a nil one. In production, and whenever the driver is [postgres], it is
    the PostgreSQL store at the configured address, opened with the configured pool
    limits when these fit in 32 bits; otherwise it is an empty in-memory store. *)
Theorem build_store_total uq os_Getenv open cfg : Load uq os_Getenv = Ok cfg ->
  let options := mkPoolOptions (cf_PostgresMinConns cfg) (cf_PostgresMaxConns cfg)
                   (cf_PostgresMaxConnLifetime cfg) in
  (cf_Environment cfg = "production" -> cf_StoreDriver cfg = "postgres") /\
  if cf_StoreDriver cfg ==s "postgres" then
    cf_DatabaseURL cfg <> "" /\
    (cf_PostgresMinConns cfg < 2^31 -> cf_PostgresMaxConns cfg < 2^31 ->
     BuildStore open cfg =
       (pool <-? open (cf_DatabaseURL cfg) [options]; Ok (OpenedPostgres pool)))
  else BuildStore open cfg = Ok (OpenedMemory NewMemoryStore).
Proof.
  intros (Hok & _ & Hprod)%load_facts options. split; [intros Hp; by destruct (Hprod Hp)|].
  destruct (co_driver _ Hok) as [E|[E Hurl]]; rewrite E; cbn; [by unfold BuildStore; rewrite E|].
  split; [done|]. intros H1 H2. unfold BuildStore. rewrite E. cbn.
  destruct (co_conns _ Hok). by rewrite !int32_id by lia.
Qed.

(** ** The worker keeps the contract *)

Section WorkerProps.
Context `{StoreLaws St} `{Strategy LT} `{Strategy LD}.
Context (env : Env St) (sv : Service).

Local Abbreviation W := (World St (Limits LT LD)).

Definition log_ok (limit : Z) (log : BatchLog) : Prop :=
  match log with
  | BatchSilent => True
  | BatchFailed err => errors_Is err Canceled = false
  | BatchCompleted res =>
      0 < br_Scanned res <= (if limit <=? 0 then 100 else limit) /\ batch_counts res /\
      br_Scanned res = batch_total res
  end.

Lemma run_batch_post limit (w : W) :
  rely env -> st_inv (w_store w) -> in_int64 limit ->
  wp (runBatch env sv limit) w (fun r w' =>
    preserves (w_store w) (w_store w') /\ exists log, r = Ok log /\ log_ok limit log).
Proof.
  intros Hr Hs Hl. unfold runBatch. do 2 wp_step.
  eapply wp_conseq; [by apply submit_pending_post|].
  intros r w' [Hp Hpost]. cbv beta iota zeta.
  destruct r as [[res [e|]]|e]; cbn [fst snd].
  - destruct (errors_Is e Canceled) eqn:E; wp_steps; (split; [done|]); eexists; (split; [done|]); done.
  - destruct Hpost as (Hsc & Hc & Ht). destruct (br_Scanned res =? 0) eqn:E; b2p; wp_steps;
      (split; [done|]); eexists; (split; [done|]); [done|]. split_and!; [lia|lia|done|done].
  - destruct (errors_Is e Canceled) eqn:E; wp_steps; (split; [done|]); eexists; (split; [done|]); done.
Qed.

Definition worker_post (limit : Z) (n : nat) (w : W) (r : result (list BatchLog)) (w' : W) : Prop :=
  preserves (w_store w) (w_store w') /\
  exists logs, r = Ok logs /\ length logs = n /\ Forall (log_ok limit) logs.

Lemma worker_loop_post limit n (w : W) :
  rely env -> st_inv (w_store w) -> in_int64 limit ->
  wp (worker_loop env sv limit n) w (worker_post limit n w).
Proof.
  intros Hr Hs Hl. revert w Hs. induction n as [|n IH]; intros w Hs; cbn [worker_loop].
  - wp_steps. split; [by apply preserves_refl|]. by exists [].
  - wp_step. eapply wp_conseq; [by apply run_batch_post|].
    intros r w1 (Hp1 & log & -> & Hlog). wp_step. pose proof Hp1 as [Hs1 _].
    eapply wp_conseq; [by apply IH|]. intros r2 w2 (Hp2 & logs & -> & Hlen & Hf). wp_steps.
    split; [by eapply preserves_trans|]. exists (log :: logs). split_and!; [done|cbn; lia|].
    by constructor.
Qed.

(** The worker runs one batch at its start and one per tick, whatever a batch
    meets: it never stops on an error, interleaved with concurrent calls it keeps the
    store contract, and every batch it reports as completed scanned at least one
    transfer, at most the configured batch size, and accounts for all of them. *)
Theorem worker_runs_on cfg ticks (w : W) r w' :
  rely env -> st_inv (w_store w) -> in_int64 (cf_WorkerBatchSize cfg) ->
  worker env sv cfg ticks w = (r, w') ->
  worker_post (cf_WorkerBatchSize cfg) (S ticks) w r w'.
Proof.
  intros Hr Hs Hl E. exact (wp_run _ _ _ _ _ E (worker_loop_post _ _ w Hr Hs Hl)).
Qed.
End WorkerProps.
