(* ===== verification/Progress.v ===== *)
(** * Progress of an undisturbed switch over the in-memory store

    The theorems of [SwitcherProps] say what a call that returns has done; these say
    that the calls do return. Without concurrent calls, with a live context and an SPI
    client that answers, a batch submits every transfer it is handed and the worker
    empties the queue. *)

From S2P Require Import Prelude GoStrings Sha256 Rail Events Fraud Dict Spi RateLimit StoreSpec.
From S2P Require Import MemStore MemStoreProps OutboxProps MemStoreLaws Effects Switcher SwitcherProps.
From S2P Require Import Config App.

Section Progress.
Context (order : list Transfer -> list Transfer) (order_perm : forall l, order l ≡ₚ l).
Context `{Strategy LT} `{Strategy LD} (env : Env MemoryStore) (sv : Service).

#[local] Instance progress_store : Store MemoryStore := MemoryStore_Store order.
#[local] Instance progress_laws : StoreLaws MemoryStore := MemoryStore_Laws order order_perm.

Local Abbreviation W := (World MemoryStore (Limits LT LD)).
Implicit Types (s : MemoryStore) (w : W) (t u : Transfer).

(** The SPI client answers every submission with identifiers. *)
Definition spi_answers : Prop := forall k t, exists m, sv_spi sv k t = Ok m /\
  TrimSpace (m_MessageID m) <> "" /\ TrimSpace (m_EndToEndID m) <> "".

Context (Hun : undisturbed env) (Hspi : spi_answers).

Lemma undisturbed_rely : rely env.
Proof. intros k s Hs. rewrite (un_alone env Hun). by apply preserves_refl. Qed.

Lemma observe k : obs_at env k = mkObs None (env_now env k).
Proof. pose proof (un_avail env Hun k) as E. cbn in E. unfold obs_at. by rewrite E. Qed.

(** ** One submission *)

(** The identifiers of a transfer reach the store as they are. *)
Definition named t : Prop :=
  TrimSpace (t_TenantID t) = t_TenantID t /\ t_TenantID t <> "" /\
  TrimSpace (t_ID t) = t_ID t /\ t_ID t <> "".

(** No worker holds a lease on the transfer. *)
Definition unleased t : Prop := forall k, ptr_After (t_SPIClaimedUntil t) (env_now env k) = false.

(** The two steps of the aggregate a submission takes. *)
Lemma claim_runs t tok until now :
  t_Status t = StatusAccepted -> ptr_After (t_SPIClaimedUntil t) now = false ->
  TrimSpace tok <> "" -> now < until ->
  exists u, Transfer_ClaimSPISubmission t tok until now = Ok u /\
    t_Status u = StatusAccepted /\ t_SPIClaimToken u = tok /\ t_ID u = t_ID t /\
    t_TenantID u = t_TenantID t.
Proof.
  intros Hst Hl Htok%String.eqb_neq Hu. unfold Transfer_ClaimSPISubmission, time_After, time_UTC.
  rewrite Htok, Hst, Hl, (proj2 (Z.ltb_lt _ _) Hu). cbn.
  eexists. split; [reflexivity|]. cbn. by split_and!.
Qed.

Lemma record_runs t tok msg :
  t_Status t = StatusAccepted -> t_SPIClaimToken t = tok -> tok <> "" ->
  TrimSpace (m_MessageID msg) <> "" -> TrimSpace (m_EndToEndID msg) <> "" ->
  exists u, Transfer_RecordSPISubmission t tok msg = Ok u /\ t_Status u = StatusApproved /\
    t_ID u = t_ID t.
Proof.
  intros Hst Hc Htok%String.eqb_neq Hm%String.eqb_neq He%String.eqb_neq.
  unfold Transfer_RecordSPISubmission. rewrite Hst, Hc, Htok, !String.eqb_refl, Hm, He. cbn.
  eexists. split; [reflexivity|]. cbn. by split_and!.
Qed.

Lemma store_claims now tn id tok until t u s :
  lookup_tenant tn id s = Some t -> t_Status t = StatusAccepted ->
  Transfer_ClaimSPISubmission t tok until now = Ok u ->
  MemoryStore_ClaimSPISubmission (mkObs None now) tn id tok until s =
    (Ok (u, false), put_transfer u s).
Proof.
  intros Hlk Hst E. unfold MemoryStore_ClaimSPISubmission. cbn [MemoryStore_Health obs_ctx obs_now].
  unfold MemoryStore_Health, time_UTC. cbn. by rewrite Hlk, Hst, E.
Qed.

Lemma store_records now tn id tok msg evs aud t u s :
  lookup_tenant tn id s = Some t -> t_Status t = StatusAccepted ->
  Transfer_RecordSPISubmission t tok msg = Ok u ->
  MemoryStore_RecordSPISubmission (mkObs None now) tn id tok msg evs aud s =
    (Ok (u, false), commit u (ms_callbacks s) evs [aud] s).
Proof.
  intros Hlk Hst E. unfold MemoryStore_RecordSPISubmission, MemoryStore_Health. cbn.
  rewrite Hlk, Hst, E. cbn. by rewrite append_spec.
Qed.

Lemma submit_run c t w :
  ms_transfers (w_store w) !! t_ID t = Some t -> named t -> unleased t ->
  t_Status t = StatusAccepted ->
  wp (Service_SubmitToSPI env sv (t_TenantID t) (t_ID t) c) w (fun r w' =>
    exists u evs, r = Ok (mkResult u false evs) /\
      ms_transfers (w_store w') = <[t_ID t := u]> (ms_transfers (w_store w)) /\
      t_Status u = StatusApproved /\ rtc transfer_step t u /\
      ms_callbacks (w_store w') = ms_callbacks (w_store w) /\
      map e_EventType evs = ["spi_message_created"; "pix_transfer_approved"] /\
      map o_Event (ms_events (w_store w')) = map o_Event (ms_events (w_store w)) ++ evs /\
      exists aud, ms_audit (w_store w') = ms_audit (w_store w) ++ [aud]).
Proof.
  intros Ht (Etn & Hntn & Eid & Hnid) Hl Hst. unfold Service_SubmitToSPI. rewrite Etn, Eid.
  apply String.eqb_neq in Hntn, Hnid. rewrite Hntn, Hnid. cbn [orb].
  wp_step. apply newID_visible; [by eexists _, _|]. intros tok Htok.
  do 4 wp_step. rename H1 into E. unfold store_now in E. rewrite (un_alone env Hun), observe in E.
  cbn [w_store next_tick w_tick ClaimSPISubmission progress_store MemoryStore_Store] in E.
  set (k := S (w_tick w)) in *. set (until := time_Add _ _) in *.
  assert (Hu : env_now env (S k) < until)
    by (unfold until, time_Add, time_UTC; destruct (un_clock env Hun k); cbn; lia).
  destruct (claim_runs t tok until (env_now env (S k)) Hst (Hl _) Htok Hu)
    as (t1 & Ec & Hst1 & Hc1 & Eid1 & Etn1).
  assert (Hlk : lookup_tenant (t_TenantID t) (t_ID t) (w_store w) = Some t)
    by by apply lookup_tenant_Some.
  rewrite (store_claims _ _ _ _ _ t t1) in E by done. injection E as <- <-. cbv beta iota.
  unfold submit_claimed. do 3 wp_step. 
  destruct (Hspi (w_tick (set_store (put_transfer t1 (w_store w)) (next_tick (next_tick (next_tick w))))) t1) as (m & Em & Hm & He).
  rewrite Em. cbv beta iota. do 2 wp_step. apply wp_try_events; [apply clock_now|].
  intros evs w1 Hw1 _ Hty. cbn [app]. cbv beta iota. do 2 wp_step. rename H1 into E.
  unfold store_now in E. rewrite (un_alone env Hun), observe, Hw1 in E.
  cbn [w_store set_store next_tick RecordSPISubmission progress_store MemoryStore_Store] in E.
  destruct (record_runs t1 tok m Hst1 Hc1 (TrimSpace_nonempty _ Htok) Hm He) as (u & Er & Hsu & Eidu).
  rewrite (store_records _ _ _ _ _ _ _ t1 u) in E; [|apply lookup_tenant_Some; cbn; by rewrite Eid1, lookup_insert_eq|done|done].
  injection E as <- <-. cbv beta iota. wp_steps. exists u, evs. split_and!; [done| |done| |done|exact Hty| |by eexists].
  - cbn. by rewrite Eidu, Eid1, insert_insert_eq.
  - eapply rtc_l; [by eapply ts_claim|]. eapply rtc_l; [by eapply ts_record|]. reflexivity.
  - cbn. by rewrite map_app, records_from_events.
Qed.
(** ** A batch *)

(** Every transfer that waits for its submission can be claimed now. *)
Definition workable s : Prop := forall id t, ms_transfers s !! id = Some t ->
  t_Status t = StatusAccepted -> named t /\ unleased t.

(** The transfers that wait for their submission. *)
Definition awaiting s : gset string :=
  dom (filter (fun kv => t_Status kv.2 = StatusAccepted) (ms_transfers s)).

Lemma elem_of_awaiting id s :
  id ∈ awaiting s <-> exists t, ms_transfers s !! id = Some t /\ t_Status t = StatusAccepted.
Proof.
  unfold awaiting. rewrite elem_of_dom. unfold is_Some.
  by setoid_rewrite map_lookup_filter_Some.
Qed.

(** The submissions of the transfers with the given ids, and nothing else. *)
Definition submitted (ids : list string) s s' : Prop := forall id,
  if decide (id ∈ ids) then exists t u, ms_transfers s !! id = Some t /\
    t_Status t = StatusAccepted /\ ms_transfers s' !! id = Some u /\
    t_Status u = StatusApproved /\ rtc transfer_step t u
  else ms_transfers s' !! id = ms_transfers s !! id.

Lemma submitted_nil s : submitted [] s s.
Proof. intros id. by rewrite decide_False by apply not_elem_of_nil. Qed.

Lemma submitted_one t u s s' :
  ms_transfers s !! t_ID t = Some t -> t_Status t = StatusAccepted ->
  ms_transfers s' = <[t_ID t := u]> (ms_transfers s) ->
  t_Status u = StatusApproved -> rtc transfer_step t u -> submitted [t_ID t] s s'.
Proof.
  intros Ht Hst E Hu Hs id. rewrite E. case_decide as Hid; rewrite list_elem_of_singleton in Hid.
  - subst id. exists t, u. by rewrite lookup_insert_eq.
  - by rewrite lookup_insert_ne.
Qed.

Lemma submitted_app l1 l2 s1 s2 s3 : (forall id, id ∈ l1 -> id ∉ l2) ->
  submitted l1 s1 s2 -> submitted l2 s2 s3 -> submitted (l1 ++ l2) s1 s3.
Proof.
  intros Hd H1 H2 id. specialize (H1 id). specialize (H2 id). specialize (Hd id).
  repeat case_decide; rewrite elem_of_app in *; try tauto; by rewrite ?H2, ?H1 in *.
Qed.

Lemma submitted_workable ids s s' : submitted ids s s' -> workable s -> workable s'.
Proof.
  intros Hsub Hw id u Hu Hst. specialize (Hsub id). case_decide.
  - destruct Hsub as (t & v & _ & _ & Hv & Ev & _). rewrite Hu in Hv. injection Hv as <-.
    by rewrite Hst in Ev.
  - rewrite Hsub in Hu. by eapply Hw.
Qed.

Lemma submitted_awaiting ids s s' : NoDup ids -> submitted ids s s' ->
  size (awaiting s) = (length ids + size (awaiting s'))%nat.
Proof.
  intros Hnd Hsub. rewrite <- (size_list_to_set (C := gset string) ids) by done.
  rewrite <- size_union; [f_equal; apply set_eq|apply elem_of_disjoint]; intros id;
    specialize (Hsub id); rewrite ?elem_of_union, elem_of_list_to_set, !elem_of_awaiting.
  - case_decide; [|rewrite Hsub]; naive_solver.
  - case_decide; [|done]. destruct Hsub as (t & u & _ & _ & -> & Hu & _).
    intros _ (v & [= <-] & Hv). by rewrite Hu in Hv.
Qed.

(** The loop over a batch that is still as it was listed. *)
Lemma submit_loop_run pending res w :
  store_ok (w_store w) -> workable (w_store w) -> NoDup (map t_ID pending) ->
  Forall (fun t => ms_transfers (w_store w) !! t_ID t = Some t /\ t_Status t = StatusAccepted) pending ->
  0 <= br_Submitted res -> br_Submitted res + Z.of_nat (length pending) <= max_int64 ->
  wp (submit_loop env sv pending res) w (fun r w' =>
    r = Ok (res <| br_Submitted := br_Submitted res + Z.of_nat (length pending) |>, None) /\
    store_ok (w_store w') /\ submitted (map t_ID pending) (w_store w) (w_store w')).
Proof.
  revert res w. induction pending as [|t rest IH]; intros res w Hs Hw Hnd Hf H0' Hmax;
    cbn [submit_loop map length] in *.
  { wp_steps. split_and!; [|done|apply submitted_nil]. rewrite Z.add_0_r. by destruct res. }
  apply NoDup_cons in Hnd as [Hni Hnd]. apply Forall_cons in Hf as [[Ht Hst] Hf].
  destruct (Hw _ _ Ht Hst) as [Hn Hl].
  pose proof (submit_run (t_CorrelationID t) t w Ht Hn Hl Hst) as Hrun.
  pose proof (submit_to_spi_post env sv (t_TenantID t) (t_ID t) (t_CorrelationID t) w
    undisturbed_rely Hs) as [[Hs1 _] _].
  do 2 wp_step. unfold wp in Hrun |- *.
  destruct (Service_SubmitToSPI _ _ _ _ _ w) as [r w1]. cbn [fst snd] in *.
  destruct Hrun as (u & evs & -> & Em & Hu & Hst1 & _). cbn [r_IdempotentReplay].
  pose proof (submitted_one _ _ _ _ Ht Hst Em Hu Hst1) as Hone.
  cbn [br_Submitted] in *. rewrite int64_id by (unfold in_int64; int_lia).
  eapply wp_conseq; [apply IH|].
  - done.
  - by eapply submitted_workable.
  - done.
  - rewrite Forall_forall in *. intros x Hx. destruct (Hf x Hx) as [Hx1 Hx2]. split; [|done].
    rewrite Em, lookup_insert_ne; [done|]. intros E. apply Hni. rewrite E. by apply list_elem_of_fmap_2.
  - cbn. lia.
  - cbn. lia.
  - cbn. intros r w' (-> & Hs' & Hsub). split_and!; [|done|].
    + do 2 f_equal. unfold upd_field. cbn. f_equal. lia.
    + apply (submitted_app [t_ID t] _ _ (w_store w1)); [|done|done].
      intros id ->%list_elem_of_singleton. done.
Qed.
Lemma listed_once o limit s ts : store_ok s ->
  MemoryStore_PendingSPISubmissions o order limit s = Ok ts -> NoDup (map t_ID ts).
Proof.
  intros Hs. unfold MemoryStore_PendingSPISubmissions. destruct (MemoryStore_Health o); [done|].
  intros [= <-]. eapply sublist_NoDup; [|apply sublist_map, sublist_take].
  eapply NoDup_Permutation_proper; [apply Permutation_map, merge_sort_Permutation|].
  eapply sublist_NoDup; [|apply sublist_map, sublist_filter].
  eapply NoDup_Permutation_proper; [apply Permutation_map, order_perm|].
  rewrite List.map_map. rewrite (map_ext_in _ fst).
  - apply (NoDup_fst_map_to_list (M := gmap string)).
  - intros [id t] Hin%list_elem_of_In%elem_of_map_to_list. by apply (so_id s Hs).
Qed.

(** What a batch submits: all that waits, or as many transfers as the limit allows. *)
Definition batch_of (limit : Z) (ids : list string) s s' : Prop :=
  NoDup ids /\ submitted ids s s' /\ Z.of_nat (length ids) <= default_limit limit /\
  (awaiting s' = ∅ \/ Z.of_nat (length ids) = default_limit limit).

Lemma submit_pending_run limit w :
  store_ok (w_store w) -> workable (w_store w) -> in_int64 limit ->
  wp (Service_SubmitPendingSPI env sv limit) w (fun r w' => exists ids,
    let n := Z.of_nat (length ids) in
    r = Ok (mkSPIBatchResult n n 0 0, None) /\ store_ok (w_store w') /\
    batch_of limit ids (w_store w) (w_store w')).
Proof.
  intros Hs Hw Hl. unfold Service_SubmitPendingSPI. do 2 wp_step.
  unfold store_now. rewrite (un_alone env Hun), observe.
  set (now := env_now env (w_tick w)). cbn [PendingSPISubmissions progress_store MemoryStore_Store].
  destruct (spi_queue (w_store w) now order limit Hs order_perm) as (ts & E & _ & Hlen & Hin & Hall).
  pose proof (listed_once _ _ _ _ Hs E) as Hnd. rewrite E.
  assert (Hmax : Z.of_nat (length ts) <= max_int64)
    by (unfold default_limit in Hlen; destruct (limit <=? 0); int_lia).
  eapply wp_conseq; [apply submit_loop_run; cbn; try done|].
  - apply Forall_forall. intros t Ht. destruct (Hin t Ht) as (? & Hp & _). split; [done|].
    unfold spi_pending in Hp. b2p. done.
  - cbn. intros r w' (-> & Hs' & Hsub). exists (map t_ID ts). rewrite length_map.
    split_and!; [done|done|]. split_and!; [done|done|by rewrite length_map|].
    rewrite length_map.
    destruct (decide (Z.of_nat (length ts) = default_limit limit)) as [|Hne]; [by right|left].
    apply elem_of_equiv_empty_L. intros id (t & Ht & Hst)%elem_of_awaiting.
    pose proof (Hsub id) as Hid. case_decide as Hdec.
    { destruct Hid as (? & u & _ & _ & Hu & Eu & _). rewrite Ht in Hu. injection Hu as <-.
      by rewrite Hst in Eu. }
    rewrite Hid in Ht. apply Hdec. destruct (Hw _ _ Ht Hst) as [_ Hul].
    pose proof (so_id _ Hs _ _ Ht) as <-. apply list_elem_of_fmap_2.
    destruct (Hall t Ht) as [|[]]; [|done..]. unfold spi_pending.
    specialize (Hul (w_tick w)). fold now in Hul. rewrite Hst, Hul. destruct (ok_pre _ (so_transfer _ Hs _ _ Ht)) as [-> _]; [|done].
    unfold pre_spi. by left.
Qed.
(** ** The worker *)

(** What the log of a batch says of [n] submissions. *)
Definition reports (n : Z) (log : BatchLog) : Prop :=
  match log with
  | BatchSilent => n = 0
  | BatchCompleted res => 0 < n /\ res = mkSPIBatchResult n n 0 0
  | BatchFailed _ => False
  end.

Lemma run_batch_run limit w :
  store_ok (w_store w) -> workable (w_store w) -> in_int64 limit ->
  wp (runBatch env sv limit) w (fun r w' => exists ids log,
    r = Ok log /\ reports (Z.of_nat (length ids)) log /\ store_ok (w_store w') /\
    batch_of limit ids (w_store w) (w_store w')).
Proof.
  intros Hs Hw Hl. unfold runBatch. do 2 wp_step.
  eapply wp_conseq; [by apply submit_pending_run|].
  intros r w' (ids & -> & Hs' & Hb). cbv beta iota zeta. cbn [fst snd br_Scanned].
  wp_step; b2p; wp_steps; eexists ids, _; (split_and!; [reflexivity|cbn|done|done]); [done|].
  split; [lia|done].
Qed.

Lemma worker_loop_run limit n w :
  store_ok (w_store w) -> workable (w_store w) -> in_int64 limit ->
  wp (worker_loop env sv limit n) w (fun r w' => exists ids logs ns,
    r = Ok logs /\ length logs = n /\ Forall2 reports ns logs /\
    sum_Z ns = Z.of_nat (length ids) /\ store_ok (w_store w') /\
    NoDup ids /\ submitted ids (w_store w) (w_store w') /\
    (awaiting (w_store w') = ∅ \/ Z.of_nat (length ids) >= Z.of_nat n * default_limit limit)).
Proof.
  intros Hs Hw Hl. revert w Hs Hw. induction n as [|n IH]; intros w Hs Hw; cbn [worker_loop].
  { wp_steps. exists [], [], []. split_and!; try done.
    - by apply NoDup_nil.
    - right. cbn. lia. }
  wp_step. eapply wp_conseq; [by apply run_batch_run|].
  intros r w1 (ids1 & log & -> & Hrep & Hs1 & (Hnd1 & Hsub1 & _ & Hb1)). wp_step.
  eapply wp_conseq; [apply IH; [done|by eapply submitted_workable]|].
  intros r w2 (ids2 & logs & ns & -> & Hlen & Hf & Hsum & Hs2 & Hnd2 & Hsub2 & Hb2). wp_steps.
  exists (ids1 ++ ids2), (log :: logs), (Z.of_nat (length ids1) :: ns).
  assert (Hdis : forall id, id ∈ ids1 -> id ∉ ids2).
  { intros id H1 H2. pose proof (Hsub1 id) as S1. pose proof (Hsub2 id) as S2.
    repeat case_decide; try done. destruct S1 as (_ & u & _ & _ & Hu & Eu & _).
    destruct S2 as (v & _ & Hv & Ev & _). rewrite Hu in Hv. injection Hv as <-.
    by rewrite Eu in Ev. }
  split_and!; [done|cbn; lia|by constructor|cbn; rewrite length_app; unfold sum_Z in *; lia|done| | |].
  - apply NoDup_app. by split_and!.
  - by eapply submitted_app.
  - rewrite length_app. pose proof (submitted_awaiting _ _ _ Hnd2 Hsub2) as Hsz.
    destruct Hb1 as [Hb1|Hb1], Hb2 as [Hb2|Hb2]; [by left|left|by left|right; lia].
    rewrite Hb1, size_empty in Hsz. apply leibniz_equiv, size_empty_inv. lia.
Qed.
(** What the worker has done once it stops: every transfer that waited is approved along
    the aggregate's operations, the others are as they were, no batch failed and the
    logs count one submission per transfer that waited. *)
Definition queue_drained (w : W) (r : result (list BatchLog)) (w' : W) : Prop :=
  store_ok (w_store w') /\ awaiting (w_store w') = ∅ /\
  (forall id t, ms_transfers (w_store w) !! id = Some t ->
    exists u, ms_transfers (w_store w') !! id = Some u /\
      if t_Status t ==s StatusAccepted then t_Status u = StatusApproved /\ rtc transfer_step t u
      else u = t) /\
  exists logs ns, r = Ok logs /\ Forall2 reports ns logs /\
    sum_Z ns = Z.of_nat (size (awaiting (w_store w))).

Lemma submitted_each ids s s' : submitted ids s s' -> awaiting s' = ∅ ->
  forall id t, ms_transfers s !! id = Some t ->
  exists u, ms_transfers s' !! id = Some u /\
    if t_Status t ==s StatusAccepted then t_Status u = StatusApproved /\ rtc transfer_step t u
    else u = t.
Proof.
  intros Hsub He id t Ht. specialize (Hsub id). case_decide as Hid.
  - destruct Hsub as (v & u & Hv & Hst & Hu & Eu & Hs). rewrite Ht in Hv. injection Hv as <-.
    exists u. rewrite Hst. done.
  - exists t. rewrite Hsub. split; [done|]. destruct (t_Status t ==s StatusAccepted) eqn:E; [|done].
    b2p. exfalso. assert (Hin : id ∈ awaiting s') by (apply elem_of_awaiting; exists t; by rewrite Hsub).
    rewrite He in Hin. by apply elem_of_empty in Hin.
Qed.

Lemma worker_run cfg ticks w :
  store_ok (w_store w) -> workable (w_store w) -> 1 <= cf_WorkerBatchSize cfg <= max_int64 ->
  Z.of_nat (size (awaiting (w_store w))) <= Z.of_nat (S ticks) * cf_WorkerBatchSize cfg ->
  wp (worker env sv cfg ticks) w (queue_drained w).
Proof.
  intros Hs Hw Hb Hsz. eapply wp_conseq;
    [apply worker_loop_run; [done|done|unfold in_int64; int_lia]|].
  intros r w' (ids & logs & ns & -> & _ & Hf & Hsum & Hs' & Hnd & Hsub & Hdone).
  pose proof (submitted_awaiting _ _ _ Hnd Hsub) as Hn.
  assert (He : awaiting (w_store w') = ∅).
  { destruct Hdone as [He|Hlen]; [done|]. apply leibniz_equiv, size_empty_inv.
    unfold default_limit in Hlen. rewrite (proj2 (Z.leb_gt _ 0)) in Hlen by lia. lia. }
  unfold queue_drained. split_and!; [done|done|by eapply submitted_each|].
  exists logs, ns. rewrite Hn, He, size_empty, Nat.add_0_r. by split_and!.
Qed.
End Progress.

(** The simulator answers every submission. *)
Lemma app_spi_answers unicode_lower (env : Env MemoryStore) cfg :
  spi_answers (app_Service unicode_lower env cfg).
Proof.
  intros k t. eexists. split; [reflexivity|]. split; by apply TrimSpace_visible.
Qed.

(** C22: the worker the configuration describes, on an in-memory store nobody else
    uses, empties the queue: when no lease holds an accepted transfer, the batch size
    times the batches it runs is at least the number of transfers that wait, and its
    context stays alive, it approves every one of them, whatever the order in which the
    map is met, leaves the others as they were, and logs each submission once. *)
Theorem worker_drains_queue order (order_perm : forall l : list Transfer, order l ≡ₚ l)
    `{Strategy LT} `{Strategy LD} unicode_lower (env : Env MemoryStore) cfg ticks
    (w : World MemoryStore (Limits LT LD)) r w' :
  undisturbed env -> store_ok (w_store w) -> workable env (w_store w) ->
  1 <= cf_WorkerBatchSize cfg <= max_int64 ->
  Z.of_nat (size (awaiting (w_store w))) <= Z.of_nat (S ticks) * cf_WorkerBatchSize cfg ->
  worker (H := MemoryStore_Store order) env (app_Service unicode_lower env cfg) cfg ticks w = (r, w') ->
  queue_drained w r w'.
Proof.
  intros Hun Hs Hw Hb Hsz E.
  exact (wp_run _ _ _ _ _ E (worker_run order order_perm env _ Hun
    (app_spi_answers unicode_lower env cfg) cfg ticks w Hs Hw Hb Hsz)).
Qed.
