(* ===== verification/Payment.v ===== *)
(** * The life of a payment on an undisturbed system

    Each call of the switch succeeds when the collaborators answer and the state
    machine allows it, and a payment goes from its request to its settlement, with all
    its evidence in the outbox for the relay. *)

From S2P Require Import Prelude GoStrings Sha256 Rail Events RateLimit StoreSpec GoStrconv JsonText.
From S2P Require Import MemStore MemStoreProps OutboxProps MemStoreLaws Effects Switcher SwitcherProps.
From S2P Require Import Progress.

(** ** Identifiers *)

Definition visible (c : ascii) : bool := (32 <? code c) && (code c <? 128).

Lemma visible_code c : visible c = true -> 32 < code c < 128.
Proof. unfold visible. intros H. b2p. lia. Qed.

(** A first character that is no part of a space ends the trimming. *)
Lemma trim_head s1 s2 s3 c l : s1 c = false -> (forall a, s2 c a = false) ->
  (forall a b, s3 c a b = false) -> trim_with s1 s2 s3 (c :: l) = c :: l.
Proof. intros E1 E2 E3. destruct l as [|a [|b l]]; cbn; by rewrite ?E1, ?E2, ?E3. Qed.

Lemma visible_spaces c : visible c = true ->
  space1 c = false /\ (forall a, space2 c a = false /\ space2 a c = false) /\
  (forall a b, space3 c a b = false /\ space3 a b c = false).
Proof.
  intros Hc%visible_code.
  assert (N : forall z, 128 <= z -> (code c =? z) = false) by (intros z Hz; apply Z.eqb_neq; lia).
  assert (L : forall z, 128 <= z -> (z <=? code c) = false) by (intros z Hz; apply Z.leb_gt; lia).
  split_and!.
  - unfold space1. rewrite (proj2 (Z.leb_gt (code c) 13)) by lia.
    rewrite andb_false_r. apply Z.eqb_neq. lia.
  - intros a. unfold space2. rewrite !N by lia. by rewrite !andb_false_r.
  - intros a b. unfold space3. rewrite !N, L by lia. cbn. by rewrite !andb_false_r.
Qed.

(** A text of visible ASCII characters is its own trim. *)
Lemma TrimSpace_id s : str_all visible s -> TrimSpace s = s.
Proof.
  unfold str_all. intros Hs. unfold TrimSpace.
  assert (Hl : forall l, Forall (fun c => visible c = true) l ->
    trim_left l = l /\ trim_right_rev l = l).
  { intros [|c l]; [done|]. intros [Hc _]%Forall_cons.
    destruct (visible_spaces c Hc) as (E1 & E2 & E3).
    split; apply trim_head; try done; intros; by (apply E2 || apply E3). }
  destruct (Hl _ Hs) as [-> _]. destruct (Hl (rev (list_ascii_of_string s))) as [_ ->].
  - apply Forall_rev, Hs.
  - by rewrite rev_involutive, string_of_list_ascii_of_string.
Qed.

Lemma str_all_impl (f g : ascii -> bool) s : (forall c, f c = true -> g c = true) ->
  str_all f s -> str_all g s.
Proof. intros Hfg Hs. eapply Forall_impl; [exact Hs|exact Hfg]. Qed.

Lemma hex_visible b : str_all visible (hex_EncodeToString b).
Proof.
  assert (Hd : forall z, 0 <= z < 16 -> visible (hex_digit z) = true).
  { intros z Hz. unfold visible, hex_digit, code. rewrite N_ascii_embedding
      by (destruct (z <? 10); lia).
    apply andb_true_intro. split; apply Z.ltb_lt; destruct (z <? 10) eqn:E; b2p; lia. }
  induction b as [|x b IH]; [constructor|]. pose proof (b2z_range x).
  repeat constructor; [apply Hd..|exact IH]; [split; [apply Z.div_pos|apply Z.div_lt_upper_bound]; lia|].
  apply Z.mod_pos_bound. lia.
Qed.

Lemma Itoa_visible z : str_all visible (Itoa z).
Proof.
  assert (Hd : forall n p, decimal n p -> str_all visible p).
  { intros n p (_ & Hall & _)%decimal_shape. eapply str_all_impl; [|exact Hall].
    intros c. unfold is_digit, visible. lia. }
  destruct (Itoa_cases z) as [[_ ->]|[(p & Hp & ->)|(p & Hp & ->)]].
  - by repeat constructor.
  - by eapply Hd.
  - constructor; [done|by eapply Hd].
Qed.

Lemma wp_newID_trimmed {St X} (env : Env St) p (w : World St X) Q : str_all visible p -> p <> "" ->
  (forall id, fst (newID env p w) = Ok id -> TrimSpace id = id -> id <> "" ->
     Q (Ok id) (next_tick w)) ->
  wp (newID env p) w Q.
Proof.
  intros Hp Hne HQ. apply HQ; [reflexivity| |by destruct (env_rand env _), p]. apply TrimSpace_id.
  destruct (env_rand env _); rewrite !str_all_app; (split_and!; [done|by repeat constructor|]).
  - apply hex_visible.
  - apply Itoa_visible.
Qed.

(** ** The calls *)

Section Payment.
Context (order : list Transfer -> list Transfer) (order_perm : forall l, order l ≡ₚ l).
Context `{Strategy LT} `{Strategy LD} (env : Env MemoryStore) (sv : Service).

#[local] Instance payment_store : Store MemoryStore := MemoryStore_Store order.
#[local] Instance payment_laws : StoreLaws MemoryStore := MemoryStore_Laws order order_perm.

Local Abbreviation W := (World MemoryStore (Limits LT LD)).
Implicit Types (s : MemoryStore) (w : W) (t u : Transfer).

Context (Hun : undisturbed env).

(** The limiter lets the key through, whenever it is asked. *)
Definition grants `{Strategy L} (l : option L) (key : string) : Prop := forall k,
  match l with None => True | Some l => fst (Allow (env_now env k) key l) = true end.

Lemma wp_allow_tenant key w Q : grants (tenantLimit (w_rest w)) key ->
  (forall w', w_store w' = w_store w -> dictLimit (w_rest w') = dictLimit (w_rest w) ->
     Q (Ok true) w') -> wp (allow_tenant env key) w Q.
Proof.
  intros Hg HQ. specialize (Hg (w_tick w)). unfold wp, allow_tenant, update_rest.
  destruct (tenantLimit (w_rest w)) as [l|]; [|by apply HQ].
  destruct (Allow _ key l) as [ok l']. cbn in Hg |- *. subst ok. by apply HQ.
Qed.

Lemma wp_allow_dict key w Q : grants (dictLimit (w_rest w)) key ->
  (forall w', w_store w' = w_store w -> Q (Ok true) w') -> wp (allow_dict env key) w Q.
Proof.
  intros Hg HQ. specialize (Hg (w_tick w)). unfold wp, allow_dict, update_rest.
  destruct (dictLimit (w_rest w)) as [l|]; [|by apply HQ].
  destruct (Allow _ key l) as [ok l']. cbn in Hg |- *. subst ok. by apply HQ.
Qed.

(** A request the switch can decide with the status [st]. *)
Record decidable_request (req : CreateTransferRequest) (st : TransferStatus) (w : W) : Prop := {
  dr_valid : CreateTransferRequest_Validate (normalize_request req 0) = None;
  dr_free : ms_idempotency (w_store w) !!
    tenant_key (TrimSpace (cr_TenantID req)) (TrimSpace (cr_IdempotencyKey req)) = None;
  dr_tenant : grants (tenantLimit (w_rest w))
    (TrimSpace (cr_TenantID req) +:+ ":" +:+ TrimSpace (cr_AccountID req));
  dr_dict : grants (dictLimit (w_rest w))
    (TrimSpace (cr_TenantID req) +:+ ":" +:+ TrimSpace (cr_ReceiverKey req));
  dr_decided : forall at_ k, let q := normalize_request req at_ in exists entry,
    sv_dict sv k (cr_TenantID q) (cr_ReceiverKey q) (cr_ReceiverKeyType q) = Ok entry /\
    forall k', exists d, sv_fraud sv k' q entry = Ok d /\ f_Status d = st;
  dr_status : pre_spi st;
  dr_fresh : forall w' : W, forall id, fst (newID env "pxt" w') = Ok id ->
    ms_transfers (w_store w) !! id = None
}.

(** What the steps that follow a creation need of it. *)
Definition created (t : Transfer) (w w' : W) : Prop :=
  TrimSpace (t_ID t) = t_ID t /\ t_ID t <> "" /\ t_SPIClaimedUntil t = None /\
  ms_callbacks (w_store w') = ms_callbacks (w_store w).

Lemma decide_run q entry st w :
  store_ok (w_store w) -> pre_spi st ->
  (forall k, exists d, sv_fraud sv k q entry = Ok d /\ f_Status d = st) ->
  (forall w' : W, forall id, fst (newID env "pxt" w') = Ok id -> ms_transfers (w_store w) !! id = None) ->
  ms_idempotency (w_store w) !! tenant_key (cr_TenantID q) (cr_IdempotencyKey q) = None ->
  wp (decide_transfer env sv q (CreateTransferRequest_Fingerprint q) entry) w (fun r w' =>
    exists res, r = Ok res /\ r_IdempotentReplay res = false /\ t_Status (r_Transfer res) = st /\
      created (r_Transfer res) w w').
Proof.
  intros Hs Hst Hf Hfr Hk. unfold decide_transfer. do 2 wp_step.
  destruct (Hf (w_tick w)) as (d & Ed & Est). rewrite Ed, Est.
  assert (Eok : (st ==s StatusAccepted) || (st ==s StatusReview) || (st ==s StatusBlocked) = true)
    by (destruct Hst as [->|[->| ->]]; done).
  rewrite Eok. cbn [negb]. do 3 wp_step. apply wp_newID_trimmed; [by repeat constructor|done|].
  intros id Eid Htrim Hne. set (t := build_transfer _ _ _ _ _ _). wp_step.
  apply wp_addEvents. intros new w1 Hw1 _ _. cbn [app]. unfold insert_or_replay. do 3 wp_step.
  rename H1 into E. unfold store_now in E. rewrite (un_alone env Hun), Hw1 in E.
  cbn [InsertTransfer payment_store MemoryStore_Store w_store next_tick] in E.
  destruct (insert_result t new [creation_audit t (time_UTC (env_now env (w_tick (next_tick w))))] (w_store w)
    (store_ok_indexed _ Hs)) as [(_ & _ & Ei)|[[[u Hu]|[u Hu]] _]].
  - cbn in E, Ei. rewrite Ei in E. injection E as <- <-. wp_steps. eexists.
    by split_and!.
  - cbn in Hu. by rewrite (Hfr _ _ Eid) in Hu.
  - unfold idem_key in Hu. cbn in Hu. by rewrite Hk in Hu.
Qed.

Lemma create_run req st w : store_ok (w_store w) -> decidable_request req st w ->
  wp (Service_CreateTransfer env sv req) w (fun r w' => exists res, r = Ok res /\
    r_IdempotentReplay res = false /\ t_Status (r_Transfer res) = st /\
    created (r_Transfer res) w w').
Proof.
  intros Hs Hd. unfold Service_CreateTransfer. wp_step. apply wp_normalized.
  intros at_ w1 Hw1 Hl1. cbv beta iota.
  destruct (normalize_request_at req at_) as (Etn & Ek & Ev & Eh).
  rewrite Ev, (dr_valid _ _ _ Hd). do 2 wp_step.
  unfold store_now. rewrite (un_alone env Hun), (observe env Hun), Hw1.
  cbn [FindByIdempotency payment_store MemoryStore_Store].
  unfold MemoryStore_FindByIdempotency, MemoryStore_Health. cbn [obs_ctx].
  rewrite Etn, Ek, (dr_free _ _ _ Hd). set (q := normalize_request req at_) in *.
  assert (Eac : cr_AccountID q = TrimSpace (cr_AccountID req) /\
                cr_ReceiverKey q = TrimSpace (cr_ReceiverKey req)).
  { unfold q, normalize_request. cbn.
    destruct (cr_Currency req ==s ""); cbn; by destruct (time_IsZero (cr_RequestedAt req)). }
  destruct Eac as [Eac Erk]. rewrite Eac, Erk.
  wp_step. apply wp_allow_tenant; [cbn; rewrite Hl1; apply (dr_tenant _ _ _ Hd)|].
  intros w2 Hw2 Hl2. cbn [negb]. wp_step. apply wp_allow_dict.
  { rewrite Hl2. cbn. rewrite Hl1. apply (dr_dict _ _ _ Hd). }
  intros w3 Hw3. cbn [negb]. wp_step. unfold resolve_receiver. do 3 wp_step.
  destruct (dr_decided _ _ _ Hd at_ (w_tick w3)) as (entry & He & Hf). fold q in He.
  rewrite He. wp_steps.
  assert (Ew : w_store w3 = w_store w) by (by rewrite Hw3, Hw2).
  eapply wp_conseq; [apply (decide_run q entry st); cbn; rewrite ?Ew|].
  - done.
  - apply (dr_status _ _ _ Hd).
  - exact Hf.
  - apply (dr_fresh _ _ _ Hd).
  - rewrite Etn, Ek. apply (dr_free _ _ _ Hd).
  - intros r w' (res & -> & Hr & Hst & Hc). exists res. unfold created in *. cbn in Hc.
    by rewrite Ew in Hc.
Qed.
(** A manual decision on a transfer in review. *)
Lemma review_run req t w :
  lookup_tenant (TrimSpace (rv_TenantID req)) (TrimSpace (rv_TransferID req)) (w_store w) = Some t ->
  TrimSpace (rv_TenantID req) <> "" -> TrimSpace (rv_TransferID req) <> "" ->
  t_Status t = StatusReview -> is_Ok (review_outcome (rv_Decision req)) = true ->
  wp (Service_RecordReview env req) w (fun r w' => exists res, r = Ok res).
Proof.
  intros Ht Htn%String.eqb_neq Hid%String.eqb_neq Hst Ho. unfold Service_RecordReview. wp_step.
  apply wp_conseq with (P := fun r w1 =>
    exists at_, r = Ok (normalize_review req at_) /\ w_store w1 = w_store w);
    [wp_steps; by eexists|].
  intros r w1 (at_ & -> & Hw1). destruct (normalize_review_at req at_) as (Etn & Eid & Ed).
  set (q := normalize_review req at_) in *. rewrite Etn, Eid, Htn, Hid. cbn [orb]. do 2 wp_step.
  unfold store_now. rewrite (un_alone env Hun), (observe env Hun), Hw1.
  cbn [GetTransfer payment_store MemoryStore_Store]. unfold MemoryStore_GetTransfer.
  rewrite Ht, Hst. cbn [negb String.eqb]. rewrite String.eqb_refl. cbn [negb].
  set (q' := if rv_CorrelationID q ==s "" then _ else q).
  assert (Eq' : rv_TenantID q' = rv_TenantID q /\ rv_TransferID q' = rv_TransferID q /\
                rv_Decision q' = rv_Decision q)
    by (unfold q'; by destruct (rv_CorrelationID q ==s "")).
  destruct Eq' as (E1 & E2 & E3). do 2 wp_step. rewrite E3, Ed.
  destruct (review_outcome (rv_Decision req)) as [[st ty]|] eqn:Eo; [|done].
  wp_step. apply wp_try_events; [apply clock_ret|]. intros evs w2 Hw2 _ _. cbn [app]. wp_step.
  wp_step. rename H1 into E. unfold store_now in E. rewrite (un_alone env Hun), Hw2 in E.
  cbn [RecordReviewDecision payment_store MemoryStore_Store w_store set_store] in E.
  unfold MemoryStore_RecordReviewDecision in E. rewrite E1, E2, Etn, Eid, Ht in E.
  unfold Transfer_RecordReviewDecision in E. rewrite Hst, String.eqb_refl in E.
  assert (Est : (st ==s StatusAccepted) || (st ==s StatusBlocked) = true)
    by (apply review_outcome_inv in Eo as [(_ & -> & _)|(_ & -> & _)]; done).
  rewrite Est in E. cbn [negb] in E. injection E as <- <-. wp_steps. by eexists.
Qed.

(** A decision on a transfer in review takes effect: the call succeeds and the transfer
    is accepted or blocked, with the evidence [review_post] gives. *)
Theorem review_completes req t w : store_ok (w_store w) ->
  lookup_tenant (TrimSpace (rv_TenantID req)) (TrimSpace (rv_TransferID req)) (w_store w) = Some t ->
  TrimSpace (rv_TenantID req) <> "" -> TrimSpace (rv_TransferID req) <> "" ->
  t_Status t = StatusReview -> rv_Decision req = ReviewApprove \/ rv_Decision req = ReviewBlock ->
  exists res w', Service_RecordReview env req w = (Ok res, w') /\
    review_post env req w (Ok res) w'.
Proof.
  intros Hs Ht Htn Hid Hst Hd.
  assert (Ho : is_Ok (review_outcome (rv_Decision req)) = true) by (by destruct Hd as [->| ->]).
  pose proof (review_run req t w Ht Htn Hid Hst Ho) as [res E].
  pose proof (record_review_post env req w (undisturbed_rely order order_perm env Hun) Hs) as Hp.
  unfold wp in Hp. destruct (Service_RecordReview env req w) as [r w']. cbn in E, Hp. subst r. eauto.
Qed.

(** The answer of SPI for an approved transfer. *)
Lemma settle_run cb t w :
  lookup_tenant (cb_TenantID cb) (cb_TransferID cb) (w_store w) = Some t ->
  cb_TenantID cb <> "" -> cb_TransferID cb <> "" -> cb_SPIMessageID cb <> "" ->
  t_Status t = StatusApproved -> t_SPIMessageID t = cb_SPIMessageID cb ->
  cb_Status cb = SettlementAccepted \/ cb_Status cb = SettlementRejected ->
  ms_callbacks (w_store w) !! tenant_key (cb_TenantID cb) (cb_SPIMessageID cb) = None ->
  wp (Service_RecordSettlement env cb) w (fun r w' => exists res, r = Ok res /\
    r_IdempotentReplay res = false /\
    t_Status (r_Transfer res) =
      if cb_Status cb ==s SettlementAccepted then StatusSettled else StatusRejected).
Proof.
  intros Ht Htn Hid Hm Hst Em Hcb Hk. unfold Service_RecordSettlement. wp_step.
  apply wp_conseq with (P := fun r w1 => exists q, r = Ok q /\ w_store w1 = w_store w /\
    cb_TenantID q = cb_TenantID cb /\ cb_TransferID q = cb_TransferID cb /\
    cb_SPIMessageID q = cb_SPIMessageID cb /\ cb_Status q = cb_Status cb).
  { unfold callback_defaults. wp_steps; eexists; by split_and!. }
  intros r w1 (q & -> & Hw1 & E1 & E2 & E3 & E4).
  apply String.eqb_neq in Htn, Hid. pose proof Hm as Hm'%String.eqb_neq.
  rewrite E1, E2, E3, Htn, Hid, Hm'. cbn [orb]. cbv zeta.
  destruct (hashed_callback_fields q) as (F1 & F2 & F3).
  assert (F4 : cb_Status (hashed_callback q) = cb_Status q)
    by (unfold hashed_callback; by destruct (cb_CallbackHash q ==s "")).
  set (c := hashed_callback q) in *. do 2 wp_step.
  unfold store_now. rewrite (un_alone env Hun), (observe env Hun), Hw1.
  cbn [GetTransfer payment_store MemoryStore_Store]. unfold MemoryStore_GetTransfer.
  rewrite F1, F2, F3, F4, E1, E2, E3, E4, Ht, Em, Hm', String.eqb_refl. cbn [orb negb].
  do 2 wp_step.
  assert (Hty : exists ty, settlement_event_type (cb_Status cb) = Ok ty)
    by (unfold settlement_event_type; destruct Hcb as [->| ->]; by eexists).
  destruct Hty as [ty ->]. wp_step. apply wp_new_event; [apply clock_ret|]. intros e w2 Hw2 _ _ _.
  do 2 wp_step. rename H1 into E. unfold store_now in E. rewrite (un_alone env Hun), Hw2 in E.
  cbn [UpdateSettlement payment_store MemoryStore_Store w_store set_store] in E.
  unfold MemoryStore_UpdateSettlement in E. rewrite F3, E3, Hk, Ht in E.
  unfold Transfer_RecordSettlement in E. rewrite F3, F4, E3, E4, Em, Hm', Hst, !String.eqb_refl in E.
  destruct Hcb as [Hcb|Hcb]; rewrite Hcb in *; cbn in E; injection E as <- <-; wp_steps;
    eexists; (split; [reflexivity|by split]).
Qed.
(** ** From the request to the settlement *)

Lemma untouched_same s s' : untouched env s s' -> s' = s.
Proof. intros Hu. induction Hu as [s|s s1 s2 [k ->] _ ->]; [done|]. apply (un_alone env Hun). Qed.

(** A created transfer carries the trimmed tenant of its request. *)
Lemma from_request_tenant req t : from_request sv req t ->
  t_TenantID t = TrimSpace (cr_TenantID req).
Proof.
  intros (at_ & entry & d & now & k1 & k2 & _ & _ & E). rewrite E. cbn.
  by destruct (normalize_request_at req at_) as (-> & _).
Qed.

(** The creation, as the next steps find it. *)
Lemma create_completes req st w : store_ok (w_store w) -> decidable_request req st w ->
  exists t evs aud w1, Service_CreateTransfer env sv req w = (Ok (mkResult t false evs), w1) /\
    t_Status t = st /\ named t /\ t_SPIClaimedUntil t = None /\ from_request sv req t /\
    map e_EventType evs = creation_types st /\
    ms_callbacks (w_store w1) = ms_callbacks (w_store w) /\
    writes (w_store w) (t_TenantID t) (t_ID t) t evs [aud] (w_store w1).
Proof.
  intros Hs Hd. pose proof (undisturbed_rely order order_perm env Hun) as Hr.
  pose proof (create_run req st w Hs Hd) as Hrun.
  pose proof (create_transfer_post env sv req w Hr Hs) as Hpost.
  unfold wp in Hrun, Hpost. destruct (Service_CreateTransfer env sv req w) as [r w1]. cbn in Hrun.
  destruct Hrun as ([t b evs] & -> & Hb & Hst & (Htr & Hne & Hcl & Hcb)). cbn in *. subst b.
  destruct Hpost as (_ & _ & s & aud & Hu & _ & Hw & _ & Hfr & _ & Hty & _).
  apply untouched_same in Hu as ->. pose proof (from_request_tenant _ _ Hfr) as Etn.
  exists t, evs, aud, w1. rewrite <- Etn in Hw. subst st. split_and!; try done.
  unfold named. rewrite Etn, TrimSpace_idem. split_and!; try done.
  pose proof (dr_valid _ _ _ Hd) as Hv%Validate_None. unfold validation_problems in Hv.
  apply app_eq_nil in Hv as [Hv%problem_if_nil _].
  apply String.eqb_neq in Hv. destruct (normalize_request_at req 0) as (E & _). rewrite E in Hv.
  by rewrite TrimSpace_idem in Hv.
Qed.

Context (Hspi : spi_answers sv).

(** What the three calls of a payment leave: the transfer at the end of its life, the
    events in order and an audit record per call. *)
Definition payment_done (w : W) (t1 t2 t3 : Transfer) (evs : list Event) (w' : W) : Prop :=
  rtc transfer_step t1 t2 /\ rtc transfer_step t2 t3 /\
  lookup_tenant (t_TenantID t1) (t_ID t1) (w_store w') = Some t3 /\ store_ok (w_store w') /\
  map o_Event (ms_events (w_store w')) = map o_Event (ms_events (w_store w)) ++ evs /\
  exists a1 a2 a3, ms_audit (w_store w') = ms_audit (w_store w) ++ [a1; a2; a3].

(** C8: the life of a payment goes through: on an in-memory store nobody else uses, a request
    the switch can decide and accepts creates a transfer; submitting it succeeds and
    approves it; and the provider's callback for its SPI message, if none was processed
    before, settles or rejects it. Each step moves the transfer along the aggregate's
    operations, the outbox gains exactly the events of the three steps in order and the
    audit log one record for each. *)
Theorem payment_completes req c w :
  store_ok (w_store w) -> decidable_request req StatusAccepted w ->
  exists t1 evs1 w1, Service_CreateTransfer env sv req w = (Ok (mkResult t1 false evs1), w1) /\
    t_Status t1 = StatusAccepted /\ from_request sv req t1 /\
  exists t2 evs2 w2, Service_SubmitToSPI env sv (t_TenantID t1) (t_ID t1) c w1 =
      (Ok (mkResult t2 false evs2), w2) /\ t_Status t2 = StatusApproved /\
  forall cb, cb_TenantID cb = t_TenantID t1 -> cb_TransferID cb = t_ID t1 ->
    cb_SPIMessageID cb = t_SPIMessageID t2 ->
    cb_Status cb = SettlementAccepted \/ cb_Status cb = SettlementRejected ->
    ms_callbacks (w_store w) !! tenant_key (cb_TenantID cb) (cb_SPIMessageID cb) = None ->
  exists t3 evs3 w3, Service_RecordSettlement env cb w2 = (Ok (mkResult t3 false evs3), w3) /\
    t_Status t3 = (if cb_Status cb ==s SettlementAccepted then StatusSettled else StatusRejected) /\
    map e_EventType (evs1 ++ evs2 ++ evs3) =
      creation_types StatusAccepted ++ ["spi_message_created"; "pix_transfer_approved";
        if cb_Status cb ==s SettlementAccepted then "pix_transfer_settled"
        else "pix_transfer_rejected"] /\
    payment_done w t1 t2 t3 (evs1 ++ evs2 ++ evs3) w3.
Proof.
  intros Hs Hd. pose proof (undisturbed_rely order order_perm env Hun) as Hr.
  destruct (create_completes req _ w Hs Hd) as
    (t1 & evs1 & aud1 & w1 & E1 & Hst1 & Hn & Hcl & Hfr & Hty1 & Hcb1 & Hw1).
  exists t1, evs1, w1. split_and!; [done..|]. destruct Hw1 as (Hs1 & He1 & Ho1 & Hout1 & Haud1 & _).
  cbn in Hs1, Ho1, Hout1, Haud1. apply lookup_tenant_Some in Ho1 as [Ho1 _].
  assert (Hl : unleased env t1) by (intros k; by rewrite Hcl).
  pose proof (submit_run order env sv Hun Hspi c t1 w1 Ho1 Hn Hl Hst1) as Hrun.
  pose proof (submit_to_spi_post env sv (t_TenantID t1) (t_ID t1) c w1 Hr Hs1) as [[Hs2 _] _].
  unfold wp in Hrun. destruct (Service_SubmitToSPI _ _ _ _ c w1) as [r2 w2]. cbn in Hrun, Hs2.
  destruct Hrun as (t2 & evs2 & -> & Etr2 & Hst2 & Hrtc & Hcb2 & Hty2 & Hout2 & aud2 & Haud2).
  exists t2, evs2, w2. split_and!; [done..|]. intros cb Etn Eid Em Hcb Hk.
  assert (Ho2 : ms_transfers (w_store w2) !! t_ID t1 = Some t2) by by rewrite Etr2, lookup_insert_eq.
  destruct (rtc_step_ok t1 t2 (so_transfer _ Hs1 _ _ Ho1) Hrtc) as (Hok2 & Hid2 & _).
  destruct (identity_fields _ _ Hid2) as (Eid2 & Etn2 & _).
  assert (Hlk2 : lookup_tenant (cb_TenantID cb) (cb_TransferID cb) (w_store w2) = Some t2)
    by (rewrite Etn, Eid; by apply lookup_tenant_Some).
  destruct Hn as (_ & Hntn & _ & Hnid).
  pose proof (settle_run cb t2 w2 Hlk2) as Hrun.
  pose proof (record_settlement_post env cb w2 Hr Hs2) as Hpost.
  unfold wp in Hrun, Hpost. destruct (Service_RecordSettlement env cb w2) as [r3 w3].
  cbn [fst snd] in Hrun, Hpost.
  destruct Hrun as ([t3 b evs3] & -> & Hb & Hst3); [congruence..| |done|done|done|congruence|].
  { rewrite Em. apply (ok_post _ Hok2). by left. }
  cbn in Hb, Hst3. subst b. exists t3, evs3, w3.
  destruct Hpost as (_ & _ & _ & _ & s & u & aud3 & Hu & Hou & _ & _ & Hw3 & _ & Hty3).
  apply untouched_same in Hu as ->. cbn [r_Events r_Transfer] in Hw3, Hty3.
  destruct Hw3 as (Hs3 & He3 & Ho3 & Hout3 & Haud3 & _). cbn in He3, Ho3, Hout3, Haud3, Hs3.
  rewrite !List.map_id in *. pose proof Ho3 as [Ho3' _]%lookup_tenant_Some.
  split_and!; [done|done| |split_and!].
  - rewrite !map_app, Hty1, Hty2, Hty3, Hst3. f_equal. cbn. do 3 f_equal.
    by destruct (cb_Status cb ==s SettlementAccepted).
  - done.
  - rewrite Eid in Ho3'. destruct (le_transfers _ _ He3 _ _ Ho2) as (v & Hv & Hst).
    rewrite Ho3' in Hv. by injection Hv as <-.
  - by rewrite <- Etn, <- Eid.
  - done.
  - by rewrite Hout3, Hout2, Hout1, <- !app_assoc.
  - exists aud1, aud2, aud3. by rewrite Haud3, Haud2, Haud1, <- !app_assoc.
Qed.
End Payment.
