(* ===== verification/System.v ===== *)
(** * The processes ([cmd/])

    What the three programs make of their environment: the API server over the store,
    the service, the keys and the callback secret of the configuration, and the
    migration run. In production the whole API is safe: whatever requests it gets, the
    tables keep their invariant and only evolve, and only requests authorised by the
    environment's keys change them. *)

From S2P Require Import Prelude GoStrings GoStrconv Rail Events RateLimit StoreSpec Effects Switcher SwitcherProps Evidence.
From S2P Require Import Config Metrics Api ApiProps Postgres PostgresProps PostgresLaws Migrations App.

(** ** The API process *)

(** The server's fields that [Server_ServeHTTP] reads; the metrics are in the world. *)
Record Server := mkServer {
  srv_service : Service; srv_keys : gmap string APIKey; srv_security : SecurityConfig
}.

Definition NewServer (service : Service) (keys : gmap string APIKey)
    (security : option SecurityConfig) : Server :=
  mkServer service keys (server_security security).

(** What [main] passes as the security settings, and what the server makes of them. *)
Definition api_settings (cfg : Config) : SecurityConfig :=
  mkSecurityConfig (cf_ProviderCallbackSecret cfg) (cf_ProviderSignatureTolerance cfg).

Definition api_security (cfg : Config) : SecurityConfig := server_security (Some (api_settings cfg)).

Section Api.
Context `{Store St} (unicode_lower : string -> string) (env : Env St) (cfg : Config).

(** The world a process starts in at [now], its server and its handler. *)
Definition api_world (now : Time) (s : St) : World St (Limits Limiter Limiter * Metrics) :=
  mkWorld s (app_Limits cfg, NewMetrics now) 0.

Definition api_server : Server :=
  NewServer (app_Service unicode_lower env cfg) (cf_APIKeys cfg) (Some (api_settings cfg)).

Definition api_handler (rt : RuntimeStats) (r : Request)
    : @M St (Limits Limiter Limiter * Metrics) Response :=
  Server_ServeHTTP env (srv_service api_server) (srv_keys api_server) (srv_security api_server) rt r.

Definition api_run (rs : list (RuntimeStats * Request))
    (h : World St (Limits Limiter Limiter * Metrics)) :=
  fold_left (fun h '(rt, r) => snd (api_handler rt r h)) rs h.
End Api.

(** ** The migration process *)

(** [main] of [pixrail-migrate]: the numbers of migrations it reports, or why it exits
    with an error. [open] is [pgxpool.New]. *)
Definition migrate_main {Schema} (os_Getenv : string -> string)
    (fs_ReadDir : string -> result (list DirEntry))
    (fs_ReadFile : string -> string -> result (list byte))
    (open : string -> option error)
    (run_sql : string -> Schema -> result Schema) (refuses : MigrationStmt -> option error)
    (timestamptz : Time -> Time) (duplicate : string -> error) (now : Time) (db : MigrationDB)
    : result (nat * nat) * MigrationDB :=
  let databaseURL := os_Getenv "PIXRAIL_DATABASE_URL" in
  if databaseURL ==s "" then (Err (mkError None "missing_database_url"), db)
  else
    let migrationDir := os_Getenv "PIXRAIL_MIGRATION_PATH" in
    let migrationDir := if migrationDir ==s "" then "db/migrations" else migrationDir in
    match LoadMigrations fs_ReadDir fs_ReadFile migrationDir with
    | Err err => (Err err, db)
    | Ok migrations =>
        match open databaseURL with
        | Some err => (Err err, db)
        | None =>
            match ApplyMigrations run_sql refuses timestamptz duplicate migrations now db with
            | ((res, None), db) => (Ok (length (mr_Applied res), length (mr_Skipped res)), db)
            | ((_, Some err), db) => (Err err, db)
            end
        end
    end.

(** ** Production *)

Section Production.
Context (db : Database) `{!DatabaseLaws db} (json_error : string -> string).
Context (uq unicode_lower os_Getenv : string -> string) (env : Env PgStore).

#[local] Instance system_Store : Store PgStore := Postgres_Store db json_error.
#[local] Instance system_View : StoreView PgStore := Postgres_View db.
#[local] Instance system_Laws : StoreLaws PgStore := Postgres_Laws db json_error.

(** The callback secret of the environment. *)
Definition env_security (cfg : Config) : SecurityConfig :=
  mkSecurityConfig (TrimSpace (os_Getenv "PIXRAIL_PROVIDER_CALLBACK_SECRET"))
    (cf_ProviderSignatureTolerance cfg).

(** C11: in production, from any well-formed tables, whatever sequence of
    requests the API process serves, interleaved with concurrent calls that keep the
    store contract (other API processes, the worker), the tables keep their invariant
    and only evolve; and a request that changes them presents one of the keys of
    [PIXRAIL_API_KEYS] with the role its endpoint asks for, and for a settlement
    callback a signature under [PIXRAIL_PROVIDER_CALLBACK_SECRET] within the configured
    tolerance. If the concurrent calls keep the logs too, and the tables start with true
    ones, the outbox and the audit log stay the history of every transfer. *)
Theorem production_system_safe cfg now s rs :
  Load uq os_Getenv = Ok cfg -> cf_Environment cfg = "production" ->
  cf_ProviderSignatureTolerance cfg < max_int64 -> rely env -> pg_ok db s ->
  let h := api_run unicode_lower env cfg rs (api_world cfg now s) in
  preserves s (w_store h) /\
  (rely_evidenced env -> evidenced s -> evidenced (w_store h)) /\
  forall rt r out h', api_handler unicode_lower env cfg rt r h = (out, h') ->
    ~ untouched env (w_store h) (w_store h') ->
    exists keys key route, parseAPIKeys uq (os_Getenv "PIXRAIL_API_KEYS") = Ok keys /\
      keys !! request_token r = Some key /\ mux_match r = inl route /\
      writer env (env_security cfg) key r route.
Proof.
  intros (Hok & _ & Hprod)%load_facts Henv Htol Hr Hs h.
  destruct (Hprod Henv) as (_ & _ & Hkeys & Hsecret).
  assert (Hp : preserves s (w_store h)).
  { apply (serve_all_preserves env (app_Service unicode_lower env cfg) (cf_APIKeys cfg)
      (api_security cfg) rs (api_world cfg now s) Hr Hs). }
  split_and!; [exact Hp| |].
  { intros Hre He. apply (serve_all_evidenced env (app_Service unicode_lower env cfg)
      (cf_APIKeys cfg) (api_security cfg) rs (api_world cfg now s) Hre Hs He). }
  intros rt r out h' E Hch. pose proof Hp as [Hs' _].
  pose proof (co_durations _ Hok) as Hd. apply Forall_cons in Hd as [_ Hd].
  do 2 apply Forall_cons in Hd as [_ Hd]. apply Forall_cons in Hd as [Hd _].
  assert (Esec : api_security cfg = env_security cfg).
  { unfold api_security, api_settings, env_security, server_security. cbn.
    destruct (_ <=? 0) eqn:E0; b2p; [lia|]. by rewrite Hsecret. }
  assert (Ht : tolerance_ok (api_security cfg)) by (rewrite Esec; unfold tolerance_ok; cbn; lia).
  destruct (store_change_writer env _ _ _ rt r h out h' Hr Hs' Ht E Hch)
    as (key & route & Hkey & Hm & Hw).
  rewrite Esec in Hw. exists (cf_APIKeys cfg), key, route. done.
Qed.
End Production.
