(* ===== verification/Process.v ===== *)
(** * The processes from their start to their exit ([cmd/], [internal/app], tracing)

    [main] of the API server and of the worker as step relations: the main goroutine,
    the goroutines that serve HTTP and profiling, the signal, the ticks and the requests
    may be interleaved in any order. A process keeps a [Frame]: the calls it made of
    the libraries, the deferred calls of [main], its profiling server and its exit
    status. [http.Server] is the part of it the processes rely on: when
    [ListenAndServe] returns, and that [Shutdown] lets the active requests end. *)

From S2P Require Import Prelude GoStrings Rail RateLimit StoreSpec Effects Switcher.
From S2P Require Import Postgres Config Metrics Api App System.

(** ** [http.Server] *)

(** Where a goroutine is that calls [ListenAndServe]. *)
Inductive Listen : Type := NotCalled | Listening | Serving | Returned.

(** What [ListenAndServe] returns. *)
Inductive ServeError : Type := ErrServerClosed | ServeFailed (err : error).

(** [ListenAndServe], on a server that is shutting down when [closing]: it listens, then
    serves until the server is closed or accepting a connection fails. A server closed
    before it listens returns at once, but the closing may come too late for it. *)
Inductive listen_step (closing : bool) : Listen -> Listen -> option ServeError -> Prop :=
  | listen_succeeds : closing = false -> listen_step closing Listening Serving None
  | listen_fails err : listen_step closing Listening Returned (Some (ServeFailed err))
  | accept_fails err :
      closing = false -> listen_step closing Serving Returned (Some (ServeFailed err))
  | listen_closed :
      closing = true -> listen_step closing Listening Returned (Some ErrServerClosed)
  | serve_closed :
      closing = true -> listen_step closing Serving Returned (Some ErrServerClosed).

(** ** What a process calls *)

Inductive TracerProvider : Type :=
  | NoopTracerProvider
  | StdoutTracerProvider (service_name : string).

(** The functions that end tracing and profiling. *)
Inductive ShutdownFunc : Type :=
  | NothingToShutDown
  | ReturnsError (err : error)
  | ShutsProvider (p : TracerProvider)
  | ShutsPprof (addr : string).

(** The calls of the libraries, in the order a process makes them; [Answered] is a
    request the handler answered, [Batched] a batch the worker ran. *)
Inductive Call : Type :=
  | Info (msg : string)
  | Failed (msg : string) (err : error)
  | SetTextMapPropagator
  | SetTracerProvider (p : TracerProvider)
  | Shutdown (f : ShutdownFunc)
  | StoreOpened (o : OpenedStore)
  | StoreClosed (o : OpenedStore)
  | SignalsWatched
  | SignalsStopped
  | TickerStarted (d : Duration)
  | TickerStopped
  | ServerShutdown
  | ContextCancelled
  | Answered (rt : RuntimeStats) (r : Request) (out : result Response)
  | Batched (log : BatchLog).

(** What [main] defers. *)
Inductive Deferred : Type :=
  | DeferTools (tracing pprof : ShutdownFunc)
  | DeferCloseStore (o : OpenedStore)
  | DeferCancel
  | DeferStopSignals
  | DeferStopTicker.

Definition deferred_calls (d : Deferred) : list Call :=
  match d with
  | DeferTools tracing pprof => [Shutdown tracing; Shutdown pprof; ContextCancelled]
  | DeferCloseStore o => [StoreClosed o]
  | DeferCancel => [ContextCancelled]
  | DeferStopSignals => [SignalsStopped]
  | DeferStopTicker => [TickerStopped]
  end.

Record PprofServer := mkPprofServer {
  pp_addr : string; pp_listen : Listen; pp_closing : bool
}.

#[export] Instance eta_PprofServer : Eta PprofServer := fun p =>
  mkPprofServer (pp_addr p) (pp_listen p) (pp_closing p).

(** [f_deferred] is a stack; [f_exit] is the exit status once the process ended. *)
Record Frame := mkFrame {
  f_calls : list Call;
  f_deferred : list Deferred;
  f_pprof : option PprofServer;
  f_exit : option Z
}.

#[export] Instance eta_Frame : Eta Frame := fun f =>
  mkFrame (f_calls f) (f_deferred f) (f_pprof f) (f_exit f).

Definition new_frame : Frame := mkFrame [] [] None None.

Definition emit (cs : list Call) (f : Frame) : Frame := f <| f_calls := f_calls f ++ cs |>.
Definition defer (d : Deferred) (f : Frame) : Frame := f <| f_deferred := d :: f_deferred f |>.

(** [os.Exit] ends the process at once, without its deferred calls. *)
Definition os_Exit (code : Z) (f : Frame) : Frame := f <| f_exit := Some code |>.

(** The next deferred call of a [main] that returns (or panics), and then the exit. *)
Definition run_deferred (code : Z) (f : Frame) : Frame :=
  match f_deferred f with
  | [] => os_Exit code f
  | d :: ds =>
      let f := emit (deferred_calls d) (f <| f_deferred := ds |>) in
      match d with
      | DeferTools _ (ShutsPprof _) =>
          f <| f_pprof := (fun p => p <| pp_closing := true |>) <$> f_pprof f |>
      | _ => f
      end
  end.

(** ** Tracing and profiling *)

Section Tools.
(** What [stdouttrace.New] returns. *)
Context (exporter_New : option error).

Definition ConfigureTracing (serviceName exporterName : string) : list Call * ShutdownFunc :=
  if exporterName ==s "none" then
    ([SetTextMapPropagator; SetTracerProvider NoopTracerProvider], NothingToShutDown)
  else
    match exporter_New with
    | Some err => ([SetTextMapPropagator], ReturnsError err)
    | None =>
        let provider := StdoutTracerProvider serviceName in
        ([SetTextMapPropagator; SetTracerProvider provider], ShutsProvider provider)
    end.

Definition StartPprofServer (addr : string) : option PprofServer * ShutdownFunc :=
  if addr ==s "" then (None, NothingToShutDown)
  else (Some (mkPprofServer addr NotCalled false), ShutsPprof addr).

(** The goroutine of the profiling server: a failure is logged and ends nothing else. *)
Inductive pprof_step : Frame -> Frame -> Prop :=
  | pprof_starts f p :
      f_pprof f = Some p -> pp_listen p = NotCalled ->
      pprof_step f
        (emit [Info "pixrail_pprof_starting"] (f <| f_pprof := Some (p <| pp_listen := Listening |>) |>))
  | pprof_listens f p l r :
      f_pprof f = Some p -> listen_step (pp_closing p) (pp_listen p) l r ->
      pprof_step f
        (emit match r with Some (ServeFailed err) => [Failed "pixrail_pprof_failed" err] | _ => [] end
           (f <| f_pprof := Some (p <| pp_listen := l |>) |>)).

(** ** The start both processes share *)

Context (uq os_Getenv : string -> string).
Context (open : string -> list PoolOptions -> result PoolOptions).

(** From the configuration to the deferred end of tracing and profiling. *)
Definition configure (component : string) (f : Frame) : option Config * Frame :=
  match Load uq os_Getenv with
  | Err err => (None, os_Exit 1 (emit [Failed "config_load_failed" err] f))
  | Ok cfg =>
      let f := emit [Info "pixrail_runtime_configured"] f in
      let '(calls, shutdownTracing) :=
        ConfigureTracing ("pixrail-" +:+ component) (cf_TracingExporter cfg) in
      let '(pprof, shutdownPprof) := StartPprofServer (cf_PprofAddr cfg) in
      (Some cfg, defer (DeferTools shutdownTracing shutdownPprof)
                   (emit calls f <| f_pprof := pprof |>))
  end.

(** The opening of the store and its deferred end. *)
Definition open_store (cfg : Config) (f : Frame) : option OpenedStore * Frame :=
  match BuildStore open cfg with
  | Err err => (None, os_Exit 1 (emit [Failed "store_initialization_failed" err] f))
  | Ok o => (Some o, defer (DeferCloseStore o) (emit [StoreOpened o] f))
  end.
End Tools.

(** ** The API process *)

(** The server of the API: [hs_active] are the requests it accepted and has not
    answered. *)
Record HTTPServer := mkHTTPServer {
  hs_listen : Listen; hs_closing : bool; hs_active : list (RuntimeStats * Request)
}.

#[export] Instance eta_HTTPServer : Eta HTTPServer := fun hs =>
  mkHTTPServer (hs_listen hs) (hs_closing hs) (hs_active hs).

(** Where [main] is once it serves: at [<-stop], in [Shutdown], returning. *)
Inductive ApiMain : Type := ApiWaiting | ApiShutting | ApiReturning.

Section Processes.
Context (exporter_New : option error) (uq unicode_lower os_Getenv : string -> string).
Context (open : string -> list PoolOptions -> result PoolOptions).
(** The store behind what [BuildStore] returned, as the process finds it. *)
Context `{Store St} (holds : OpenedStore -> St) (env : Env St).

Inductive ApiProcess : Type :=
  | ApiStarting (f : Frame)
  | ApiOpening (f : Frame) (cfg : Config)
  | ApiRunning (f : Frame) (cfg : Config) (o : OpenedStore) (m : ApiMain) (hs : HTTPServer)
      (h : World St (Limits Limiter Limiter * Metrics)).

Definition api_frame (p : ApiProcess) : Frame :=
  match p with ApiStarting f | ApiOpening f _ | ApiRunning f _ _ _ _ _ => f end.

Definition api_with_frame (p : ApiProcess) (f : Frame) : ApiProcess :=
  match p with
  | ApiStarting _ => ApiStarting f
  | ApiOpening _ cfg => ApiOpening f cfg
  | ApiRunning _ cfg o m hs h => ApiRunning f cfg o m hs h
  end.

(** What one goroutine does next, in a process that has not ended. [Shutdown] may fail
    at any time: when its timeout ends is not modelled. *)
Inductive api_move : ApiProcess -> ApiProcess -> Prop :=
  | api_configures f cfg f' :
      configure exporter_New uq os_Getenv "api" f = (Some cfg, f') ->
      api_move (ApiStarting f) (ApiOpening f' cfg)
  | api_config_fails f f' :
      configure exporter_New uq os_Getenv "api" f = (None, f') ->
      api_move (ApiStarting f) (ApiStarting f')
  | api_opens f cfg o f' now :
      open_store open cfg f = (Some o, f') ->
      api_move (ApiOpening f cfg)
        (ApiRunning (emit [SignalsWatched] f') cfg o ApiWaiting (mkHTTPServer NotCalled false [])
           (api_world cfg now (holds o)))
  | api_open_fails f cfg f' :
      open_store open cfg f = (None, f') -> api_move (ApiOpening f cfg) (ApiOpening f' cfg)
  | api_pprof p f' : pprof_step (api_frame p) f' -> api_move p (api_with_frame p f')
  | api_starts f cfg o m hs h :
      hs_listen hs = NotCalled ->
      api_move (ApiRunning f cfg o m hs h)
        (ApiRunning (emit [Info "pixrail_api_starting"] f) cfg o m
           (hs <| hs_listen := Listening |>) h)
  | api_listens f cfg o m hs h l r :
      listen_step (hs_closing hs) (hs_listen hs) l r ->
      api_move (ApiRunning f cfg o m hs h)
        (ApiRunning
           match r with
           | Some (ServeFailed err) => os_Exit 1 (emit [Failed "http_server_failed" err] f)
           | _ => f
           end cfg o m (hs <| hs_listen := l |>) h)
  | api_accepts f cfg o m hs h rt r :
      hs_listen hs = Serving -> hs_closing hs = false ->
      api_move (ApiRunning f cfg o m hs h)
        (ApiRunning f cfg o m (hs <| hs_active := hs_active hs ++ [(rt, r)] |>) h)
  | api_answers f cfg o m hs h before rt r after out h' :
      hs_active hs = before ++ (rt, r) :: after ->
      api_handler unicode_lower env cfg rt r h = (out, h') ->
      api_move (ApiRunning f cfg o m hs h)
        (ApiRunning (emit [Answered rt r out] f) cfg o m (hs <| hs_active := before ++ after |>) h')
  | api_signal f cfg o hs h :
      api_move (ApiRunning f cfg o ApiWaiting hs h)
        (ApiRunning (emit [ServerShutdown] (defer DeferCancel f)) cfg o ApiShutting
           (hs <| hs_closing := true |>) h)
  | api_shut_down f cfg o hs h :
      hs_active hs = [] ->
      api_move (ApiRunning f cfg o ApiShutting hs h)
        (ApiRunning (emit [Info "pixrail_api_stopped"] f) cfg o ApiReturning hs h)
  | api_shutdown_fails f cfg o hs h err :
      api_move (ApiRunning f cfg o ApiShutting hs h)
        (ApiRunning (os_Exit 1 (emit [Failed "http_shutdown_failed" err] f)) cfg o ApiShutting hs h)
  | api_returns f cfg o hs h :
      api_move (ApiRunning f cfg o ApiReturning hs h)
        (ApiRunning (run_deferred 0 f) cfg o ApiReturning hs h).

Definition api_step (p p' : ApiProcess) : Prop :=
  f_exit (api_frame p) = None /\ api_move p p'.

(** ** The worker process *)

(** Where the worker's [main] is: at its first batch, at the [select] of its loop, or
    returning with a status. *)
Inductive WorkerMain : Type := WorkerFirst | WorkerSelecting | WorkerReturning (code : Z).

(** [sg] tells that the signal arrived, [tk] that a tick waits in the channel. *)
Inductive WorkerProcess : Type :=
  | WorkerStarting (f : Frame)
  | WorkerOpening (f : Frame) (cfg : Config)
  | WorkerRunning (f : Frame) (cfg : Config) (o : OpenedStore) (m : WorkerMain) (sg tk : bool)
      (w : World St (Limits Limiter Limiter)).

Definition worker_frame (p : WorkerProcess) : Frame :=
  match p with WorkerStarting f | WorkerOpening f _ | WorkerRunning f _ _ _ _ _ _ => f end.

Definition worker_with_frame (p : WorkerProcess) (f : Frame) : WorkerProcess :=
  match p with
  | WorkerStarting _ => WorkerStarting f
  | WorkerOpening _ cfg => WorkerOpening f cfg
  | WorkerRunning _ cfg o m sg tk w => WorkerRunning f cfg o m sg tk w
  end.

(** From the opened store to the ticker: [time.NewTicker] panics on an interval that is
    not positive, a panic runs the deferred calls, and the status is then 2. *)
Definition start_ticker (cfg : Config) (f : Frame) : Frame * WorkerMain :=
  let f := defer DeferStopSignals (emit [SignalsWatched] f) in
  let f := emit [Info "pixrail_worker_starting"] f in
  if cf_WorkerInterval cfg <=? 0 then (f, WorkerReturning 2)
  else (defer DeferStopTicker (emit [TickerStarted (cf_WorkerInterval cfg)] f), WorkerFirst).

Definition worker_world (cfg : Config) (o : OpenedStore) : World St (Limits Limiter Limiter) :=
  mkWorld (holds o) (app_Limits cfg) 0.

Definition worker_batch (cfg : Config) : @M St (Limits Limiter Limiter) BatchLog :=
  runBatch env (app_Service unicode_lower env cfg) (cf_WorkerBatchSize cfg).

(** What [main] or the signal does next. A batch is a step when it returns; that it
    does is a matter of the switch, not of the process. *)
Inductive worker_move : WorkerProcess -> WorkerProcess -> Prop :=
  | worker_configures f cfg f' :
      configure exporter_New uq os_Getenv "worker" f = (Some cfg, f') ->
      worker_move (WorkerStarting f) (WorkerOpening f' cfg)
  | worker_config_fails f f' :
      configure exporter_New uq os_Getenv "worker" f = (None, f') ->
      worker_move (WorkerStarting f) (WorkerStarting f')
  | worker_opens f cfg o f1 f2 m :
      open_store open cfg f = (Some o, f1) -> start_ticker cfg f1 = (f2, m) ->
      worker_move (WorkerOpening f cfg) (WorkerRunning f2 cfg o m false false (worker_world cfg o))
  | worker_open_fails f cfg f' :
      open_store open cfg f = (None, f') ->
      worker_move (WorkerOpening f cfg) (WorkerOpening f' cfg)
  | worker_pprof p f' : pprof_step (worker_frame p) f' -> worker_move p (worker_with_frame p f')
  | worker_signal f cfg o m tk w :
      worker_move (WorkerRunning f cfg o m false tk w) (WorkerRunning f cfg o m true tk w)
  | worker_tick f cfg o m sg w :
      worker_move (WorkerRunning f cfg o m sg false w) (WorkerRunning f cfg o m sg true w)
  | worker_first f cfg o sg tk w log w' :
      worker_batch cfg w = (Ok log, w') ->
      worker_move (WorkerRunning f cfg o WorkerFirst sg tk w)
        (WorkerRunning (emit [Batched log] f) cfg o WorkerSelecting sg tk w')
  | worker_next f cfg o sg w log w' :
      worker_batch cfg w = (Ok log, w') ->
      worker_move (WorkerRunning f cfg o WorkerSelecting sg true w)
        (WorkerRunning (emit [Batched log] f) cfg o WorkerSelecting sg false w')
  | worker_done f cfg o tk w :
      worker_move (WorkerRunning f cfg o WorkerSelecting true tk w)
        (WorkerRunning (emit [Info "pixrail_worker_stopped"] f) cfg o (WorkerReturning 0) true tk w)
  | worker_returns f cfg o code sg tk w :
      worker_move (WorkerRunning f cfg o (WorkerReturning code) sg tk w)
        (WorkerRunning (run_deferred code f) cfg o (WorkerReturning code) sg tk w).

Definition worker_step (p p' : WorkerProcess) : Prop :=
  f_exit (worker_frame p) = None /\ worker_move p p'.
End Processes.

(** ** Reading the calls of a process *)

(** The calls that use the store do so while it is open. *)
Fixpoint used_while_open (is_open : bool) (cs : list Call) : bool :=
  match cs with
  | [] => true
  | StoreOpened _ :: cs => used_while_open true cs
  | StoreClosed _ :: cs => used_while_open false cs
  | (Answered _ _ _ | Batched _) :: cs => is_open && used_while_open is_open cs
  | _ :: cs => used_while_open is_open cs
  end.

Fixpoint store_open (is_open : bool) (cs : list Call) : bool :=
  match cs with
  | [] => is_open
  | StoreOpened _ :: cs => store_open true cs
  | StoreClosed _ :: cs => store_open false cs
  | _ :: cs => store_open is_open cs
  end.

Definition call_answered (c : Call) : list (RuntimeStats * Request) :=
  match c with Answered rt r _ => [(rt, r)] | _ => [] end.
Definition call_batched (c : Call) : list BatchLog :=
  match c with Batched log => [log] | _ => [] end.
Definition call_release (c : Call) : list Call :=
  match c with StoreClosed _ | Shutdown _ => [c] | _ => [] end.

(** The requests a process answered, the batches it ran, what it closed, in order. *)
Definition answered (cs : list Call) := cs ≫= call_answered.
Definition batches (cs : list Call) := cs ≫= call_batched.
Definition releases (cs : list Call) := cs ≫= call_release.

(** Everything a process opened, in the order it is to be closed. *)
Definition all_releases (exporter_New : option error) (component : string) (cfg : Config)
    (o : OpenedStore) : list Call :=
  [StoreClosed o;
   Shutdown (snd (ConfigureTracing exporter_New ("pixrail-" +:+ component) (cf_TracingExporter cfg)));
   Shutdown (snd (StartPprofServer (cf_PprofAddr cfg)))].

(** A process exits with 0, or with 1 after it reported one of [msgs]. *)
Definition exit_reported (msgs : list string) (f : Frame) : Prop :=
  match f_exit f with
  | None => True
  | Some code => code = 0 \/ code = 1 /\
      exists cs msg err, f_calls f = cs ++ [Failed msg err] /\ msg ∈ msgs
  end.

(** ** Laws of these readings *)

(** Calls that neither use the store, nor open or close anything. *)
Definition neutral_call (c : Call) : bool :=
  match c with
  | StoreOpened _ | StoreClosed _ | Shutdown _ | Answered _ _ _ | Batched _ => false
  | _ => true
  end.
Definition neutral (cs : list Call) : bool := forallb neutral_call cs.

Lemma used_while_open_app b cs1 cs2 :
  used_while_open b (cs1 ++ cs2) =
    (used_while_open b cs1 && used_while_open (store_open b cs1) cs2)%bool.
Proof.
  revert b. induction cs1 as [|c cs1 IH]; intros b; [done|].
  destruct c; cbn; rewrite ?IH; try done; by rewrite andb_assoc.
Qed.

Lemma store_open_app b cs1 cs2 : store_open b (cs1 ++ cs2) = store_open (store_open b cs1) cs2.
Proof. revert b. induction cs1 as [|c cs1 IH]; intros b; [done|]. destruct c; cbn; by rewrite ?IH. Qed.

Lemma answered_app cs1 cs2 : answered (cs1 ++ cs2) = answered cs1 ++ answered cs2.
Proof. apply bind_app. Qed.
Lemma batches_app cs1 cs2 : batches (cs1 ++ cs2) = batches cs1 ++ batches cs2.
Proof. apply bind_app. Qed.
Lemma releases_app cs1 cs2 : releases (cs1 ++ cs2) = releases cs1 ++ releases cs2.
Proof. apply bind_app. Qed.

Lemma neutral_app cs1 cs2 : neutral (cs1 ++ cs2) = (neutral cs1 && neutral cs2)%bool.
Proof. apply forallb_app. Qed.

Lemma neutral_reads cs b : neutral cs = true ->
  used_while_open b cs = true /\ store_open b cs = b /\ answered cs = [] /\ batches cs = [] /\
  releases cs = [].
Proof.
  induction cs as [|c cs IH]; cbn; [done|]. intros [Hc Hcs]%andb_prop.
  destruct (IH Hcs) as (H1 & H2 & H3 & H4 & H5). by destruct c.
Qed.

Create Rewrite HintDb calls.
#[export] Hint Rewrite used_while_open_app store_open_app answered_app batches_app releases_app
  neutral_app app_nil_r andb_true_r : calls.

Lemma pprof_step_spec f f' : pprof_step f f' ->
  exists cs p, neutral cs = true /\ f_calls f' = f_calls f ++ cs /\
    f_deferred f' = f_deferred f /\ f_exit f' = f_exit f /\ f_pprof f' = Some p.
Proof.
  destruct 1 as [f p E _|f p l r E _]; cbn; do 2 eexists; (split; [|done]); [done|].
  by destruct r as [[]|].
Qed.

Section StartFacts.
Context (exporter_New : option error) (uq os_Getenv : string -> string).
Context (open : string -> list PoolOptions -> result PoolOptions).

(** The deferred end of tracing and profiling. *)
Definition tools (component : string) (cfg : Config) : Deferred :=
  DeferTools
    (snd (ConfigureTracing exporter_New ("pixrail-" +:+ component) (cf_TracingExporter cfg)))
    (snd (StartPprofServer (cf_PprofAddr cfg))).

Lemma configure_ok component f cfg f' :
  configure exporter_New uq os_Getenv component f = (Some cfg, f') ->
  Load uq os_Getenv = Ok cfg /\ f_deferred f' = tools component cfg :: f_deferred f /\
  f_exit f' = f_exit f /\
  exists cs, neutral cs = true /\ f_calls f' = f_calls f ++ cs.
Proof.
  unfold configure, tools. destruct (Load uq os_Getenv) as [c|e]; [|done].
  destruct (ConfigureTracing _ _ _) as [cs tr] eqn:Etr. destruct (StartPprofServer _) as [pp sp] eqn:Epp.
  intros [= -> <-]. rewrite Etr, Epp. cbn. split_and!; [done..|].
  eexists (_ :: cs). split; [|by rewrite <- app_assoc]. cbn. unfold ConfigureTracing in Etr.
  by cases_in Etr; simplify_eq.
Qed.

Lemma configure_failed component f f' :
  configure exporter_New uq os_Getenv component f = (None, f') ->
  exists err, f' = os_Exit 1 (emit [Failed "config_load_failed" err] f).
Proof.
  unfold configure. destruct (Load uq os_Getenv) as [c|e]; [|intros [= <-]; by eexists].
  by destruct (ConfigureTracing _ _ _), (StartPprofServer _).
Qed.

Lemma open_store_ok cfg f o f' : open_store open cfg f = (Some o, f') ->
  BuildStore open cfg = Ok o /\ f' = defer (DeferCloseStore o) (emit [StoreOpened o] f).
Proof. unfold open_store. destruct (BuildStore open cfg); [|done]. by intros [= -> <-]. Qed.

Lemma open_store_failed cfg f f' : open_store open cfg f = (None, f') ->
  exists err, f' = os_Exit 1 (emit [Failed "store_initialization_failed" err] f).
Proof. unfold open_store. destruct (BuildStore open cfg); [done|]. intros [= <-]. by eexists. Qed.
End StartFacts.

(** What a deferred call changes besides the log of the calls. *)
Lemma run_deferred_cons code d ds f : f_deferred f = d :: ds ->
  f_calls (run_deferred code f) = f_calls f ++ deferred_calls d /\
  f_deferred (run_deferred code f) = ds /\ f_exit (run_deferred code f) = f_exit f.
Proof. intros E. unfold run_deferred. rewrite E. by destruct d as [tr []|o| | |]. Qed.

Lemma run_deferred_nil code f : f_deferred f = [] -> run_deferred code f = os_Exit code f.
Proof. intros E. unfold run_deferred. by rewrite E. Qed.
