(* ===== verification/ProcessProps.v ===== *)
(** * What the processes do, from their start to their exit

    Along every interleaving of its goroutines with the requests, the ticks and the
    signal, a process uses its store only while it is open; its store is the one the
    handlers or the batches computed; it ends with 0 only after it closed everything
    it opened, and with 1 only after it reported why. Once signalled the API process
    ends after a bounded number of steps. *)

From S2P Require Import Prelude GoStrings Rail RateLimit StoreSpec Effects Switcher SwitcherProps.
From S2P Require Import Postgres Config Metrics Api ApiProps App System Process.

(** A configuration that loads opens a store. *)
Lemma load_store_open uq os_Getenv open cfg o :
  Load uq os_Getenv = Ok cfg -> BuildStore open cfg = Ok o -> o <> OpenedNil.
Proof.
  intros (Hok & _)%load_facts Hb. unfold BuildStore in Hb.
  destruct (co_driver _ Hok) as [E|[E _]]; rewrite E in Hb; cbn in Hb; [by simplify_eq|].
  destruct (open _ _); cbn in Hb; by simplify_eq.
Qed.

Lemma load_batch_size uq os_Getenv cfg :
  Load uq os_Getenv = Ok cfg -> in_int64 (cf_WorkerBatchSize cfg).
Proof.
  intros (Hok & _)%load_facts. destruct (co_buckets _ Hok) as (_ & _ & Hlo).
  pose proof (co_ints _ Hok) as Hhi. do 4 apply Forall_cons in Hhi as [_ Hhi].
  apply Forall_cons in Hhi as [Hhi _]. unfold in_int64, min_int64. lia.
Qed.

(** ** The start of a process *)

Section StartProps.
Context (exporter_New : option error) (uq os_Getenv : string -> string).
Context (open : string -> list PoolOptions -> result PoolOptions) (component : string).
(** The failures the process may report, those of its start among them. *)
Context (msgs : list string) (Hmsgs : ["config_load_failed"; "store_initialization_failed"] ⊆ msgs).

Lemma exit_reported_1 msg err f :
  msg ∈ msgs -> exit_reported msgs (os_Exit 1 (emit [Failed msg err] f)).
Proof. intros Hm. right. split; [done|]. by eexists _, _, _. Qed.

Lemma exit_reported_none f : f_exit f = None -> exit_reported msgs f.
Proof. unfold exit_reported. by intros ->. Qed.

(** Before the configuration is loaded, and before the store is opened. *)
Definition starting_inv (f : Frame) : Prop :=
  exit_reported msgs f /\ f_exit f <> Some 0 /\ neutral (f_calls f) = true /\ f_deferred f = [].

Definition opening_inv (cfg : Config) (f : Frame) : Prop :=
  exit_reported msgs f /\ f_exit f <> Some 0 /\ neutral (f_calls f) = true /\
  Load uq os_Getenv = Ok cfg /\ f_deferred f = [tools exporter_New component cfg].

(** Calls that read as nothing opened, used or closed. *)
Lemma neutral_calls f : neutral (f_calls f) = true ->
  used_while_open false (f_calls f) = true /\ answered (f_calls f) = [] /\
  batches (f_calls f) = [] /\ releases (f_calls f) = [].
Proof. intros (? & _ & ? & ? & ?)%(neutral_reads _ false). done. Qed.

Lemma configure_ok_inv f cfg f' : f_exit f = None -> starting_inv f ->
  configure exporter_New uq os_Getenv component f = (Some cfg, f') -> opening_inv cfg f'.
Proof.
  intros Hex (_ & _ & Hc & Hd) (Hl & Ed & Ee & cs & Hn & Ec)%configure_ok.
  unfold opening_inv. rewrite Ec, Ed, Ee, Hd, Hex. autorewrite with calls. rewrite Hc, Hn.
  split_and!; try done. apply exit_reported_none. by rewrite Ee.
Qed.

Lemma configure_failed_inv f f' : starting_inv f ->
  configure exporter_New uq os_Getenv component f = (None, f') -> starting_inv f'.
Proof.
  intros (_ & _ & Hc & Hd) [err ->]%configure_failed.
  split; [apply exit_reported_1, Hmsgs; by left|].
  cbn. autorewrite with calls. by rewrite Hc.
Qed.

Lemma open_failed_inv f cfg f' : opening_inv cfg f ->
  open_store open cfg f = (None, f') -> opening_inv cfg f'.
Proof.
  intros (_ & _ & Hc & Hl & Hd) [err ->]%open_store_failed.
  split; [apply exit_reported_1, Hmsgs; right; by left|]. cbn. autorewrite with calls. by rewrite Hc.
Qed.

Lemma starting_pprof_inv f f' : f_exit f = None -> starting_inv f -> pprof_step f f' -> starting_inv f'.
Proof.
  intros Hex (_ & _ & Hc & Hd) (cs & pp & Hn & Ec & Ed & Ee & _)%pprof_step_spec.
  unfold starting_inv. rewrite Ec, Ed, Ee, Hex. autorewrite with calls. rewrite Hc, Hn.
  split_and!; try done. apply exit_reported_none. by rewrite Ee.
Qed.

Lemma opening_pprof_inv cfg f f' :
  f_exit f = None -> opening_inv cfg f -> pprof_step f f' -> opening_inv cfg f'.
Proof.
  intros Hex (_ & _ & Hc & Hl & Hd) (cs & pp & Hn & Ec & Ed & Ee & _)%pprof_step_spec.
  unfold opening_inv. rewrite Ec, Ed, Ee, Hex. autorewrite with calls. rewrite Hc, Hn.
  split_and!; try done. apply exit_reported_none. by rewrite Ee.
Qed.
End StartProps.

Section ApiProcessProps.
Context (exporter_New : option error) (uq unicode_lower os_Getenv : string -> string).
Context (open : string -> list PoolOptions -> result PoolOptions).
Context `{StoreLaws St} (holds : OpenedStore -> St) (env : Env St).

#[local] Abbreviation api_step :=
  (api_step exporter_New uq unicode_lower os_Getenv open holds env).

Definition api_failures : list string :=
  ["config_load_failed"; "store_initialization_failed"; "http_server_failed"; "http_shutdown_failed"].

Lemma api_failures_start :
  ["config_load_failed"; "store_initialization_failed"] ⊆ api_failures.
Proof. unfold api_failures. set_solver. Qed.

(** The deferred calls and the server at each place of [main]. *)
Definition api_main_inv (cfg : Config) (o : OpenedStore) (m : ApiMain) (hs : HTTPServer)
    (f : Frame) : Prop :=
  let base := [DeferCloseStore o; tools exporter_New "api" cfg] in
  match m with
  | ApiWaiting =>
      hs_closing hs = false /\ f_deferred f = base /\ store_open false (f_calls f) = true
  | ApiShutting =>
      hs_closing hs = true /\ f_deferred f = DeferCancel :: base /\
      store_open false (f_calls f) = true
  | ApiReturning => hs_closing hs = true /\ hs_active hs = [] /\ (length (f_deferred f) <= 3)%nat
  end.

Definition api_inv (p : ApiProcess) : Prop :=
  match p with
  | ApiStarting f => starting_inv api_failures f
  | ApiOpening f cfg => opening_inv exporter_New uq os_Getenv "api" api_failures cfg f
  | ApiRunning f cfg o m hs h =>
      used_while_open false (f_calls f) = true /\ exit_reported api_failures f /\
      Load uq os_Getenv = Ok cfg /\ BuildStore open cfg = Ok o /\
      (exists now, h = api_run unicode_lower env cfg (answered (f_calls f))
                         (api_world cfg now (holds o))) /\
      releases (f_calls f) ++ releases (f_deferred f ≫= deferred_calls) =
        all_releases exporter_New "api" cfg o /\
      (f_exit f = Some 0 -> m = ApiReturning /\ f_deferred f = []) /\
      api_main_inv cfg o m hs f
  end.

(** [main] and the server move, and the calls made are neutral. *)
Lemma api_neutral_inv f cfg o m hs h f' m' hs' cs :
  f_exit f = None -> api_inv (ApiRunning f cfg o m hs h) ->
  neutral cs = true -> f_calls f' = f_calls f ++ cs ->
  releases (f_deferred f' ≫= deferred_calls) = releases (f_deferred f ≫= deferred_calls) ->
  exit_reported api_failures f' -> f_exit f' <> Some 0 ->
  (api_main_inv cfg o m hs f -> api_main_inv cfg o m' hs' f') ->
  api_inv (ApiRunning f' cfg o m' hs' h).
Proof.
  intros Hex (Hu & _ & Hl & Hb & Hh & Hr & _ & Hm) Hn Ec Ed He Hne Hm'. cbn in *.
  destruct (neutral_reads cs (store_open false (f_calls f)) Hn) as (N1 & _ & N3 & _ & N5).
  unfold api_inv. cbn. rewrite Ec, Ed. autorewrite with calls. rewrite Hu, N1, N3, N5.
  autorewrite with calls. by split_and!; auto.
Qed.

Lemma api_pprof_inv p f' : f_exit (api_frame p) = None -> api_inv p ->
  pprof_step (api_frame p) f' -> api_inv (api_with_frame p f').
Proof.
  intros Hex Hi Hs. destruct p as [f|f cfg|f cfg o m hs h]; cbn in *;
    [by eapply starting_pprof_inv|by eapply opening_pprof_inv|].
  apply pprof_step_spec in Hs as (cs & pp & Hn & Ec & Ed & Ee & _). rewrite Hex in Ee.
  refine (api_neutral_inv f cfg o m hs h f' m hs cs Hex Hi Hn Ec _ _ _ _).
  - by rewrite Ed.
  - by apply exit_reported_none.
  - by rewrite Ee.
  - destruct (neutral_reads cs (store_open false (f_calls f)) Hn) as (_ & N2 & _).
    unfold api_main_inv. by destruct m; rewrite ?Ec, ?Ed, ?store_open_app, ?N2.
Qed.

Lemma api_start_inv p p' : f_exit (api_frame p) = None -> api_inv p ->
  match p with ApiRunning _ _ _ _ _ _ => False | _ => True end ->
  api_move exporter_New uq unicode_lower os_Getenv open holds env p p' -> api_inv p'.
Proof.
  intros Hex Hi Hp Hs. destruct Hs; try done; [..|by apply api_pprof_inv]; cbn [api_frame] in Hex.
  - by eapply configure_ok_inv.
  - by eapply (configure_failed_inv _ _ _ _ _ api_failures_start).
  - destruct Hi as (_ & _ & Hc & Hl & Hd).
    select (open_store _ _ _ = _) (fun E => apply open_store_ok in E as [Hb ->]).
    destruct (neutral_reads _ false Hc) as (N1 & N2 & N3 & _ & N5).
    cbn. autorewrite with calls. rewrite N1, N2, N3, N5, Hd.
    split_and!; try done; [by apply exit_reported_none|by exists now|by rewrite Hex].
  - by eapply (open_failed_inv _ _ _ _ _ _ api_failures_start).
Qed.

Lemma api_run_snoc out cfg rs rt r h0 h' :
  api_handler unicode_lower env cfg rt r (api_run unicode_lower env cfg rs h0) = (out, h') ->
  h' = api_run unicode_lower env cfg (rs ++ [(rt, r)]) h0.
Proof. intros E. unfold api_run in *. rewrite fold_left_app. cbn [fold_left]. by rewrite E. Qed.

Lemma api_answer_inv f cfg o m hs h rt r out before after h' :
  f_exit f = None -> api_inv (ApiRunning f cfg o m hs h) ->
  hs_active hs = before ++ (rt, r) :: after ->
  api_handler unicode_lower env cfg rt r h = (out, h') ->
  api_inv (ApiRunning (emit [Answered rt r out] f) cfg o m
             (hs <| hs_active := before ++ after |>) h').
Proof.
  intros Hex (Hu & _ & Hl & Hb & (now & Hh) & Hr & _ & Hm) Ha Hrun. cbn [api_frame] in *.
  assert (Ho : store_open false (f_calls f) = true /\ m <> ApiReturning).
  { destruct m; cbn in Hm; [by destruct Hm as (_ & _ & ?)..|].
    destruct Hm as (_ & Hnil & _). rewrite Ha in Hnil. by destruct before. }
  destruct Ho as [Ho Hnr]. unfold api_inv. cbn [api_frame].
  change (f_calls (emit ?cs ?g)) with (f_calls g ++ cs). change (f_exit (emit ?cs ?g)) with (f_exit g).
  autorewrite with calls. rewrite Hu, Ho, Hex.
  split_and!; try done; [by apply exit_reported_none| |].
  - exists now. cbn [answered mbind list_bind call_answered app]. apply (api_run_snoc out). by rewrite <- Hh.
  - destruct m; [..|congruence]; cbn in Hm |- *; rewrite store_open_app, Ho; naive_solver.
Qed.

Lemma api_return_inv f cfg o hs h :
  f_exit f = None -> api_inv (ApiRunning f cfg o ApiReturning hs h) ->
  api_inv (ApiRunning (run_deferred 0 f) cfg o ApiReturning hs h).
Proof.
  intros Hex (Hu & _ & Hl & Hb & Hh & Hr & _ & Hc & Ha & Hd). cbn in *.
  destruct (f_deferred f) as [|d ds] eqn:Ef.
  - rewrite run_deferred_nil by done. unfold api_inv. cbn. rewrite Ef.
    split_and!; try done. by left.
  - destruct (run_deferred_cons 0 d ds f Ef) as (Ec & Ed & Ee).
    unfold api_inv. cbn. rewrite Ec, Ed, Ee, Hex. autorewrite with calls.
    assert (Hn : forall b, used_while_open b (deferred_calls d) = true) by by destruct d.
    assert (Ea : answered (deferred_calls d) = []) by by destruct d.
    rewrite Hu, Hn, Ea. autorewrite with calls. cbn [mbind list_bind] in Hr.
    rewrite releases_app in Hr. rewrite <- app_assoc. cbn in Hd.
    split_and!; try done; [|lia]. apply exit_reported_none. by rewrite Ee.
Qed.

(** Discharge [api_neutral_inv] for the calls [cs]. *)
Ltac api_neutral cs :=
  eapply (api_neutral_inv _ _ _ _ _ _ _ _ _ cs); [eassumption|eassumption|done|
    cbn; by rewrite ?app_nil_r|done|
    first [by apply exit_reported_none | by apply exit_reported_1; set_solver]|
    cbn; by try congruence|
    intros Hm; cbn in Hm |- *; rewrite ?store_open_app; cbn; try naive_solver].

Lemma api_listen_inv f cfg o m hs h l r :
  f_exit f = None -> api_inv (ApiRunning f cfg o m hs h) ->
  api_inv (ApiRunning
    match r with
    | Some (ServeFailed err) => os_Exit 1 (emit [Failed "http_server_failed" err] f)
    | _ => f
    end cfg o m (hs <| hs_listen := l |>) h).
Proof.
  intros Hex Hi. destruct r as [[|err]|].
  - api_neutral (@nil Call).
  - api_neutral [Failed "http_server_failed" err]. destruct m; cbn in *; rewrite ?store_open_app; naive_solver.
  - api_neutral (@nil Call).
Qed.

Lemma api_step_inv p p' : api_inv p -> api_step p p' -> api_inv p'.
Proof.
  intros Hi [Hex Hs]. destruct p as [f|f cfg|f cfg o m hs h]; [by eapply api_start_inv..|].
  inversion Hs; subst; cbn [api_frame] in Hex.
  - by eapply api_pprof_inv.
  - api_neutral [Info "pixrail_api_starting"]. destruct m; cbn in *; rewrite ?store_open_app; naive_solver.
  - by apply api_listen_inv.
  - api_neutral (@nil Call). destruct m; cbn in *; naive_solver congruence.
  - by eapply api_answer_inv.
  - api_neutral [ServerShutdown]. destruct Hm as (_ & -> & ->). done.
  - api_neutral [Info "pixrail_api_stopped"]. destruct Hm as (? & -> & _). cbn. split_and!; [done|done|lia].
  - api_neutral [Failed "http_shutdown_failed" err].
  - by apply api_return_inv.
Qed.

Lemma api_reachable_inv p : rtc api_step (ApiStarting new_frame) p -> api_inv p.
Proof.
  intros Hs. assert (Hi0 : api_inv (ApiStarting new_frame)) by by split_and!.
  revert Hi0. induction Hs as [|p p' p'' Hs _ IH]; [done|]. intros Hi. apply IH. by eapply api_step_inv.
Qed.

(** C12: the API process, from its start: it uses the store only between its opening and
    its closing, under a configuration that loaded; its store, limiters and metrics
    are what its handler made of the requests it answered, in that order, so the store
    keeps its contract; it closes the store, tracing and profiling in this order and
    once; it ends with status 0 only after all of them, with no request in flight, and
    with 1 only after it reported a failure, whatever the interleaving. *)
Theorem api_process_safe p :
  rely env -> (forall cfg o, BuildStore open cfg = Ok o -> st_inv (holds o)) ->
  rtc api_step (ApiStarting new_frame) p ->
  let f := api_frame p in
  used_while_open false (f_calls f) = true /\ exit_reported api_failures f /\
  match p with
  | ApiRunning f cfg o m hs h =>
      Load uq os_Getenv = Ok cfg /\ BuildStore open cfg = Ok o /\ o <> OpenedNil /\
      (exists now, h = api_run unicode_lower env cfg (answered (f_calls f))
                         (api_world cfg now (holds o))) /\
      preserves (holds o) (w_store h) /\
      releases (f_calls f) `prefix_of` all_releases exporter_New "api" cfg o /\
      (f_exit f = Some 0 ->
         hs_closing hs = true /\ hs_active hs = [] /\
         releases (f_calls f) = all_releases exporter_New "api" cfg o)
  | _ => f_exit f <> Some 0 /\ answered (f_calls f) = [] /\ releases (f_calls f) = []
  end.
Proof.
  intros Hr Hs Hi%api_reachable_inv f. subst f.
  destruct p as [f|f cfg|f cfg o m hs h]; cbn [api_frame] in *.
  1,2: destruct Hi as (? & ? & (? & ? & _ & ?)%neutral_calls & _); done.
  destruct Hi as (Hu & He & Hl & Hb & [now Hh] & Hrel & Hend & Hm). split_and!; try done.
  - by eapply load_store_open.
  - by exists now.
  - rewrite Hh. apply (serve_all_preserves env (app_Service unicode_lower env cfg)
      (cf_APIKeys cfg) (api_security cfg) _ (api_world cfg now (holds o)) Hr (Hs _ _ Hb)).
  - by eexists.
  - intros Hz. destruct (Hend Hz) as [-> Hd]. rewrite Hd, app_nil_r in Hrel.
    by destruct Hm as (? & ? & _).
Qed.

(** ** The end of the process *)

Definition listen_weight (l : Listen) : nat :=
  match l with NotCalled => 3 | Listening => 2 | Serving => 1 | Returned => 0 end.

Definition pprof_weight (f : Frame) : nat :=
  match f_pprof f with Some p => listen_weight (pp_listen p) | None => 0 end.

(** A bound on the steps left to a process that shuts down. *)
Definition api_weight (p : ApiProcess (St := St)) : nat :=
  match p with
  | ApiRunning f cfg o m hs h =>
      match f_exit f with
      | Some _ => 0
      | None =>
          (pprof_weight f + listen_weight (hs_listen hs) + length (hs_active hs) +
           length (f_deferred f) + match m with ApiReturning => 1 | _ => 2 end)%nat
      end
  | _ => 0
  end.

(** The signal arrived: [main] passed [<-stop]. *)
Definition api_stopping (p : ApiProcess (St := St)) : Prop :=
  match p with ApiRunning _ _ _ m hs _ => m <> ApiWaiting /\ hs_closing hs = true | _ => False end.

Lemma listen_step_weight b l l' r : listen_step b l l' r -> (listen_weight l' < listen_weight l)%nat.
Proof. destruct 1; cbn; lia. Qed.

Lemma pprof_step_weight f f' : pprof_step f f' ->
  (pprof_weight f' < pprof_weight f)%nat /\ f_deferred f' = f_deferred f /\ f_exit f' = f_exit f.
Proof.
  unfold pprof_weight. destruct 1 as [f p E El|f p l r E El%listen_step_weight]; cbn; rewrite E; cbn.
  - rewrite El. cbn. split; [lia|done].
  - done.
Qed.

Lemma run_deferred_weight code d ds f : f_deferred f = d :: ds ->
  pprof_weight (run_deferred code f) = pprof_weight f.
Proof.
  intros E. unfold pprof_weight, run_deferred. rewrite E.
  destruct d as [tr []|o| | |]; cbn; try done. by destruct (f_pprof f).
Qed.

Lemma api_step_weight p p' : api_stopping p -> api_step p p' ->
  api_stopping p' /\ (api_weight p' < api_weight p)%nat.
Proof.
  intros Hst [Hex Hs]. destruct p as [f|f cfg|f cfg o m hs h]; try done.
  inversion Hs; subst; cbn [api_frame] in Hex; cbn [api_stopping] in Hst; destruct Hst as [Hm Hc].
  - select (pprof_step _ _) (fun Hp => apply pprof_step_weight in Hp as (Hw & Ed & Ee)).
    cbn in *. rewrite Ee, Hex, Ed. split; [done|lia].
  - cbn. rewrite Hex. select (hs_listen hs = _) (fun E => rewrite E). unfold pprof_weight. cbn.
    split; [done|lia].
  - select (listen_step _ _ _ _) (fun E => apply listen_step_weight in E as Hw).
    split; [by destruct r as [[]|]|]. unfold api_weight, pprof_weight.
    destruct r as [[|err]|]; cbn; rewrite ?Hex; lia.
  - congruence.
  - cbn in *. rewrite Hex. select (hs_active hs = _) (fun E => rewrite E).
    rewrite !length_app. unfold pprof_weight. cbn. split; [done|lia].
  - done.
  - cbn. rewrite Hex. split; [done|]. cbn. unfold pprof_weight. cbn. lia.
  - cbn. rewrite Hex. split; [done|lia].
  - split; [done|]. cbn [api_weight]. rewrite Hex. destruct (f_deferred f) as [|d ds] eqn:Ef.
    + rewrite run_deferred_nil by done. cbn. lia.
    + destruct (run_deferred_cons 0 d ds f Ef) as (_ & Ed & Ee).
      rewrite Ed, Ee, Hex, (run_deferred_weight 0 d ds f Ef). cbn. lia.
Qed.

Lemma api_steps_weight n p p' : api_stopping p -> nsteps api_step n p p' ->
  api_stopping p' /\ (n + api_weight p' <= api_weight p)%nat.
Proof.
  intros Hst Hs. induction Hs as [p|n p p1 p2 Hs _ IH]; [split; [done|lia]|].
  destruct (api_step_weight _ _ Hst Hs) as [Hst1 Hw]. destruct (IH Hst1). split; [done|lia].
Qed.

(** A process that shuts down and can go no further has ended: it answers what it
    accepted, and the shutdown returns when nothing is left. *)
Lemma api_stopping_progress p : api_stopping p -> nf api_step p -> f_exit (api_frame p) <> None.
Proof.
  destruct p as [f|f cfg|f cfg o m hs h]; try done. intros [Hm Hc] Hnf Hex. apply Hnf.
  destruct m; [done|..].
  - destruct (hs_active hs) as [|[rt r] rs] eqn:Ea.
    + eexists. split; [exact Hex|]. by apply api_shut_down.
    + destruct (api_handler unicode_lower env cfg rt r h) as [out h'] eqn:Er.
      eexists. split; [exact Hex|]. by apply (api_answers _ _ _ _ _ _ _ _ _ _ _ _ _ []).
  - eexists. split; [exact Hex|]. apply api_returns.
Qed.

(** A process that shuts down can answer what it accepted and end with status 0. *)
Lemma api_can_return f cfg o hs h : f_exit f = None ->
  exists p', rtc api_step (ApiRunning f cfg o ApiReturning hs h) p' /\
    f_exit (api_frame p') = Some 0.
Proof.
  intros Hex. remember (f_deferred f) as ds eqn:Ef. revert f Hex Ef.
  induction ds as [|d ds IH]; intros f Hex Ef.
  - eexists. split; [apply rtc_once; split; [exact Hex|apply api_returns]|].
    by rewrite run_deferred_nil.
  - destruct (run_deferred_cons 0 d ds f (eq_sym Ef)) as (_ & Ed & Ee).
    destruct (IH (run_deferred 0 f)) as (p' & Hs & Hp'); [by rewrite Ee|done|].
    exists p'. split; [|done]. eapply rtc_l; [|exact Hs]. split; [exact Hex|apply api_returns].
Qed.

Lemma api_can_stop f cfg o hs h : f_exit f = None ->
  exists p', rtc api_step (ApiRunning f cfg o ApiShutting hs h) p' /\
    f_exit (api_frame p') = Some 0.
Proof.
  intros Hex. remember (hs_active hs) as rs eqn:Ea. revert f hs h Hex Ea.
  induction rs as [|[rt r] rs IH]; intros f hs h Hex Ea.
  - destruct (api_can_return (emit [Info "pixrail_api_stopped"] f) cfg o hs h Hex) as (p' & Hs & Hp').
    exists p'. split; [|done]. eapply rtc_l; [|exact Hs]. split; [exact Hex|by apply api_shut_down].
  - destruct (api_handler unicode_lower env cfg rt r h) as [out h'] eqn:Er.
    destruct (IH (emit [Answered rt r out] f) (mkHTTPServer (hs_listen hs) (hs_closing hs) rs) h'
      Hex eq_refl) as (p' & Hs & Hp').
    exists p'. split; [|done]. eapply rtc_l; [|exact Hs]. split; [exact Hex|].
    by apply (api_answers _ _ _ _ _ _ _ _ _ _ _ _ _ []).
Qed.

(** C24: once the signal arrived the API process ends: from there it makes at most
    eleven steps more than it has requests in flight, whatever the interleaving; it
    never blocks before its exit; and it can always answer the requests in flight and
    exit with status 0. *)
Theorem api_process_stops f cfg o m hs h :
  let p := ApiRunning f cfg o m hs h in
  rtc api_step (ApiStarting new_frame) p -> m <> ApiWaiting -> f_exit f = None ->
  (forall n p', nsteps api_step n p p' -> (n <= length (hs_active hs) + 11)%nat) /\
  (forall p', rtc api_step p p' -> nf api_step p' -> f_exit (api_frame p') <> None) /\
  exists p', rtc api_step p p' /\ f_exit (api_frame p') = Some 0.
Proof.
  intros p (_ & _ & _ & _ & _ & _ & _ & Hinv)%api_reachable_inv Hm Hex.
  assert (Hst : api_stopping p /\ (length (f_deferred f) + match m with ApiReturning => 1 | _ => 2 end <= 5)%nat).
  { destruct m; [done|..]; cbn in Hinv.
    - destruct Hinv as (? & -> & _). cbn. split; [done|lia].
    - destruct Hinv as (? & _ & ?). split; [done|lia]. }
  destruct Hst as [Hst Hd].
  assert (Hl : forall l, (listen_weight l <= 3)%nat) by (intros []; cbn; lia).
  split_and!.
  - intros n p' [_ Hn]%api_steps_weight; [|done]. cbn [api_weight p] in Hn. rewrite Hex in Hn.
    pose proof (Hl (hs_listen hs)). assert (pprof_weight f <= 3)%nat; [|lia].
    unfold pprof_weight. destruct (f_pprof f); [apply Hl|lia].
  - intros p' [n Hs]%rtc_nsteps Hnf. apply api_stopping_progress; [|done].
    by eapply api_steps_weight.
  - subst p. destruct m; [done|by apply api_can_stop|by apply api_can_return].
Qed.
End ApiProcessProps.

(** ** The worker *)

Section WorkerProcessProps.
Context (exporter_New : option error) (uq unicode_lower os_Getenv : string -> string).
Context (open : string -> list PoolOptions -> result PoolOptions).
Context `{StoreLaws St} (holds : OpenedStore -> St) (env : Env St).

#[local] Abbreviation worker_step :=
  (worker_step exporter_New uq unicode_lower os_Getenv open holds env).

Definition worker_failures : list string := ["config_load_failed"; "store_initialization_failed"].

(** The batches [main] ran, as its loop runs them. *)
Definition worker_ran (cfg : Config) (o : OpenedStore) (logs : list BatchLog)
    (w : World St (Limits Limiter Limiter)) : Prop :=
  worker_loop env (app_Service unicode_lower env cfg) (cf_WorkerBatchSize cfg) (length logs)
    (worker_world holds cfg o) = (Ok logs, w).

(** The deferred calls and the batches at each place of [main]. *)
Definition worker_main_inv (cfg : Config) (o : OpenedStore) (m : WorkerMain) (sg : bool)
    (f : Frame) : Prop :=
  let base := [DeferStopTicker; DeferStopSignals; DeferCloseStore o; tools exporter_New "worker" cfg] in
  match m with
  | WorkerFirst =>
      f_deferred f = base /\ store_open false (f_calls f) = true /\ batches (f_calls f) = []
  | WorkerSelecting =>
      f_deferred f = base /\ store_open false (f_calls f) = true /\ batches (f_calls f) <> []
  | WorkerReturning code => code = 0 /\ sg = true /\ batches (f_calls f) <> []
  end.

Definition worker_inv (p : WorkerProcess) : Prop :=
  match p with
  | WorkerStarting f => starting_inv worker_failures f
  | WorkerOpening f cfg => opening_inv exporter_New uq os_Getenv "worker" worker_failures cfg f
  | WorkerRunning f cfg o m sg tk w =>
      used_while_open false (f_calls f) = true /\ exit_reported worker_failures f /\
      Load uq os_Getenv = Ok cfg /\ BuildStore open cfg = Ok o /\
      worker_ran cfg o (batches (f_calls f)) w /\
      releases (f_calls f) ++ releases (f_deferred f ≫= deferred_calls) =
        all_releases exporter_New "worker" cfg o /\
      (f_exit f = None \/ f_exit f = Some 0 /\ m = WorkerReturning 0 /\ f_deferred f = []) /\
      worker_main_inv cfg o m sg f
  end.

(** A loop of one more batch, before and after. *)
Lemma worker_loop_cons sv limit n (w0 w1 w2 : World St (Limits Limiter Limiter)) logs log :
  runBatch env sv limit w0 = (Ok log, w1) -> worker_loop env sv limit n w1 = (Ok logs, w2) ->
  worker_loop env sv limit (S n) w0 = (Ok (log :: logs), w2).
Proof. intros Hb Hn. cbn [worker_loop]. unfold bind. by rewrite Hb, Hn. Qed.

Lemma worker_loop_snoc sv limit n (w0 w1 w2 : World St (Limits Limiter Limiter)) logs log :
  worker_loop env sv limit n w0 = (Ok logs, w1) -> runBatch env sv limit w1 = (Ok log, w2) ->
  worker_loop env sv limit (S n) w0 = (Ok (logs ++ [log]), w2).
Proof.
  revert w0 logs. induction n as [|n IH]; intros w0 logs Hn Hb.
  - injection Hn as <- <-. by eapply worker_loop_cons.
  - cbn [worker_loop] in Hn. unfold bind in Hn.
    destruct (runBatch env sv limit w0) as [[log0|e] w0'] eqn:E0; [|done].
    destruct (worker_loop env sv limit n w0') as [[logs0|e] w0''] eqn:En; [|done].
    injection Hn as <- <-. eapply worker_loop_cons; [exact E0|]. by apply IH.
Qed.

Lemma worker_ran_snoc cfg o logs w log w' :
  worker_ran cfg o logs w -> worker_batch unicode_lower env cfg w = (Ok log, w') ->
  worker_ran cfg o (logs ++ [log]) w'.
Proof.
  unfold worker_ran. intros Hl Hb. rewrite length_app. cbn [length]. rewrite Nat.add_1_r.
  by eapply worker_loop_snoc.
Qed.

(** [main] moves and the calls made are neutral. *)
Lemma worker_neutral_inv f cfg o m sg tk w f' m' sg' tk' cs :
  f_exit f = None -> worker_inv (WorkerRunning f cfg o m sg tk w) ->
  neutral cs = true -> f_calls f' = f_calls f ++ cs ->
  releases (f_deferred f' ≫= deferred_calls) = releases (f_deferred f ≫= deferred_calls) ->
  f_exit f' = None ->
  (batches (f_calls f') = batches (f_calls f) -> worker_main_inv cfg o m sg f ->
     worker_main_inv cfg o m' sg' f') ->
  worker_inv (WorkerRunning f' cfg o m' sg' tk' w).
Proof.
  intros Hex (Hu & _ & Hl & Hb & Hw & Hr & _ & Hm) Hn Ec Ed He Hm'.
  destruct (neutral_reads cs (store_open false (f_calls f)) Hn) as (N1 & _ & _ & N4 & N5).
  assert (Eb : batches (f_calls f') = batches (f_calls f)).
  { rewrite Ec, batches_app, N4. apply app_nil_r. }
  cbn [worker_inv]. rewrite Eb, Ec, Ed, He. autorewrite with calls. rewrite Hu, N1, N5.
  autorewrite with calls. split_and!; auto. by apply exit_reported_none.
Qed.

(** [main] runs a batch while the store is open. *)
Lemma worker_batch_inv f cfg o m sg tk w tk' log w' :
  f_exit f = None -> worker_inv (WorkerRunning f cfg o m sg tk w) ->
  m = WorkerFirst \/ m = WorkerSelecting -> worker_batch unicode_lower env cfg w = (Ok log, w') ->
  worker_inv (WorkerRunning (emit [Batched log] f) cfg o WorkerSelecting sg tk' w').
Proof.
  intros Hex (Hu & _ & Hl & Hb & Hw & Hr & _ & Hm) Hor Hrun.
  assert (Ho : store_open false (f_calls f) = true /\
    f_deferred f = [DeferStopTicker; DeferStopSignals; DeferCloseStore o; tools exporter_New "worker" cfg]).
  { destruct Hor as [-> | ->]; by destruct Hm as (? & ? & _). }
  destruct Ho as [Ho Hd]. cbn [worker_inv]. unfold worker_main_inv.
  change (f_calls (emit ?cs ?g)) with (f_calls g ++ cs). change (f_exit (emit ?cs ?g)) with (f_exit g).
  change (f_deferred (emit ?cs ?g)) with (f_deferred g).
  autorewrite with calls. rewrite Hu, Ho, Hd, Hex. rewrite Hd in Hr.
  split_and!; try done; [by apply exit_reported_none|by eapply worker_ran_snoc|by left|].
  cbn. by destruct (batches (f_calls f)).
Qed.

Lemma worker_return_inv f cfg o code sg tk w :
  f_exit f = None -> worker_inv (WorkerRunning f cfg o (WorkerReturning code) sg tk w) ->
  worker_inv (WorkerRunning (run_deferred code f) cfg o (WorkerReturning code) sg tk w).
Proof.
  intros Hex (Hu & _ & Hl & Hb & Hw & Hr & _ & -> & Hsg & Hne).
  destruct (f_deferred f) as [|d ds] eqn:Ef.
  - rewrite run_deferred_nil by done. cbn. rewrite Ef. split_and!; try done; [by left|by right].
  - destruct (run_deferred_cons 0 d ds f Ef) as (Ec & Ed & Ee). cbn [worker_inv].
    unfold worker_main_inv. rewrite Ec, Ed, Ee, Hex. autorewrite with calls.
    assert (Hn : forall b, used_while_open b (deferred_calls d) = true) by by destruct d.
    assert (Ea : batches (deferred_calls d) = []) by by destruct d.
    rewrite Hu, Hn, Ea. autorewrite with calls. cbn [mbind list_bind] in Hr.
    rewrite releases_app in Hr. rewrite <- app_assoc.
    split_and!; try done; [|by left]. apply exit_reported_none. by rewrite Ee.
Qed.

(** A loaded configuration never makes the ticker panic. *)
Lemma start_ticker_loaded cfg f : Load uq os_Getenv = Ok cfg ->
  start_ticker cfg f =
    (mkFrame (f_calls f ++ [SignalsWatched; Info "pixrail_worker_starting";
                            TickerStarted (cf_WorkerInterval cfg)])
       (DeferStopTicker :: DeferStopSignals :: f_deferred f) (f_pprof f) (f_exit f), WorkerFirst).
Proof.
  intros (Hok & _)%load_facts. pose proof (co_durations _ Hok) as Hd.
  do 2 apply Forall_cons in Hd as [_ Hd]. apply Forall_cons in Hd as [Hd _].
  unfold start_ticker. destruct (_ <=? 0) eqn:E; b2p; [lia|]. unfold defer, emit. cbn.
  by rewrite <- !app_assoc.
Qed.

Lemma worker_opened_inv f cfg o f1 f2 m : f_exit f = None ->
  opening_inv exporter_New uq os_Getenv "worker" worker_failures cfg f ->
  open_store open cfg f = (Some o, f1) -> start_ticker cfg f1 = (f2, m) ->
  worker_inv (WorkerRunning f2 cfg o m false false (worker_world holds cfg o)).
Proof.
  intros Hex (_ & _ & Hc & Hl & Hd) [Hb ->]%open_store_ok Ht.
  rewrite start_ticker_loaded in Ht by done. injection Ht as <- <-.
  destruct (neutral_reads _ false Hc) as (N1 & N2 & _ & N4 & N5).
  cbn. autorewrite with calls. rewrite N1, N2, N4, N5, Hd. cbn.
  split_and!; try done; [by apply exit_reported_none|by left].
Qed.

Lemma worker_pprof_inv p f' : f_exit (worker_frame p) = None -> worker_inv p ->
  pprof_step (worker_frame p) f' -> worker_inv (worker_with_frame p f').
Proof.
  intros Hex Hi Hs. destruct p as [f|f cfg|f cfg o m sg tk w]; cbn in *;
    [by eapply starting_pprof_inv|by eapply opening_pprof_inv|].
  apply pprof_step_spec in Hs as (cs & pp & Hn & Ec & Ed & Ee & _). rewrite Hex in Ee.
  refine (worker_neutral_inv f cfg o m sg tk w f' m sg tk cs Hex Hi Hn Ec _ Ee _).
  - by rewrite Ed.
  - destruct (neutral_reads cs (store_open false (f_calls f)) Hn) as (_ & N2 & _).
    intros Eb. unfold worker_main_inv. rewrite Eb, Ed, Ec, store_open_app, N2. done.
Qed.

Lemma worker_step_inv p p' : worker_inv p -> worker_step p p' -> worker_inv p'.
Proof.
  intros Hi [Hex Hs]. destruct Hs; cbn [worker_frame] in Hex.
  - by eapply configure_ok_inv.
  - by eapply (configure_failed_inv _ _ _ _ worker_failures (reflexivity _)).
  - by eapply worker_opened_inv.
  - by eapply (open_failed_inv _ _ _ _ _ worker_failures (reflexivity _)).
  - by apply worker_pprof_inv.
  - eapply (worker_neutral_inv f cfg o m false tk w f m true tk []); rewrite ?app_nil_r; eauto.
    intros _. by destruct m as [| |code]; [..|intros (? & ? & ?)].
  - eapply (worker_neutral_inv f cfg o m sg false w f m sg true []); rewrite ?app_nil_r; eauto.
  - by eapply worker_batch_inv; eauto.
  - by eapply worker_batch_inv; eauto.
  - eapply (worker_neutral_inv f cfg o WorkerSelecting true tk w _ (WorkerReturning 0) true tk
      [Info "pixrail_worker_stopped"]); eauto.
    intros Eb (_ & _ & Hne). cbn [worker_main_inv]. by rewrite Eb.
  - by apply worker_return_inv.
Qed.

Lemma worker_reachable_inv p : rtc worker_step (WorkerStarting new_frame) p -> worker_inv p.
Proof.
  intros Hs. assert (Hi0 : worker_inv (WorkerStarting new_frame)) by by split_and!.
  revert Hi0. induction Hs as [|p p' p'' Hs _ IH]; [done|]. intros Hi. apply IH. by eapply worker_step_inv.
Qed.

(** C23: the worker process, from its start and whatever comes between: its world and the
    batches it reported are those of the worker's loop over that many batches, each run
    while the store was open, so the store keeps its contract; [NewTicker] never panics,
    since the interval of a loaded configuration is positive; it ends with 0 only after the signal, at least one batch, and the closing of the store,
    tracing and profiling in this order, and with 1 only after it reported a failure
    of its start. *)
Theorem worker_process_refines p :
  rely env -> (forall cfg o, BuildStore open cfg = Ok o -> st_inv (holds o)) ->
  rtc worker_step (WorkerStarting new_frame) p ->
  let f := worker_frame p in
  used_while_open false (f_calls f) = true /\ exit_reported worker_failures f /\
  match p with
  | WorkerRunning f cfg o m sg tk w =>
      Load uq os_Getenv = Ok cfg /\ BuildStore open cfg = Ok o /\ o <> OpenedNil /\
      worker_loop env (app_Service unicode_lower env cfg) (cf_WorkerBatchSize cfg)
        (length (batches (f_calls f))) (worker_world holds cfg o) = (Ok (batches (f_calls f)), w) /\
      preserves (holds o) (w_store w) /\
      releases (f_calls f) `prefix_of` all_releases exporter_New "worker" cfg o /\
      (f_exit f <> None ->
         f_exit f = Some 0 /\ sg = true /\ batches (f_calls f) <> [] /\
         releases (f_calls f) = all_releases exporter_New "worker" cfg o)
  | _ => f_exit f <> Some 0 /\ batches (f_calls f) = [] /\ releases (f_calls f) = []
  end.
Proof.
  intros Hr Hs Hi%worker_reachable_inv f. subst f.
  destruct p as [f|f cfg|f cfg o m sg tk w]; cbn [worker_frame] in *.
  1,2: destruct Hi as (? & ? & (? & ? & ? & ?)%neutral_calls & _); done.
  destruct Hi as (Hu & He & Hl & Hb & Hw & Hrel & Hend & Hm). split_and!; try done.
  - by eapply load_store_open.
  - pose proof (load_batch_size _ _ _ Hl) as Hlim. pose proof (wp_run _ _ _ _ _ Hw (worker_loop_post env _ _ _ (worker_world holds cfg o)
      Hr (Hs _ _ Hb) Hlim)) as Hp.
    apply Hp.
  - by eexists.
  - intros Hne. destruct Hend as [?|(H0' & -> & Hd)]; [done|].
    rewrite Hd, app_nil_r in Hrel. by destruct Hm as (_ & ? & ?).
Qed.

Lemma worker_can_return f cfg o sg tk w : f_exit f = None ->
  exists p', rtc worker_step (WorkerRunning f cfg o (WorkerReturning 0) sg tk w) p' /\
    f_exit (worker_frame p') = Some 0.
Proof.
  intros Hex. remember (f_deferred f) as ds eqn:Ef. revert f Hex Ef.
  induction ds as [|d ds IH]; intros f Hex Ef.
  - eexists. split; [apply rtc_once; split; [exact Hex|apply worker_returns]|].
    by rewrite run_deferred_nil.
  - destruct (run_deferred_cons 0 d ds f (eq_sym Ef)) as (_ & Ed & Ee).
    destruct (IH (run_deferred 0 f)) as (p' & Hs & Hp'); [by rewrite Ee|done|].
    exists p'. split; [|done]. eapply rtc_l; [|exact Hs]. split; [exact Hex|apply worker_returns].
Qed.

(** Once the signal arrived a worker that has not ended can stop with status 0: whatever
    a batch meets, the loop comes back to its [select]. *)
Theorem worker_can_stop f cfg o m tk w :
  rely env -> (forall cfg o, BuildStore open cfg = Ok o -> st_inv (holds o)) ->
  let p := WorkerRunning f cfg o m true tk w in
  rtc worker_step (WorkerStarting new_frame) p -> f_exit f = None ->
  exists p', rtc worker_step p p' /\ f_exit (worker_frame p') = Some 0.
Proof.
  intros Hr Hs p Hreach Hex. subst p.
  assert (Hsel : forall f w, f_exit f = None -> exists p',
    rtc worker_step (WorkerRunning f cfg o WorkerSelecting true tk w) p' /\
    f_exit (worker_frame p') = Some 0).
  { intros g w1 Hg.
    destruct (worker_can_return (emit [Info "pixrail_worker_stopped"] g) cfg o true tk w1 Hg)
      as (p' & Hp & He).
    exists p'. split; [|done]. eapply rtc_l; [|exact Hp]. split; [exact Hg|apply worker_done]. }
  apply worker_reachable_inv in Hreach as (_ & _ & Hl & Hb & Hw & _ & _ & Hm).
  destruct m as [| |code]; [|by apply Hsel|destruct Hm as [-> _]; by apply worker_can_return].
  destruct Hm as (_ & _ & Hnil). rewrite Hnil in Hw. injection Hw as <-.
  destruct (worker_batch unicode_lower env cfg (worker_world holds cfg o)) as [r w1] eqn:E.
  pose proof (wp_run _ _ _ _ _ E (run_batch_post env _ _ (worker_world holds cfg o) Hr (Hs _ _ Hb)
    (load_batch_size _ _ _ Hl))) as (_ & log & -> & _).
  destruct (Hsel (emit [Batched log] f) w1 Hex) as (p' & Hp & He).
  exists p'. split; [|done]. eapply rtc_l; [|exact Hp]. split; [exact Hex|by apply worker_first].
Qed.
End WorkerProcessProps.
