(* ===== verification/Witness.v ===== *)
(** * A running system

    The switch over the in-memory store with the DICT, fraud and SPI simulators, on
    concrete requests: an approved transfer from creation to settlement, a reviewed
    one, a failing SPI client and an outbox drain, evaluated. The lemmas named
    [..._witness] apply the theorems of the development to this run. *)

From S2P Require Import Prelude GoStrings Sha256 Rail Events Fraud Dict Spi RateLimit StoreSpec.
From S2P Require Import MemStore MemStoreProps OutboxProps MemStoreLaws Effects Switcher SwitcherProps Relay RelayProps.

(** ** The system *)

Definition demo_order (l : list Transfer) : list Transfer := l.

Lemma demo_order_perm l : demo_order l ≡ₚ l.
Proof. done. Qed.

#[local] Instance demo_Store : Store MemoryStore := MemoryStore_Store demo_order.
#[local] Instance demo_Laws : StoreLaws MemoryStore := MemoryStore_Laws demo_order demo_order_perm.

(** A clock that ticks a millisecond per observation. *)
Definition demo_start : Time := unix_epoch + 1700000000 * Second.

Definition demo_env : Env MemoryStore :=
  mkEnv (fun _ => None) (fun k => demo_start + Z.of_nat k * Millisecond)
    (fun k => Some (be_digits 16 (Z.of_nat k))) (fun _ s => s).

Definition demo_sv : Service :=
  mkService
    (fun k => StaticResolver_Resolve (fun s => s) (mkStaticResolver 0 0) (fun i => obs_at demo_env (k + i)))
    (fun _ => RulesEngine_Score)
    (fun k => Simulator_Submit (obs_at demo_env k)).

Definition spi_error : error := Errorf ErrDependencyFailed "spi unavailable".

Definition failing_sv : Service :=
  mkService (sv_dict demo_sv) (sv_fraud demo_sv) (fun _ _ => Err spi_error).

Abbreviation DemoWorld := (World MemoryStore (Limits Limiter Limiter)).

Definition demo_world : DemoWorld :=
  mkWorld NewMemoryStore (mkLimits (Some (ratelimit_New (mkBucketConfig 10 1 Second))) None) 0.

Definition demo_request (key : string) (amount : Z) : CreateTransferRequest :=
  mkCreateTransferRequest " tenant_1 " "acc_1" key "corr_1" amount "" "bob@example.com" KeyEmail
    "rent" 0.

(** ** The run *)

Definition no_transfer : Transfer :=
  build_transfer "" (demo_request "" 0) "" (mkDictEntry "" "" "" "" "" "" 0 0)
    (mkFraudDecision 0 "" [] "") 0.
Definition no_result : Result := mkResult no_transfer false [].

Definition ok_or {A} (d : A) (r : result A) : A := match r with Ok a => a | Err _ => d end.

Definition run1 := Eval vm_compute in
  Service_CreateTransfer demo_env demo_sv (demo_request "key-1" 1500) demo_world.
Definition world1 : DemoWorld := Eval vm_compute in snd run1.
Definition result1 : Result := Eval vm_compute in ok_or no_result (fst run1).
Definition id1 : string := Eval vm_compute in t_ID (r_Transfer result1).

(** The same request again. *)
Definition run2 := Eval vm_compute in
  Service_CreateTransfer demo_env demo_sv (demo_request "key-1 " 1500) world1.
Definition result2 : Result := Eval vm_compute in ok_or no_result (fst run2).

Definition run3 := Eval vm_compute in
  Service_SubmitToSPI demo_env demo_sv "tenant_1" id1 "" world1.
Definition world3 : DemoWorld := Eval vm_compute in snd run3.
Definition result3 : Result := Eval vm_compute in ok_or no_result (fst run3).

Definition run4 := Eval vm_compute in
  Service_SubmitToSPI demo_env demo_sv "tenant_1" id1 "corr_2" world3.
Definition result4 : Result := Eval vm_compute in ok_or no_result (fst run4).

Definition demo_callback : SettlementCallback := Eval vm_compute in
  mkSettlementCallback "tenant_1" id1 (t_SPIMessageID (r_Transfer result3)) SettlementAccepted
    "00" "" "" 0.

Definition run5 := Eval vm_compute in
  Service_RecordSettlement demo_env demo_callback world3.
Definition world5 : DemoWorld := Eval vm_compute in snd run5.
Definition result5 : Result := Eval vm_compute in ok_or no_result (fst run5).

Definition run6 := Eval vm_compute in
  Service_RecordSettlement demo_env demo_callback world5.
Definition result6 : Result := Eval vm_compute in ok_or no_result (fst run6).

Lemma run1_ok :
  Service_CreateTransfer demo_env demo_sv (demo_request "key-1" 1500) demo_world = (Ok result1, world1).
Proof. vm_compute. reflexivity. Qed.
Lemma run2_ok :
  Service_CreateTransfer demo_env demo_sv (demo_request "key-1 " 1500) world1 = (Ok result2, snd run2).
Proof. vm_compute. reflexivity. Qed.
Lemma run3_ok :
  Service_SubmitToSPI demo_env demo_sv "tenant_1" id1 "" world1 = (Ok result3, world3).
Proof. vm_compute. reflexivity. Qed.
Lemma run4_ok :
  Service_SubmitToSPI demo_env demo_sv "tenant_1" id1 "corr_2" world3 = (Ok result4, snd run4).
Proof. vm_compute. reflexivity. Qed.
Lemma run5_ok :
  Service_RecordSettlement demo_env demo_callback world3 = (Ok result5, world5).
Proof. vm_compute. reflexivity. Qed.
Lemma run6_ok :
  Service_RecordSettlement demo_env demo_callback world5 = (Ok result6, snd run6).
Proof. vm_compute. reflexivity. Qed.

(** What the run does, evaluated. *)
Example run_statuses :
  (t_Status (r_Transfer result1), t_Status (r_Transfer result3), t_Status (r_Transfer result5))
  = (StatusAccepted, StatusApproved, StatusSettled).
Proof. vm_compute. reflexivity. Qed.

Example run_replays :
  (r_IdempotentReplay result1, r_IdempotentReplay result2, r_IdempotentReplay result3,
   r_IdempotentReplay result4, r_IdempotentReplay result5, r_IdempotentReplay result6)
  = (false, true, false, true, false, true).
Proof. vm_compute. reflexivity. Qed.

Example run_events :
  map (fun r => e_EventType (o_Event r)) (ms_events (w_store world5)) =
  ["pix_transfer_requested"; "dict_key_resolved"; "fraud_score_calculated";
   "pix_transfer_accepted"; "spi_submission_requested"; "spi_message_created";
   "pix_transfer_approved"; "pix_transfer_settled"].
Proof. vm_compute. reflexivity. Qed.

(** ** The theorems on this run *)

Lemma demo_rely : rely demo_env.
Proof. intros k s Hs. by apply preserves_refl. Qed.

Lemma demo_world_ok : store_ok (w_store demo_world).
Proof. apply new_store_ok. Qed.

Lemma world1_ok : store_ok (w_store world1).
Proof.
  pose proof (wp_run _ _ _ _ _ run1_ok (create_transfer_post demo_env demo_sv _ _ demo_rely
    demo_world_ok)) as H.
  exact (proj1 (create_post_preserves _ _ _ _ _ _ demo_rely demo_world_ok H)).
Qed.

Lemma world3_ok : store_ok (w_store world3).
Proof.
  exact (proj1 (proj1 (wp_run _ _ _ _ _ run3_ok
    (submit_to_spi_post demo_env demo_sv _ _ _ _ demo_rely world1_ok)))).
Qed.

Lemma world5_ok : store_ok (w_store world5).
Proof.
  pose proof (wp_run _ _ _ _ _ run5_ok (record_settlement_post demo_env _ _ demo_rely
    world3_ok)) as H.
  exact (proj1 (settle_post_preserves _ _ _ _ _ demo_rely world3_ok H)).
Qed.

Lemma create_transfer_correct_witness :
  create_post demo_env demo_sv (demo_request "key-1" 1500) demo_world (Ok result1) world1.
Proof.
  apply (create_transfer_correct demo_env demo_sv);
    [exact demo_rely|exact demo_world_ok|exact run1_ok].
Defined.

Lemma create_transfer_once_witness :
  r_IdempotentReplay result2 = true /\ t_ID (r_Transfer result2) = t_ID (r_Transfer result1).
Proof.
  destruct (create_transfer_once demo_env demo_sv (demo_request "key-1" 1500)
    (demo_request "key-1 " 1500) demo_world world1 world1 (snd run2) result1 result2)
    as (? & _ & ? & _).
  - exact demo_rely.
  - exact demo_world_ok.
  - vm_compute. reflexivity.
  - vm_compute. reflexivity.
  - exact run1_ok.
  - vm_compute. reflexivity.
  - apply preserves_refl. exact world1_ok.
  - exact run2_ok.
  - split; assumption.
Defined.

Lemma create_transfer_replay_witness :
  wp (Service_CreateTransfer demo_env demo_sv (demo_request "key-1" 9900)) world1
    (replay_post demo_env (demo_request "key-1" 9900) (r_Transfer result1) world1).
Proof.
  apply (create_transfer_replay demo_env demo_sv).
  - exact demo_rely.
  - exact world1_ok.
  - intros k. reflexivity.
  - vm_compute. reflexivity.
  - vm_compute. reflexivity.
  - vm_compute. discriminate.
Defined.

Lemma submit_to_spi_correct_witness :
  submit_post demo_env "tenant_1" id1 world1 (Ok result3) world3.
Proof.
  apply (submit_to_spi_correct demo_env demo_sv "tenant_1" id1 "" world1);
    [exact demo_rely|exact world1_ok|exact run3_ok].
Defined.

Lemma submit_to_spi_once_witness :
  r_IdempotentReplay result4 = true /\
  t_EndToEndID (r_Transfer result4) = t_EndToEndID (r_Transfer result3).
Proof.
  destruct (submit_to_spi_once demo_env demo_sv "tenant_1" id1 "" "corr_2" world1 world3 world3
    (snd run4) result3 result4) as (? & _ & ?).
  - exact demo_rely.
  - exact world1_ok.
  - exact run3_ok.
  - apply preserves_refl. exact world3_ok.
  - exact run4_ok.
  - split; assumption.
Defined.


Lemma record_settlement_correct_witness :
  settle_post demo_env demo_callback world3 (Ok result5) world5.
Proof.
  apply (record_settlement_correct demo_env);
    [exact demo_rely|exact world3_ok|exact run5_ok].
Defined.

Lemma record_settlement_once_witness :
  r_IdempotentReplay result6 = true /\ r_Transfer result6 = r_Transfer result5.
Proof.
  destruct (record_settlement_once demo_env demo_callback demo_callback world3 world5 world5
    (snd run6) result5 result6) as (? & ? & _).
  - exact demo_rely.
  - exact world3_ok.
  - reflexivity.
  - reflexivity.
  - reflexivity.
  - exact run5_ok.
  - vm_compute. reflexivity.
  - apply preserves_refl. exact world5_ok.
  - exact run6_ok.
  - split; assumption.
Defined.

(** A transfer of ten thousand reais scores 55 points on its amount and 10 on its receiver. *)
Definition run7 := Eval vm_compute in
  Service_CreateTransfer demo_env demo_sv (demo_request "key-7" 1000000) demo_world.
Definition world7 : DemoWorld := Eval vm_compute in snd run7.
Definition result7 : Result := Eval vm_compute in ok_or no_result (fst run7).

Definition demo_review : ReviewDecisionRequest := Eval vm_compute in
  mkReviewDecisionRequest "tenant_1" (t_ID (r_Transfer result7)) ReviewApprove "" "" 0.

Definition run8 := Eval vm_compute in
  Service_RecordReview (LT := Limiter) (LD := Limiter) demo_env demo_review world7.
Definition result8 : Result := Eval vm_compute in ok_or no_result (fst run8).

Example review_statuses :
  (t_Status (r_Transfer result7), t_FraudScore (r_Transfer result7), t_Status (r_Transfer result8))
  = (StatusReview, 65, StatusAccepted).
Proof. vm_compute. reflexivity. Qed.

Lemma run7_ok :
  Service_CreateTransfer demo_env demo_sv (demo_request "key-7" 1000000) demo_world
  = (Ok result7, world7).
Proof. vm_compute. reflexivity. Qed.
Lemma run8_ok : Service_RecordReview demo_env demo_review world7 = (Ok result8, snd run8).
Proof. vm_compute. reflexivity. Qed.

Lemma world7_ok : store_ok (w_store world7).
Proof.
  pose proof (wp_run _ _ _ _ _ run7_ok (create_transfer_post demo_env demo_sv _ _ demo_rely
    demo_world_ok)) as H.
  exact (proj1 (create_post_preserves _ _ _ _ _ _ demo_rely demo_world_ok H)).
Qed.

Lemma record_review_correct_witness :
  review_post demo_env demo_review world7 (Ok result8) (snd run8).
Proof.
  apply (record_review_correct demo_env); [exact demo_rely|exact world7_ok|exact run8_ok].
Defined.

Lemma submit_pending_accounts_witness :
  let p := Service_SubmitPendingSPI demo_env demo_sv 10 world1 in
  batch_post 10 (w_store world1) (fst p) (snd p).
Proof.
  apply (submit_pending_accounts demo_env demo_sv 10 world1).
  - exact demo_rely.
  - exact world1_ok.
  - unfold in_int64, min_int64, max_int64. lia.
  - apply surjective_pairing.
Defined.

Example batch_counts_one :
  fst (Service_SubmitPendingSPI demo_env demo_sv 10 world1) = Ok (mkSPIBatchResult 1 1 0 0, None).
Proof. vm_compute. reflexivity. Qed.

Lemma switch_keeps_contract_witness :
  preserves (w_store demo_world) (w_store (fold_left
    (fun w c => run_call demo_env demo_sv c w)
    [CallCreate (demo_request "key-1" 1500); CallBatch 5; CallHealth] demo_world)).
Proof.
  apply (switch_keeps_contract demo_env demo_sv).
  - exact demo_rely.
  - exact demo_world_ok.
  - repeat apply Forall_cons_2; [..|apply Forall_nil_2]; intros l E; inversion E.
    unfold in_int64, min_int64, max_int64. lia.
Defined.

Lemma memory_store_refines_contract_witness :
  @StoreLaws MemoryStore (MemoryStore_Store demo_order) MemoryStore_View.
Proof. apply (memory_store_refines_contract demo_order). intros l. reflexivity. Defined.

(** ** The store on its own *)

Definition demo_transfer : Transfer := Eval vm_compute in r_Transfer result1.
Definition demo_events : list Event := Eval vm_compute in r_Events result1.
Definition demo_audit : AuditRecord := Eval vm_compute in creation_audit demo_transfer 0.
Definition demo_store : MemoryStore :=
  Eval vm_compute in snd (MemoryStore_InsertTransfer demo_transfer demo_events [demo_audit] NewMemoryStore).

Definition demo_insert : StoreOp := OpInsert demo_transfer demo_events [demo_audit].

Lemma demo_transfer_new : new_transfer demo_transfer.
Proof.
  split_and!; [|by left|done]. split; try done.
  - left. by left.
  - intros [H|[H|H]]; discriminate.
Qed.

Lemma demo_insert_pre s : op_pre demo_insert s.
Proof.
  split; [exact demo_transfer_new|]. split.
  - repeat (constructor; [split_and!; reflexivity|]). constructor.
  - constructor; [split_and!; reflexivity|constructor].
Qed.

Lemma demo_store_eq : run_op demo_insert NewMemoryStore = demo_store.
Proof. vm_compute. reflexivity. Qed.

Lemma demo_store_step : store_step NewMemoryStore demo_store.
Proof. rewrite <- demo_store_eq. constructor. apply demo_insert_pre. Qed.

Lemma demo_store_ok : store_ok demo_store.
Proof. rewrite <- demo_store_eq. apply run_op_ok; [apply new_store_ok|apply demo_insert_pre]. Qed.

Lemma demo_small : small_outbox demo_store.
Proof. vm_compute. discriminate. Qed.

Lemma store_reachable_ok_witness :
  (store_indexed NewMemoryStore /\ store_indexed demo_store /\ store_le NewMemoryStore demo_store) /\
  store_ok NewMemoryStore /\ store_ok demo_store /\ store_le NewMemoryStore demo_store.
Proof.
  destruct (store_reachable_ok NewMemoryStore demo_store) as [H1 H2]. split.
  - apply H1; [apply rtc_refl|]. apply rtc_once. rewrite <- demo_store_eq. constructor.
  - apply H2; [apply rtc_refl|apply rtc_once; exact demo_store_step].
Defined.

Lemma tenant_isolation_witness :
  tenant_delta "tenant_1" (op_events demo_insert) (op_audit demo_insert)
    NewMemoryStore (run_op demo_insert NewMemoryStore).
Proof.
  apply tenant_isolation; [apply store_ok_indexed, new_store_ok|reflexivity].
Defined.

Lemma foreign_transfer_not_found_witness :
  exists e, MemoryStore_GetTransfer "tenant_2" (t_ID demo_transfer) demo_store = Err e /\ not_found e.
Proof.
  destruct (foreign_transfer_not_found demo_store "tenant_2" (t_ID demo_transfer) 0 demo_transfer)
    as (H & _).
  - vm_compute. reflexivity.
  - vm_compute. discriminate.
  - exact H.
Defined.

Lemma find_by_idempotency_exact_witness :
  MemoryStore_FindByIdempotency (mkObs None 0) "tenant_1" "key-1" demo_store
    = Ok (Some demo_transfer) <->
  ms_transfers demo_store !! t_ID demo_transfer = Some demo_transfer /\
  t_TenantID demo_transfer = "tenant_1" /\ t_IdempotencyKey demo_transfer = "key-1".
Proof.
  apply find_by_idempotency_exact.
  - exact demo_store_ok.
  - intros id t Ht. apply elem_of_map_to_list in Ht. vm_compute in Ht.
    apply elem_of_cons in Ht as [Ht|Ht]; [|by apply elem_of_nil in Ht].
    injection Ht as -> ->. reflexivity.
  - reflexivity.
Defined.

Lemma insert_transfer_roundtrip_witness :
  match MemoryStore_InsertTransfer demo_transfer demo_events [demo_audit] demo_store with
  | (Ok _, _) => False
  | (Err e, s') => s' = demo_store /\ errors_Is e ErrConflict = true
  end.
Proof.
  generalize (insert_transfer_roundtrip demo_store demo_transfer demo_events [demo_audit] 0
    demo_store_ok).
  destruct (MemoryStore_InsertTransfer demo_transfer demo_events [demo_audit] demo_store)
    as [[[]|e] s'] eqn:E.
  - intros (H & _). revert H. vm_compute. discriminate.
  - intros (H1 & H2 & _). by split.
Defined.

Definition claimed_demo : MemoryStore := Eval vm_compute in
  claimed_store (demo_start + Second) 10 "outbox_1" (demo_start + Minute) demo_store.

Lemma outbox_claim_exclusive_witness :
  exists s', MemoryStore_ClaimPendingOutbox (mkObs None demo_start) demo_start 10 "outbox_1"
    (demo_start + Minute) demo_store =
    (Ok (map (claim_record "outbox_1" (demo_start + Minute)) (picked demo_start 10 demo_store)), s').
Proof.
  destruct (outbox_claim_exclusive demo_store demo_start demo_start 10 "outbox_1"
    (demo_start + Minute)) as (s' & H & _).
  - exact (store_ok_indexed _ demo_store_ok).
  - exact demo_small.
  - discriminate.
  - unfold Minute, Second. lia.
  - exists s'. exact H.
Defined.

Lemma outbox_mark_by_holder_witness :
  exists r, ms_events demo_store !! 0%nat = Some r /\
    MemoryStore_MarkOutboxPublished (mkObs None 0) 1 "outbox_1" 0 demo_store =
    (Err (Errorf ErrConflict "outbox record is not claimed by this worker"), demo_store).
Proof.
  eexists. split; [reflexivity|].
  exact (proj1 (outbox_mark_by_holder demo_store 0 "outbox_1" 0 _ demo_store_ok demo_small
    eq_refl) 0).
Defined.

Lemma claimed_demo_ok : store_ok claimed_demo.
Proof.
  replace claimed_demo with (claimed_store (demo_start + Second) 10 "outbox_1" (demo_start + Minute) demo_store)
    by (vm_compute; reflexivity).
  apply events_update_ok; [exact demo_store_ok|apply scan_claim_le].
Qed.

Definition published_demo : MemoryStore := Eval vm_compute in
  snd (MemoryStore_MarkOutboxPublished (mkObs None 0) 1 "outbox_1" 0 claimed_demo).

Lemma published_never_reclaimed_witness :
  Forall (fun r => o_Sequence r <> 1) (picked (demo_start + 2 * Minute) 10 published_demo).
Proof.
  apply Forall_forall. apply (published_never_reclaimed claimed_demo published_demo published_demo (mkObs None 0) 1
    "outbox_1" 0).
  - exact claimed_demo_ok.
  - vm_compute. reflexivity.
  - apply rtc_refl.
  - vm_compute. discriminate.
Defined.

Lemma spi_queue_spec_witness :
  exists ts, MemoryStore_PendingSPISubmissions (mkObs None demo_start) demo_order 10 demo_store
    = Ok ts /\ StronglySorted created_le ts.
Proof.
  destruct (spi_queue_spec demo_store demo_start demo_order 10) as (ts & H1 & H2 & _).
  - exact demo_store_ok.
  - intros l. reflexivity.
  - exists ts. split; assumption.
Defined.

(** ** The aggregate *)

Definition claimed_transfer : Transfer := Eval vm_compute in
  match Transfer_ClaimSPISubmission demo_transfer "tok" 20 10 with Ok t => t | Err _ => demo_transfer end.

Lemma claimed_transfer_eq :
  Transfer_ClaimSPISubmission demo_transfer "tok" 20 10 = Ok claimed_transfer.
Proof. vm_compute. reflexivity. Qed.

Lemma transfer_lifecycle_witness :
  transfer_ok claimed_transfer /\ transfer_identity claimed_transfer = transfer_identity demo_transfer.
Proof.
  destruct (transfer_lifecycle demo_transfer claimed_transfer) as (H1 & H2 & _).
  - exact (proj1 demo_transfer_new).
  - apply rtc_once. apply (ts_claim _ "tok" 20 10). exact claimed_transfer_eq.
  - split; assumption.
Defined.

Definition settled_transfer : Transfer := Eval vm_compute in r_Transfer result5.

Lemma terminal_is_final_witness : ~ transfer_step settled_transfer demo_transfer.
Proof.
  apply terminal_is_final; [|reflexivity]. split.
  - right. right. left. reflexivity.
  - intros [H|[H|H]]; discriminate.
  - intros _. split; discriminate.
  - intros H. exfalso. apply H. reflexivity.
Defined.

Lemma claim_excludes_witness :
  exists e, Transfer_RecordSPISubmission claimed_transfer "other" (mkSPIMessage "m" "e" "t" 0) = Err e.
Proof.
  destruct (claim_excludes demo_transfer "tok" 20 10 claimed_transfer) as (_ & H & _).
  - exact claimed_transfer_eq.
  - destruct (H "other" (mkSPIMessage "m" "e" "t" 0)) as (e & He & _); [discriminate|].
    exists e. exact He.
Defined.

Lemma expired_claim_is_fenced_witness :
  exists t2, Transfer_ClaimSPISubmission claimed_transfer "tok2" 40 30 = Ok t2.
Proof.
  destruct (expired_claim_is_fenced demo_transfer "tok" 20 10 claimed_transfer "tok2" 40 30)
    as (t2 & H & _).
  - exact claimed_transfer_eq.
  - discriminate.
  - discriminate.
  - lia.
  - exists t2. exact H.
Defined.

Lemma Fingerprint_sound_witness :
  request_content (demo_request "key-1" 1500) = request_content (demo_request "key-2" 1500) \/
  hash_collision (bytes_of_string (Join nul (request_parts (demo_request "key-1" 1500))))
    (bytes_of_string (Join nul (request_parts (demo_request "key-2" 1500)))).
Proof.
  apply (Fingerprint_sound (demo_request "key-1" 1500) (demo_request "key-2" 1500)).
  - reflexivity.
  - reflexivity.
  - repeat (apply Forall_cons_2; [reflexivity|]). apply Forall_nil_2.
  - repeat (apply Forall_cons_2; [reflexivity|]). apply Forall_nil_2.
  - vm_compute. reflexivity.
Defined.

Lemma Submit_deterministic_witness :
  exists m, Simulator_Submit (mkObs None 1) demo_transfer = Ok m /\
    Simulator_Submit (mkObs None 2) claimed_transfer = Ok m.
Proof.
  destruct (Submit_deterministic (mkObs None 1) (mkObs None 2) demo_transfer claimed_transfer)
    as (m & H1 & H2 & _).
  - reflexivity.
  - discriminate.
  - exists m. split; assumption.
Defined.

(** ** Fraud, rate limits, relay *)

Definition demo_dict (risk : Z) : DictEntry := mkDictEntry "k" KeyEmail "r" "n" "b" "h" risk 0.

Lemma Score_accounts_for_rules_witness :
  exists dec, RulesEngine_Score (demo_request "k" 600000) (demo_dict 92) = Ok dec /\
    f_Score dec = 92 + sum_Z (rule_points <$> f_Rules dec).
Proof.
  destruct (Score_accounts_for_rules (demo_request "k" 600000) (demo_dict 92)) as (d & H1 & H2 & _).
  - unfold risk_in_range. cbn. lia.
  - exists d. split; assumption.
Defined.

Lemma Score_monotone_in_amount_witness :
  exists dec dec', RulesEngine_Score (demo_request "k" 100) (demo_dict 30) = Ok dec /\
    RulesEngine_Score (demo_request "k" 1500000) (demo_dict 30) = Ok dec' /\
    f_Score dec <= f_Score dec'.
Proof.
  eexists _, _. split; [vm_compute; reflexivity|]. split; [vm_compute; reflexivity|].
  refine (proj1 (Score_monotone_in_amount (demo_request "k" 100) (demo_request "k" 1500000)
    (demo_dict 30) _ _ _ _ _ _ _)).
  - unfold risk_in_range. cbn. lia.
  - reflexivity.
  - cbn. lia.
  - vm_compute. reflexivity.
  - vm_compute. reflexivity.
Defined.

Definition demo_calls : list (Time * string) := [(1, "a"); (2, "a"); (3, "b"); (4, "a")].

Lemma demo_calls_in : Forall (fun c => 1 <= fst c <= 4) demo_calls.
Proof. repeat (apply Forall_cons_2; [cbn; lia|]). apply Forall_nil_2. Qed.

(** Three grants within one second of a bucket refilled by two a minute: the
    window reaches into two periods. *)
Lemma token_bucket_rate_bound_witness :
  granted "a" [(59, "a"); (60, "a"); (60, "a")]
    (after [(0, "a")] (ratelimit_New (mkBucketConfig 2 2 60))) <= 2 + 2 * 1 /\
  granted "a" [(59, "a"); (60, "a"); (60, "a")]
    (after [(0, "a")] (ratelimit_New (mkBucketConfig 2 2 60))) = 3.
Proof.
  split; [|reflexivity].
  apply (token_bucket_rate_bound (mkBucketConfig 2 2 60) "a" [(0, "a")]
    [(59, "a"); (60, "a"); (60, "a")] 0 59 60).
  - vm_compute. repeat split; discriminate.
  - lia.
  - vm_compute. discriminate.
  - repeat (apply Forall_cons_2; [cbn; lia|]). apply Forall_nil_2.
  - repeat (apply Forall_cons_2; [cbn; lia|]). apply Forall_nil_2.
Defined.

Lemma token_bucket_no_starvation_witness :
  fst (Limiter_Allow 20 "a" (mkLimiter (mkBucketConfig 2 1 10) {["a" := mkBucket 0 5]})) = true.
Proof.
  apply token_bucket_no_starvation.
  - vm_compute. repeat split; discriminate.
  - intros b H. vm_compute in H. injection H as <-. vm_compute. repeat split; discriminate.
Defined.

Lemma fixed_window_rate_bound_witness :
  granted "a" demo_calls (NewFixedWindow (mkFixedWindowConfig 2 10)) <= 2 * ((4 - 1) / 10 + 1).
Proof.
  apply (fixed_window_rate_bound (mkFixedWindowConfig 2 10) "a" demo_calls 1 4).
  - vm_compute. repeat split; discriminate.
  - lia.
  - exact demo_calls_in.
Defined.

Lemma leaky_bucket_rate_bound_witness :
  granted "a" demo_calls (NewLeakyBucket (mkLeakyBucketConfig 2 10)) <= 2 + (4 - 1) / 10.
Proof.
  apply (leaky_bucket_rate_bound (mkLeakyBucketConfig 2 10) "a" demo_calls 1 4).
  - vm_compute. repeat split; discriminate.
  - lia.
  - exact demo_calls_in.
Defined.

Lemma sliding_window_exact_witness :
  window_count 10 4 (grants "a" demo_calls (NewSlidingWindow (mkSlidingWindowConfig 2 10))) <= 2.
Proof.
  apply (sliding_window_exact (mkSlidingWindowConfig 2 10) "a" demo_calls 4).
  repeat (apply SSorted_cons; [|repeat (apply Forall_cons_2; [cbn; lia|]); apply Forall_nil_2]).
  apply SSorted_nil.
Defined.

Definition demo_policy : RetryPolicy := NewRelay (mkRetryPolicy Second Minute 0).

Lemma backoff_capped_exponential_witness :
  Relay_backoff demo_policy 3 = 4 * Second /\ Relay_backoff demo_policy 3 <= Relay_backoff demo_policy 9.
Proof.
  destruct (backoff_capped_exponential demo_policy 3 9) as (E & _ & H).
  - vm_compute. repeat split; discriminate.
  - lia.
  - rewrite E. split; [vm_compute; reflexivity|]. rewrite <- E. exact H.
Defined.

Definition demo_pub (k : nat) (e : Event) : option error :=
  if e_EventType e ==s "dict_key_resolved" then Some (sentinel DeadlineExceeded) else None.

Lemma drain_publishes_or_retries_witness :
  wp (Relay_Drain demo_env demo_policy demo_pub 10) (mkWorld demo_store [] 0)
    (drain_post demo_env demo_policy demo_pub 10 (mkWorld demo_store [] 0)).
Proof.
  apply drain_publishes_or_retries.
  - split; [reflexivity|reflexivity|]. intros k. cbn -[Z.of_nat].
    change (rp_ClaimTTL demo_policy) with 30000000000. unfold Second, Millisecond. lia.
  - exact demo_store_ok.
  - exact demo_small.
Defined.

Example drain_stats :
  fst (Relay_Drain demo_env demo_policy demo_pub 10 (mkWorld demo_store [] 1000))
  = Ok (mkRelayStats 5 4 1, None).
Proof. vm_compute. reflexivity. Qed.
