(* ===== verification/SampleWitness.v ===== *)
(** * The codecs and the configuration on sample data

    The theorems about the codecs applied to the samples of [internal/codec], and
    those about the configuration to a production environment. *)

From S2P Require Import Prelude GoStrings GoStrconv Wire PaymentEvent MsgPack ProtoWire Cbor ProfileCache Config JsonDecode JsonText JsonCodec Codecs.

Lemma sample_typed : event_typed SamplePixTransferBlocked.
Proof. by apply (bool_decide_unpack _). Qed.

(** The bytes of the sample, and an input that is no message. *)
Definition sample_msgpack : list byte := Eval vm_compute in
  match MsgPackCodec_Marshal SamplePixTransferBlocked with Ret raw => raw | _ => [] end.
Definition sample_cbor : list byte := Eval vm_compute in
  match CBORCodec_Marshal SamplePixTransferBlocked with Ret raw => raw | _ => [] end.
Definition sample_proto : list byte := Eval vm_compute in
  match ProtoWireCodec_Marshal SamplePixTransferApproved with Ret raw => raw | _ => [] end.

Lemma sample_portable : portable SamplePixTransferBlocked.
Proof.
  split; [exact sample_typed|split| |]; try (refine (bool_decide_unpack _ _); by vm_compute).
Qed.

Lemma codecs_interoperate_witness :
  hand_over (AllCodecs (fun _ => "") ++ AllCodecs (fun _ => "")) SamplePixTransferBlocked =
  Ret SamplePixTransferBlocked.
Proof.
  apply (codecs_interoperate (fun _ => "") SamplePixTransferBlocked); [exact sample_portable|].
  intros c Hc. apply elem_of_app in Hc. tauto.
Defined.

Lemma msgpack_exact_witness :
  obind (MsgPackCodec_Marshal SamplePixTransferBlocked) MsgPackCodec_Unmarshal
    = Ret SamplePixTransferBlocked /\
  MsgPackCodec_Unmarshal sample_msgpack <> Panics "".
Proof.
  destruct (msgpack_exact SamplePixTransferBlocked sample_msgpack sample_typed)
    as (Hrt & Hp & _); [by vm_compute|]. split; [|apply Hp].
  apply Hrt. split; [|by vm_compute].
  refine (bool_decide_unpack _ _). by vm_compute.
Defined.

Lemma proto_roundtrip_witness :
  event_typed SamplePixTransferBlocked /\
  obind (ProtoWireCodec_Marshal SamplePixTransferBlocked) ProtoWireCodec_Unmarshal
    = Ret SamplePixTransferBlocked.
Proof.
  split; [exact sample_typed|].
  destruct (proto_roundtrip SamplePixTransferBlocked []) as [H _].
  apply (H sample_typed). apply (bool_decide_unpack _). by vm_compute.
Defined.

(** A field 16 of a later version, before the message it extends is read on. *)
Lemma proto_skips_unknown_witness :
  ProtoWireCodec_Unmarshal (sample_proto ++ appendProtoString [] 16 "v2" ++ sample_proto) =
  ProtoWireCodec_Unmarshal (sample_proto ++ sample_proto).
Proof.
  destruct (proto_skips_unknown sample_proto sample_proto SamplePixTransferApproved 16 "v2" 7)
    as (H & _ & _).
  - by vm_compute.
  - by vm_compute.
  - by vm_compute.
  - by vm_compute.
  - by apply H.
Defined.

Lemma cbor_exact_witness :
  obind (CBORCodec_Marshal SamplePixTransferBlocked) CBORCodec_Unmarshal
    = Ret SamplePixTransferBlocked.
Proof.
  destruct (cbor_exact SamplePixTransferBlocked sample_cbor sample_typed) as [H _].
  - by vm_compute.
  - by vm_compute.
  - exact H.
Defined.

Lemma profile_codecs_roundtrip_witness :
  obind (ParticipantProfileCBORCodec_Marshal SampleParticipantProfileCache)
    ParticipantProfileCBORCodec_Unmarshal = Ret SampleParticipantProfileCache.
Proof.
  destruct (profile_codecs_roundtrip SampleParticipantProfileCache []) as [H _].
  - split; refine (bool_decide_unpack _ _); by vm_compute.
  - by vm_compute.
  - destruct H as [H _]; [by split; vm_compute|exact H].
Defined.

Lemma json_exact_witness :
  obind (JSONCodec_Marshal SamplePixTransferBlocked) (JSONCodec_Unmarshal (fun _ => ""))
    = Ret SamplePixTransferBlocked.
Proof.
  destruct (json_exact (fun _ => "") SamplePixTransferBlocked) as (_ & H & _).
  - split_and!; apply (bool_decide_unpack _); by vm_compute.
  - apply H. apply (bool_decide_unpack _). by vm_compute.
Defined.

(** JSON text written with single quotes. *)
Definition json_bytes (s : string) : list byte :=
  bytes_of_string (string_of_list_ascii
    (map (fun c => if Ascii.eqb c "'" then chr 34 else c) (list_ascii_of_string s))).

(** Members repeated, in another case, unknown and null. *)
Definition odd_event : list byte := json_bytes
  "{'EVENT_ID':'a', 'event_id':'b', 'other':[{}], 'amount_cents':5, 'Amount_Cents':null,
    'fraud_rules':['x','y'], 'fraud_rules':[null]} ".

Lemma json_decoding_exact_witness :
  JSONCodec_Unmarshal (fun _ => "bad") odd_event =
    Ret (empty_event <| pe_EventID := "b" |> <| pe_AmountCents := 5 |> <| pe_FraudRules := ["x"] |>) /\
  JSONCodec_Unmarshal (fun _ => "bad") (json_bytes "{'event_id':1}") = Fails (mkError None "bad").
Proof.
  split.
  - rewrite (json_decoding_exact (fun _ => "bad") odd_event 1000);
      [vm_compute; reflexivity|apply (bool_decide_unpack _); by vm_compute].
  - rewrite (json_decoding_exact (fun _ => "bad") (json_bytes "{'event_id':1}") 1000);
      [vm_compute; reflexivity|apply (bool_decide_unpack _); by vm_compute].
Defined.

(** ** Configuration *)

(** The environment of a production process. *)
Definition production_env (name : string) : string :=
  if name ==s "PIXRAIL_ENV" then "production"
  else if name ==s "PIXRAIL_API_KEYS" then "bank_a:s3cret,bank_a:w0rk:worker|risk"
  else if name ==s "PIXRAIL_PROVIDER_CALLBACK_SECRET" then " hush "
  else if name ==s "PIXRAIL_STORE_DRIVER" then "postgres"
  else if name ==s "PIXRAIL_DATABASE_URL" then "postgres://db"
  else if name ==s "PIXRAIL_DICT_TIMEOUT" then "250ms"
  else "".

Lemma load_sound_witness :
  match Load id production_env with
  | Ok c => config_ok c /\ cf_ProviderCallbackSecret c = "hush" /\
      cf_DictTimeout c = 250 * Millisecond
  | Err _ => False
  end.
Proof.
  destruct (Load id production_env) as [c|e] eqn:E; [|vm_compute in E; discriminate E].
  destruct (load_sound id production_env c E) as (Hok & Henv & Hprod).
  split; [exact Hok|]. split.
  - destruct Hprod as (_ & _ & _ & ->); [by rewrite Henv; vm_compute|by vm_compute].
  - assert (Ed : match Load id production_env with
      | Ok c => cf_DictTimeout c = 250 * Millisecond | Err _ => False end) by (by vm_compute).
    rewrite E in Ed. exact Ed.
Defined.

Definition sample_entries : list (string * string * list string) :=
  [("bank_a", "s3cret", ["tenant"]); ("bank_b", "w0rk", ["worker"; "risk"])].

Lemma api_keys_roundtrip_witness :
  render_keys sample_entries = "bank_a:s3cret:tenant,bank_b:w0rk:worker|risk" /\
  parseAPIKeys id (render_keys sample_entries) = Ok (list_to_map (map entry_key sample_entries)).
Proof.
  split; [by vm_compute|].
  apply (api_keys_roundtrip id sample_entries "" ∅).
  - repeat constructor; try done; cbn; by repeat constructor.
  - refine (bool_decide_unpack _ _). by vm_compute.
  - by vm_compute.
Defined.
