(* ===== verification/ApiWitness.v ===== *)
(** * HTTP requests to a running system

    The API over the system of [Witness], on concrete requests: a creation and its
    repetition, a signed settlement callback, refusals. The lemmas named
    [..._witness] apply the theorems of [ApiProps] to them. *)

From S2P Require Import Prelude GoStrings GoStrconv Sha256 Rail Events RateLimit StoreSpec.
From S2P Require Import MemStore MemStoreProps MemStoreLaws Effects Switcher SwitcherProps.
From S2P Require Import JsonDecode Config Metrics Api ApiProps Witness.

#[local] Existing Instances demo_Store demo_Laws.

Abbreviation DemoHTTP := (World MemoryStore (Limits Limiter Limiter * Metrics)).

Definition http_world (w : DemoWorld) : DemoHTTP :=
  mkWorld (w_store w) (w_rest w, NewMetrics demo_start) (w_tick w).

Definition demo_keys : gmap string APIKey := list_to_map [
  ("tenant-secret", mkAPIKey "tenant_1" "tenant-secret" (roleSet [RoleTenant]));
  ("provider-secret", mkAPIKey "tenant_1" "provider-secret" (roleSet [RoleProvider]))].

Definition demo_security : SecurityConfig :=
  server_security (Some (mkSecurityConfig "callback-secret" 0)).

Definition demo_rt : RuntimeStats := mkRuntimeStats 0 0 0 0 0.

Definition header (h : list (string * string)) (name : string) : string :=
  default "" (snd <$> List.find (fun '(n, _) => n ==s name) h).

(** JSON with ['] for the double quote. *)
Definition body (s : string) : option (list byte) :=
  Some (map (fun b => if Byte.eqb b x27 then x22 else b) (bytes_of_string s)).

Definition post_transfer (secret key : string) : Request :=
  mkRequest "POST" "/v1/pix/transfers" ["v1"; "pix"; "transfers"]
    (header [("Authorization", "Bearer " +:+ secret); ("Idempotency-Key", key)])
    (body ("{'account_id': 'acc_1', 'amount_cents': 1500, 'receiver_key': 'bob@example.com', " +:+
           "'receiver_key_type': 'EMAIL', 'description': 'rent'}")).

Definition http1 := Eval vm_compute in
  Server_ServeHTTP demo_env demo_sv demo_keys demo_security demo_rt
    (post_transfer "tenant-secret" "key-1") (http_world demo_world).
Definition no_response : Response := mux_error 0.
Definition response1 : Response := Eval vm_compute in ok_or no_response (fst http1).
Definition hworld1 : DemoHTTP := Eval vm_compute in snd http1.
Example status1 : rs_Status response1 = StatusCreated. Proof. reflexivity. Qed.

(** The same request again, and with a key that lacks the role. *)
Definition http2 := Eval vm_compute in
  Server_ServeHTTP demo_env demo_sv demo_keys demo_security demo_rt
    (post_transfer "tenant-secret" "key-1") hworld1.
Definition response2 : Response := Eval vm_compute in ok_or no_response (fst http2).

Example refused_statuses :
  map (fun secret => rs_Status (ok_or no_response (fst (Server_ServeHTTP demo_env demo_sv demo_keys
    demo_security demo_rt (post_transfer secret "key-2") hworld1))))
    ["provider-secret"; "other"] = [StatusForbidden; StatusUnauthorized].
Proof. vm_compute. reflexivity. Qed.

(** A settlement callback for the approved transfer of [Witness], signed with [secret]. *)
Definition callback_body : option (list byte) := Eval vm_compute in
  body ("{'spi_message_id': '" +:+ t_SPIMessageID (r_Transfer result3) +:+
        "', 'status': 'accepted', 'code': '00'}").

Definition post_callback (secret : string) : Request :=
  mkRequest "POST" ("/v1/pix/transfers/" +:+ id1 +:+ "/spi-callbacks")
    ["v1"; "pix"; "transfers"; id1; "spi-callbacks"]
    (header [("X-API-Key", "provider-secret"); ("X-PixRail-Timestamp", "1700000000");
             ("X-PixRail-Signature",
              providerCallbackSignature secret "1700000000" (default [] callback_body))])
    callback_body.

Definition hworld3 : DemoHTTP := Eval vm_compute in http_world world3.
Definition http4 := Eval vm_compute in
  Server_ServeHTTP demo_env demo_sv demo_keys demo_security demo_rt
    (post_callback "callback-secret") hworld3.
Definition hworld4 : DemoHTTP := Eval vm_compute in snd http4.

Example callback_statuses :
  (rs_Status (ok_or no_response (fst http4)),
   map t_Status (map snd (map_to_list (ms_transfers (w_store hworld4)))),
   rs_Status (ok_or no_response (fst (Server_ServeHTTP demo_env demo_sv demo_keys demo_security
     demo_rt (post_callback "guess") hworld3)))) =
  (StatusOK, [StatusSettled], StatusUnauthorized).
Proof. vm_compute. reflexivity. Qed.

(** ** The theorems on these requests *)

Lemma http1_ok : Server_ServeHTTP demo_env demo_sv demo_keys demo_security demo_rt
  (post_transfer "tenant-secret" "key-1") (http_world demo_world) = (Ok response1, hworld1).
Proof. vm_compute. reflexivity. Qed.
Lemma http2_ok : Server_ServeHTTP demo_env demo_sv demo_keys demo_security demo_rt
  (post_transfer "tenant-secret" "key-1") hworld1 = (Ok response2, snd http2).
Proof. vm_compute. reflexivity. Qed.

Lemma hworld1_ok : store_ok (w_store hworld1).
Proof.
  destruct (wp_run _ _ _ _ _ http1_ok (serve_http_served demo_env demo_sv demo_keys demo_security
    demo_rt _ (http_world demo_world) demo_rely demo_world_ok)) as (resp & _ & Hs).
  exact (proj1 (served_preserves _ _ _ _ _ (http_world demo_world) _ _ demo_rely demo_world_ok Hs)).
Qed.

Lemma demo_keys_wf : keys_ok demo_keys.
Proof.
  intros s k Hk. apply elem_of_list_to_map_2 in Hk.
  repeat (apply elem_of_cons in Hk as [[= -> ->]|Hk];
    [split; [done..|by apply roleSet_nonempty|apply roleSet_ok; by repeat constructor]|]).
  by apply elem_of_nil in Hk.
Qed.

Lemma serve_http_correct_witness :
  exists resp, Ok response1 = Ok resp /\
    served demo_env demo_sv demo_keys demo_security (post_transfer "tenant-secret" "key-1")
      (http_world demo_world) resp hworld1.
Proof.
  apply (serve_http_correct demo_env demo_sv demo_keys demo_security demo_rt).
  - exact demo_rely.
  - exact demo_world_ok.
  - exact http1_ok.
Defined.

Lemma alone_untouched s s' : untouched demo_env s s' -> s' = s.
Proof. induction 1 as [|s s1 s2 [k ->] _ IH]; [done|exact IH]. Qed.

Lemma store_change_authorized_witness :
  exists key route, demo_keys !! "provider-secret" = Some key /\
    mux_match (post_callback "callback-secret") = inl route /\
    writer demo_env demo_security key (post_callback "callback-secret") route.
Proof.
  apply (store_change_authorized demo_env demo_sv demo_keys demo_security demo_rt
    (post_callback "callback-secret") hworld3 (fst http4) hworld4).
  - exact demo_rely.
  - exact world3_ok.
  - vm_compute. split; reflexivity.
  - vm_compute. reflexivity.
  - intros Hu. apply alone_untouched in Hu.
    apply (f_equal (fun s => length (ms_events s))) in Hu. by vm_compute in Hu.
Defined.

Lemma http_keeps_contract_witness :
  preserves (w_store hworld3) (w_store (serve_all demo_env demo_sv demo_keys demo_security
    [(demo_rt, post_callback "guess"); (demo_rt, post_callback "callback-secret")] hworld3)).
Proof.
  apply (http_keeps_contract demo_env demo_sv); [exact demo_rely|exact world3_ok].
Defined.

Lemma http_tenant_confined_witness :
  exists resp, Ok response1 = Ok resp /\ shows_tenant "tenant_1" (rs_Body resp).
Proof.
  apply (http_tenant_confined demo_env demo_sv demo_keys demo_security demo_rt
    (post_transfer "tenant-secret" "key-1") (http_world demo_world) (Ok response1) hworld1
    RCreateTransfer RoleTenant (mkAPIKey "tenant_1" "tenant-secret" (roleSet [RoleTenant]))).
  - split; [exact demo_rely|]. intros k s _ Hp. exact Hp.
  - exact demo_world_ok.
  - intros tn id t Ho. discriminate Ho.
  - exact demo_keys_wf.
  - reflexivity.
  - reflexivity.
  - vm_compute. reflexivity.
  - vm_compute. reflexivity.
  - exact http1_ok.
Defined.

Lemma http_create_once_witness :
  exists t1 t2, rs_Body response1 = JSONBody (transferResponse t1 false) /\
    rs_Status response2 = StatusOK /\ rs_Body response2 = JSONBody (transferResponse t2 true) /\
    t_ID t2 = t_ID t1 /\ rtc stored_step (st_read t1) t2.
Proof.
  apply (http_create_once demo_env demo_sv demo_keys demo_security demo_rt demo_rt
    (post_transfer "tenant-secret" "key-1") (post_transfer "tenant-secret" "key-1")
    (http_world demo_world) hworld1 hworld1 (snd http2) response1 response2
    (mkAPIKey "tenant_1" "tenant-secret" (roleSet [RoleTenant]))
    (mkAPIKey "tenant_1" "tenant-secret" (roleSet [RoleTenant]))).
  - exact demo_rely.
  - exact demo_world_ok.
  - reflexivity.
  - reflexivity.
  - vm_compute. reflexivity.
  - vm_compute. reflexivity.
  - reflexivity.
  - reflexivity.
  - exact http1_ok.
  - reflexivity.
  - apply preserves_refl. exact hworld1_ok.
  - exact http2_ok.
  - left. reflexivity.
Defined.
