(* ===== verification/PostgresWitness.v ===== *)
(** * The switch over PostgreSQL

    A server that keeps times to the microsecond and refuses nothing, the switch run
    over its tables from a creation to the settlement, a migration of its schema, the
    worker, and the theorems applied to them. *)

From S2P Require Import Prelude GoStrings GoStrconv Sha256 Rail Events Fraud Dict Spi RateLimit StoreSpec MemStore.
From S2P Require Import Effects Switcher SwitcherProps Relay Config Postgres PostgresProps PostgresLaws PostgresCommits.
From S2P Require Import PostgresOutbox Migrations App Metrics Api ApiProps Evidence EvidenceStores System Witness SampleWitness ApiWitness.

(** ** The server *)

Definition demo_db : Database := {|
  db_refuses _ _ := None;
  db_now o := obs_now o;
  db_nextval o n := obs_now o - demo_start + Z.of_nat n;
  db_locked _ _ := false;
  db_rows _ rows := rows;
  db_returning _ records := records;
  db_timestamptz t := t - t mod 1000;
  db_jsonb text := Some text;
  db_text Code name := Code +:+ ": " +:+ name
|}.

Definition demo_json_error (text : string) : string := "invalid character".

Lemma demo_db_laws : DatabaseLaws demo_db.
Proof.
  split; cbn; try done.
  - intros t. pose proof (Z.div_mod t 1000 ltac:(lia)) as E.
    replace (t - t mod 1000) with (t / 1000 * 1000) by lia. by rewrite Z.mod_mul, Z.sub_0_r by lia.
  - intros t. pose proof (Z.mod_pos_bound t 1000 eq_refl). lia.
  - intros rules text [= <-]. done.
Qed.
#[local] Existing Instance demo_db_laws.
#[local] Instance pg_Store : Store PgStore := Postgres_Store demo_db demo_json_error.
#[local] Instance pg_View : StoreView PgStore := Postgres_View demo_db.
#[local] Instance pg_Laws : StoreLaws PgStore := Postgres_Laws demo_db demo_json_error.

Lemma postgres_store_refines_contract_witness :
  DatabaseLaws demo_db /\ @StoreLaws PgStore (Postgres_Store demo_db demo_json_error) (Postgres_View demo_db).
Proof.
  split; [exact demo_db_laws|].
  exact (@postgres_store_refines_contract demo_db demo_db_laws demo_json_error).
Defined.

(** ** The run *)

Definition pg_env : Env PgStore :=
  mkEnv (env_ctx demo_env) (env_now demo_env) (env_rand demo_env) (fun _ s => s).

Definition pg_world : World PgStore (Limits Limiter Limiter) :=
  mkWorld empty_tables (mkLimits None None) 0.

Definition pg_run1 := Eval vm_compute in
  Service_CreateTransfer pg_env demo_sv (demo_request "key-1" 1500) pg_world.
Definition pg_world1 := Eval vm_compute in snd pg_run1.
Definition pg_id1 : string := Eval vm_compute in t_ID (r_Transfer (ok_or no_result (fst pg_run1))).
Definition pg_run3 := Eval vm_compute in
  Service_SubmitToSPI pg_env demo_sv "tenant_1" pg_id1 "" pg_world1.
Definition pg_result3 := Eval vm_compute in ok_or no_result (fst pg_run3).
Definition pg_callback : SettlementCallback := Eval vm_compute in
  mkSettlementCallback "tenant_1" pg_id1 (t_SPIMessageID (r_Transfer pg_result3)) SettlementRejected
    "91" "" "" 0.
Definition pg_run5 := Eval vm_compute in
  Service_RecordSettlement pg_env pg_callback (snd pg_run3).

Example pg_run_outcome :
  (t_Status (r_Transfer (ok_or no_result (fst pg_run1))), t_Status (r_Transfer pg_result3),
   t_Status (r_Transfer (ok_or no_result (fst pg_run5))),
   map (fun r => e_EventType (o_Event r)) (pg_outbox (w_store (snd pg_run5))),
   length (pg_audit (w_store (snd pg_run5))), length (pg_callbacks (w_store (snd pg_run5)))) =
  (StatusAccepted, StatusApproved, StatusRejected,
   ["pix_transfer_requested"; "dict_key_resolved"; "fraud_score_calculated";
    "pix_transfer_accepted"; "spi_submission_requested"; "spi_message_created";
    "pix_transfer_approved"; "pix_transfer_rejected"], 3%nat, 1%nat).
Proof. vm_compute. reflexivity. Qed.

Definition pg_tables : PgStore := w_store pg_world1.

Lemma pg_tables_ok : pg_ok demo_db pg_tables.
Proof.
  assert (E : Service_CreateTransfer pg_env demo_sv (demo_request "key-1" 1500) pg_world =
    (fst pg_run1, pg_world1)) by (vm_compute; reflexivity).
  assert (Hr : rely pg_env) by (intros k s Hs; by apply preserves_refl).
  assert (Hs : st_inv (w_store pg_world)) by exact (empty_tables_ok demo_db).
  pose proof (wp_run _ _ _ _ _ E (create_transfer_post pg_env demo_sv _ pg_world Hr Hs)) as H.
  exact (proj1 (create_post_preserves _ _ _ _ _ _ Hr Hs H)).
Qed.

(** ** A transaction that commits *)

Lemma demo_storable o : storable demo_db o (t_ID demo_transfer) demo_events [demo_audit] empty_tables.
Proof.
  split.
  - split; repeat (constructor; [reflexivity|]); constructor.
  - repeat (constructor; [eexists; reflexivity|]). constructor.
  - repeat (constructor; [eexists; reflexivity|]). constructor.
  - split; [apply (bool_decide_unpack _); vm_compute; reflexivity|]. intros e r _ Hr.
    by apply elem_of_nil in Hr.
  - intros i j Hij. cbn [db_nextval demo_db]. lia.
  - intros i r _ Hr. by apply elem_of_nil in Hr.
Qed.

Lemma demo_insertable : insertable demo_db demo_transfer empty_tables.
Proof. split; [vm_compute; by split|by eexists|vm_compute; reflexivity..]. Qed.

Lemma postgres_commits_witness :
  exists s', Postgres_InsertTransfer demo_db (mkObs None demo_start) demo_transfer demo_events
    [demo_audit] empty_tables = (Ok tt, s').
Proof.
  destruct (postgres_commits demo_db demo_json_error (mkObs None demo_start) (fun _ => eq_refl)
    "tenant_1" "id" demo_events demo_audit empty_tables (empty_tables_ok demo_db)) as [H _].
  destruct (H _ _ demo_insertable (demo_storable _)) as (s' & E & _). exists s'. exact E.
Defined.

(** ** The outbox *)

Definition pg_now : Time := demo_start + Second.
Definition pg_obs : Obs := mkObs None pg_now.


Definition pg_claimed := Eval vm_compute in
  snd (Postgres_ClaimPendingOutbox demo_db pg_now pg_obs 2 "w1" (pg_now + Minute) pg_tables).

Example pg_claims :
  (map o_Sequence (next_records demo_db pg_obs 2 pg_tables),
   map o_ClaimToken (pg_outbox pg_claimed)) =
  (map o_Sequence (take 2 (pg_outbox pg_tables)), ["w1"; "w1"; ""; ""; ""]).
Proof. vm_compute. reflexivity. Qed.

Definition pg_record : OutboxRecord := Eval vm_compute in
  default (claim_record "" 0 (new_outbox_record 0 (mkEvent "" "" "" 0 "" "" "" "" "" "")))
    (head (pg_outbox pg_claimed)).

Lemma pg_claimed_ok : pg_ok demo_db pg_claimed.
Proof.
  destruct (outbox_update_ok demo_db pg_tables _ pg_tables_ok
    (claim_pass_keeps demo_db pg_obs 2 "w1" (pg_now + Minute) pg_tables)) as [H _]. exact H.
Qed.

Lemma postgres_mark_by_claim_witness :
  o_ClaimToken pg_record = "w1" /\
  fst (Postgres_MarkOutboxPublished demo_db pg_obs (o_Sequence pg_record) "w1" pg_now pg_claimed) = Ok tt /\
  Postgres_MarkOutboxFailed demo_db pg_obs (o_Sequence pg_record) "w2" "down" pg_now pg_claimed
    = (Err not_claimed, pg_claimed).
Proof.
  destruct (postgres_mark_by_claim demo_db pg_obs pg_claimed pg_record pg_claimed_ok) as (Hp & _ & Hn).
  - apply list_elem_of_here.
  - reflexivity.
  - split; [reflexivity|]. split.
    + destruct (Hp pg_now) as [E _]. exact (f_equal fst E).
    + apply (Hn (o_Sequence pg_record) "w2" pg_now "down" pg_now). left. split; [reflexivity|discriminate].
Defined.

(** ** Migrations *)

Definition demo_dir : list DirEntry :=
  [mkDirEntry "0002_lease.sql" false; mkDirEntry "README.md" false; mkDirEntry "0001_core.sql" false].
Definition demo_read_dir (dir : string) : result (list DirEntry) := Ok demo_dir.
Definition demo_read_file (dir name : string) : result (list byte) :=
  Ok (bytes_of_string ("-- " +:+ name)).

Definition demo_migrations : list Migration := Eval vm_compute in
  match LoadMigrations demo_read_dir demo_read_file "db" with Ok l => l | Err _ => [] end.

Lemma demo_migrations_loaded : LoadMigrations demo_read_dir demo_read_file "db" = Ok demo_migrations.
Proof. vm_compute. reflexivity. Qed.

Lemma load_migrations_exact_witness :
  map mg_Version demo_migrations = ["0001"; "0002"] /\ Sorted name_le demo_migrations /\
  Forall (fun m => mg_Version m <> "") demo_migrations.
Proof.
  destruct (load_migrations_exact demo_read_dir demo_read_file "db" demo_dir demo_migrations
    eq_refl demo_migrations_loaded) as (Hs & _ & Hv).
  split; [reflexivity|]. split; [exact Hs|exact Hv].
Defined.

(** A schema is the list of the files run on it. *)
Definition demo_run_sql (sql : string) (schema : list string) : result (list string) :=
  Ok (schema ++ [sql]).
Definition demo_schema : @MigrationDB (list string) := mkMigrationDB ∅ [].

Definition demo_migrated := Eval vm_compute in
  ApplyMigrations demo_run_sql (fun _ => None) (fun t => t) (fun _ => spi_error) demo_migrations 0
    demo_schema.

Lemma demo_migrated_ok :
  ApplyMigrations demo_run_sql (fun _ => None) (fun t => t) (fun _ => spi_error) demo_migrations 0
    demo_schema = ((mkMigrationResult demo_migrations [], None), snd demo_migrated).
Proof. vm_compute. reflexivity. Qed.

Lemma migrations_once_witness :
  md_schema (snd demo_migrated) = ["-- 0001_core.sql"; "-- 0002_lease.sql"] /\
  ApplyMigrations demo_run_sql (fun _ => None) (fun t => t) (fun _ => spi_error) demo_migrations 1
    (snd demo_migrated) = ((mkMigrationResult [] demo_migrations, None), snd demo_migrated).
Proof.
  destruct (migrations_once _ _ _ _ _ _ _ _ _ _ demo_migrated_ok) as [_ H].
  split; [reflexivity|]. destruct (H eq_refl) as (_ & _ & Hskip). apply Hskip; reflexivity.
Defined.

(** A refused statement leaves the schema and its record as they were. *)
Example migration_rolled_back :
  ApplyMigrations demo_run_sql
    (fun st => match st with MCommit _ => Some spi_error | _ => None end)
    (fun t => t) (fun _ => spi_error) demo_migrations 0 demo_schema =
  ((mkMigrationResult [] [],
    Some (wrapf "commit migration 0001_core.sql" spi_error)), demo_schema).
Proof. vm_compute. reflexivity. Qed.

(** ** The program put together *)

Definition demo_open (url : string) (options : list PoolOptions) : result PoolOptions :=
  Ok (pool_config (mkPoolOptions 0 4 0) options).

Lemma build_store_total_witness :
  match Load id production_env with
  | Ok c => cf_StoreDriver c = "postgres" /\ cf_DatabaseURL c <> ""
  | Err _ => False
  end.
Proof.
  destruct (Load id production_env) as [c|e] eqn:E; [|vm_compute in E; discriminate E].
  destruct (build_store_total id production_env demo_open c E) as [Hd Hs].
  assert (Hdrv : cf_StoreDriver c = "postgres").
  { apply Hd. vm_compute in E. injection E as <-. reflexivity. }
  split; [exact Hdrv|]. rewrite Hdrv in Hs. exact (proj1 Hs).
Defined.

Definition dev_config : Config :=
  mkConfig ":8080" "development" ∅ "memory" "" 0 10 Minute 60 60 Second 25 Second "local" Minute ""
    Second false "none".

(** The worker over the tables with the transfer to submit. *)
Lemma worker_runs_on_witness :
  worker_post (LT := Limiter) (LD := Limiter) (cf_WorkerBatchSize dev_config) 3 pg_world1
    (fst (worker pg_env demo_sv dev_config 2 pg_world1))
    (snd (worker pg_env demo_sv dev_config 2 pg_world1)).
Proof.
  apply (worker_runs_on pg_env demo_sv dev_config 2 pg_world1).
  - intros k s Hs. by apply preserves_refl.
  - exact pg_tables_ok.
  - apply (bool_decide_unpack _). reflexivity.
  - destruct (worker pg_env demo_sv dev_config 2 pg_world1). reflexivity.
Defined.

Example worker_logs :
  fst (worker pg_env demo_sv dev_config 2 pg_world1) =
  Ok [BatchCompleted (mkSPIBatchResult 1 1 0 0); BatchSilent; BatchSilent].
Proof. vm_compute. reflexivity. Qed.

(** ** Production *)

Definition production_config : Config := Eval vm_compute in
  match Load id production_env with Ok c => c | Err _ => dev_config end.

Lemma production_loads : Load id production_env = Ok production_config.
Proof. vm_compute. reflexivity. Qed.

Definition production_requests : list (RuntimeStats * Request) :=
  [(demo_rt, post_transfer "s3cret" "key-1"); (demo_rt, post_transfer "guess" "key-2")].

Definition production_world := Eval vm_compute in
  api_run (fun s => s) pg_env production_config production_requests
    (api_world production_config demo_start empty_tables).

Lemma pg_alone s s' : untouched pg_env s s' -> s' = s.
Proof. induction 1 as [|s s1 s2 [k ->] _ IH]; [done|exact IH]. Qed.

Lemma production_system_safe_witness :
  preserves empty_tables (w_store production_world) /\ evidenced (w_store production_world) /\
  exists keys key route, parseAPIKeys id (production_env "PIXRAIL_API_KEYS") = Ok keys /\
    keys !! "s3cret" = Some key /\ mux_match (post_transfer "s3cret" "key-3") = inl route /\
    writer pg_env (env_security production_env production_config) key
      (post_transfer "s3cret" "key-3") route.
Proof.
  destruct (production_system_safe demo_db demo_json_error id (fun s => s) production_env pg_env
    production_config demo_start empty_tables production_requests production_loads) as (Hp & He & Hw).
  - reflexivity.
  - reflexivity.
  - intros k s Hs. by apply preserves_refl.
  - exact (empty_tables_ok demo_db).
  - match type of Hp with preserves _ (w_store ?h) =>
      assert (E : h = production_world) by (vm_compute; reflexivity); rewrite E in Hp, He, Hw
    end.
    split_and!; [exact Hp| |].
    { apply He; [split; [intros k s Hs; by apply preserves_refl|done]|].
      apply empty_tables_evidenced. }
    apply (Hw demo_rt (post_transfer "s3cret" "key-3")
      (fst (api_handler (fun s => s) pg_env production_config demo_rt
        (post_transfer "s3cret" "key-3") production_world))
      (snd (api_handler (fun s => s) pg_env production_config demo_rt
        (post_transfer "s3cret" "key-3") production_world))).
    + apply surjective_pairing.
    + intros Hu. apply pg_alone, (f_equal (fun s => length (pg_outbox s))) in Hu.
      by vm_compute in Hu.
Defined.

Example production_answers :
  map (fun t => t_TenantID (r_transfer (snd t))) (map_to_list (pg_transfers (w_store production_world)))
  = ["bank_a"].
Proof. vm_compute. reflexivity. Qed.

Example migrate_reports :
  fst (migrate_main production_env demo_read_dir demo_read_file (fun _ => None) demo_run_sql
    (fun _ => None) (fun t => t) (fun _ => spi_error) 0 demo_schema) = Ok (2%nat, 0%nat).
Proof. vm_compute. reflexivity. Qed.
