(* ===== verification/ProgressWitness.v ===== *)
(** * Undisturbed runs, evaluated

    The theorems of [Progress], [Payment] and [RelayProgress] applied to the system of
    [Witness]: a created transfer the worker submits, a whole payment, and the outbox it
    leaves, drained. [logs_tell_transfers] applied to a payment a relay runs beside,
    [relay_acknowledges_delivered] to two relays on one outbox. *)

From S2P Require Import Prelude GoStrings Sha256 Rail Events Fraud Dict Spi RateLimit StoreSpec.
From S2P Require Import MemStore MemStoreProps OutboxProps MemStoreLaws Effects Switcher SwitcherProps.
From S2P Require Import Relay RelayProps Config App Progress Payment RelayProgress Evidence EvidenceStores Delivery DeliveryStores Witness.

#[local] Existing Instance demo_Store.
#[local] Existing Instance demo_Laws.

(** ** The worker *)

Lemma demo_undisturbed : undisturbed demo_env.
Proof.
  split; [done|done|]. intros k. cbn -[Z.of_nat]. unfold spiClaimTTL, Second, Millisecond. lia.
Qed.

Definition progress_config (batch : Z) : Config :=
  mkConfig ":8080" "development" ∅ "memory" "" 0 10 Minute 60 60 Second batch Second "local" Minute ""
    Second false "none".

Lemma world1_transfers : ms_transfers (w_store world1) = {[id1 := r_Transfer result1]}.
Proof. vm_compute. reflexivity. Qed.

Lemma world1_workable : workable demo_env (w_store world1).
Proof.
  intros id t Ht _. rewrite world1_transfers in Ht. apply lookup_singleton_Some in Ht as [_ <-].
  split; [|by intros k]. vm_compute. repeat split; discriminate.
Qed.

Lemma worker_drains_queue_witness :
  queue_drained (LT := Limiter) (LD := Limiter) world1
    (fst (worker demo_env (app_Service id demo_env (progress_config 1)) (progress_config 1) 0 world1))
    (snd (worker demo_env (app_Service id demo_env (progress_config 1)) (progress_config 1) 0 world1)).
Proof.
  apply (worker_drains_queue demo_order demo_order_perm id demo_env (progress_config 1) 0 world1).
  - exact demo_undisturbed.
  - exact world1_ok.
  - exact world1_workable.
  - vm_compute. split; discriminate.
  - vm_compute. discriminate.
  - destruct (worker _ _ _ _ world1). reflexivity.
Defined.

Example worker_empties :
  fst (worker demo_env (app_Service id demo_env (progress_config 1)) (progress_config 1) 1 world1) =
  Ok [BatchCompleted (mkSPIBatchResult 1 1 0 0); BatchSilent].
Proof. vm_compute. reflexivity. Qed.

(** ** A payment *)

Definition demo_req : CreateTransferRequest := demo_request "key-1" 1500.

Lemma demo_resolves o : exists e,
  StaticResolver_Resolve (fun s => s) (mkStaticResolver 0 0) o "tenant_1" "bob@example.com" KeyEmail = Ok e /\
  (d_RiskSignal e <? 35) && negb ("acc_1" ==s d_AccountHash e) = true.
Proof. eexists. split; [vm_compute; reflexivity|]. vm_compute. reflexivity. Qed.

Lemma demo_scored at_ e : (d_RiskSignal e <? 35) && negb ("acc_1" ==s d_AccountHash e) = true ->
  exists d, RulesEngine_Score (normalize_request demo_req at_) e = Ok d /\ f_Status d = StatusAccepted.
Proof.
  intros [Hr%Z.ltb_lt Hh%negb_true_iff]%andb_true_iff. unfold RulesEngine_Score.
  change (cr_AmountCents (normalize_request demo_req at_)) with 1500.
  change (cr_AccountID (normalize_request demo_req at_)) with "acc_1".
  rewrite (proj2 (Z.leb_gt 80 _)) by lia.
  rewrite Hh.
  change (500000 <=? 1500) with false. change (1000000 <=? 1500) with false.
  cbn [fraud_rule].
  rewrite (proj2 (Z.leb_gt 90 _)), (proj2 (Z.leb_gt 65 _)) by lia. by eexists.
Qed.

Lemma demo_decidable : decidable_request demo_env demo_sv demo_req StatusAccepted demo_world.
Proof.
  split.
  - vm_compute. reflexivity.
  - vm_compute. reflexivity.
  - intros k. vm_compute. reflexivity.
  - intros k. exact I.
  - intros at_ k. destruct (demo_resolves (fun i => obs_at demo_env (k + i))) as (e & He & Hs).
    exists e. split; [exact He|]. intros k'. by apply demo_scored.
  - left. reflexivity.
  - intros w' i _. apply lookup_empty.
Qed.

Lemma demo_spi_answers : spi_answers demo_sv.
Proof. intros k t. eexists. split; [reflexivity|]. split; by apply TrimSpace_visible. Qed.

Lemma payment_completes_witness :
  exists t1 evs1 w1, Service_CreateTransfer demo_env demo_sv demo_req demo_world =
    (Ok (mkResult t1 false evs1), w1) /\ t_Status t1 = StatusAccepted /\
  exists t2 evs2 w2, Service_SubmitToSPI demo_env demo_sv (t_TenantID t1) (t_ID t1) "" w1 =
    (Ok (mkResult t2 false evs2), w2) /\ t_Status t2 = StatusApproved.
Proof.
  destruct (payment_completes demo_order demo_order_perm demo_env demo_sv demo_undisturbed
    demo_spi_answers demo_req "" demo_world) as (t1 & e1 & w1 & H1 & H2 & _ & t2 & e2 & w2 & H3 & H4 & _).
  - exact new_store_ok.
  - exact demo_decidable.
  - exists t1, e1, w1. split; [exact H1|]. split; [exact H2|]. exists t2, e2, w2. split; assumption.
Defined.

(** ** The relay *)

(** An hour later. *)
Definition relay_env : Env MemoryStore :=
  mkEnv (fun _ => None) (fun k => demo_start + 60 * Minute + Z.of_nat k * Millisecond)
    (fun k => Some (be_digits 16 (Z.of_nat k))) (fun _ s => s).

Lemma demo_ready : relay_ready relay_env demo_store.
Proof.
  assert (Hf : forallb (fun r => (o_AvailableAt r <=? demo_start + 60 * Minute) &&
    negb (o_Published r) && bool_decide (o_ClaimedUntil r = None)) (unpublished demo_store) = true)
    by (vm_compute; reflexivity).
  rewrite forallb_forall in Hf. intros r Hr%list_elem_of_In k. specialize (Hf r Hr). b2p.
  unfold outbox_pending. rewrite H1, H0. cbn [ptr_After orb negb]. unfold time_After.
  apply andb_true_intro. split; [|reflexivity]. apply negb_true_iff, Z.ltb_ge.
  cbn [env_now relay_env]. unfold Millisecond. lia.
Qed.

Lemma relay_quiet : quiet relay_env demo_policy.
Proof.
  split; [reflexivity|reflexivity|]. intros k. cbn -[Z.of_nat].
  change (rp_ClaimTTL demo_policy) with 30000000000. unfold Second, Millisecond. lia.
Qed.

Definition relay_world : World MemoryStore (list Event) := mkWorld demo_store [] 0.

Lemma relay_fits :
  Z.of_nat (length (unpublished (w_store relay_world))) <= Z.of_nat 3 * default_limit 2.
Proof. vm_compute. discriminate. Qed.

Lemma relay_drains_outbox_witness :
  w_rest (snd (drain_rounds relay_env demo_policy 2 3 relay_world)) = map o_Event (unpublished demo_store).
Proof.
  pose proof (relay_drains_outbox relay_env demo_policy 2 3 relay_world relay_quiet demo_store_ok
    demo_small demo_ready relay_fits) as [_ [H _]].
  exact H.
Defined.

(** ** Logs *)

(** A relay claims the outbox between the accesses of a call. *)
Definition relay_ops (k : nat) : RelayOp :=
  RelayClaim (obs_at demo_env k) (env_now demo_env k) 2 "relay" (env_now demo_env k + Second).

Definition relayed_env : Env MemoryStore :=
  mkEnv (env_ctx demo_env) (env_now demo_env) (env_rand demo_env)
    (fun k => memory_relay (relay_ops k)).

Definition payment_calls : list Call :=
  [CallCreate (demo_request "key-1" 1500); CallSubmit "tenant_1" id1 ""; CallSettle demo_callback].

Definition payment_store : MemoryStore := Eval vm_compute in
  w_store (fold_left (fun w c => run_call relayed_env demo_sv c w) payment_calls demo_world).

Lemma logs_tell_transfers_witness :
  evidenced payment_store /\
  exists t, lookup_tenant "tenant_1" id1 payment_store = Some t /\ t_Status t = StatusSettled /\
    projected (event_log "tenant_1" id1 (st_outbox payment_store)) = Some StatusSettled.
Proof.
  destruct (logs_tell_transfers relayed_env demo_sv
    (memory_relay_rely relayed_env relay_ops (fun _ _ => eq_refl))
    payment_calls demo_world) as [He Hp].
  - exact new_store_ok.
  - exact new_memory_evidenced.
  - do 3 (apply Forall_cons; split; [intros l El; discriminate|]). done.
  - match type of He with evidenced ?s =>
      assert (E : s = payment_store) by (vm_compute; reflexivity); rewrite E in He, Hp
    end.
    split; [exact He|]. destruct (lookup_tenant "tenant_1" id1 payment_store) as [t|] eqn:Et;
      [|by vm_compute in Et].
    assert (Es : t_Status t = StatusSettled) by (vm_compute in Et; by injection Et as <-).
    exists t. split; [done|]. split; [exact Es|]. rewrite <- Es. by apply Hp.
Defined.

Example payment_claimed :
  existsb (fun r => o_ClaimToken r ==s "relay") (ms_events payment_store) = true /\
  audit_log "tenant_1" id1 (ms_audit payment_store) =
    ["pix_transfer_decided"; "spi_submission_recorded"; "spi_settlement_callback_recorded"].
Proof. vm_compute. split; reflexivity. Qed.

(** ** Two relays *)

Definition refusing (k : nat) (e : Event) : option error :=
  if e_EventType e ==s "fraud_score_calculated" then Some spi_error else None.

Definition delivery_world : World MemoryStore (list Event) := Eval vm_compute in
  mkWorld (w_store world5) [] (w_tick world5).

Lemma relayed_rely others : outbox_rely relayed_env others.
Proof.
  intros k s Hn. apply kept_evolves; [|done]. unfold relayed_env, relay_ops. cbn [env_others memory_relay].
  pose proof (mem_claim_outbox_law (env_now demo_env k) (obs_at demo_env k) 2 "relay"
    (env_now demo_env k + Second) s Hn) as L.
  destruct (MemoryStore_ClaimPendingOutbox _ _ _ _ _ s) as [[recs|e] s']; cbn [snd].
  - apply L.
  - subst s'. unfold rows_kept. induction (ob_records s); constructor; [by repeat split|done].
Qed.

Lemma relay_acknowledges_delivered_witness :
  wp (Relay_Drain relayed_env (NewRelay (mkRetryPolicy 0 0 0)) refusing 10) delivery_world
    (drain_delivers (fun _ => False) 10 []).
Proof.
  apply (relay_acknowledges_delivered relayed_env (NewRelay (mkRetryPolicy 0 0 0)) refusing
    (fun _ => False) (relayed_rely _) 10 delivery_world).
  - unfold numbered. apply (bool_decide_unpack _). vm_compute. exact I.
  - intros r Hr Hp. exfalso. revert r Hr Hp.
    apply (proj1 (Forall_forall (fun r => o_Published r = true -> False) _)).
    vm_compute. repeat constructor; discriminate.
  - vm_compute. split; discriminate.
Defined.

(** The other relay holds two records; one event is refused. *)
Example delivery_stats :
  fst (Relay_Drain relayed_env (NewRelay (mkRetryPolicy 0 0 0)) refusing 10 delivery_world) =
  Ok (mkRelayStats 6 5 1, None).
Proof. vm_compute. reflexivity. Qed.
