(* ===== verification/ProcessWitness.v ===== *)
(** * Runs of the processes

    An API process that answers one creation of a transfer and stops at the signal, a
    worker that runs two batches and stops, and the theorems of [ProcessProps] applied
    to them. *)

From S2P Require Import Prelude GoStrings Rail Events RateLimit StoreSpec MemStore MemStoreProps MemStoreLaws.
From S2P Require Import Effects Switcher SwitcherProps Postgres Config Metrics Api ApiProps App System.
From S2P Require Import Process ProcessProps Witness ApiWitness.

#[local] Existing Instances demo_Store demo_Laws.

(** The development settings, with profiling. *)
Definition proc_getenv (key : string) : string :=
  if key ==s "PIXRAIL_PPROF_ADDR" then "127.0.0.1:6060" else "".

Definition no_postgres (url : string) (options : list PoolOptions) : result PoolOptions :=
  Err (mkError None "no server").

Definition memory_of (o : OpenedStore) : MemoryStore :=
  match o with OpenedMemory s => s | _ => NewMemoryStore end.

Lemma memory_of_ok cfg o : BuildStore no_postgres cfg = Ok o -> st_inv (memory_of o).
Proof.
  unfold BuildStore. intros E. destruct (_ ==s "memory"); [|destruct (_ ==s "postgres")]; cbn in E;
    simplify_eq; exact new_store_ok.
Qed.

Notation start_api := (ApiStarting (St := MemoryStore) new_frame).
Notation demo_api_step :=
  (api_step None id id proc_getenv no_postgres memory_of demo_env).

(** A creation under one of the development keys. *)
Definition dev_creation : Request := post_transfer "dev-secret" "key-1".

(** The settings as they load, and the processes with them. *)
Definition proc_config : Config := Eval vm_compute in match Load id proc_getenv with Ok c => c | Err _ => mkConfig "" "" ∅ "" "" 0 0 0 0 0 0 0 0 "" 0 "" 0 false "" end.

Definition api_configured_frame : Frame := Eval vm_compute in
  snd (configure None id proc_getenv "api" new_frame).
Definition worker_configured_frame : Frame := Eval vm_compute in
  snd (configure None id proc_getenv "worker" new_frame).

Lemma api_configured :
  configure None id proc_getenv "api" new_frame = (Some proc_config, api_configured_frame).
Proof. vm_compute. reflexivity. Qed.
Lemma worker_configured :
  configure None id proc_getenv "worker" new_frame = (Some proc_config, worker_configured_frame).
Proof. vm_compute. reflexivity. Qed.

(** One step: the process has not ended, and the rule [r] applies. *)
Tactic Notation "step" uconstr(r) := eapply rtc_l; [split; [reflexivity|eapply r]|].

(** The process starts, serves, answers the creation, and gets the signal. *)
Ltac api_accepted :=
  step api_configures; [exact api_configured|];
  step (api_opens _ _ _ _ _ _ _ _ _ _ _ demo_start); [reflexivity|];
  step api_starts; [reflexivity|];
  step api_listens; [by apply listen_succeeds|];
  step api_accepts; [reflexivity|reflexivity|].
Ltac api_served :=
  api_accepted;
  step (api_answers _ _ _ _ _ _ _ _ _ _ _ _ _ []); [reflexivity|apply surjective_pairing|];
  step api_signal.

Lemma api_signalled : exists f cfg o hs h,
  rtc demo_api_step start_api (ApiRunning f cfg o ApiShutting hs h) /\
  f_exit f = None /\ hs_active hs = [] /\ answered (f_calls f) = [(demo_rt, dev_creation)].
Proof. do 5 eexists. split; [api_served; apply rtc_refl|]. split_and!; reflexivity. Qed.

(** From there it waits for nothing, and its deferred calls run. *)
Lemma api_exits : exists f cfg o hs h,
  rtc demo_api_step start_api (ApiRunning f cfg o ApiReturning hs h) /\
  f_exit f = Some 0 /\ answered (f_calls f) = [(demo_rt, dev_creation)].
Proof.
  do 5 eexists. split.
  { api_served. step api_shut_down; [reflexivity|]. do 4 step api_returns. apply rtc_refl. }
  split; reflexivity.
Qed.

(** When the requests in flight outlast the shutdown timeout, [os.Exit] skips the deferred
    calls: the store, tracing and profiling are left as they are. *)
Example api_timeout_closes_nothing : exists f cfg o hs h,
  rtc demo_api_step start_api (ApiRunning f cfg o ApiShutting hs h) /\
  f_exit f = Some 1 /\ hs_active hs = [(demo_rt, dev_creation)] /\
  releases (f_calls f) = [] /\ store_open false (f_calls f) = true.
Proof.
  do 5 eexists. split.
  { api_accepted. step api_signal.
    step (api_shutdown_fails _ _ _ _ _ _ _ _ _ _ _ _ (mkError None "deadline exceeded")).
    apply rtc_refl. }
  split_and!; reflexivity.
Qed.

Lemma api_process_safe_witness : exists f cfg o hs h,
  rtc demo_api_step start_api (ApiRunning f cfg o ApiReturning hs h) /\ f_exit f = Some 0 /\
  answered (f_calls f) = [(demo_rt, dev_creation)] /\
  used_while_open false (f_calls f) = true /\ o <> OpenedNil /\
  preserves (memory_of o) (w_store h) /\ hs_active hs = [] /\
  releases (f_calls f) = all_releases None "api" cfg o.
Proof.
  destruct api_exits as (f & cfg & o & hs & h & Hs & Hex & Hans).
  destruct (api_process_safe None id id proc_getenv no_postgres memory_of demo_env _ demo_rely
    memory_of_ok Hs) as (Hu & _ & _ & _ & Ho & _ & Hp & _ & Hend).
  destruct (Hend Hex) as (_ & Ha & Hr). exists f, cfg, o, hs, h. by split_and!.
Defined.

Lemma api_process_stops_witness : exists p,
  rtc demo_api_step start_api p /\
  (forall n p', nsteps demo_api_step n p p' -> (n <= 11)%nat) /\
  exists p', rtc demo_api_step p p' /\ f_exit (api_frame p') = Some 0.
Proof.
  destruct api_signalled as (f & cfg & o & hs & h & Hs & Hex & Ha & _).
  destruct (api_process_stops None id id proc_getenv no_postgres memory_of demo_env f cfg o
    ApiShutting hs h Hs) as (Hn & _ & He); [discriminate|exact Hex|].
  exists (ApiRunning f cfg o ApiShutting hs h). split; [exact Hs|]. split; [|exact He].
  intros n p' Hp. specialize (Hn n p' Hp). by rewrite Ha in Hn.
Defined.

(** ** The worker *)

Notation start_worker := (WorkerStarting (St := MemoryStore) new_frame).
Notation demo_worker_step :=
  (worker_step None id id proc_getenv no_postgres memory_of demo_env).

(** The worker runs its first batch and one at a tick, and stops at the signal. *)
Lemma worker_exits : exists f cfg o sg tk w,
  rtc demo_worker_step start_worker (WorkerRunning f cfg o (WorkerReturning 0) sg tk w) /\
  f_exit f = Some 0 /\ length (batches (f_calls f)) = 2%nat.
Proof.
  do 6 eexists. split.
  { step worker_configures; [exact worker_configured|].
    step worker_opens; [reflexivity|reflexivity|].
    step worker_first; [vm_compute; reflexivity|].
    step worker_tick.
    step worker_next; [vm_compute; reflexivity|].
    step worker_signal. step worker_done. do 5 step worker_returns. apply rtc_refl. }
  split; reflexivity.
Qed.

Lemma worker_process_refines_witness : exists f cfg o sg tk w,
  rtc demo_worker_step start_worker (WorkerRunning f cfg o (WorkerReturning 0) sg tk w) /\
  f_exit f = Some 0 /\ used_while_open false (f_calls f) = true /\
  worker_loop demo_env (app_Service id demo_env cfg) (cf_WorkerBatchSize cfg) 2
    (worker_world memory_of cfg o) = (Ok (batches (f_calls f)), w) /\
  preserves (memory_of o) (w_store w) /\
  releases (f_calls f) = all_releases None "worker" cfg o.
Proof.
  destruct worker_exits as (f & cfg & o & sg & tk & w & Hs & Hex & Hn).
  destruct (worker_process_refines None id id proc_getenv no_postgres memory_of demo_env _ demo_rely
    memory_of_ok Hs) as (Hu & _ & _ & _ & _ & Hl & Hp & _ & Hend).
  exists f, cfg, o, sg, tk, w. rewrite Hn in Hl. rewrite Hex in Hend.
  destruct Hend as (_ & _ & _ & Hr); [discriminate|]. by split_and!.
Defined.
